(** * BioDiscovery AI: the retrieval pipeline, its cache, MMR and graph

  A shallow embedding of [app/core/cache.py], [app/core/qdrant_client.py],
  [app/graph/state.py], [app/graph/nodes.py] and [app/graph/workflow.py].

  Conventions of the embedding:
  - a Python [float] is the rational it denotes ([Q]); the arithmetic of
    Stage 3 on scores and weights (the MMR value of a candidate, the
    confidence of an evidence record, the size of a node and the strength of
    an edge of the graph) is rounded to binary64; the difference of two clock
    readings (the age of a cache entry, the elapsed time) and the mean of two
    scores in [merge_results] are exact;
    [int] is [Z]; [str] is [string], a character being a code point below 256;
  - a Python [dict] whose iteration order is observed is an association list in
    insertion order; a dict used only through lookups is a [gmap];
  - code that can raise returns [Res]; the [try]/[except] blocks of the source
    are explicit matches on [Raise];
  - the external collaborators (encoder models, the Qdrant client, the LLM,
    SHA-256) are fields of one record of services, over which the pipeline is
    parametrised; every call to one of them is recorded in a trace. *)

From Stdlib Require Import ZArith QArith Qround Qabs Ascii String List Lia Permutation.
From Stdlib Require PrimFloat FloatOps SpecFloat Uint63.
From stdpp Require Import base option list sorting gmap strings pretty.

Open Scope string_scope.
Open Scope list_scope.
Open Scope Z_scope.

(** ** Exceptions *)

Inductive Res (A : Type) : Type :=
| Ok (a : A)
| Raise (e : string).
Arguments Ok {A} a.
Arguments Raise {A} e.

(** ** Floats as rationals *)

(** [x > y] and [x < y] on floats. *)
Definition Qgtb (x y : Q) : bool :=
match (x ?= y)%Q with Gt => true | _ => false end.
Definition Qltb (x y : Q) : bool := Qgtb y x.

(** [min(x, y)] and [max(x, y)]: Python returns the first argument on ties. *)
Definition Qmin2 (x y : Q) : Q := if Qltb y x then y else x.
Definition Qmax2 (x y : Q) : Q := if Qgtb y x then y else x.

(** [round(x, n)]: to the nearest multiple of [10^-n], ties to even. *)
Definition round_half_even (x : Q) : Z :=
let f := Qfloor x in
match ((x - inject_Z f) ?= (1 # 2))%Q with
| Lt => f
| Gt => f + 1
| Eq => if Z.even f then f else f + 1
end.
Definition round_nd (n : nat) (x : Q) : Q :=
let p := Z.pow 10 (Z.of_nat n) in
Qred (inject_Z (round_half_even (x * inject_Z p)) / inject_Z p).

(** ** Binary64 arithmetic *)

(** [2^z] *)
Definition pow2 (z : Z) : Q :=
if 0 <=? z then inject_Z (2 ^ z) else (1 # Z.to_pos (2 ^ (- z)))%Q.

(** The double nearest to [x], ties to even: with [2^e <= |x| < 2^(e+1)], the
    multiple of [2^(e-52)] nearest to [x]. This is the value IEEE 754 gives to
    an operation whose exact result is [x], in the range of the normal
    numbers (no overflow, no subnormal), which is where the pipeline works. *)
Definition binary64 (x : Q) : Q :=
match Qnum x with
| 0 => 0%Q
| _ =>
  let a := Qabs x in
  let k := Z.log2 (Qnum a) - Z.log2 (Z.pos (Qden a)) in
  let e := if Qltb a (pow2 k) then k - 1 else k in
  let ulp := pow2 (e - 52) in
  let m := round_half_even (a / ulp) in
  Qred ((if Qltb x 0 then -1 else 1) * inject_Z m * ulp)
end.

(** [x * y], [x + y] and [x - y] on floats. *)
Definition fmul (x y : Q) : Q := binary64 (x * y).
Definition fadd (x y : Q) : Q := binary64 (x + y).
Definition fsub (x y : Q) : Q := binary64 (x - y).

(** The rational that a float of the kernel denotes, and the float of a
    decimal [n / d], the correctly rounded quotient: [binary64] is compared
    with the kernel's floats below. *)
Definition Q_of_float (f : PrimFloat.float) : Q :=
match FloatOps.Prim2SF f with
| SpecFloat.S754_finite sign m e =>
  Qred ((if sign then -1 else 1) * inject_Z (Z.pos m) * pow2 e)
| _ => 0%Q
end.

Definition float_of (n d : Z) : PrimFloat.float :=
PrimFloat.div (PrimFloat.of_uint63 (Uint63.of_Z n)) (PrimFloat.of_uint63 (Uint63.of_Z d)).

(** ** Ordered dictionaries ([collections.OrderedDict], and plain [dict]
  where the iteration order is observed) *)

Section OrderedDict.
Context {V : Type}.

Definition odict := list (string * V).

Fixpoint od_get (k : string) (d : odict) : option V :=
  match d with
  | [] => None
  | (k', v) :: d' => if decide (k = k') then Some v else od_get k d'
  end.

(** [d.pop(k, None)] *)
Fixpoint od_pop (k : string) (d : odict) : odict :=
  match d with
  | [] => []
  | (k', v) :: d' => if decide (k = k') then od_pop k d' else (k', v) :: od_pop k d'
  end.

(** [d[k] = v]: in place when the key exists, at the end otherwise. *)
Fixpoint od_set (k : string) (v : V) (d : odict) : odict :=
  match d with
  | [] => [(k, v)]
  | (k', v') :: d' => if decide (k = k') then (k, v) :: d' else (k', v') :: od_set k v d'
  end.

(** [d.move_to_end(k)] for a key that is present. *)
Definition od_move_to_end (k : string) (d : odict) : odict :=
  match od_get k d with
  | Some v => od_pop k d ++ [(k, v)]
  | None => d
  end.

Definition od_keys (d : odict) : list string := d.*1.

End OrderedDict.
Arguments odict V : clear implicits.

(** ** [app/core/cache.py] *)

Module Cache.

Section LRUCache.
Context {V : Type}.

(** [class LRUCache]: the ordered dictionary of values (oldest first), and
    the two side dictionaries of insertion times and time-to-live. *)
Record LRUCache := mkLRUCache {
  max_size : Z;
  default_ttl : option Z;
  _cache : odict V;
  _timestamps : gmap string Q;
  _ttls : gmap string (option Z);
}.

(** [LRUCache.__init__] *)
Definition init (max_size : Z) (default_ttl : option Z) : LRUCache :=
  mkLRUCache max_size default_ttl [] ∅ ∅.

(** [LRUCache._remove] *)
Definition _remove (c : LRUCache) (key : string) : LRUCache :=
  mkLRUCache (max_size c) (default_ttl c)
    (od_pop key (_cache c)) (delete key (_timestamps c)) (delete key (_ttls c)).

(** [LRUCache.get]; [now] is the reading of [time.time()]. *)
Definition get (c : LRUCache) (key : string) (now : Q) : option V * LRUCache :=
  match od_get key (_cache c) with
  | None => (None, c)
  | Some v =>
    let hit :=
      (Some v, mkLRUCache (max_size c) (default_ttl c)
                 (od_move_to_end key (_cache c)) (_timestamps c) (_ttls c)) in
    match mjoin (_ttls c !! key) with
    | Some ttl =>
      let age := (now - default 0%Q (_timestamps c !! key))%Q in
      if Qgtb age (inject_Z ttl) then (None, _remove c key) else hit
    | None => hit
    end
  end.

(** The eviction loop of [LRUCache.set]:
    [while len(self._cache) >= self.max_size: self._remove(next(iter(self._cache)))].
    Every turn removes an entry, so [S (length _cache)] turns are enough;
    [next] on an empty dictionary raises [StopIteration], and the entries
    removed until then stay removed. *)
Fixpoint evict (fuel : nat) (c : LRUCache) : Res unit * LRUCache :=
  match fuel with
  | O => (Raise "out of fuel", c)
  | S fuel' =>
    if max_size c <=? Z.of_nat (length (_cache c)) then
      match _cache c with
      | [] => (Raise "StopIteration", c)
      | (oldest_key, _) :: _ => evict fuel' (_remove c oldest_key)
      end
    else (Ok tt, c)
  end.

(** [LRUCache.set] *)
Definition set (c : LRUCache) (key : string) (value : V) (ttl : option Z) (now : Q)
  : Res unit * LRUCache :=
  let c1 := if od_get key (_cache c) is Some _ then _remove c key else c in
  match evict (S (length (_cache c1))) c1 with
  | (Raise e, c2) => (Raise e, c2)
  | (Ok _, c2) =>
    (Ok tt,
     mkLRUCache (max_size c2) (default_ttl c2)
       (od_set key value (_cache c2))
       (<[key := now]> (_timestamps c2))
       (<[key := if ttl is Some t then Some t else default_ttl c2]> (_ttls c2)))
  end.

(** [LRUCache.clear] *)
Definition clear (c : LRUCache) : LRUCache :=
  mkLRUCache (max_size c) (default_ttl c) [] ∅ ∅.

(** [class MultiLevelCache] *)
Record MultiLevelCache := mkMultiLevelCache {
  embeddings : LRUCache;
  results : LRUCache;
  llm : LRUCache;
  _hits : gmap string Z;
  _misses : gmap string Z;
}.

(** [MultiLevelCache.__init__] *)
Definition mlc_init : MultiLevelCache :=
  mkMultiLevelCache (init 10000 None) (init 1000 (Some 3600)) (init 500 None)
    (<["embeddings" := 0]> (<["results" := 0]> (<["llm" := 0]> ∅)))
    (<["embeddings" := 0]> (<["results" := 0]> (<["llm" := 0]> ∅))).

(** [MultiLevelCache._get_cache] *)
Definition _get_cache (m : MultiLevelCache) (level : string) : LRUCache :=
  if decide (level = "embeddings") then embeddings m
  else if decide (level = "results") then results m
  else if decide (level = "llm") then llm m
  else results m.

(** The level object returned by [_get_cache] is mutated in place. *)
Definition _put_cache (m : MultiLevelCache) (level : string) (c : LRUCache)
  : MultiLevelCache :=
  if decide (level = "embeddings")
  then mkMultiLevelCache c (results m) (llm m) (_hits m) (_misses m)
  else if decide (level = "llm")
  then mkMultiLevelCache (embeddings m) (results m) c (_hits m) (_misses m)
  else mkMultiLevelCache (embeddings m) c (llm m) (_hits m) (_misses m).

Definition bump (level : string) (d : gmap string Z) : gmap string Z :=
  <[level := default 0 (d !! level) + 1]> d.

(** [MultiLevelCache.get] *)
Definition mlc_get (m : MultiLevelCache) (key level : string) (now : Q)
  : option V * MultiLevelCache :=
  let '(value, c) := get (_get_cache m level) key now in
  let m1 := _put_cache m level c in
  match value with
  | Some _ =>
    (value, mkMultiLevelCache (embeddings m1) (results m1) (llm m1)
              (bump level (_hits m1)) (_misses m1))
  | None =>
    (value, mkMultiLevelCache (embeddings m1) (results m1) (llm m1)
              (_hits m1) (bump level (_misses m1)))
  end.

(** [MultiLevelCache.set] *)
Definition mlc_set (m : MultiLevelCache) (key : string) (value : V) (level : string)
    (ttl : option Z) (now : Q) : Res unit * MultiLevelCache :=
  let '(r, c) := set (_get_cache m level) key value ttl now in
  (r, _put_cache m level c).

(** [get_embedding] and [set_embedding] *)
Definition get_embedding (m : MultiLevelCache) (content_hash : string) (now : Q) :=
  mlc_get m (String.append "emb:" content_hash) "embeddings" now.

Definition set_embedding (m : MultiLevelCache) (content_hash : string) (value : V)
    (now : Q) :=
  mlc_set m (String.append "emb:" content_hash) value "embeddings" None now.

(** [get_results] and [set_results] *)
Definition get_results (m : MultiLevelCache) (query_hash : string) (now : Q) :=
  mlc_get m (String.append "res:" query_hash) "results" now.

Definition set_results (m : MultiLevelCache) (query_hash : string) (value : V)
    (now : Q) :=
  mlc_set m (String.append "res:" query_hash) value "results" (Some 3600) now.

(** [get_llm] and [set_llm] *)
Definition get_llm (m : MultiLevelCache) (prompt_hash : string) (now : Q) :=
  mlc_get m (String.append "llm:" prompt_hash) "llm" now.

Definition set_llm (m : MultiLevelCache) (prompt_hash : string) (value : V) (now : Q) :=
  mlc_set m (String.append "llm:" prompt_hash) value "llm" None now.

(** [LRUCache.stats]: size, max_size, default_ttl. *)
Definition stats (c : LRUCache) : Z * Z * option Z :=
  (Z.of_nat (length (_cache c)), max_size c, default_ttl c).

(** One entry of [MultiLevelCache.stats]: the statistics of the level, with
    [self._hits.get(level, 0)] and [self._misses.get(level, 0)]. *)
Record LevelStats := mkLevelStats {
  ls_size : Z;
  ls_max_size : Z;
  ls_default_ttl : option Z;
  ls_hits : Z;
  ls_misses : Z;
}.

Definition level_stats (m : MultiLevelCache) (level : string) (c : LRUCache)
  : LevelStats :=
  mkLevelStats (stats c).1.1 (stats c).1.2 (stats c).2
    (default 0 (_hits m !! level)) (default 0 (_misses m !! level)).

(** [MultiLevelCache.stats] *)
Definition mlc_stats (m : MultiLevelCache) : odict LevelStats :=
  [("embeddings", level_stats m "embeddings" (embeddings m));
   ("results", level_stats m "results" (results m));
   ("llm", level_stats m "llm" (llm m))].

(** [MultiLevelCache.clear_all]: the three levels are cleared, the counters
    are left as they are. *)
Definition clear_all (m : MultiLevelCache) : MultiLevelCache :=
  mkMultiLevelCache (clear (embeddings m)) (clear (results m)) (clear (llm m))
    (_hits m) (_misses m).

(** *** Uses of a cache

    The public methods of [LRUCache], as calls in a history; [run] performs
    them in order on the one mutable object. *)
Inductive Call :=
| CallGet (key : string) (now : Q)
| CallSet (key : string) (value : V) (ttl : option Z) (now : Q)
| CallClear.

Definition call_step (c : LRUCache) (x : Call) : LRUCache :=
  match x with
  | CallGet key now => (get c key now).2
  | CallSet key value ttl now => (set c key value ttl now).2
  | CallClear => clear c
  end.

Definition run (calls : list Call) (c : LRUCache) : LRUCache :=
  fold_left call_step calls c.

(** The same for [MultiLevelCache]. *)
Inductive MCall :=
| MGet (key level : string) (now : Q)
| MSet (key : string) (value : V) (level : string) (ttl : option Z) (now : Q)
| MClearAll.

Definition mcall_step (m : MultiLevelCache) (x : MCall) : MultiLevelCache :=
  match x with
  | MGet key level now => (mlc_get m key level now).2
  | MSet key value level ttl now => (mlc_set m key value level ttl now).2
  | MClearAll => clear_all m
  end.

Definition mlc_run (calls : list MCall) (m : MultiLevelCache) : MultiLevelCache :=
  fold_left mcall_step calls m.

(** The number of lookups a history makes at [level]. *)
Definition gets_at (level : string) (calls : list MCall) : Z :=
  Z.of_nat (length (omap (fun x => match x with
                                   | MGet _ l _ => if decide (l = level) then Some tt else None
                                   | _ => None
                                   end) calls)).

(** The side dictionaries hold the keys of the ordered dictionary, and no
    other. *)
Definition synced (c : LRUCache) : Prop :=
  ∀ k, (k ∈ od_keys (_cache c) <-> is_Some (_timestamps c !! k)) ∧
       (k ∈ od_keys (_cache c) <-> is_Some (_ttls c !! k)).

(** *** Well-formed caches

    The keys of a dictionary are distinct, and [set] never lets the size
    exceed [max_size]. *)
Definition wf (c : LRUCache) : Prop :=
  NoDup (od_keys (_cache c)) ∧ Z.of_nat (length (_cache c)) <= max_size c.

(** The least-recently-used key is the one at the head of the dictionary. *)
Definition lru_key (c : LRUCache) : option string := head (od_keys (_cache c)).

(** [key] is a hit at time [now]: present and not expired. *)
Definition live (c : LRUCache) (key : string) (now : Q) : Prop :=
  is_Some (od_get key (_cache c)) ∧
  ∀ ttl, mjoin (_ttls c !! key) = Some ttl ->
         (now - default 0%Q (_timestamps c !! key) <= inject_Z ttl)%Q.

(** The number of entries the eviction loop of [set] removes. *)
Definition overflow (c : LRUCache) : nat :=
  Z.to_nat (Z.of_nat (length (_cache c)) - max_size c + 1).

(** *** Histories

    A cache is used through [get] and [set] only.  [replay] runs a history
    of such operations and records, for every key, the index of the last
    operation that used it: a [set] of the key, or a [get] that hit. *)
Inductive Op :=
| OpGet (key : string) (now : Q)
| OpSet (key : string) (value : V) (ttl : option Z) (now : Q).

Definition step (c : LRUCache) (op : Op) : LRUCache :=
  match op with
  | OpGet key now => (get c key now).2
  | OpSet key value ttl now => (set c key value ttl now).2
  end.

Definition used_key (c : LRUCache) (op : Op) : option string :=
  match op with
  | OpGet key now => if (get c key now).1 is Some _ then Some key else None
  | OpSet key _ _ _ => Some key
  end.

Fixpoint replay (ops : list Op) (tick : nat) (c : LRUCache) (last_use : gmap string nat)
  : LRUCache * gmap string nat :=
  match ops with
  | [] => (c, last_use)
  | op :: ops' =>
    replay ops' (S tick) (step c op)
      (if used_key c op is Some k then <[k := tick]> last_use else last_use)
  end.

(** [a] was last used before [b]. *)
Definition older (last_use : gmap string nat) (a b : string) : Prop :=
  ∃ n m, last_use !! a = Some n ∧ last_use !! b = Some m ∧ (n < m)%nat.

(** What [replay] maintains: the dictionary is well formed, its keys stand
    in the order of their last use, and each was used before [tick]. *)
Definition replay_inv (tick : nat) (c : LRUCache) (last_use : gmap string nat) : Prop :=
  wf c ∧
  StronglySorted (older last_use) (od_keys (_cache c)) ∧
  ∀ k, k ∈ od_keys (_cache c) -> ∃ n, last_use !! k = Some n ∧ (n < tick)%nat.

(** The time-to-live that [set] stores. *)
Definition effective_ttl (c : LRUCache) (ttl : option Z) : option Z :=
  if ttl is Some t then Some t else default_ttl c.
End LRUCache.
Arguments LRUCache V : clear implicits.
Arguments Op V : clear implicits.
Arguments Call V : clear implicits.
Arguments MCall V : clear implicits.
Arguments MultiLevelCache V : clear implicits.

End Cache.

(** ** Strings *)

(** [len(s)] *)
Definition str_len (s : string) : Z := Z.of_nat (String.length s).

(** [s[:n]] *)
Definition str_take (n : nat) (s : string) : string := String.substring 0 n s.

(** A character of a string is a code point below 256. *)

(** [str.isspace], which is also what [str.strip] removes: the ASCII white
    space, the separators 28 to 31, NEL (133) and the no-break space (160). *)
Definition is_space (c : Ascii.ascii) : bool :=
  let n := Ascii.nat_of_ascii c in
  ((9 <=? n)%nat && (n <=? 13)%nat) || ((28 <=? n)%nat && (n <=? 32)%nat) ||
  (n =? 133)%nat || (n =? 160)%nat.

Fixpoint lstrip (s : string) : string :=
  match s with
  | EmptyString => EmptyString
  | String c s' => if is_space c then lstrip s' else s
  end.

Fixpoint rstrip (s : string) : string :=
  match s with
  | EmptyString => EmptyString
  | String c s' =>
    match rstrip s' with
    | EmptyString => if is_space c then EmptyString else String c EmptyString
    | t => String c t
    end
  end.

(** [s.strip()] *)
Definition strip (s : string) : string := rstrip (lstrip s).

(** [s.lower()]: the letters A to Z and the capital letters 192 to 222 of
    Latin-1 (215, the multiplication sign, is not a letter) move up by 32. *)
Definition lower_ascii (c : Ascii.ascii) : Ascii.ascii :=
  let n := Ascii.nat_of_ascii c in
  if ((65 <=? n)%nat && (n <=? 90)%nat) ||
     ((192 <=? n)%nat && (n <=? 222)%nat && negb (n =? 215)%nat)
  then Ascii.ascii_of_nat (n + 32) else c.

Fixpoint lower (s : string) : string :=
  match s with
  | EmptyString => EmptyString
  | String c s' => String (lower_ascii c) (lower s')
  end.

(** [needle in hay] *)
Fixpoint str_contains (needle hay : string) : bool :=
  String.prefix needle hay ||
  match hay with
  | EmptyString => false
  | String _ hay' => str_contains needle hay'
  end.

(** [sep.join(l)] *)
Fixpoint join (sep : string) (l : list string) : string :=
  match l with
  | [] => ""
  | [x] => x
  | x :: l' => String.append x (String.append sep (join sep l'))
  end.

(** Truthiness of an optional string: [None] and [""] are falsy. *)
Definition truthy (o : option string) : bool :=
  match o with
  | Some s => negb (String.eqb s "")
  | None => false
  end.

(** [a or b] on optional strings. *)
Definition str_or (a b : option string) : option string := if truthy a then a else b.

(** ** Data model *)

(** A dense vector, after [extract_vector]. *)
Definition vec := list Q.

(** A sparse vector [{"indices": [...], "values": [...]}]. *)
Record SparseVec := mkSparse { indices : list Z; values : list Q }.

Definition empty_sparse : SparseVec := mkSparse [] [].

(** What [encoder.encode_sparse] may hand back: one dictionary, or a list of them. *)
Inductive SparseResult :=
| SparseDict (d : SparseVec)
| SparseList (l : list SparseVec).

(** The fields of [normalized_bridge] the pipeline reads. *)
Record NormalizedBridge := mkBridge {
  genes : list string;
  diseases : list string;
  pathways : list string;
}.

(** The payload keys the pipeline reads; [None] is an absent key. The
    payloads described are those whose keys hold values: a key that is present
    with a null value has no counterpart here. *)
Record Payload := mkPayload {
  p_protein_name : option string;
  p_title : option string;
  p_caption : option string;
  p_pdb_id : option string;
  p_gene_names : option (list string);
  p_function : option string;
  p_abstract : option string;
  p_description : option string;
  p_summary : option string;
  p_method : option string;
  p_uniprot_id : option string;
  p_pmid : option string;
  p_doi : option string;
  p_geo_id : option string;
  p_accession : option string;
  p_normalized_bridge : option NormalizedBridge;
}.

Definition empty_payload : Payload :=
  mkPayload None None None None None None None None None None None None None None None None.

(** A point as the vector store returns it. *)
Record Point := mkPoint {
  pt_id : string;
  pt_score : Q;
  pt_payload : option Payload;
}.

(** A search result dictionary: [id], [score], [payload], and the keys that
    later stages add. *)
Record Hit := mkHit {
  h_id : string;
  h_score : Q;
  h_payload : Payload;
  h_collection : option string;
  h_diversity_score : option Q;
  h_novelty_score : option Q;
  h_final_score : option Q;
  h_mmr_rank : option Z;
}.

(** [r["collection"] = c] *)
Definition set_collection (c : string) (r : Hit) : Hit :=
  mkHit (h_id r) (h_score r) (h_payload r) (Some c)
    (h_diversity_score r) (h_novelty_score r) (h_final_score r) (h_mmr_rank r).

(** [filter_dict], a dictionary from payload field to accepted values. *)
Definition filter_dict := list (string * list string).

(** An item of the metadata handed to the Bridge. *)
Record MetaItem := mkMeta {
  m_score : Q;
  m_collection : string;
  m_name : option string;
  m_genes : list string;
  m_function : option string;
  m_abstract : option string;
  m_description : option string;
  m_diseases : list string;
  m_pathways : list string;
}.

Record BridgeFilters := mkBridgeFilters {
  f_genes : list string;
  f_diseases : list string;
  f_pathways : list string;
}.

(** The output of [bridge_cross_modal]. *)
Record BridgeOutput := mkBridgeOutput {
  b_queries : gmap string string;
  b_filters : BridgeFilters;
  b_alignment : option string;
  b_interpretation : string;
}.

(** A design candidate. *)
Record Candidate := mkCandidate {
  c_name : string;
  c_justification : string;
  c_research_suggestion : option string;
  c_confidence : option string;
  c_confidence_icon : option string;
  c_evidence_count : option Z;
}.

(** The dictionary cached under an embedding key: [vector], and for text
    [sparse] and [concepts]. *)
Record EmbEntry := mkEmbEntry {
  e_vector : option vec;
  e_sparse : option SparseVec;
  e_concepts : option (odict Q);
}.

(** [if cached:] a dictionary is truthy when it has a key. *)
Definition entry_truthy (e : EmbEntry) : bool :=
  match e_vector e, e_sparse e, e_concepts e with
  | None, None, None => false
  | _, _, _ => true
  end.

(** ** The external collaborators *)

Class Services := mkServices {
  (** [hashlib.sha256(s.encode()).hexdigest()[:16]] *)
  sha256_hex16 : string -> string;
  (** [extract_vector(encoder.encode_text(s))] and its siblings *)
  encode_text : string -> Res vec;
  encode_sequence : string -> Res vec;
  encode_image : string -> Res vec;
  encode_structure : string -> Res vec;
  encode_sparse : string -> Res SparseResult;
  extract_concepts : string -> Res (odict Q);
  (** [float(np.dot(a, b) / (np.linalg.norm(a) * np.linalg.norm(b) + 1e-8))] *)
  np_cosine : vec -> vec -> Q;
  (** [client.query_points(collection_name, query, using, limit, query_filter)] *)
  query_points : string -> string -> vec -> Z -> option filter_dict -> Res (list Point);
  (** [client.query_points] with the dense and sparse prefetches and a fusion query:
      collection, dense slot, dense vector, sparse slot, sparse vector, fusion
      method, prefetch limit, limit, filter *)
  query_fusion : string -> string -> vec -> string -> SparseVec -> string -> Z -> Z ->
                 option filter_dict -> Res (list Point);
  (** [llm.bridge_cross_modal(user_text, modality_metadata)] *)
  bridge_cross_modal : option string -> list MetaItem -> Res BridgeOutput;
  (** [llm.generate_design_candidates(query, results, top_k)["candidates"]] *)
  generate_design_candidates : string -> list Hit -> Z -> Res (list Candidate);
  (** [llm.generate_summary(query, results)] *)
  generate_summary : string -> odict (list Hit) -> Res string;
  (** [process_article_input(user_query, article_path)] *)
  process_article_input : string -> string -> Res string;
}.

(** ** The world of a request: the shared cache and the trace of calls *)

Inductive Event :=
| EncodeCall (modality input : string)
| StoreQuery (collection slot : string) (vector : vec) (limit : Z)
    (flt : option filter_dict)
| StoreFusion (collection dense_name : string) (dense : vec)
    (sparse_name : string) (sparse : SparseVec) (limit : Z) (flt : option filter_dict)
| BridgeCall (user_text : option string) (metadata : list MetaItem)
| LogError (msg : string)
| LogWarning (msg : string).

Record World := mkWorld {
  w_cache : Cache.MultiLevelCache EmbEntry;
  w_trace : list Event;
}.

(** Computations over the world that may raise. *)
Definition M (A : Type) : Type := World -> Res A * World.

Definition ret {A} (a : A) : M A := fun w => (Ok a, w).

Definition bind {A B} (m : M A) (k : A -> M B) : M B :=
  fun w => match m w with
           | (Ok a, w') => k a w'
           | (Raise e, w') => (Raise e, w')
           end.

Definition raise {A} (e : string) : M A := fun w => (Raise e, w).

(** [try: m except Exception as e: h e] *)
Definition try_except {A} (m : M A) (h : string -> M A) : M A :=
  fun w => match m w with
           | (Ok a, w') => (Ok a, w')
           | (Raise e, w') => h e w'
           end.

Definition emit (ev : Event) : M unit :=
  fun w => (Ok tt, mkWorld (w_cache w) (w_trace w ++ [ev])).

(** A call to a collaborator whose answer is [r]. *)
Definition call {A} (ev : Event) (r : Res A) : M A :=
  fun w => (r, mkWorld (w_cache w) (w_trace w ++ [ev])).

Definition lift {A} (r : Res A) : M A := fun w => (r, w).

Notation "'let*' x ':=' m 'in' k" := (bind m (fun x => k))
  (at level 10, x pattern, m at level 100, k at level 200).

(** ** [app/graph/state.py] *)

(** An evidence record of [_collect_evidence]. *)
Record Evidence := mkEvidence {
  ev_confidence : Q;
  ev_links : odict string;
  ev_collection : string;
}.

(** The neighbour graph of [_build_graph]. *)
Record GNode := mkGNode {
  n_id : string;
  n_label : string;
  n_type : string;
  n_collection : string;
  n_score : Q;
  n_size : Z;
}.

Record Relation := mkRelation {
  rel_type : string;
  rel_strength : Q;
  rel_items : list string;
}.

Record GEdge := mkGEdge {
  ed_source : string;
  ed_target : string;
  ed_relation : string;
  ed_strength : Q;
  ed_width : Z;
  ed_details : list Relation;
}.

Record GStats := mkGStats {
  total_candidates : Z;
  filtered_by_score : Z;
  nodes_included : Z;
  edges_included : Z;
  edges_filtered : Z;
}.

Record Graph := mkGraph {
  g_nodes : list GNode;
  g_edges : list GEdge;
  g_stats : GStats;
  g_thresholds : Q * Q;
}.

(** [primary_modality]: [None], one modality, or the list of all of them. *)
Inductive PrimaryModality :=
| PrimaryNone
| PrimaryOne (m : string)
| PrimaryAll (l : list string).

(** [class GraphState(TypedDict)] *)
Record GraphState := mkGraphState {
  input_text : option string;
  input_sequence : option string;
  input_image_path : option string;
  input_structure_path : option string;
  top_k : Z;
  include_graph : bool;
  include_evidence : bool;
  include_summary : bool;
  include_design_candidates : bool;
  filter_by_genes : bool;
  input_type : string;
  search_case : Z;
  has_text : bool;
  has_modal : bool;
  primary_modality : PrimaryModality;
  modalities : list string;
  vectors : gmap string vec;
  sparse_vectors : gmap string SparseVec;
  concepts : odict Q;
  cache_hits : gmap string bool;
  phase1_results : odict (list Hit);
  phase1_metadata : list MetaItem;
  bridge_output : option BridgeOutput;
  phase3_results : odict (list Hit);
  all_results : odict (list Hit);
  search_strategy : string;
  alignment : option string;
  reranked_results : odict (list Hit);
  design_candidates : list Candidate;
  summary : string;
  interpretation : option string;
  evidence : odict Evidence;
  neighbor_graph : option Graph;
  processing_time : Q;
  errors : list string;
}.

(** [create_initial_state] *)
Definition create_initial_state (text sequence image_path structure_path : option string)
    (top_k : Z)
    (include_graph include_evidence include_summary include_design_candidates
       filter_by_genes : bool) : GraphState :=
  {| input_text := text;
     input_sequence := sequence;
     input_image_path := image_path;
     input_structure_path := structure_path;
     top_k := top_k;
     include_graph := include_graph;
     include_evidence := include_evidence;
     include_summary := include_summary;
     include_design_candidates := include_design_candidates;
     filter_by_genes := filter_by_genes;
     input_type := "unknown";
     search_case := 1;
     has_text := false;
     has_modal := false;
     primary_modality := PrimaryNone;
     modalities := [];
     vectors := ∅;
     sparse_vectors := ∅;
     concepts := [];
     cache_hits := ∅;
     phase1_results := [];
     phase1_metadata := [];
     bridge_output := None;
     phase3_results := [];
     all_results := [];
     search_strategy := "CAS_1";
     alignment := None;
     reranked_results := [];
     design_candidates := [];
     summary := "";
     interpretation := None;
     evidence := [];
     neighbor_graph := None;
     processing_time := 0%Q;
     errors := [] |}.

(** The writes of [node_encode] into the state. *)
Definition update_encode (s : GraphState) (input_type : string) (search_case : Z)
    (has_text has_modal : bool) (primary_modality : PrimaryModality)
    (modalities : list string) (vectors : gmap string vec)
    (sparse_vectors : gmap string SparseVec) (concepts : odict Q)
    (cache_hits : gmap string bool) : GraphState :=
  {| input_text := input_text s;
     input_sequence := input_sequence s;
     input_image_path := input_image_path s;
     input_structure_path := input_structure_path s;
     top_k := top_k s;
     include_graph := include_graph s;
     include_evidence := include_evidence s;
     include_summary := include_summary s;
     include_design_candidates := include_design_candidates s;
     filter_by_genes := filter_by_genes s;
     input_type := input_type;
     search_case := search_case;
     has_text := has_text;
     has_modal := has_modal;
     primary_modality := primary_modality;
     modalities := modalities;
     vectors := vectors;
     sparse_vectors := sparse_vectors;
     concepts := concepts;
     cache_hits := cache_hits;
     phase1_results := phase1_results s;
     phase1_metadata := phase1_metadata s;
     bridge_output := bridge_output s;
     phase3_results := phase3_results s;
     all_results := all_results s;
     search_strategy := search_strategy s;
     alignment := alignment s;
     reranked_results := reranked_results s;
     design_candidates := design_candidates s;
     summary := summary s;
     interpretation := interpretation s;
     evidence := evidence s;
     neighbor_graph := neighbor_graph s;
     processing_time := processing_time s;
     errors := errors s |}.

(** The writes of [node_search] into the state; [modalities] is written by
    the fall-back that rebuilds the list in place. *)
Definition update_search (s : GraphState) (modalities : list string)
    (phase1_results : odict (list Hit)) (phase1_metadata : list MetaItem)
    (bridge_output : option BridgeOutput) (phase3_results all_results : odict (list Hit))
    (search_strategy : string) (alignment : option string) : GraphState :=
  {| input_text := input_text s;
     input_sequence := input_sequence s;
     input_image_path := input_image_path s;
     input_structure_path := input_structure_path s;
     top_k := top_k s;
     include_graph := include_graph s;
     include_evidence := include_evidence s;
     include_summary := include_summary s;
     include_design_candidates := include_design_candidates s;
     filter_by_genes := filter_by_genes s;
     input_type := input_type s;
     search_case := search_case s;
     has_text := has_text s;
     has_modal := has_modal s;
     primary_modality := primary_modality s;
     modalities := modalities;
     vectors := vectors s;
     sparse_vectors := sparse_vectors s;
     concepts := concepts s;
     cache_hits := cache_hits s;
     phase1_results := phase1_results;
     phase1_metadata := phase1_metadata;
     bridge_output := bridge_output;
     phase3_results := phase3_results;
     all_results := all_results;
     search_strategy := search_strategy;
     alignment := alignment;
     reranked_results := reranked_results s;
     design_candidates := design_candidates s;
     summary := summary s;
     interpretation := interpretation s;
     evidence := evidence s;
     neighbor_graph := neighbor_graph s;
     processing_time := processing_time s;
     errors := errors s |}.

(** The writes of [node_rank_enrich] into the state. *)
Definition update_rank (s : GraphState) (reranked_results : odict (list Hit))
    (design_candidates : list Candidate) (summary : string)
    (interpretation : option string) (evidence : odict Evidence)
    (neighbor_graph : option Graph) : GraphState :=
  {| input_text := input_text s;
     input_sequence := input_sequence s;
     input_image_path := input_image_path s;
     input_structure_path := input_structure_path s;
     top_k := top_k s;
     include_graph := include_graph s;
     include_evidence := include_evidence s;
     include_summary := include_summary s;
     include_design_candidates := include_design_candidates s;
     filter_by_genes := filter_by_genes s;
     input_type := input_type s;
     search_case := search_case s;
     has_text := has_text s;
     has_modal := has_modal s;
     primary_modality := primary_modality s;
     modalities := modalities s;
     vectors := vectors s;
     sparse_vectors := sparse_vectors s;
     concepts := concepts s;
     cache_hits := cache_hits s;
     phase1_results := phase1_results s;
     phase1_metadata := phase1_metadata s;
     bridge_output := bridge_output s;
     phase3_results := phase3_results s;
     all_results := all_results s;
     search_strategy := search_strategy s;
     alignment := alignment s;
     reranked_results := reranked_results;
     design_candidates := design_candidates;
     summary := summary;
     interpretation := interpretation;
     evidence := evidence;
     neighbor_graph := neighbor_graph;
     processing_time := processing_time s;
     errors := errors s |}.

(** ** [app/graph/nodes.py]: constants *)

Definition COLLECTIONS : list string :=
  ["proteins"; "articles"; "images"; "experiments"; "structures"].

(** [MODAL_TO_COLLECTION] *)
Definition MODAL_TO_COLLECTION (modality : string) : option string :=
  if decide (modality = "image") then Some "images"
  else if decide (modality = "sequence") then Some "proteins"
  else if decide (modality = "structure") then Some "structures"
  else None.

(** [MMR_LAMBDA.get(alignment, 0.7)] over the table
    [{"aligned": 0.7, "partial": 0.5, "divergent": 0.3, None: 0.7}], whose
    values are the floats that these decimals denote. *)
Definition MMR_LAMBDA (alignment : option string) : Q :=
  match alignment with
  | None => binary64 (7 # 10)
  | Some a =>
    if decide (a = "aligned") then binary64 (7 # 10)
    else if decide (a = "partial") then binary64 (5 # 10)
    else if decide (a = "divergent") then binary64 (3 # 10)
    else binary64 (7 # 10)
  end.

(** ** NODE 1: ENCODE *)

Section Encode.
Context `{Services}.

(** [cache.get_embedding] and [cache.set_embedding] on the shared cache;
    [now] is the clock reading. *)
Definition cache_get_embedding (content_hash : string) (now : Q) : M (option EmbEntry) :=
  fun w =>
    let '(v, c) := Cache.get_embedding (w_cache w) content_hash now in
    (Ok v, mkWorld c (w_trace w)).

Definition cache_set_embedding (content_hash : string) (value : EmbEntry) (now : Q)
  : M unit :=
  fun w =>
    let '(r, c) := Cache.set_embedding (w_cache w) content_hash value now in
    (r, mkWorld c (w_trace w)).

(** The local dictionaries that [node_encode] fills. *)
Record EncodeAcc := mkEncodeAcc {
  a_vectors : gmap string vec;
  a_sparse_vectors : gmap string SparseVec;
  a_concepts : odict Q;
  a_cache_hits : gmap string bool;
}.

Definition detect_text (s : GraphState) : bool :=
  match input_text s with
  | Some t => negb (String.eqb t "") && negb (String.eqb (strip t) "")
  | None => false
  end.

Definition detect_sequence (s : GraphState) : bool :=
  match input_sequence s with
  | Some q => negb (String.eqb q "") && (10 <? str_len q)
  | None => false
  end.

Definition detect_image (s : GraphState) : bool := truthy (input_image_path s).

Definition detect_structure (s : GraphState) : bool := truthy (input_structure_path s).

(** The sparse vector kept from the answer of [encode_sparse]. *)
Definition sparse_of_result (r : SparseResult) : SparseVec :=
  match r with
  | SparseList (d :: _) => d
  | SparseList [] => empty_sparse
  | SparseDict d => d
  end.

(** [if cached:] the entry when the cache answered with a truthy one. *)
Definition usable (cached : option EmbEntry) : option EmbEntry :=
  match cached with
  | Some e => if entry_truthy e then Some e else None
  | None => None
  end.

(** ENCODE TEXT, on a cache miss: the dense encoding stands outside any [try]. *)
Definition encode_text_miss (text cache_key : string) (now : Q) (acc : EncodeAcc)
  : M EncodeAcc :=
  let* text_vec := call (EncodeCall "text" text) (encode_text text) in
  let* sp := try_except
               (let* r := call (EncodeCall "sparse" text) (encode_sparse text) in
                ret (sparse_of_result r))
               (fun e => let* _ := emit (LogWarning "Sparse encoding failed") in
                         ret empty_sparse) in
  let* cs := try_except
               (call (EncodeCall "concepts" text) (extract_concepts text))
               (fun _ => ret []) in
  let* _ := cache_set_embedding cache_key
              (mkEmbEntry (Some text_vec) (Some sp) (Some cs)) now in
  ret (mkEncodeAcc
         (<["text" := text_vec]> (a_vectors acc))
         (<["text_sparse" := sp]> (a_sparse_vectors acc))
         cs
         (<["text" := false]> (a_cache_hits acc))).

(** ENCODE TEXT *)
Definition encode_text_step (text : string) (now : Q) (acc : EncodeAcc) : M EncodeAcc :=
  let cache_key := String.append "text:" (sha256_hex16 text) in
  let* cached := cache_get_embedding cache_key now in
  match usable cached with
  | Some e =>
    ret (mkEncodeAcc
           (<["text" := default [] (e_vector e)]> (a_vectors acc))
           (<["text_sparse" := default empty_sparse (e_sparse e)]> (a_sparse_vectors acc))
           (default [] (e_concepts e))
           (<["text" := true]> (a_cache_hits acc)))
  | None => encode_text_miss text cache_key now acc
  end.

(** [vectors[m] = v; cache_hits[m] = hit] *)
Definition acc_vector (acc : EncodeAcc) (m : string) (v : vec) (hit : bool) : EncodeAcc :=
  mkEncodeAcc (<[m := v]> (a_vectors acc)) (a_sparse_vectors acc) (a_concepts acc)
    (<[m := hit]> (a_cache_hits acc)).

(** [cache_hits[m] = hit] *)
Definition acc_hit (acc : EncodeAcc) (m : string) (hit : bool) : EncodeAcc :=
  mkEncodeAcc (a_vectors acc) (a_sparse_vectors acc) (a_concepts acc)
    (<[m := hit]> (a_cache_hits acc)).

(** ENCODE SEQUENCE: the cache key hashes [seq[:100]]; the encoding stands
    outside any [try]. *)
Definition encode_sequence_step (seq : string) (now : Q) (acc : EncodeAcc)
  : M EncodeAcc :=
  let cache_key := String.append "seq:" (sha256_hex16 (str_take 100 seq)) in
  let* cached := cache_get_embedding cache_key now in
  match usable cached with
  | Some e => ret (acc_vector acc "sequence" (default [] (e_vector e)) true)
  | None =>
    let* seq_vec := call (EncodeCall "sequence" seq) (encode_sequence seq) in
    let* _ := cache_set_embedding cache_key (mkEmbEntry (Some seq_vec) None None) now in
    ret (acc_vector acc "sequence" seq_vec false)
  end.

(** The body shared by ENCODE IMAGE and ENCODE STRUCTURE: on a miss the
    encoding and the cache write stand inside one [try]; the vector is
    assigned between the two. *)
Definition encode_guarded_step (modality prefix failed path : string)
    (encoder : string -> Res vec) (now : Q) (acc : EncodeAcc) : M EncodeAcc :=
  let cache_key := String.append prefix (sha256_hex16 path) in
  let* cached := cache_get_embedding cache_key now in
  match usable cached with
  | Some e => ret (acc_vector acc modality (default [] (e_vector e)) true)
  | None =>
    let* r := try_except
                (let* v := call (EncodeCall modality path) (encoder path) in ret (Some v))
                (fun e => let* _ := emit (LogError failed) in ret None) in
    match r with
    | None => ret (acc_hit acc modality false)
    | Some v =>
      let* _ := try_except (cache_set_embedding cache_key (mkEmbEntry (Some v) None None) now)
                  (fun e => emit (LogError failed)) in
      ret (acc_vector acc modality v false)
    end
  end.

(** ENCODE IMAGE *)
Definition encode_image_step (img_path : string) :=
  encode_guarded_step "image" "img:" "IMAGE ENCODING FAILED" img_path encode_image.

(** ENCODE STRUCTURE *)
Definition encode_structure_step (struct_path : string) :=
  encode_guarded_step "structure" "struct:" "STRUCTURE ENCODING FAILED" struct_path
    encode_structure.

(** [if cond: step] *)
Definition when_ (cond : bool) (x : option string) (step : string -> EncodeAcc -> M EncodeAcc)
    (acc : EncodeAcc) : M EncodeAcc :=
  match cond, x with
  | true, Some v => step v acc
  | _, _ => ret acc
  end.

(** The list [modalities], in the order image, sequence, structure. *)
Definition detect_modalities (s : GraphState) : list string :=
  (if detect_image s then ["image"] else []) ++
  (if detect_sequence s then ["sequence"] else []) ++
  (if detect_structure s then ["structure"] else []).

(** DETERMINE INPUT TYPE AND SEARCH CASE: input type, search case, primary
    modality. The list is built in alphabetical order, so [sorted] leaves it
    as it is. *)
Definition classify (has_text : bool) (modalities : list string)
  : string * Z * PrimaryModality :=
  match has_text, modalities with
  | true, [] => ("text_only", 1, PrimaryNone)
  | false, [m] => (m, 2, PrimaryOne m)
  | false, _ :: _ => (join "_" modalities, 2, PrimaryAll modalities)
  | true, [m] => (String.append "text_" m, 3, PrimaryOne m)
  | true, _ :: _ => (String.append "text_" (join "_" modalities), 3, PrimaryAll modalities)
  | false, [] => ("unknown", 1, PrimaryNone)
  end.

(** [node_encode] *)
Definition node_encode (now : Q) (s : GraphState) : M GraphState :=
  let has_text := detect_text s in
  let has_sequence := detect_sequence s in
  let has_image := detect_image s in
  let has_structure := detect_structure s in
  let has_modal := has_sequence || has_image || has_structure in
  let acc0 := mkEncodeAcc ∅ ∅ [] ∅ in
  let* acc1 := when_ has_text (input_text s) (fun x => encode_text_step x now) acc0 in
  let* acc2 := when_ has_sequence (input_sequence s)
                 (fun x => encode_sequence_step x now) acc1 in
  let* acc3 := when_ has_image (input_image_path s)
                 (fun x => encode_image_step x now) acc2 in
  let* acc4 := when_ has_structure (input_structure_path s)
                 (fun x => encode_structure_step x now) acc3 in
  let modalities := detect_modalities s in
  let '(input_type, search_case, primary_modality) := classify has_text modalities in
  ret (update_encode s input_type search_case has_text has_modal primary_modality
         modalities (a_vectors acc4) (a_sparse_vectors acc4) (a_concepts acc4)
         (a_cache_hits acc4)).

End Encode.

(** ** [app/core/qdrant_client.py] *)

Section Qdrant.
Context `{Services}.

(** [self._build_filter(filter_dict) if filter_dict else None] *)
Definition _build_filter (f : option filter_dict) : option filter_dict :=
  match f with
  | Some [] => None
  | Some conditions => Some conditions
  | None => None
  end.

(** The dictionary made of a returned point. *)
Definition format_point (p : Point) : Hit :=
  mkHit (pt_id p) (pt_score p) (default empty_payload (pt_payload p)) None
    None None None None.

(** [QdrantManager.vector_search]: any exception yields the empty list. *)
Definition vector_search (collection : string) (vector : vec) (vector_name : string)
    (top_k : Z) (flt : option filter_dict) : M (list Hit) :=
  try_except
    (let query_filter := _build_filter flt in
     let* results := call (StoreQuery collection vector_name vector top_k query_filter)
                       (query_points collection vector_name vector top_k query_filter) in
     ret (map format_point results))
    (fun e => let* _ := emit (LogError "Vector search error") in ret []).

(** [QdrantManager.hybrid_search] with the default fusion method. *)
Definition hybrid_search (collection : string) (dense_vector : vec)
    (sparse_indices : option (list Z)) (sparse_values : option (list Q))
    (dense_name sparse_name : string) (top_k : Z) (flt : option filter_dict)
  : M (list Hit) :=
  try_except
    (match sparse_indices, sparse_values with
     | Some (i :: il), Some vl =>
       let query_filter := _build_filter flt in
       let sparse_vector := mkSparse (i :: il) vl in
       let* results :=
         call (StoreFusion collection dense_name dense_vector sparse_name sparse_vector
                 top_k query_filter)
           (query_fusion collection dense_name dense_vector sparse_name sparse_vector
              "rrf" (top_k * 2) top_k query_filter) in
       ret (map format_point results)
     | _, _ => vector_search collection dense_vector dense_name top_k flt
     end)
    (fun e =>
       let* _ := emit (LogError "Hybrid search error") in
       vector_search collection dense_vector dense_name top_k flt).

End Qdrant.

(** ** NODE 2: SEARCH *)

Section Search.
Context `{Services}.

(** [for x in l: acc = body x acc] *)
Fixpoint for_each {A B} (l : list A) (body : A -> B -> M B) (acc : B) : M B :=
  match l with
  | [] => ret acc
  | x :: l' => let* acc' := body x acc in for_each l' body acc'
  end.

(** [extract_metadata_for_bridge], on one result. *)
Definition extract_item (r : Hit) : MetaItem :=
  let payload := h_payload r in
  let coll := default "unknown" (h_collection r) in
  let text200 (o : option string) := Some (str_take 200 (default "" o)) in
  let '(name, own_genes, fn, abstract, description) :=
    match p_protein_name payload, p_title payload, p_caption payload with
    | Some n, _, _ =>
      (Some n, take 5 (default [] (p_gene_names payload)),
       text200 (p_function payload), None, None)
    | None, Some t, _ =>
      (Some (str_take 100 t), [], None, text200 (p_abstract payload), None)
    | None, None, Some c =>
      (Some (str_take 100 c), [], None, None, text200 (p_description payload))
    | None, None, None => (None, [], None, None, None)
    end in
  let bridge := default (mkBridge [] [] []) (p_normalized_bridge payload) in
  mkMeta (round_nd 3 (h_score r)) coll name
    (match own_genes with [] => take 5 (genes bridge) | _ => own_genes end)
    fn abstract description
    (take 3 (diseases bridge)) (take 3 (pathways bridge)).

(** [extract_metadata_for_bridge] *)
Definition extract_metadata_for_bridge (results : list Hit) : list MetaItem :=
  map extract_item (take 5 results).

(** The fall-back of CAS 2 and CAS 3 when [state["modalities"]] is empty. *)
Definition search_modalities (s : GraphState) : list string :=
  match modalities s with
  | [] =>
    (if decide (is_Some (vectors s !! "image")) then ["image"] else []) ++
    (if decide (is_Some (vectors s !! "sequence")) then ["sequence"] else []) ++
    (if decide (is_Some (vectors s !! "structure")) then ["structure"] else [])
  | ms => ms
  end.

(** One Phase-1 search: [modality]'s own vector against its home collection,
    under the vector slot of the same name. *)
Definition phase1_search (s : GraphState) (mods : list string) (modality collection : string)
    (phase1 : odict (list Hit)) : M (odict (list Hit)) :=
  if decide (modality ∈ mods) then
    match vectors s !! modality with
    | Some v =>
      let* results := vector_search collection v modality (top_k s * 2) None in
      ret (od_set collection (map (set_collection collection) results) phase1)
    | None => ret phase1
    end
  else ret phase1.

(** PHASE 1 of CAS 2: images, proteins, structures. *)
Definition phase1_cas2 (s : GraphState) (mods : list string) : M (odict (list Hit)) :=
  let* p1 := phase1_search s mods "image" "images" [] in
  let* p2 := phase1_search s mods "sequence" "proteins" p1 in
  phase1_search s mods "structure" "structures" p2.

(** PHASE 1 of CAS 3: proteins, images, structures. *)
Definition phase1_cas3 (s : GraphState) (mods : list string) : M (odict (list Hit)) :=
  let* p1 := phase1_search s mods "sequence" "proteins" [] in
  let* p2 := phase1_search s mods "image" "images" p1 in
  phase1_search s mods "structure" "structures" p2.

Definition FILTERABLE_COLLECTIONS : list string :=
  ["proteins"; "experiments"; "structures"; "images"].

(** The gene filter of Phase 3. *)
Definition gene_filter (s : GraphState) (bridge_filters : BridgeFilters) (collection : string)
  : option filter_dict :=
  match filter_by_genes s, f_genes bridge_filters with
  | true, g :: gs =>
    if decide (collection ∈ FILTERABLE_COLLECTIONS)
    then Some [("normalized_bridge.genes", g :: gs)]
    else None
  | _, _ => None
  end.

Definition vec_name_of (collection : string) : string :=
  if decide (collection = "images") then "caption" else "text".

(** [rest_collections] *)
Definition rest_collections (phase1 : odict (list Hit)) : list string :=
  filter (λ c, c ∉ od_keys phase1) COLLECTIONS.

(** RETRY without filter if 0 results and a filter was applied. *)
Definition retry_unfiltered (collection : string) (query_vec : vec) (vec_name : string)
    (limit : Z) (flt : option filter_dict) (results : list Hit) : M (list Hit) :=
  match results, flt with
  | [], Some _ => vector_search collection query_vec vec_name limit None
  | _, _ => ret results
  end.

(** The body of the Phase-3 loop of CAS 2, inside its [try]. The call to
    [client.get_collection], made for a log line inside a [try] of its own,
    is left out. *)
Definition phase3_cas2_body (s : GraphState) (bridge : BridgeOutput) (collection : string)
  : M (list Hit) :=
  let query_text := default "protein function biology" (b_queries bridge !! collection) in
  let* query_vec := call (EncodeCall "text" query_text) (encode_text query_text) in
  let flt := gene_filter s (b_filters bridge) collection in
  let vec_name := vec_name_of collection in
  let* results := vector_search collection query_vec vec_name (top_k s * 2) flt in
  let* results := retry_unfiltered collection query_vec vec_name (top_k s * 2) flt results in
  ret (map (set_collection collection) results).

(** [try: body except Exception: phase3_results[collection] = []] *)
Definition phase3_guard (collection : string) (body : M (list Hit))
    (phase3 : odict (list Hit)) : M (odict (list Hit)) :=
  let* results := try_except body
                    (fun e => let* _ := emit (LogError (String.append collection ": ERROR")) in
                              ret []) in
  ret (od_set collection results phase3).

Definition phase3_cas2 (s : GraphState) (bridge : BridgeOutput) (rest : list string)
  : M (odict (list Hit)) :=
  for_each rest (fun c => phase3_guard c (phase3_cas2_body s bridge c)) [].

(** The dictionary held by [query_sparse], when it is one. *)
Definition sparse_dict (query_sparse : option SparseResult) : option SparseVec :=
  match query_sparse with
  | Some (SparseDict d) => Some d
  | _ => None
  end.

(** A non-empty list, as a truthy value. *)
Definition nonempty {A} (l : list A) : bool :=
  match l with [] => false | _ => true end.

(** The query of a collection in Phase 3 of CAS 3: the Bridge's query, or
    the user's text, or a default. *)
Definition cas3_query_text (s : GraphState) (bridge : BridgeOutput) (collection : string)
  : string :=
  default "biological function"
    (str_or (str_or (b_queries bridge !! collection) (input_text s))
       (Some "biological function")).

(** Re-encode if the query differs from the user's text. *)
Definition cas3_query_vectors (s : GraphState) (query_text : string)
  : M (vec * option SparseResult) :=
  if decide (Some query_text = input_text s)
  then ret (default [] (vectors s !! "text"), SparseDict <$> (sparse_vectors s !! "text"))
  else
    let* qv := call (EncodeCall "text" query_text) (encode_text query_text) in
    let* qs := call (EncodeCall "sparse" query_text) (encode_sparse query_text) in
    ret (qv, Some qs).

(** Try hybrid search first (dense + sparse), inside its own [try]. *)
Definition cas3_hybrid_or_dense (collection : string) (query_vec : vec)
    (query_sparse : option SparseResult) (limit : Z) (flt : option filter_dict)
  : M (list Hit) :=
  let vec_name := vec_name_of collection in
  let sparse_name := String.append vec_name "_sparse" in
  try_except
    (match sparse_dict query_sparse with
     | Some d =>
       if nonempty (indices d) && nonempty (values d)
       then hybrid_search collection query_vec (Some (indices d)) (Some (values d))
              vec_name sparse_name limit flt
       else vector_search collection query_vec vec_name limit flt
     | None => vector_search collection query_vec vec_name limit flt
     end)
    (fun e =>
       let* _ := emit (LogWarning "Hybrid failed, using dense") in
       vector_search collection query_vec vec_name limit flt).

(** The body of the Phase-3 loop of CAS 3, inside its [try]. *)
Definition phase3_cas3_body (s : GraphState) (bridge : BridgeOutput) (collection : string)
  : M (list Hit) :=
  let* q := cas3_query_vectors s (cas3_query_text s bridge collection) in
  let flt := gene_filter s (b_filters bridge) collection in
  let limit := top_k s * 2 in
  let* results := cas3_hybrid_or_dense collection q.1 q.2 limit flt in
  let* results := retry_unfiltered collection q.1 (vec_name_of collection) limit flt
                    results in
  ret (map (set_collection collection) results).

Definition phase3_cas3 (s : GraphState) (bridge : BridgeOutput) (rest : list string)
  : M (odict (list Hit)) :=
  for_each rest (fun c => phase3_guard c (phase3_cas3_body s bridge c)) [].

(** [{**d1, **d2}] *)
Definition od_merge {V} (d1 d2 : odict V) : odict V :=
  fold_left (fun acc kv => od_set kv.1 kv.2 acc) d2 d1.

(** [all_phase1]: the values of [phase1_results], concatenated. *)
Definition all_phase1 (phase1 : odict (list Hit)) : list Hit := concat phase1.*2.

(** CAS 1: the body of the loop over [COLLECTIONS], with its [try]. *)
Definition cas1_search (s : GraphState) (text_vec : vec) (collection : string)
    (all : odict (list Hit)) : M (odict (list Hit)) :=
  let* results :=
    try_except
      (let* results := vector_search collection text_vec (vec_name_of collection)
                         (top_k s * 2) None in
       ret (map (set_collection collection) results))
      (fun e => let* _ := emit (LogError (String.append collection ": ERROR")) in ret []) in
  ret (od_set collection results all).

(** CAS 2 and CAS 3 share their shape; they differ in the order of Phase 1,
    in the text handed to the Bridge, and in the search of Phase 3. *)
Definition search_modal (s : GraphState) (strategy : string)
    (phase1 : GraphState -> list string -> M (odict (list Hit)))
    (user_text : option string)
    (phase3 : GraphState -> BridgeOutput -> list string -> M (odict (list Hit)))
  : M GraphState :=
  let mods := search_modalities s in
  let* phase1_results := phase1 s mods in
  let phase1_metadata := extract_metadata_for_bridge (all_phase1 phase1_results) in
  let* bridge := call (BridgeCall user_text phase1_metadata)
                   (bridge_cross_modal user_text phase1_metadata) in
  let alignment := b_alignment bridge in
  let* phase3_results := phase3 s bridge (rest_collections phase1_results) in
  ret (update_search s mods phase1_results phase1_metadata (Some bridge) phase3_results
         (od_merge phase1_results phase3_results) strategy alignment).

(** [node_search] *)
Definition node_search (s : GraphState) : M GraphState :=
  if decide (search_case s = 1) then
    match default [] (vectors s !! "text") with
    | [] =>
      let* _ := emit (LogError "No text vector for CAS 1!") in
      ret (update_search s (modalities s) (phase1_results s) (phase1_metadata s)
             (bridge_output s) (phase3_results s) [] "CAS_1_ERROR" (alignment s))
    | text_vec =>
      let* all := for_each COLLECTIONS (cas1_search s text_vec) [] in
      ret (update_search s (modalities s) [] [] None [] all "CAS_1" None)
    end
  else if decide (search_case s = 2) then
    search_modal s "CAS_2" phase1_cas2 None phase3_cas2
  else if decide (search_case s = 3) then
    search_modal s "CAS_3" phase1_cas3 (input_text s) phase3_cas3
  else
    ret (update_search s (modalities s) [] [] None [] [] (search_strategy s) (alignment s)).

End Search.

(** ** NODE 3: RANK & ENRICH, helper functions *)

(** [-float("inf")] is [None]; [mmr > best_mmr]. *)
Definition above (mmr : Q) (best_mmr : option Q) : bool :=
  match best_mmr with
  | None => true
  | Some b => Qgtb mmr b
  end.

(** The text embedded for a result:
    [payload.get("protein_name") or payload.get("title") or payload.get("caption", "")],
    when it is a non-empty string. *)
Definition mmr_text (payload : Payload) : option string :=
  let t := str_or (str_or (p_protein_name payload) (p_title payload))
             (Some (default "" (p_caption payload))) in
  if truthy t then t else None.

(** Build vectors: [encoder] is [extract_vector(encoder.encode_text(.))], called
    outside any [try]. *)
Fixpoint mmr_vectors (encoder : string -> Res vec) (results : list Hit)
    (vectors : gmap string vec) : Res (gmap string vec) :=
  match results with
  | [] => Ok vectors
  | r :: rs =>
    match mmr_text (h_payload r) with
    | Some text =>
      match encoder (str_take 100 text) with
      | Raise e => Raise e
      | Ok v =>
        mmr_vectors encoder rs
          (if (10 <? Z.of_nat (length v)) then <[h_id r := v]> vectors else vectors)
      end
    | None => mmr_vectors encoder rs vectors
    end
  end.

(** The inner loop over [selected]: the largest similarity of [cid] to a
    selected item, starting from 0. *)
Definition mmr_max_sim (cosine : vec -> vec -> Q) (vectors : gmap string vec)
    (selected : list Hit) (cid : string) : Q :=
  match vectors !! cid with
  | Some vc =>
    fold_left (fun max_sim sel =>
                 match vectors !! h_id sel with
                 | Some vs => Qmax2 max_sim (cosine vc vs)
                 | None => max_sim
                 end) selected 0%Q
  | None => 0%Q
  end.

(** The loop over [candidates]: the running [(best_idx, best_mmr, best_div)]. *)
Fixpoint mmr_best (cosine : vec -> vec -> Q) (vectors : gmap string vec) (mmr_lambda : Q)
    (selected candidates : list Hit) (idx : nat) (best : option (nat * Q * Q))
  : option (nat * Q * Q) :=
  match candidates with
  | [] => best
  | cand :: rest =>
    let rel := h_score cand in
    let max_sim := mmr_max_sim cosine vectors selected (h_id cand) in
    let div := fsub 1 max_sim in
    let mmr := fsub (fmul mmr_lambda rel) (fmul (fsub 1 mmr_lambda) max_sim) in
    let best' :=
      if above mmr (option_map (fun b => b.1.2) best) then Some (idx, mmr, div) else best in
    mmr_best cosine vectors mmr_lambda selected rest (S idx) best'
  end.

(** The scores written on a chosen candidate. *)
Definition mmr_mark (r : Hit) (diversity novelty final : Q) : Hit :=
  mkHit (h_id r) (h_score r) (h_payload r) (h_collection r)
    (Some diversity) (Some novelty) (Some final) (h_mmr_rank r).

(** The [while] loop of [_apply_mmr]; every turn removes a candidate, so
    [length candidates] turns are enough. *)
Fixpoint mmr_loop (fuel : nat) (cosine : vec -> vec -> Q) (vectors : gmap string vec)
    (mmr_lambda : Q) (bound : Z) (selected candidates : list Hit) : list Hit :=
  match fuel with
  | O => selected
  | S fuel' =>
    if (Z.of_nat (length selected) <? bound) && nonempty candidates then
      match mmr_best cosine vectors mmr_lambda selected candidates 0 None with
      | Some (best_idx, best_mmr, best_div) =>
        match candidates !! best_idx with
        | Some chosen =>
          mmr_loop fuel' cosine vectors mmr_lambda bound
            (selected ++ [mmr_mark chosen (round_nd 4 best_div)
                            (round_nd 4 (fmul (h_score chosen) best_div))
                            (round_nd 4 best_mmr)])
            (delete best_idx candidates)
        | None => selected
        end
      | None => selected
      end
    else selected
  end.

(** [_apply_mmr] *)
Definition _apply_mmr (cosine : vec -> vec -> Q) (results : list Hit) (mmr_lambda : Q)
    (target_k : Z) (encoder : string -> Res vec) : Res (list Hit) :=
  match results with
  | [] => Ok []
  | r0 :: rest =>
    match mmr_vectors encoder results ∅ with
    | Raise e => Raise e
    | Ok vectors =>
      let first := mmr_mark r0 1 (round_nd 4 (h_score r0)) (round_nd 4 (h_score r0)) in
      Ok (mmr_loop (length rest) cosine vectors mmr_lambda
            (Z.min target_k (Z.of_nat (length results))) [first] rest)
    end
  end.

(** [_is_exploratory_query] *)
Definition _is_exploratory_query (query : string) : bool :=
  negb (String.eqb query "") &&
  existsb (fun kw => str_contains kw (lower query))
    ["discover"; "explore"; "novel"; "new"; "potential"; "target"; "candidate";
     "suggest"; "find"; "identify"; "what"; "which"].

(** [_has_rich_results] *)
Definition _has_rich_results (results : odict (list Hit)) : bool :=
  let total := Z.of_nat (length (concat results.*2)) in
  let collections_with_results :=
    Z.of_nat (length (filter (λ r : list Hit, (2 <= length r)%nat) results.*2)) in
  (5 <=? total) && (2 <=? collections_with_results).

(** [_flatten_results] *)
Definition _flatten_results (results : odict (list Hit)) : list Hit :=
  concat (map (fun kv => map (set_collection kv.1) kv.2) results).

(** The three confidence labels. *)
Definition label_candidate (c : Candidate) (confidence icon : string) (count : Z)
  : Candidate :=
  mkCandidate (c_name c) (c_justification c) (c_research_suggestion c)
    (Some confidence) (Some icon) (Some count).

Definition exploratory (c : Candidate) : Candidate :=
  label_candidate c "exploratory" "idea" 0.

(** [_collect_evidence]: the links of one result. *)
Definition evidence_links (collection : string) (payload : Payload) : odict string :=
  let link (key base : string) (o : option string) : odict string :=
    if truthy o then [(key, String.append base (default "" o))] else [] in
  if decide (collection = "proteins") then
    link "uniprot" "https://www.uniprot.org/uniprotkb/" (p_uniprot_id payload)
  else if decide (collection = "articles") then
    link "pubmed" "https://pubmed.ncbi.nlm.nih.gov/" (p_pmid payload) ++
    link "doi" "https://doi.org/" (p_doi payload)
  else if decide (collection = "structures") then
    link "pdb" "https://www.rcsb.org/structure/" (p_pdb_id payload)
  else if decide (collection = "experiments") then
    link "geo" "https://www.ncbi.nlm.nih.gov/geo/query/acc.cgi?acc="
      (str_or (p_geo_id payload) (p_accession payload))
  else [].

(** [_collect_evidence] *)
Definition _collect_evidence (results : odict (list Hit)) : odict Evidence :=
  fold_left
    (fun evidence kv =>
       fold_left
         (fun evidence r =>
            od_set (h_id r)
              (mkEvidence (Qmin2 1 (fmul (h_score r) (binary64 (12 # 10))))
                 (evidence_links kv.1 (h_payload r))
                 kv.1)
              evidence)
         kv.2 evidence)
    results [].

(** [int(x)]: truncation towards zero. *)
Definition Qtrunc (x : Q) : Z := Z.quot (Qnum x) (Z.pos (Qden x)).

(** [s.rstrip("s")] *)
Fixpoint rstrip_s (s : string) : string :=
  match s with
  | EmptyString => EmptyString
  | String c s' =>
    match rstrip_s s' with
    | EmptyString => if Ascii.eqb c "s"%char then EmptyString else String c EmptyString
    | t => String c t
    end
  end.

(** The node loop of [_build_graph] over the items of one collection:
    the nodes, the payloads by id, the statistics, and [count]. The set
    [node_ids] is kept as the list of the nodes' ids, in insertion order. *)
Record NodeAcc := mkNodeAcc {
  na_nodes : list GNode;
  na_payloads : gmap string Payload;
  na_total : Z;
  na_filtered : Z;
}.

Definition graph_label (payload : Payload) : string :=
  str_take 40
    (default "Unknown"
       (str_or (str_or (str_or (str_or (p_protein_name payload) (p_title payload))
                          (p_caption payload)) (p_pdb_id payload)) (Some "Unknown"))).

Fixpoint graph_nodes_of (collection : string) (score_threshold : Q)
    (max_nodes_per_collection : Z) (items : list Hit) (count : Z) (acc : NodeAcc)
  : NodeAcc :=
  match items with
  | [] => acc
  | r :: items' =>
    if max_nodes_per_collection <=? count then acc
    else
      let acc1 := mkNodeAcc (na_nodes acc) (na_payloads acc) (na_total acc + 1)
                    (na_filtered acc) in
      let rid := h_id r in
      let score := h_score r in
      if Qltb score score_threshold then
        graph_nodes_of collection score_threshold max_nodes_per_collection items' count
          (mkNodeAcc (na_nodes acc1) (na_payloads acc1) (na_total acc1)
             (na_filtered acc1 + 1))
      else if decide (rid ∈ map n_id (na_nodes acc1)) then
        graph_nodes_of collection score_threshold max_nodes_per_collection items' count acc1
      else
        let payload := h_payload r in
        let node := mkGNode rid (graph_label payload) (rstrip_s collection) collection
                      (round_nd 4 score) (Z.max 10 (Qtrunc (fmul score 30))) in
        graph_nodes_of collection score_threshold max_nodes_per_collection items'
          (count + 1)
          (mkNodeAcc (na_nodes acc1 ++ [node]) (<[rid := payload]> (na_payloads acc1))
             (na_total acc1) (na_filtered acc1))
  end.

(** [set(a) & set(b)], listed in the order of [a]. *)
Definition shared (a b : list string) : list string :=
  filter (λ x, x ∈ b) (remove_dups a).

(** One relation of an edge: present when the two sets intersect. Its strength
    is [min(1.0, len(shared) * weight)], a product of floats. *)
Definition relation_of (type : string) (weight : Q) (keep : nat) (a b : list string)
  : list Relation :=
  match shared a b with
  | [] => []
  | items =>
    [mkRelation type (Qmin2 1 (fmul (inject_Z (Z.of_nat (length items))) weight))
       (take keep items)]
  end.

(** The relations between two payloads: genes, diseases, pathways, in this
    order. The weights are the floats [0.25], [0.3] and [0.35]. *)
Definition relations_of (pi pj : Payload) : list Relation :=
  let bridge_i := default (mkBridge [] [] []) (p_normalized_bridge pi) in
  let bridge_j := default (mkBridge [] [] []) (p_normalized_bridge pj) in
  relation_of "shared_genes" (binary64 (25 # 100)) 5 (genes bridge_i) (genes bridge_j) ++
  relation_of "shared_diseases" (binary64 (3 # 10)) 3
    (diseases bridge_i) (diseases bridge_j) ++
  relation_of "shared_pathways" (binary64 (35 # 100)) 3
    (pathways bridge_i) (pathways bridge_j).

(** [total_strength], summed in the order of the relations, each sum a float. *)
Definition total_strength (relations : list Relation) : Q :=
  fold_left (fun t r => fadd t (rel_strength r)) relations 0%Q.

(** [max(relations, key=lambda x: x["strength"])]: the first of the largest. *)
Fixpoint max_relation (best : Relation) (relations : list Relation) : Relation :=
  match relations with
  | [] => best
  | r :: rs => max_relation (if Qgtb (rel_strength r) (rel_strength best) then r else best) rs
  end.

(** What the edge loop does with a pair of nodes. *)
Inductive EdgeOutcome :=
| EdgeFiltered
| EdgeNone
| EdgeKept (e : GEdge).

Definition edge_between (edge_threshold : Q) (source target : string) (pi pj : Payload)
  : EdgeOutcome :=
  let relations := relations_of pi pj in
  let final_strength := Qmin2 1 (total_strength relations) in
  if Qltb final_strength edge_threshold then EdgeFiltered
  else
    match relations with
    | [] => EdgeNone
    | r :: rs =>
      EdgeKept (mkGEdge source target (rel_type (max_relation r rs))
                  (round_nd 4 final_strength) (Z.max 1 (Qtrunc (fmul final_strength 5)))
                  relations)
    end.

(** The pairs [(i, j)] with [i < j], in the order of the two nested loops. *)
Fixpoint pairs {A} (l : list A) : list (A * A) :=
  match l with
  | [] => []
  | x :: l' => map (fun y => (x, y)) l' ++ pairs l'
  end.

(** The dictionary [node_payloads] of [_build_graph] once the nodes are made. *)
Definition node_payloads (results : odict (list Hit)) (score_threshold : Q)
    (max_nodes_per_collection : Z) : gmap string Payload :=
  na_payloads
    (fold_left
       (fun acc kv =>
          graph_nodes_of kv.1 score_threshold max_nodes_per_collection kv.2 0 acc)
       results (mkNodeAcc [] ∅ 0 0)).

(** [_build_graph]. The edge threshold is the float the caller passes. The
    pairs are taken in the order of [node_list], here the order in which the
    nodes were made; the source builds [node_list] from a set. *)
Definition _build_graph (results : odict (list Hit)) (score_threshold edge_threshold : Q)
    (max_nodes_per_collection : Z) : Graph :=
  let acc :=
    fold_left
      (fun acc kv =>
         graph_nodes_of kv.1 score_threshold max_nodes_per_collection kv.2 0 acc)
      results (mkNodeAcc [] ∅ 0 0) in
  let nodes := na_nodes acc in
  let node_list := map n_id nodes in
  let outcomes :=
    map (fun ij =>
           edge_between edge_threshold ij.1 ij.2
             (default empty_payload (na_payloads acc !! ij.1))
             (default empty_payload (na_payloads acc !! ij.2)))
      (pairs node_list) in
  let edges := omap (fun o => if o is EdgeKept e then Some e else None) outcomes in
  let filtered := omap (fun o => if o is EdgeFiltered then Some tt else None) outcomes in
  mkGraph nodes edges
    (mkGStats (na_total acc) (na_filtered acc) (Z.of_nat (length nodes))
       (Z.of_nat (length edges)) (Z.of_nat (length filtered)))
    (score_threshold, edge_threshold).

(** ** NODE 3: RANK & ENRICH *)

Section RankEnrich.
Context `{Services}.

(** [_verify_and_label]; its bare [except] catches everything. *)
Definition _verify_and_label (candidate : Candidate) : M Candidate :=
  let name := c_name candidate in
  if String.eqb name "" then ret (exploratory candidate)
  else
    try_except
      (let* v := call (EncodeCall "text" name) (encode_text name) in
       if nonempty v && (10 <=? Z.of_nat (length v)) then
         let* results := vector_search "articles" v "text" 10 None in
         let matching :=
           Z.of_nat (length (filter (λ r : Hit,
                                       str_contains (lower name)
                                         (lower (default "" (p_title (h_payload r)))) = true)
                               results)) in
         if 3 <? matching then
           ret (label_candidate candidate "established" "check" (matching * 3))
         else if 0 <? matching then
           ret (label_candidate candidate "emerging" "warning" matching)
         else ret (exploratory candidate)
       else raise "Invalid vector")
      (fun e => ret (exploratory candidate)).

(** MMR SCORING of one collection's results. *)
Definition rerank (s : GraphState) (mmr_lambda : Q) (results : list Hit)
  : Res (list Hit) :=
  match results with
  | [] => Ok []
  | _ =>
    match _apply_mmr np_cosine (take 10 results) mmr_lambda (top_k s) encode_text with
    | Raise e => Raise e
    | Ok selected =>
      Ok (imap (fun i r => mkHit (h_id r) (h_score r) (h_payload r) (h_collection r)
                             (h_diversity_score r) (h_novelty_score r) (h_final_score r)
                             (Some (Z.of_nat i + 1)))
            selected)
    end
  end.

Fixpoint rerank_all (s : GraphState) (mmr_lambda : Q) (all : odict (list Hit))
    (reranked : odict (list Hit)) : Res (odict (list Hit)) :=
  match all with
  | [] => Ok reranked
  | (collection, results) :: all' =>
    match rerank s mmr_lambda results with
    | Raise e => Raise e
    | Ok selected => rerank_all s mmr_lambda all' (od_set collection selected reranked)
    end
  end.

(** DESIGN ASSISTANT *)
Definition design_assistant (s : GraphState) (reranked : odict (list Hit))
  : M (list Candidate) :=
  if include_design_candidates s then
    let is_multimodal := bool_decide (search_case s = 2 ∨ search_case s = 3) in
    let has_rich := _has_rich_results reranked in
    let is_exploratory := _is_exploratory_query (default "" (input_text s)) in
    if is_multimodal || is_exploratory || has_rich then
      try_except
        (let text := default "" (input_text s) in
         let* query_context :=
           (if String.eqb text "" && is_multimodal then
              match bridge_output s with
              | Some bridge => ret (b_interpretation bridge)
              | None => raise "AttributeError"
              end
            else ret text) in
         let* candidates :=
           lift (generate_design_candidates query_context
                   (take 10 (_flatten_results reranked)) 3) in
         for_each candidates
           (fun cand acc => let* labeled := _verify_and_label cand in ret (acc ++ [labeled]))
           [])
        (fun e => let* _ := emit (LogError "Design Assistant error") in ret [])
    else ret []
  else ret [].

(** SUMMARY without a Bridge interpretation: ask the LLM, or fall back to
    the sentence of counts. *)
Definition fresh_summary (s : GraphState) (reranked : odict (list Hit))
  : M (string * option string) :=
  try_except
    (let* x := lift (generate_summary (default "" (input_text s)) reranked) in
     ret (x, None))
    (fun e =>
       let* _ := emit (LogError "Summary error") in
       ret (join "" ["Found "; pretty (Z.of_nat (length (concat reranked.*2)));
                     " results across "; pretty (Z.of_nat (length reranked));
                     " collections."], None)).

(** SUMMARY: the summary and the interpretation. *)
Definition summarize (s : GraphState) (reranked : odict (list Hit))
  : M (string * option string) :=
  if include_summary s then
    match bridge_output s with
    | Some bridge =>
      if negb (String.eqb (b_interpretation bridge) "")
      then ret (b_interpretation bridge, Some (b_interpretation bridge))
      else fresh_summary s reranked
    | None => fresh_summary s reranked
    end
  else ret ("", None).

(** [node_rank_enrich] *)
Definition node_rank_enrich (s : GraphState) : M GraphState :=
  let mmr_lambda := MMR_LAMBDA (alignment s) in
  let* reranked_results := lift (rerank_all s mmr_lambda (all_results s) []) in
  let* design_candidates := design_assistant s reranked_results in
  let* sm := summarize s reranked_results in
  let evidence := if include_evidence s then _collect_evidence reranked_results else [] in
  let neighbor_graph :=
    if include_graph s
    then Some (_build_graph reranked_results (5 # 10) (2 # 10) 5)
    else None in
  ret (update_rank s reranked_results design_candidates sm.1 sm.2 evidence neighbor_graph).

End RankEnrich.

(** ** [app/graph/workflow.py] *)

(** [class ResultItem] of the response. *)
Record ResultItem := mkResultItem {
  ri_id : string;
  ri_collection : string;
  ri_name : string;
  ri_description : string;
  ri_score : Q;
  ri_payload : Payload;
  ri_diversity_score : option Q;
  ri_novelty_score : option Q;
  ri_final_score : option Q;
}.

(** [class QuadrantResults] *)
Record QuadrantResults := mkQuadrant {
  q_proteins : list ResultItem;
  q_articles : list ResultItem;
  q_images : list ResultItem;
  q_experiments : list ResultItem;
  q_structures : list ResultItem;
}.

(** [class EvidenceData]: [confidence] is validated to lie in [0, 1]. *)
Record EvidenceData := mkEvidenceData {
  evd_confidence : Q;
  evd_links : odict string;
}.

(** [class SearchResponse] *)
Record SearchResponse := mkSearchResponse {
  resp_input_type : string;
  resp_processing_time : Q;
  resp_extracted_entities : odict (list string);
  resp_quadrant : QuadrantResults;
  resp_design_candidates : list Candidate;
  resp_evidence : odict EvidenceData;
  resp_neighbor_graph : option (list GNode * list GEdge);
  resp_summary : string;
  resp_needs_clarification : bool;
  resp_divergence_level : option string;
  resp_search_strategy : option string;
}.

(** The arguments of [run_recommendation] that the workflow reads. *)
Record Request := mkRequest {
  arg_text : option string;
  arg_sequence : option string;
  arg_image_path : option string;
  arg_structure_path : option string;
  arg_article_path : option string;
  arg_top_k : Z;
  arg_include_graph : bool;
  arg_include_evidence : bool;
  arg_include_summary : bool;
  arg_include_design_candidates : bool;
  arg_filter_by_genes : bool;
}.

(** [format_results] *)
Definition format_result (collection : string) (r : Hit) : ResultItem :=
  let payload := h_payload r in
  let text200 (o : option string) := str_take 200 (default "" o) in
  let '(name, description) :=
    if decide (collection = "proteins") then
      (default (match default [] (p_gene_names payload) with
                | g :: _ => g
                | [] => "Unknown"
                end)
         (if truthy (p_protein_name payload) then p_protein_name payload else None),
       text200 (p_function payload))
    else if decide (collection = "articles") then
      (default "Untitled" (p_title payload), text200 (p_abstract payload))
    else if decide (collection = "images") then
      (str_take 100 (default "Image" (p_caption payload)), text200 (p_description payload))
    else if decide (collection = "experiments") then
      (default "Experiment" (p_title payload), text200 (p_summary payload))
    else if decide (collection = "structures") then
      (default "Structure"
         (str_or (p_title payload) (Some (default "Structure" (p_pdb_id payload)))),
       String.append "Method: " (default "Unknown" (p_method payload)))
    else (h_id r, "") in
  mkResultItem (h_id r) collection name description (round_nd 4 (h_score r)) payload
    (h_diversity_score r) (h_novelty_score r) (h_final_score r).

Definition format_results (results : list Hit) (collection : string) : list ResultItem :=
  map (format_result collection) results.

(** The upper-case and the lower-case characters below 256: the letters of
    ASCII and of Latin-1, with the ordinal indicators (170, 186) and the micro
    sign (181) in lower case. *)
Definition upper_char (c : ascii) : bool :=
  let n := nat_of_ascii c in
  ((65 <=? n)%nat && (n <=? 90)%nat) ||
  ((192 <=? n)%nat && (n <=? 222)%nat && negb (n =? 215)%nat).

Definition lower_char (c : ascii) : bool :=
  let n := nat_of_ascii c in
  ((97 <=? n)%nat && (n <=? 122)%nat) ||
  (n =? 170)%nat || (n =? 181)%nat || (n =? 186)%nat ||
  ((223 <=? n)%nat && (n <=? 255)%nat && negb (n =? 247)%nat).

(** [str.isupper]: a cased character, and no lower-case one. *)
Fixpoint has_upper (s : string) : bool :=
  match s with
  | EmptyString => false
  | String c s' => upper_char c || has_upper s'
  end.

Fixpoint has_lower (s : string) : bool :=
  match s with
  | EmptyString => false
  | String c s' => lower_char c || has_lower s'
  end.

Definition isupper (s : string) : bool := has_upper s && negb (has_lower s).

(** The entities shown with the response. *)
Definition extracted_entities (s : GraphState) : odict (list string) :=
  let keys := od_keys (concepts s) in
  let base_genes := take 10 (filter (λ k, isupper k && (2 <? str_len k) = true) keys) in
  let base_diseases :=
    take 5 (filter (λ k, str_contains "cancer" (lower k)
                         || str_contains "disease" (lower k) = true) keys) in
  let pick {A} (l base : list A) (n : nat) := match l with [] => base | _ => take n l end in
  let '(gs, ds, ps) :=
    match bridge_output s with
    | Some bridge =>
      let f := b_filters bridge in
      (pick (f_genes f) base_genes 10%nat, pick (f_diseases f) base_diseases 5%nat,
       pick (f_pathways f) [] 5%nat)
    | None => (base_genes, base_diseases, [])
    end in
  [("genes", gs); ("diseases", ds); ("pathways", ps); ("processes", []);
   ("concepts", take 10 keys)].

(** The evidence of the response; [EvidenceData] refuses a confidence
    outside [0, 1]. *)
Fixpoint build_evidence (evidence : odict Evidence) : Res (odict EvidenceData) :=
  match evidence with
  | [] => Ok []
  | (result_id, ev) :: rest =>
    if Qltb (ev_confidence ev) 0 || Qgtb (ev_confidence ev) 1
    then Raise "ValidationError"
    else
      match build_evidence rest with
      | Raise e => Raise e
      | Ok out => Ok ((result_id, mkEvidenceData (ev_confidence ev) (ev_links ev)) :: out)
      end
  end.

(** [build_response]; [elapsed] is [time.time() - start_time]. *)
Definition build_response (s : GraphState) (elapsed : Q) : Res SearchResponse :=
  let get (c : string) := format_results (default [] (od_get c (reranked_results s))) c in
  let quadrant := mkQuadrant (get "proteins") (get "articles") (get "images")
                    (get "experiments") (get "structures") in
  match build_evidence (evidence s) with
  | Raise e => Raise e
  | Ok evidence =>
    Ok (mkSearchResponse (input_type s) (round_nd 3 elapsed) (extracted_entities s)
          quadrant (design_candidates s) evidence
          (option_map (fun g => (g_nodes g, g_edges g)) (neighbor_graph s))
          (summary s) false
          (Some (default "aligned" (if truthy (alignment s) then alignment s else None)))
          (Some (search_strategy s)))
  end.

(** The response of the [except] branch of [run_recommendation]. *)
Definition error_response (e : string) (elapsed : Q) : SearchResponse :=
  mkSearchResponse "error" elapsed [] (mkQuadrant [] [] [] [] []) [] [] None
    (String.append "Error: " e) false None None.

Section Workflow.
Context `{Services}.

(** The text after the article, when one is given, has been processed. *)
Definition effective_text (req : Request) : option string :=
  if truthy (arg_article_path req) then
    match process_article_input (default "" (arg_text req))
            (default "" (arg_article_path req)) with
    | Ok t => Some t
    | Raise _ => arg_text req
    end
  else arg_text req.

(** Create initial state. *)
Definition initial_state (req : Request) : GraphState :=
  create_initial_state (effective_text req) (arg_sequence req) (arg_image_path req)
    (arg_structure_path req) (arg_top_k req) (arg_include_graph req)
    (arg_include_evidence req) (arg_include_summary req)
    (arg_include_design_candidates req) (arg_filter_by_genes req).

(** The compiled workflow: encode, search, rank_enrich. *)
Definition workflow (now : Q) (initial_state : GraphState) : M GraphState :=
  let* s1 := node_encode now initial_state in
  let* s2 := node_search s1 in
  node_rank_enrich s2.

(** [run_recommendation]; [t0] and [t1] are the readings of [time.time()] at
    entry and when the response is built. *)
Definition run_recommendation (req : Request) (t0 t1 : Q) : M SearchResponse :=
  let* r := try_except
              (let* final_state := workflow t0 (initial_state req) in ret (inl final_state))
              (fun e =>
                 let* _ := emit (LogError "WORKFLOW FAILED") in
                 ret (inr (error_response e (t1 - t0)))) in
  match r with
  | inl final_state => lift (build_response final_state (t1 - t0))
  | inr response => ret response
  end.

End Workflow.

(** * The specification's formulas *)

(** From the specification, in exact arithmetic: a category shared by [n]
    items contributes [min(1, n x weight)]. *)
Definition spec_term (weight : Q) (n : nat) : Q :=
  Qmin2 1 (inject_Z (Z.of_nat n) * weight).

(** From the specification: the strength of an edge whose nodes share
    [g] genes, [d] diseases and [p] pathways: the three terms, summed and
    capped at 1. *)
Definition spec_edge_strength (g d p : nat) : Q :=
  Qmin2 1 (spec_term (25 # 100) g + spec_term (3 # 10) d + spec_term (35 # 100) p).

(** The same formulas as the code computes them, on floats: the weight is the
    double nearest to the decimal, and the product and every sum are rounded
    to binary64. *)
Definition float_term (weight : Q) (n : nat) : Q :=
  Qmin2 1 (fmul (inject_Z (Z.of_nat n)) (binary64 weight)).

(** The categories matched by two nodes that share [g] genes, [d] diseases
    and [p] pathways, each with its strength. *)
Definition matched_categories (g d p : nat) : list (string * Q) :=
  (if g is O then [] else [("shared_genes", float_term (25 # 100) g)]) ++
  (if d is O then [] else [("shared_diseases", float_term (3 # 10) d)]) ++
  (if p is O then [] else [("shared_pathways", float_term (35 # 100) p)]).

(** The strength of their edge: the strengths of the matched categories,
    summed from 0 and capped at 1. *)
Definition float_edge_strength (g d p : nat) : Q :=
  Qmin2 1 (fold_left fadd (map snd (matched_categories g d p)) 0%Q).

(** How many genes, diseases and pathways two payloads share: the sizes of
    the intersections of their bridge lists, as sets. *)
Definition shared_counts (pa pb : Payload) : nat * nat * nat :=
  let ba := default (mkBridge [] [] []) (p_normalized_bridge pa) in
  let bb := default (mkBridge [] [] []) (p_normalized_bridge pb) in
  (length (shared (genes ba) (genes bb)),
   length (shared (diseases ba) (diseases bb)),
   length (shared (pathways ba) (pathways bb))).

(** The edge [e] joins the nodes [a] and [b], in one direction or the other. *)
Definition joins (e : GEdge) (a b : string) : Prop :=
  (ed_source e = a ∧ ed_target e = b) ∨ (ed_source e = b ∧ ed_target e = a).

(** The item a result stands for: the result without the three scores that
    [_apply_mmr] writes on it. *)
Definition unmark (r : Hit) : Hit :=
  mkHit (h_id r) (h_score r) (h_payload r) (h_collection r) None None None (h_mmr_rank r).

(** From the specification: the lambda of an alignment label, 0.5 for
    [partial], 0.3 for [divergent], and 0.7 for [aligned] and when there is no
    alignment; the decimals stand for the floats they denote. Every other
    label has 0.7 as well. *)
Definition lambda_of_label (label : option string) : Q :=
  if decide (label = Some "partial") then binary64 (5 # 10)
  else if decide (label = Some "divergent") then binary64 (3 # 10)
  else binary64 (7 # 10).

(** From the specification: the first selected item is the top-scored candidate. *)
Definition first_is_top_scored (results selected : list Hit) : Prop :=
  match selected with
  | first :: _ => ∀ r, r ∈ results -> (h_score r <= h_score first)%Q
  | [] => results = []
  end.

(** The candidates stand in descending order of score, as a similarity
    search returns them. *)
Definition by_descending_score (results : list Hit) : Prop :=
  StronglySorted (fun a b => (h_score b <= h_score a)%Q) results.

(** The world after the events [evs] have been recorded. *)
Definition w_log (w : World) (evs : list Event) : World :=
  mkWorld (w_cache w) (w_trace w ++ evs).

(** The store queries of a trace: collection, vector slot, vector, limit, filter. *)
Definition store_queries (t : list Event)
  : list (string * string * vec * Z * option filter_dict) :=
  omap (fun e => match e with
                 | StoreQuery c slot v k f => Some (c, slot, v, k, f)
                 | _ => None
                 end) t.

(** The fusion queries of a trace, by collection. *)
Definition store_fusions (t : list Event) : list string :=
  omap (fun e => match e with
                 | StoreFusion c _ _ _ _ _ _ => Some c
                 | _ => None
                 end) t.

(** The Bridge calls of a trace. *)
Definition bridge_calls (t : list Event) : list (option string * list MetaItem) :=
  omap (fun e => match e with
                 | BridgeCall user_text metadata => Some (user_text, metadata)
                 | _ => None
                 end) t.

(** The encoder calls of a trace: modality and input. *)
Definition encode_calls (t : list Event) : list (string * string) :=
  omap (fun e => match e with
                 | EncodeCall modality input => Some (modality, input)
                 | _ => None
                 end) t.

(** The errors logged in a trace. *)
Definition logged_errors (t : list Event) : list string :=
  omap (fun e => match e with LogError msg => Some msg | _ => None end) t.

(** From the specification: a top-level error response is one whose input
    type carries the error tag, as [error_response] does. *)
Definition is_error_response (r : SearchResponse) : Prop := resp_input_type r = "error".

(** A request with no usable input: no non-empty trimmed text, no sequence
    longer than 10, no image and no structure reference. *)
Definition no_usable_input `{Services} (req : Request) : Prop :=
  detect_text (initial_state req) = false ∧
  detect_sequence (initial_state req) = false ∧
  detect_image (initial_state req) = false ∧
  detect_structure (initial_state req) = false.

(** Every character of the string is white space. *)
Fixpoint all_space (s : string) : bool :=
  match s with
  | EmptyString => true
  | String c s' => is_space c && all_space s'
  end.

(** A computation that leaves the store and the Bridge alone: whatever it
    records is neither a store query nor a Bridge call. *)
Definition quiet {A} (m : M A) : Prop :=
  ∀ w, ∃ evs,
    w_trace (m w).2 = w_trace w ++ evs ∧
    store_queries evs = [] ∧ store_fusions evs = [] ∧ bridge_calls evs = [].

Section SearchSpec.
Context `{Services}.

(** What [vector_search] returns, and what it records. *)
Definition search_hits (collection : string) (v : vec) (slot : string) (limit : Z)
    (flt : option filter_dict) : list Hit :=
  match query_points collection slot v limit (_build_filter flt) with
  | Ok points => map format_point points
  | Raise _ => []
  end.

Definition search_events (collection : string) (v : vec) (slot : string) (limit : Z)
    (flt : option filter_dict) : list Event :=
  StoreQuery collection slot v limit (_build_filter flt) ::
  match query_points collection slot v limit (_build_filter flt) with
  | Ok _ => []
  | Raise _ => [LogError "Vector search error"]
  end.

(** The five queries of CAS 1. *)
Definition cas1_queries (text_vec : vec) (top_k : Z)
  : list (string * string * vec * Z * option filter_dict) :=
  [("proteins", "text", text_vec, top_k * 2, None);
   ("articles", "text", text_vec, top_k * 2, None);
   ("images", "caption", text_vec, top_k * 2, None);
   ("experiments", "text", text_vec, top_k * 2, None);
   ("structures", "text", text_vec, top_k * 2, None)].

(** The results of CAS 1 for a collection. *)
Definition cas1_hits (text_vec : vec) (top_k : Z) (collection : string) : list Hit :=
  map (set_collection collection)
    (search_hits collection text_vec (vec_name_of collection) (top_k * 2) None).

(** From the specification: the Phase-1 results of a modality are the points
    the store returns for the modality's own vector, under the modality's
    slot of its home collection, each with the score the store gave it. *)
Definition pure_modal_hits (collection modality : string) (v : vec) (top_k : Z)
  : list Hit :=
  match query_points collection modality v (top_k * 2) None with
  | Ok points =>
    map (fun p => mkHit (pt_id p) (pt_score p) (default empty_payload (pt_payload p))
                    (Some collection) None None None None) points
  | Raise _ => []
  end.

(** The Phase-1 entry of a modality's home collection: present when the
    modality is listed and has a vector. *)
Definition phase1_entry (s : GraphState) (mods : list string) (modality collection : string)
  : option (list Hit) :=
  if decide (modality ∈ mods) then
    match vectors s !! modality with
    | Some v => Some (pure_modal_hits collection modality v (top_k s))
    | None => None
    end
  else None.

(** The Phase-1 dictionary, by collection. *)
Definition phase1_lookup (s : GraphState) (mods : list string) (collection : string)
  : option (list Hit) :=
  if decide (collection = "images") then phase1_entry s mods "image" "images"
  else if decide (collection = "proteins") then phase1_entry s mods "sequence" "proteins"
  else if decide (collection = "structures") then phase1_entry s mods "structure" "structures"
  else None.

(** A computation that ends with the empty list, or raises. *)
Definition empty_or_raise (r : Res (list Hit) * World) : Prop :=
  r.1 = Ok [] ∨ ∃ e, r.1 = Raise e.

(** The collection does not answer: every query on it raises. *)
Definition collection_down (collection : string) : Prop :=
  (∀ slot v limit flt, ∃ e, query_points collection slot v limit flt = Raise e) ∧
  (∀ dn dv sn sv fm pl limit flt,
     ∃ e, query_fusion collection dn dv sn sv fm pl limit flt = Raise e).

(** The Bridge answers whatever it is asked. *)
Definition bridge_answers : Prop :=
  ∀ user_text metadata, ∃ b, bridge_cross_modal user_text metadata = Ok b.
End SearchSpec.

(** ** The embedding cache between two requests *)

(** The embedding level as [MultiLevelCache.__init__] sets it up and
    [set_embedding] keeps it: no default time-to-live, and no entry carries
    one. *)
Definition permanent {V} (c : Cache.LRUCache V) : Prop :=
  Cache.wf c ∧ Cache.default_ttl c = None ∧ ∀ k, mjoin (Cache._ttls c !! k) = None.

(** The entry [e] is stored under [key], without time-to-live, and at most
    [n] entries have been used more recently. *)
Definition holds {V} (c : Cache.LRUCache V) (key : string) (e : V) (n : nat) : Prop :=
  Cache.wf c ∧ Cache.default_ttl c = None ∧ mjoin (Cache._ttls c !! key) = None ∧
  ∃ pre post, Cache._cache c = pre ++ (key, e) :: post ∧ (length post <= n)%nat.

(** The embedding level of the shared cache. *)
Definition emb (w : World) : Cache.LRUCache EmbEntry := Cache.embeddings (w_cache w).

(** The key of the LRU dictionary under which [node_encode] looks a
    sequence up: [get_embedding] puts "emb:" before the content hash. *)
Definition sequence_cache_key `{Services} (seq : string) : string :=
  String.append "emb:" (String.append "seq:" (sha256_hex16 (str_take 100 seq))).

(** No call of the sequence encoder is recorded. *)
Definition noseq (evs : list Event) : Prop := ∀ x, EncodeCall "sequence" x ∉ evs.

Definition ok_event (ev : Event) : Prop := ∀ x, ev ≠ EncodeCall "sequence" x.

(** A computation carries the indexed invariant [I] over, [d] cache
    operations further. *)
Definition preserves {A} (I : nat -> World -> Prop) (d : nat) (m : M A) : Prop :=
  ∀ n w, I n w -> I (n + d)%nat (m w).2.

(** While steps other than the sequence step run: the capacity stays [mx],
    the trace since [t0] holds no call of the sequence encoder, and as long
    as fewer than [mx] cache operations have happened the entry is kept. *)
Definition kept (key : string) (e : EmbEntry) (mx : Z) (t0 : list Event) (n : nat)
    (w : World) : Prop :=
  Cache.max_size (emb w) = mx ∧
  (∃ evs, w_trace w = t0 ++ evs ∧ noseq evs) ∧
  (Z.of_nat n < mx -> holds (emb w) key e n).

(** Before the sequence step has run. *)
Definition fresh (mx : Z) (n : nat) (w : World) : Prop :=
  permanent (emb w) ∧ Cache.max_size (emb w) = mx ∧ 1 <= mx.

(** ** What a computation records *)

(** A computation only adds to the trace, and what it adds satisfies [P]. *)
Definition emits {A} (P : list Event -> Prop) (m : M A) : Prop :=
  ∀ w, ∃ evs, w_trace (m w).2 = w_trace w ++ evs ∧ P evs.

(** No call of the Bridge. *)
Definition no_bridge (evs : list Event) : Prop := bridge_calls evs = [].

(** The only use of the store is the verification of a design candidate:
    dense queries on "articles", slot "text", limit 10, without filter. *)
Definition verification_only (evs : list Event) : Prop :=
  bridge_calls evs = [] ∧ store_fusions evs = [] ∧
  ∀ q, q ∈ store_queries evs -> ∃ v, q = ("articles", "text", v, 10, None).

(** The first search of a collection in Phase 3, and what Phase 3 keeps for
    it: a gene filter that leaves nothing is dropped. *)
Definition filtered_or_retried `{Services} (collection : string) (query_vec : vec)
    (limit : Z) (flt : option filter_dict) : list Hit :=
  match search_hits collection query_vec (vec_name_of collection) limit flt, flt with
  | [], Some _ => search_hits collection query_vec (vec_name_of collection) limit None
  | first, _ => first
  end.



Section Phase3Spec.
Context `{Services}.








End Phase3Spec.

(** ** What the ranking writes *)

(** A result carries the three scores of [_apply_mmr]. *)
Definition scored (r : Hit) : Prop :=
  is_Some (h_diversity_score r) ∧ is_Some (h_novelty_score r) ∧ is_Some (h_final_score r).

(** The ranks [1, 2, ..., n]. *)
Definition ranks (n : nat) : list (option Z) :=
  map (fun i => Some (Z.of_nat i + 1)) (seq 0 n).

(** A computation that only records: it leaves the cache alone, and the
    events it appends satisfy [P]. *)
Definition records {A} (P : list Event -> Prop) (m : M A) : Prop :=
  ∀ w, ∃ evs, (m w).2 = w_log w evs ∧ P evs.

(** A computation that records and never raises. *)
Definition returns {A} (P : list Event -> Prop) (m : M A) : Prop :=
  ∀ w, ∃ a evs, m w = (Ok a, w_log w evs) ∧ P evs.

(** The record that [_collect_evidence] keeps for a result. *)
Definition evidence_of (c : string) (r : Hit) : Evidence :=
  mkEvidence (Qmin2 1 (fmul (h_score r) (binary64 (12 # 10))))
    (evidence_links c (h_payload r)) c.

(** The options of a request, as the state carries them. *)
Definition options (s : GraphState) : Z * bool * bool * bool * bool :=
  (top_k s, include_graph s, include_evidence s, include_summary s,
   include_design_candidates s).

(** The five lists of a response. *)
Definition quadrant_lists (q : QuadrantResults) : list (list ResultItem) :=
  [q_proteins q; q_articles q; q_images q; q_experiments q; q_structures q].

(** ** [merge_results] *)








(** The key of the LRU dictionary under which [node_encode] looks a text up. *)
Definition text_cache_key `{Services} (text : string) : string :=
  String.append "emb:" (String.append "text:" (sha256_hex16 text)).

(** What the text step writes when the cache entry [e] is the one it read or
    wrote. *)
Definition text_acc (acc : EncodeAcc) (e : EmbEntry) (hit : bool) : EncodeAcc :=
  mkEncodeAcc (<["text" := default [] (e_vector e)]> (a_vectors acc))
    (<["text_sparse" := default empty_sparse (e_sparse e)]> (a_sparse_vectors acc))
    (default [] (e_concepts e))
    (<["text" := hit]> (a_cache_hits acc)).

(** A candidate carries a confidence label, its icon and an evidence count. *)
Definition labelled (c : Candidate) : Prop :=
  is_Some (c_confidence c) ∧ is_Some (c_confidence_icon c) ∧ is_Some (c_evidence_count c).

(** The design assistant is asked for candidates: they are requested, and
    the request has a modality, or its text is exploratory, or the results
    are rich. *)
Definition assistant_active (s : GraphState) (reranked : odict (list Hit)) : bool :=
  include_design_candidates s &&
  (bool_decide (search_case s = 2 ∨ search_case s = 3)
   || _is_exploratory_query (default "" (input_text s))
   || _has_rich_results reranked).

(** * Fixtures

    Concrete inputs on which the statements below are exercised. *)

(** A cache of capacity 2 after [set a; set b; get a]. *)
Definition demo_ops : list (Cache.Op nat) :=
  [Cache.OpSet "a" 1%nat None 0%Q; Cache.OpSet "b" 2%nat None 0%Q; Cache.OpGet "a" 0%Q].

Definition demo_cache : Cache.LRUCache nat :=
  (Cache.replay demo_ops 0 (Cache.init 2 None) ∅).1.

(** Two results that share exactly the genes TP53 and BRCA1. *)
Definition demo_payload (name : string) (gs : list string) : Payload :=
  mkPayload (Some name) None None None None None None None None None None None None None
    None (Some (mkBridge gs [] [])).

Definition demo_hit (id name : string) (score : Q) (gs : list string) : Hit :=
  mkHit id score (demo_payload name gs) None None None None None.

Definition demo_reranked : odict (list Hit) :=
  [("proteins", [demo_hit "p1" "Cellular tumor antigen p53" (9 # 10) ["TP53"; "BRCA1"; "MDM2"];
                 demo_hit "p2" "Breast cancer type 1 protein" (8 # 10) ["BRCA1"; "ATM"; "TP53"]])].

(** Two results that share exactly three diseases. *)
Definition demo_disease_hit (id name : string) (score : Q) (ds : list string) : Hit :=
  mkHit id score
    (mkPayload (Some name) None None None None None None None None None None None None None
       None (Some (mkBridge [] ds []))) None None None None None.

Definition demo_three_diseases : odict (list Hit) :=
  [("articles",
    [demo_disease_hit "a1" "Li-Fraumeni syndrome" (9 # 10)
       ["breast cancer"; "sarcoma"; "leukemia"; "glioma"];
     demo_disease_hit "a2" "Hereditary cancer" (8 # 10)
       ["leukemia"; "breast cancer"; "sarcoma"]])].

(** An encoder and a similarity for the MMR fixtures: every text has the same
    11-dimensional vector, and any two vectors have similarity 1. *)
Definition demo_encoder (s : string) : Res vec := Ok (repeat 1%Q 11).

Definition demo_cosine (a b : vec) : Q := 1%Q.

(** Two candidates, the better one second. *)
Definition demo_unsorted : list Hit :=
  [demo_hit "low" "Serum albumin" (1 # 10) []; demo_hit "high" "Hemoglobin" (9 # 10) []].

(** What [_apply_mmr] selects from [demo_unsorted] with lambda 0.7 and target 2. *)
Definition demo_selected : list Hit :=
  [mmr_mark (demo_hit "low" "Serum albumin" (1 # 10) []) 1 (1 # 10) (1 # 10);
   mmr_mark (demo_hit "high" "Hemoglobin" (9 # 10) []) 0 0 (33 # 100)].

(** A store of two points per collection whose [articles] collection does not
    answer, encoders that return an 11-dimensional vector, and a Bridge that
    returns no query. *)
Definition demo_points (collection : string) : list Point :=
  [mkPoint (String.append collection "-1") (95 # 100)
     (Some (demo_payload "Cellular tumor antigen p53" ["TP53"]));
   mkPoint (String.append collection "-2") (80 # 100) None].

Definition demo_services : Services :=
  {| sha256_hex16 := fun s => s;
     encode_text := fun _ => Ok (repeat 1%Q 11);
     encode_sequence := fun _ => Ok (repeat (1 # 2)%Q 11);
     encode_image := fun _ => Ok (repeat (1 # 3)%Q 11);
     encode_structure := fun _ => Ok (repeat (1 # 4)%Q 11);
     encode_sparse := fun _ => Ok (SparseList [mkSparse [7] [1%Q]]);
     extract_concepts := fun _ => Ok [];
     np_cosine := demo_cosine;
     query_points := fun c _ _ _ _ =>
       if decide (c = "articles") then Raise "timeout" else Ok (demo_points c);
     query_fusion := fun c _ _ _ _ _ _ _ _ =>
       if decide (c = "articles") then Raise "timeout" else Ok (demo_points c);
     bridge_cross_modal := fun _ _ =>
       Ok (mkBridgeOutput ∅ (mkBridgeFilters [] [] []) (Some "aligned") "Results found.");
     generate_design_candidates := fun _ _ _ => Ok [];
     generate_summary := fun _ _ => Ok "Summary.";
     process_article_input := fun query _ => Ok query |}.

(** The same services with a sequence encoder that raises. *)
Definition demo_failing_services : Services :=
  {| sha256_hex16 := fun s => s;
     encode_text := fun _ => Ok (repeat 1%Q 11);
     encode_sequence := fun _ => Raise "ESM model failure";
     encode_image := fun _ => Ok (repeat (1 # 3)%Q 11);
     encode_structure := fun _ => Ok (repeat (1 # 4)%Q 11);
     encode_sparse := fun _ => Ok (SparseList [mkSparse [7] [1%Q]]);
     extract_concepts := fun _ => Ok [];
     np_cosine := demo_cosine;
     query_points := fun c _ _ _ _ => Ok (demo_points c);
     query_fusion := fun c _ _ _ _ _ _ _ _ => Ok (demo_points c);
     bridge_cross_modal := fun _ _ =>
       Ok (mkBridgeOutput ∅ (mkBridgeFilters [] [] []) (Some "aligned") "Results found.");
     generate_design_candidates := fun _ _ _ => Ok [];
     generate_summary := fun _ _ => Ok "Summary.";
     process_article_input := fun query _ => Ok query |}.

Definition demo_world : World := mkWorld Cache.mlc_init [].

(** States as [node_encode] leaves them: text only; sequence only; text and
    sequence. *)
Definition demo_state (text sequence : option string) (input_type : string) (case : Z)
    (mods : list string) (vs : gmap string vec) : GraphState :=
  update_encode
    (create_initial_state text sequence None None 5 false true true true true)
    input_type case (bool_decide (is_Some text)) (bool_decide (is_Some sequence))
    PrimaryNone mods vs ∅ [] ∅.

Definition demo_cas1 : GraphState :=
  demo_state (Some "p53 tumor suppressor") None "text_only" 1 []
    (<["text" := repeat 1%Q 11]> ∅).

Definition demo_cas2 : GraphState :=
  demo_state None (Some "MEEPQSDPSVEPPLSQETFSDLWKLLPEN") "sequence" 2 ["sequence"]
    (<["sequence" := repeat (1 # 2)%Q 11]> ∅).

Definition demo_cas3 : GraphState :=
  demo_state (Some "p53 tumor suppressor") (Some "MEEPQSDPSVEPPLSQETFSDLWKLLPEN")
    "text_sequence" 3 ["sequence"]
    (<["text" := repeat 1%Q 11]> (<["sequence" := repeat (1 # 2)%Q 11]> ∅)).

(** Initial states of a text-only request, of a request without usable
    input, and of a sequence-only request. *)
Definition demo_text_request : Request :=
  mkRequest (Some "p53 tumor suppressor") None None None None 5 false true true true true.

Definition demo_text_initial : GraphState :=
  create_initial_state (Some "p53 tumor suppressor") None None None 5
    false true true true true.

Definition demo_empty_request : Request :=
  mkRequest (Some "   ") (Some "MKT") None None None 5 true true true true true.

Definition demo_sequence_request : Request :=
  mkRequest None (Some "MEEPQSDPSVEPPLSQETFSDLWKLLPEN") None None None 5
    false true true true true.

(** A sequence together with an image. *)
Definition demo_sequence_image_request : Request :=
  mkRequest None (Some "MEEPQSDPSVEPPLSQETFSDLWKLLPEN") (Some "cell.png") None None 5
    false true true true true.

(** The services with an image encoder that raises. *)
Definition demo_failing_image_services : Services :=
  {| sha256_hex16 := @sha256_hex16 demo_services;
     encode_text := @encode_text demo_services;
     encode_sequence := @encode_sequence demo_services;
     encode_image := fun _ => Raise "CLIP model failure";
     encode_structure := @encode_structure demo_services;
     encode_sparse := @encode_sparse demo_services;
     extract_concepts := @extract_concepts demo_services;
     np_cosine := @np_cosine demo_services;
     query_points := @query_points demo_services;
     query_fusion := @query_fusion demo_services;
     bridge_cross_modal := @bridge_cross_modal demo_services;
     generate_design_candidates := @generate_design_candidates demo_services;
     generate_summary := @generate_summary demo_services;
     process_article_input := @process_article_input demo_services |}.

(** Two sequences that share their first 100 characters, and services whose
    sequence encoder tells them apart. *)
Definition demo_prefix : string := string_of_list_ascii (repeat "M"%char 100).

Definition demo_long_a : string := String.append demo_prefix "A".

Definition demo_long_b : string := String.append demo_prefix "CDE".

Definition demo_length_services : Services :=
  {| sha256_hex16 := @sha256_hex16 demo_services;
     encode_text := @encode_text demo_services;
     encode_sequence := fun s => Ok [inject_Z (str_len s)];
     encode_image := @encode_image demo_services;
     encode_structure := @encode_structure demo_services;
     encode_sparse := @encode_sparse demo_services;
     extract_concepts := @extract_concepts demo_services;
     np_cosine := @np_cosine demo_services;
     query_points := @query_points demo_services;
     query_fusion := @query_fusion demo_services;
     bridge_cross_modal := @bridge_cross_modal demo_services;
     generate_design_candidates := @generate_design_candidates demo_services;
     generate_summary := @generate_summary demo_services;
     process_article_input := @process_article_input demo_services |}.

Definition demo_long_state (seq : string) : GraphState :=
  create_initial_state None (Some seq) None None 5 false true true true true.

(** A Bridge answer that names a gene, and a store that finds nothing under
    a filter. *)
Definition demo_gene_bridge : BridgeOutput :=
  mkBridgeOutput ∅ (mkBridgeFilters ["TP53"] [] []) (Some "aligned") "Results found.".

Definition demo_filtering_services : Services :=
  {| sha256_hex16 := fun s => s;
     encode_text := fun _ => Ok (repeat 1%Q 11);
     encode_sequence := fun _ => Ok (repeat (1 # 2)%Q 11);
     encode_image := fun _ => Ok (repeat (1 # 3)%Q 11);
     encode_structure := fun _ => Ok (repeat (1 # 4)%Q 11);
     encode_sparse := fun _ => Ok (SparseList [mkSparse [7] [1%Q]]);
     extract_concepts := fun _ => Ok [];
     np_cosine := demo_cosine;
     query_points := fun c _ _ _ flt =>
       match flt with Some _ => Ok [] | None => Ok (demo_points c) end;
     query_fusion := fun c _ _ _ _ _ _ _ _ => Ok (demo_points c);
     bridge_cross_modal := fun _ _ => Ok demo_gene_bridge;
     generate_design_candidates := fun _ _ _ => Ok [];
     generate_summary := fun _ _ => Ok "Summary.";
     process_article_input := fun query _ => Ok query |}.

(** A state as [node_search] leaves it, with two proteins found. *)
Definition demo_searched : GraphState :=
  update_search demo_cas1 [] [] [] None [] demo_reranked "CAS_1" None.

(** A state as [node_search] leaves it after a Bridge that found the results
    divergent. *)
Definition demo_divergent : GraphState :=
  update_search demo_cas1 [] [] [] None [] demo_reranked "CAS_2" (Some "divergent").

(** A text request for one result per collection that declines the graph,
    the evidence, the summary and the design candidates. *)
Definition demo_bare_request : Request :=
  mkRequest (Some "p53 tumor suppressor") None None None None 1 false false false false true.

(** A request with text and a sequence. *)
Definition demo_text_sequence_request : Request :=
  mkRequest (Some "p53 tumor suppressor") (Some "MEEPQSDPSVEPPLSQETFSDLWKLLPEN") None None
    None 5 false true true true true.

(** * Properties *)

(** ** Comparisons on rationals *)

Lemma Qgtb_lt x y : Qgtb x y = true <-> (y < x)%Q.
Proof.
  unfold Qgtb. rewrite Qgt_alt. destruct (x ?= y)%Q; split; congruence.
Qed.

Lemma Qgtb_le x y : Qgtb x y = false <-> (x <= y)%Q.
Proof.
  unfold Qgtb. rewrite Qle_alt. destruct (x ?= y)%Q; split; congruence.
Qed.

(** ** Ordered dictionaries *)

Section OrderedDictFacts.
Context {V : Type}.
Implicit Types (d : odict V) (k : string) (v : V).

Lemma od_get_None k d : od_get k d = None <-> k ∉ od_keys d.
Proof.
  induction d as [|[k' v] d IH]; simpl.
  - split; [intros _; apply not_elem_of_nil | done].
  - rewrite not_elem_of_cons. case_decide; [|tauto].
    split; [done | tauto].
Qed.


Lemma od_get_Some_elem k v d : od_get k d = Some v -> k ∈ od_keys d.
Proof.
  intros H. destruct (decide (k ∈ od_keys d)) as [|Hn]; [done|].
  apply od_get_None in Hn. congruence.
Qed.


Lemma od_keys_pop k d : od_keys (od_pop k d) = filter (λ x, x ≠ k) (od_keys d).
Proof.
  unfold od_keys. induction d as [|[k' v] d IH]; [done|].
  cbn [od_pop]. rewrite fmap_cons, filter_cons. cbn [fst].
  destruct (decide (k = k')) as [->|Hne].
  - rewrite decide_False by (intros H; by apply H). done.
  - rewrite decide_True by congruence. rewrite fmap_cons. cbn [fst]. by rewrite IH.
Qed.


Lemma od_pop_notin k d : k ∉ od_keys d -> od_pop k d = d.
Proof.
  induction d as [|[k' v] d IH]; simpl; [done|].
  rewrite not_elem_of_cons. intros [H1 H2].
  case_decide; [done|]. by rewrite IH.
Qed.


Lemma od_get_pop_eq k d : od_get k (od_pop k d) = None.
Proof.
  induction d as [|[k' v] d IH]; simpl; [done|].
  case_decide; [done|]. simpl. by case_decide.
Qed.


Lemma od_get_pop_ne k k' d : k ≠ k' -> od_get k (od_pop k' d) = od_get k d.
Proof.
  intros Hne. induction d as [|[k2 v] d IH]; simpl; [done|].
  destruct (decide (k' = k2)) as [->|]; simpl.
  - by rewrite decide_False.
  - by rewrite IH.
Qed.


Lemma od_get_app k d1 d2 :
  od_get k (d1 ++ d2) = match od_get k d1 with Some v => Some v | None => od_get k d2 end.
Proof.
  induction d1 as [|[k' v] d1 IH]; simpl; [done|]. by case_decide.
Qed.


Lemma od_pop_length k d : (length (od_pop k d) <= length d)%nat.
Proof.
  induction d as [|[k' v] d IH]; simpl; [lia|]. case_decide; simpl; lia.
Qed.


Lemma od_pop_NoDup k d : NoDup (od_keys d) -> NoDup (od_keys (od_pop k d)).
Proof. rewrite od_keys_pop. apply NoDup_filter. Qed.

End OrderedDictFacts.

Section OrderedDictMore.
Context {V : Type}.
Implicit Types (d : odict V) (k : string) (v : V).

Lemma od_set_notin k v d : k ∉ od_keys d -> od_set k v d = d ++ [(k, v)].
Proof.
  induction d as [|[k' v'] d IH]; simpl; [done|].
  rewrite not_elem_of_cons. intros [Hne Hni].
  rewrite decide_False by done. by rewrite IH.
Qed.

Lemma od_keys_app d1 d2 : od_keys (d1 ++ d2) = od_keys d1 ++ od_keys d2.
Proof. unfold od_keys. apply fmap_app. Qed.

Lemma od_get_last k v d : k ∉ od_keys d -> od_get k (d ++ [(k, v)]) = Some v.
Proof.
  intros Hni. rewrite od_get_app. apply od_get_None in Hni. rewrite Hni.
  simpl. by rewrite decide_True.
Qed.

Lemma od_get_snoc_ne k k' v d : k ≠ k' -> od_get k (d ++ [(k', v)]) = od_get k d.
Proof.
  intros Hne. rewrite od_get_app. destruct (od_get k d); [done|].
  simpl. by rewrite decide_False.
Qed.

Lemma od_get_drop k v n d :
  NoDup (od_keys d) -> od_get k (drop n d) = Some v -> od_get k d = Some v.
Proof.
  revert d. induction n as [|n IH]; intros d Hnd; [by rewrite drop_0|].
  destruct d as [|[k' v'] d]; [done|]. simpl.
  intros Hg. unfold od_keys in Hnd. rewrite fmap_cons in Hnd.
  apply NoDup_cons in Hnd as [Hni Hnd].
  case_decide as Heq.
  - subst k'. exfalso. apply Hni.
    apply od_get_Some_elem in Hg. unfold od_keys in Hg.
    rewrite fmap_drop in Hg. eapply subseteq_drop, Hg.
  - by apply IH.
Qed.

Lemma od_keys_drop n d : od_keys (drop n d) = drop n (od_keys d).
Proof. unfold od_keys. apply fmap_drop. Qed.

Lemma od_pop_head k v d : k ∉ od_keys d -> od_pop k ((k, v) :: d) = d.
Proof. intros Hni. simpl. rewrite decide_True by done. by apply od_pop_notin. Qed.

Lemma od_pop_swap_get k k' d :
  k ≠ k' -> od_get k d = od_get k (od_pop k' d).
Proof. intros. by rewrite od_get_pop_ne. Qed.

Lemma od_keys_pop_notin k d : k ∉ od_keys (od_pop k d).
Proof.
  rewrite od_keys_pop. intros Hin. apply list_elem_of_filter in Hin. by destruct Hin.
Qed.
End OrderedDictMore.

(** ** The LRU cache *)

Section CacheFacts.
Context {V : Type}.
Implicit Types (c : Cache.LRUCache V) (k key : string) (v : V).

Lemma evict_spec fuel c :
  (length (Cache._cache c) < fuel)%nat ->
  NoDup (od_keys (Cache._cache c)) ->
  1 <= Cache.max_size c ->
  ∃ c', Cache.evict fuel c = (Ok tt, c') ∧
        Cache.max_size c' = Cache.max_size c ∧
        Cache.default_ttl c' = Cache.default_ttl c ∧
        Cache._cache c' = drop (Cache.overflow c) (Cache._cache c) ∧
        ∀ k, k ∈ od_keys (Cache._cache c') ->
             Cache._timestamps c' !! k = Cache._timestamps c !! k ∧
             Cache._ttls c' !! k = Cache._ttls c !! k.
Proof.
  revert c. induction fuel as [|fuel IH]; intros c Hlen Hnd Hmax; [lia|].
  simpl. destruct (Z.leb_spec (Cache.max_size c) (Z.of_nat (length (Cache._cache c))))
    as [Hfull|Hroom].
  - destruct (Cache._cache c) as [|[k0 v0] rest] eqn:Hc; [simpl in Hfull; lia|].
    unfold od_keys in Hnd. rewrite fmap_cons in Hnd. apply NoDup_cons in Hnd as [Hni Hnd].
    destruct (IH (Cache._remove c k0)) as (c' & He & Hm & Hd & Hca & Hts).
    + simpl. rewrite Hc, od_pop_head by done. simpl in Hlen. lia.
    + simpl. by rewrite Hc, od_pop_head.
    + done.
    + exists c'. split; [done|]. split; [done|]. split; [done|].
      assert (Hrem : Cache._cache (Cache._remove c k0) = rest)
        by (simpl; by rewrite Hc, od_pop_head).
      split.
      * rewrite Hca, Hrem. unfold Cache.overflow. rewrite Hrem, Hc. simpl Cache.max_size.
        replace (Z.to_nat (Z.of_nat (length ((k0, v0) :: rest)) - Cache.max_size c + 1))
          with (S (Z.to_nat (Z.of_nat (length rest) - Cache.max_size c + 1)))
          by (simpl length in *; lia).
        done.
      * intros k Hk. destruct (Hts k Hk) as [H1 H2]. rewrite H1, H2. simpl.
        assert (k ≠ k0).
        { intros ->. apply Hni. rewrite Hca, Hrem in Hk.
          rewrite od_keys_drop in Hk. eapply subseteq_drop, Hk. }
        by rewrite !lookup_delete_ne.
  - exists c. repeat split; try done.
    unfold Cache.overflow. replace (Z.to_nat _) with 0%nat by lia. by rewrite drop_0.
Qed.
Lemma set_spec c key v ttl now :
  Cache.wf c -> 1 <= Cache.max_size c ->
  let base := od_pop key (Cache._cache c) in
  let n := Z.to_nat (Z.of_nat (length base) - Cache.max_size c + 1) in
  ∃ c', Cache.set c key v ttl now = (Ok tt, c') ∧
        Cache.max_size c' = Cache.max_size c ∧
        Cache.default_ttl c' = Cache.default_ttl c ∧
        Cache._cache c' = drop n base ++ [(key, v)] ∧
        Cache._timestamps c' !! key = Some now ∧
        Cache._ttls c' !! key
          = Some (if ttl is Some t then Some t else Cache.default_ttl c) ∧
        (∀ k, k ≠ key ->  k ∈ od_keys (drop n base) ->
              Cache._timestamps c' !! k = Cache._timestamps c !! k ∧
              Cache._ttls c' !! k = Cache._ttls c !! k) ∧
        Cache.wf c'.
Proof.
  intros [Hnd Hsz] Hmax base n.
  set (c1 := if od_get key (Cache._cache c) is Some _ then Cache._remove c key else c).
  assert (Hc1 : Cache._cache c1 = base).
  { unfold c1, base. destruct (od_get key (Cache._cache c)) eqn:Hg; [done|].
    apply od_get_None in Hg. by rewrite od_pop_notin. }
  assert (Hm1 : Cache.max_size c1 = Cache.max_size c)
    by (unfold c1; by destruct (od_get key (Cache._cache c))).
  assert (Hd1 : Cache.default_ttl c1 = Cache.default_ttl c)
    by (unfold c1; by destruct (od_get key (Cache._cache c))).
  assert (Hts1 : ∀ k, k ≠ key ->
            Cache._timestamps c1 !! k = Cache._timestamps c !! k ∧
            Cache._ttls c1 !! k = Cache._ttls c !! k).
  { intros k Hk. unfold c1. destruct (od_get key (Cache._cache c)); [|done].
    simpl. by rewrite !lookup_delete_ne. }
  assert (Hnd1 : NoDup (od_keys (Cache._cache c1)))
    by (rewrite Hc1; by apply od_pop_NoDup).
  destruct (evict_spec (S (length (Cache._cache c1))) c1) as (c2 & He & Hm2 & Hd2 & Hc2 & Hts2);
    [lia | done | lia |].
  assert (Hov : Cache.overflow c1 = n) by (unfold Cache.overflow, n; by rewrite Hc1, Hm1).
  rewrite Hov, Hc1 in Hc2.
  assert (Hni : key ∉ od_keys (drop n base)).
  { rewrite od_keys_drop. intros Hin. apply subseteq_drop in Hin.
    by apply od_keys_pop_notin in Hin. }
  unfold Cache.set. fold c1. rewrite He. eexists. split; [reflexivity|]. simpl.
  rewrite Hc2, od_set_notin by done.
  split; [congruence|]. split; [congruence|]. split; [done|].
  split; [by rewrite lookup_insert_eq|].
  split; [rewrite lookup_insert_eq; by rewrite Hd2, Hd1|].
  split.
  - intros k Hk Hin. rewrite !lookup_insert_ne by done.
    destruct (Hts2 k) as [H1 H2]; [by rewrite Hc2|].
    destruct (Hts1 k Hk) as [H3 H4]. split; congruence.
  - unfold Cache.wf. simpl. split.
    + rewrite od_keys_app. simpl. apply NoDup_app. split; [|split].
      * rewrite od_keys_drop. eapply sublist_NoDup; [|apply sublist_drop].
        by rewrite <- Hc1.
      * intros x Hx Hx'. apply list_elem_of_singleton in Hx'. by subst.
      * apply NoDup_singleton.
    + rewrite length_app, length_drop. simpl. rewrite Hm2, Hm1.
      assert (length base <= length (Cache._cache c))%nat by apply od_pop_length.
      unfold n. lia.
Qed.
Lemma get_miss c key now :
  od_get key (Cache._cache c) = None -> Cache.get c key now = (None, c).
Proof. intros Hg. unfold Cache.get. by rewrite Hg. Qed.

Lemma get_hit c key v now :
  od_get key (Cache._cache c) = Some v ->
  (∀ ttl, mjoin (Cache._ttls c !! key) = Some ttl ->
          (now - default 0%Q (Cache._timestamps c !! key) <= inject_Z ttl)%Q) ->
  Cache.get c key now =
    (Some v, Cache.mkLRUCache (Cache.max_size c) (Cache.default_ttl c)
               (od_pop key (Cache._cache c) ++ [(key, v)])
               (Cache._timestamps c) (Cache._ttls c)).
Proof.
  intros Hg Hlive. unfold Cache.get, od_move_to_end. rewrite Hg.
  destruct (mjoin (Cache._ttls c !! key)) as [ttl|]; [|done].
  specialize (Hlive ttl eq_refl). apply Qgtb_le in Hlive. by rewrite Hlive.
Qed.

Lemma get_expired c key v ttl now :
  od_get key (Cache._cache c) = Some v ->
  mjoin (Cache._ttls c !! key) = Some ttl ->
  (inject_Z ttl < now - default 0%Q (Cache._timestamps c !! key))%Q ->
  Cache.get c key now = (None, Cache._remove c key).
Proof.
  intros Hg Httl Hage. unfold Cache.get. rewrite Hg, Httl.
  apply Qgtb_lt in Hage. by rewrite Hage.
Qed.

Lemma od_pop_shorter key v (d : odict V) :
  od_get key d = Some v -> (length (od_pop key d) < length d)%nat.
Proof.
  induction d as [|[k' v'] d IH]; [done|]. simpl. case_decide.
  - intros _. pose proof (od_pop_length key d). lia.
  - intros Hg. simpl. apply IH in Hg. lia.
Qed.

Lemma move_wf c key v :
  Cache.wf c -> od_get key (Cache._cache c) = Some v ->
  Cache.wf (Cache.mkLRUCache (Cache.max_size c) (Cache.default_ttl c)
              (od_move_to_end key (Cache._cache c)) (Cache._timestamps c) (Cache._ttls c)).
Proof.
  intros [Hnd Hsz] Hg. unfold od_move_to_end. rewrite Hg. split; simpl.
  - rewrite od_keys_app. apply NoDup_app. split; [by apply od_pop_NoDup|]. split.
    + intros x Hx Hx'. simpl in Hx'. apply list_elem_of_singleton in Hx'. subst.
      by apply od_keys_pop_notin in Hx.
    + apply NoDup_singleton.
  - rewrite length_app. simpl. pose proof (od_pop_shorter key v _ Hg). lia.
Qed.

Lemma remove_wf c key : Cache.wf c -> Cache.wf (Cache._remove c key).
Proof.
  intros [Hnd Hsz]. split; simpl; [by apply od_pop_NoDup|].
  pose proof (od_pop_length key (Cache._cache c)). lia.
Qed.

Lemma get_wf c key now : Cache.wf c -> Cache.wf (Cache.get c key now).2.
Proof.
  intros Hwf. unfold Cache.get.
  destruct (od_get key (Cache._cache c)) as [v|] eqn:Hg; [|done].
  pose proof (move_wf c key v Hwf Hg). pose proof (remove_wf c key Hwf).
  destruct (mjoin (Cache._ttls c !! key)); [|done].
  by destruct (Qgtb _ _).
Qed.

Lemma Qminus_self_le (now : Q) (t : Z) : 0 <= t -> (now - now <= inject_Z t)%Q.
Proof.
  intros Ht. assert (Hz : (now - now == 0)%Q) by ring. rewrite Hz.
  change 0%Q with (inject_Z 0). by rewrite <- Zle_Qle.
Qed.
Lemma sorted_sublist {A} (R : relation A) (l l' : list A) :
  StronglySorted R l -> l' `sublist_of` l -> StronglySorted R l'.
Proof.
  intros Hs Hsub. revert Hs. induction Hsub as [|x l1 l2 Hsub IH|x l1 l2 Hsub IH];
    intros Hs; [constructor| |].
  - apply StronglySorted_cons in Hs as [Hall Hs]. apply StronglySorted_cons.
    split; [|by apply IH]. rewrite Forall_forall in *.
    intros y Hy. apply Hall. by eapply elem_of_sublist.
  - apply StronglySorted_cons in Hs as [_ Hs]. by apply IH.
Qed.

Lemma sorted_insert_other (lu : gmap string nat) key t (l : list string) :
  StronglySorted (Cache.older lu) l -> key ∉ l ->
  StronglySorted (Cache.older (<[key := t]> lu)) l.
Proof.
  induction 1 as [|x l Hs IH Hall]; intros Hni; [constructor|].
  apply not_elem_of_cons in Hni as [Hne Hni]. constructor; [by apply IH|].
  rewrite Forall_forall in *. intros y Hy.
  destruct (Hall y Hy) as (n & m & Hn & Hm & Hlt). exists n, m.
  rewrite !lookup_insert_ne; [done| |done]. intros ->. by apply Hni.
Qed.

Lemma sorted_snoc (lu : gmap string nat) key (l : list string) :
  StronglySorted (Cache.older lu) l ->
  (∀ k, k ∈ l -> Cache.older lu k key) ->
  StronglySorted (Cache.older lu) (l ++ [key]).
Proof.
  intros Hs Hall. apply StronglySorted_app. split; [|split].
  - intros x y Hx Hy. apply list_elem_of_singleton in Hy. subst. by apply Hall.
  - done.
  - repeat constructor.
Qed.

(** Using [key] at [tick] on a list that no longer holds it. *)
Lemma replay_inv_use tick (lu : gmap string nat) key (l : list string) :
  StronglySorted (Cache.older lu) l ->
  (∀ k, k ∈ l -> ∃ n, lu !! k = Some n ∧ (n < tick)%nat) ->
  key ∉ l ->
  StronglySorted (Cache.older (<[key := tick]> lu)) (l ++ [key]) ∧
  ∀ k, k ∈ l ++ [key] -> ∃ n, <[key := tick]> lu !! k = Some n ∧ (n < S tick)%nat.
Proof.
  intros Hs Hold Hni. split.
  - apply sorted_snoc; [by apply sorted_insert_other|].
    intros k Hk. destruct (Hold k Hk) as (n & Hn & Hlt).
    exists n, tick. rewrite lookup_insert_eq, lookup_insert_ne; [done|].
    intros ->. by apply Hni.
  - intros k Hk. apply elem_of_app in Hk as [Hk|Hk].
    + destruct (Hold k Hk) as (n & Hn & Hlt). exists n.
      rewrite lookup_insert_ne; [split; [done|lia]|]. intros ->. by apply Hni.
    + apply list_elem_of_singleton in Hk. subst. exists tick.
      rewrite lookup_insert_eq. split; [done|lia].
Qed.

Lemma replay_inv_step tick c lu (op : Cache.Op V) :
  1 <= Cache.max_size c ->
  Cache.replay_inv tick c lu ->
  Cache.replay_inv (S tick) (Cache.step c op)
    (if Cache.used_key c op is Some k then <[k := tick]> lu else lu) ∧
  Cache.max_size (Cache.step c op) = Cache.max_size c ∧
  Cache.default_ttl (Cache.step c op) = Cache.default_ttl c.
Proof.
  intros Hmax (Hwf & Hs & Hold).
  assert (Hweaken : ∀ l : list string,
             (∀ k, k ∈ l -> ∃ n, lu !! k = Some n ∧ (n < tick)%nat) ->
             ∀ k, k ∈ l -> ∃ n, lu !! k = Some n ∧ (n < S tick)%nat).
  { intros l Hl k Hk. destruct (Hl k Hk) as (n & ? & ?). exists n. split; [done|lia]. }
  assert (Hpop : ∀ key, od_keys (od_pop key (Cache._cache c))
                        `sublist_of` od_keys (Cache._cache c)).
  { intros key. rewrite od_keys_pop. apply sublist_filter. }
  destruct op as [key now|key v ttl now]; simpl.
  - (* get *)
    unfold Cache.get.
    destruct (od_get key (Cache._cache c)) as [v|] eqn:Hg; simpl.
    + assert (Hhit :
          Cache.replay_inv (S tick)
            (Cache.mkLRUCache (Cache.max_size c) (Cache.default_ttl c)
               (od_move_to_end key (Cache._cache c)) (Cache._timestamps c) (Cache._ttls c))
            (<[key := tick]> lu)).
      { split; [by eapply move_wf|]. simpl.
        unfold od_move_to_end. rewrite Hg, od_keys_app. simpl.
        apply replay_inv_use.
        - eapply sorted_sublist; [exact Hs|apply Hpop].
        - intros k Hk. apply Hold. eapply elem_of_sublist; [exact Hk|apply Hpop].
        - apply od_keys_pop_notin. }
      destruct (mjoin (Cache._ttls c !! key)) as [t|]; [|done].
      destruct (Qgtb _ _); [|done]. simpl. split; [|done].
      split; [by apply remove_wf|]. simpl. split.
      * eapply sorted_sublist; [exact Hs|apply Hpop].
      * apply Hweaken. intros k Hk. apply Hold.
        eapply elem_of_sublist; [exact Hk|apply Hpop].
    + split; [|done]. split; [done|]. split; [done|]. by apply Hweaken.
  - (* set *)
    destruct (set_spec c key v ttl now Hwf Hmax)
      as (c' & Hset & Hm & Hd & Hc & _ & _ & _ & Hwf').
    rewrite Hset. simpl. split; [|done]. split; [done|].
    rewrite Hc, od_keys_app. simpl.
    assert (Hsub : od_keys (drop
                     (Z.to_nat (Z.of_nat (length (od_pop key (Cache._cache c)))
                                - Cache.max_size c + 1))
                     (od_pop key (Cache._cache c)))
                   `sublist_of` od_keys (Cache._cache c)).
    { rewrite od_keys_drop. etrans; [apply sublist_drop|apply Hpop]. }
    apply replay_inv_use.
    + eapply sorted_sublist; [exact Hs|exact Hsub].
    + intros k Hk. apply Hold. eapply elem_of_sublist; [exact Hk|exact Hsub].
    + intros Hin. rewrite od_keys_drop in Hin. apply subseteq_drop in Hin.
      by apply od_keys_pop_notin in Hin.
Qed.
Lemma replay_sound (ops : list (Cache.Op V)) tick c lu :
  1 <= Cache.max_size c ->
  Cache.replay_inv tick c lu ->
  Cache.replay_inv (tick + length ops) (Cache.replay ops tick c lu).1
    (Cache.replay ops tick c lu).2 ∧
  Cache.max_size (Cache.replay ops tick c lu).1 = Cache.max_size c ∧
  Cache.default_ttl (Cache.replay ops tick c lu).1 = Cache.default_ttl c.
Proof.
  revert tick c lu. induction ops as [|op ops IH]; intros tick c lu Hmax Hinv; simpl.
  - by rewrite Nat.add_0_r.
  - destruct (replay_inv_step tick c lu op Hmax Hinv) as (Hinv' & Hm & Hd).
    destruct (IH (S tick) (Cache.step c op)
                (if Cache.used_key c op is Some k then <[k := tick]> lu else lu))
      as (H1 & H2 & H3); [by rewrite Hm|done|].
    replace (tick + S (length ops))%nat with (S tick + length ops)%nat by lia.
    split; [done|]. split; congruence.
Qed.

Lemma init_inv (max : Z) (dttl : option Z) :
  0 <= max -> Cache.replay_inv (V:=V) 0 (Cache.init max dttl) ∅.
Proof.
  intros Hmax. split; [|split]; simpl.
  - split; simpl; [constructor|lia].
  - constructor.
  - intros k Hk. by apply elem_of_nil in Hk.
Qed.

(** C8. LRU cache contract. For every cache reached from an empty one by a
    history of [get]s and [set]s (capacity at least 1): [set(key, v)] succeeds
    and an immediate [get(key)] returns [v]; once the stored time-to-live has
    elapsed, [get(key)] is a miss and removes the entry; and when the cache is
    full and [key] is new, the [set] evicts exactly the key at the head of the
    dictionary, which is the one whose last use ([set], or [get] that hit) is
    older than that of every other key: it then misses, and every other key
    that was a hit still is one, with its value. *)
Theorem lru_cache_contract (ops : list (Cache.Op V)) (max : Z) (dttl : option Z)
    (key : string) (v : V) (ttl : option Z) (now later : Q) :
  1 <= max ->
  let c := (Cache.replay ops 0 (Cache.init max dttl) ∅).1 in
  let last_use := (Cache.replay ops 0 (Cache.init max dttl) ∅).2 in
  ∃ c',
    Cache.set c key v ttl now = (Ok tt, c') ∧
    ((∀ t, Cache.effective_ttl c ttl = Some t -> 0 <= t) ->
     (Cache.get c' key now).1 = Some v) ∧
    (∀ t, Cache.effective_ttl c ttl = Some t -> (inject_Z t < later - now)%Q ->
          Cache.get c' key later = (None, Cache._remove c' key) ∧
          od_get key (Cache._cache (Cache._remove c' key)) = None) ∧
    (Z.of_nat (length (Cache._cache c)) = max -> key ∉ od_keys (Cache._cache c) ->
     ∃ lru,
       Cache.lru_key c = Some lru ∧
       (∀ k, k ∈ od_keys (Cache._cache c) -> k ≠ lru -> Cache.older last_use lru k) ∧
       od_keys (Cache._cache c') = tail (od_keys (Cache._cache c)) ++ [key] ∧
       Cache.get c' lru later = (None, c') ∧
       ∀ k, k ∈ od_keys (Cache._cache c) -> k ≠ lru -> Cache.live c k later ->
            is_Some (od_get k (Cache._cache c)) ∧
            (Cache.get c' k later).1 = od_get k (Cache._cache c)).
Proof.
  intros Hmax c last_use.
  destruct (replay_sound ops 0 (Cache.init max dttl) ∅) as (Hinv & Hm & Hd);
    [done|apply init_inv; lia|].
  fold c in Hinv, Hm, Hd. fold last_use in Hinv. simpl in Hm, Hd.
  destruct Hinv as (Hwf & Hsorted & _).
  destruct (set_spec c key v ttl now Hwf) as (c' & Hset & Hm' & Hd' & Hc' & Hts & Httl & Hother & Hwf');
    [lia|].
  exists c'. split; [done|].
  assert (Hni : key ∉ od_keys (drop
                  (Z.to_nat (Z.of_nat (length (od_pop key (Cache._cache c)))
                             - Cache.max_size c + 1))
                  (od_pop key (Cache._cache c)))).
  { rewrite od_keys_drop. intros Hin. apply subseteq_drop in Hin.
    by apply od_keys_pop_notin in Hin. }
  assert (Hget : od_get key (Cache._cache c') = Some v)
    by (rewrite Hc'; by apply od_get_last).
  split; [|split].
  - intros Hpos. erewrite get_hit; [done|exact Hget|].
    intros t. rewrite Httl, Hts. simpl. intros Ht.
    apply Qminus_self_le, Hpos. exact Ht.
  - intros t Heff Hlate. split.
    + eapply get_expired; [exact Hget| |].
      * rewrite Httl. simpl. exact Heff.
      * rewrite Hts. simpl. exact Hlate.
    + simpl. apply od_get_pop_eq.
  - intros Hfull Hnew.
    destruct (Cache._cache c) as [|[lru v0] rest] eqn:Hc; [simpl in Hfull; lia|].
    assert (Hbase : od_pop key ((lru, v0) :: rest) = (lru, v0) :: rest)
      by (by apply od_pop_notin).
    rewrite Hbase in Hc', Hother, Hni.
    replace (Z.to_nat (Z.of_nat (length ((lru, v0) :: rest)) - Cache.max_size c + 1))
      with 1%nat in Hc', Hother, Hni by lia.
    simpl in Hc', Hother, Hni. rewrite drop_0 in Hc', Hother, Hni.
    destruct Hwf as [Hnd _]. rewrite Hc in Hnd.
    unfold od_keys in Hnd, Hsorted. rewrite fmap_cons in Hnd, Hsorted.
    apply NoDup_cons in Hnd as [Hlru Hnd].
    apply StronglySorted_cons in Hsorted as [Hall _].
    assert (Hne : lru ≠ key).
    { intros ->. apply Hnew. unfold od_keys. rewrite fmap_cons. by left. }
    exists lru. split; [by unfold Cache.lru_key; rewrite Hc|].
    split; [|split; [|split]].
    + intros k Hk Hkne. unfold od_keys in Hk. rewrite fmap_cons in Hk.
      apply elem_of_cons in Hk as [->|Hk]; [done|].
      rewrite Forall_forall in Hall. by apply Hall.
    + rewrite Hc', od_keys_app. done.
    + apply get_miss. rewrite Hc', od_get_snoc_ne by done. by apply od_get_None.
    + intros k Hk Hkne [Hsome Hlive].
      unfold od_keys in Hk. rewrite fmap_cons in Hk.
      apply elem_of_cons in Hk as [->|Hk]; [done|].
      assert (Hkkey : k ≠ key).
      { intros ->. apply Hnew. unfold od_keys. rewrite fmap_cons. by right. }
      rewrite Hc in Hsome. split; [done|].
      destruct Hsome as [vk Hvk]. rewrite Hvk.
      assert (Hvk' : od_get k (Cache._cache c') = Some vk).
      { rewrite Hc', od_get_snoc_ne by done. simpl in Hvk.
        by rewrite decide_False in Hvk. }
      destruct (Hother k Hkkey Hk) as [Hts' Httl'].
      erewrite get_hit; [done|exact Hvk'|].
      rewrite Hts', Httl'. exact Hlive.
Qed.
End CacheFacts.

Lemma lru_cache_contract_witness :
  1 <= 2 ∧
  ∃ c', Cache.set demo_cache "c" 3%nat None 0%Q = (Ok tt, c') ∧
        (Cache.get c' "c" 0%Q).1 = Some 3%nat ∧
        Cache.lru_key demo_cache = Some "b" ∧
        Cache.get c' "b" 1%Q = (None, c') ∧
        (Cache.get c' "a" 1%Q).1 = Some 1%nat.
Proof.
  split; [lia|].
  destruct (lru_cache_contract demo_ops 2 None "c" 3%nat None 0%Q 1%Q ltac:(lia))
    as (c' & Hset & Hrt & _ & Hcap).
  exists c'. split; [exact Hset|]. split; [apply Hrt; intros t; discriminate|].
  assert (Hfull : Z.of_nat (length (Cache._cache demo_cache)) = 2) by reflexivity.
  assert (Hnew : "c" ∉ od_keys (Cache._cache demo_cache)).
  { vm_compute. intros Hin. apply list_elem_of_In in Hin. simpl in Hin.
    destruct Hin as [Hin|[Hin|[]]]; discriminate Hin. }
  destruct (Hcap Hfull Hnew) as (lru & Hlru & _ & _ & Hmiss & Hhits).
  assert (lru = "b") as -> by (vm_compute in Hlru; congruence).
  split; [exact Hlru|]. split; [exact Hmiss|].
  destruct (Hhits "a") as [_ Ha].
  - vm_compute. right. left.
  - discriminate.
  - split; [vm_compute; eauto|]. intros t. vm_compute. discriminate.
  - rewrite Ha. reflexivity.
Defined.

(** ** The neighbour graph *)

Lemma Qltb_lt x y : Qltb x y = true <-> (x < y)%Q.
Proof. apply Qgtb_lt. Qed.

Lemma Qltb_le x y : Qltb x y = false <-> (y <= x)%Q.
Proof. apply Qgtb_le. Qed.

Lemma Qgtb_comp x x' y y' : (x == x')%Q -> (y == y')%Q -> Qgtb x y = Qgtb x' y'.
Proof. intros Hx Hy. unfold Qgtb. by rewrite Hx, Hy. Qed.

Lemma Qmin2_comp x x' y y' :
  (x == x')%Q -> (y == y')%Q -> (Qmin2 x y == Qmin2 x' y')%Q.
Proof.
  intros Hx Hy. unfold Qmin2, Qltb. rewrite (Qgtb_comp x x' y y' Hx Hy).
  by destruct (Qgtb x' y').
Qed.

Lemma Qmin2_le_l x y : (Qmin2 x y <= x)%Q.
Proof.
  unfold Qmin2. destruct (Qltb y x) eqn:Hlt; [|apply Qle_refl].
  apply Qltb_lt in Hlt. by apply Qlt_le_weak.
Qed.

Lemma Qmin2_le_r x y : (Qmin2 x y <= y)%Q.
Proof.
  unfold Qmin2. destruct (Qltb y x) eqn:Hlt; [apply Qle_refl|].
  by apply Qltb_le in Hlt.
Qed.

Lemma round_half_even_comp x y : (x == y)%Q -> round_half_even x = round_half_even y.
Proof.
  intros Hxy. unfold round_half_even. rewrite (Qfloor_comp x y Hxy).
  assert (Hc : ((x - inject_Z (Qfloor y)) ?= (1 # 2))%Q
               = ((y - inject_Z (Qfloor y)) ?= (1 # 2))%Q) by (by rewrite Hxy).
  by rewrite Hc.
Qed.

Lemma round_nd_comp n x y : (x == y)%Q -> round_nd n x = round_nd n y.
Proof.
  intros Hxy. unfold round_nd. apply Qred_complete.
  rewrite (round_half_even_comp (x * inject_Z (10 ^ Z.of_nat n))
             (y * inject_Z (10 ^ Z.of_nat n))); [reflexivity|].
  by rewrite Hxy.
Qed.

Lemma pow2_pos z : (0 < pow2 z)%Q.
Proof.
  unfold pow2. destruct (0 <=? z) eqn:Hz; [|done].
  apply Z.leb_le in Hz. unfold Qlt. cbn. pose proof (Z.pow_pos_nonneg 2 z). lia.
Qed.

Lemma round_half_even_nonneg x : (0 <= x)%Q → 0 <= round_half_even x.
Proof.
  intros Hx. unfold round_half_even.
  assert (Hf : 0 <= Qfloor x).
  { change 0 with (Qfloor 0). by apply Qfloor_resp_le. }
  destruct (_ ?= _)%Q; [destruct (Z.even _)|..]; lia.
Qed.

Lemma binary64_nonneg x : (0 <= x)%Q → (0 <= binary64 x)%Q.
Proof.
  intros Hx. unfold binary64. destruct (Qnum x) eqn:Hn; [done| |].
  - rewrite Qred_correct. apply Qltb_le in Hx. rewrite Hx.
    set (ulp := pow2 _). set (m := round_half_even _).
    assert (Hm : 0 <= m).
    { apply round_half_even_nonneg. apply Qle_shift_div_l; [apply pow2_pos|].
      rewrite Qmult_0_l. apply Qabs_nonneg. }
    apply Qmult_le_0_compat; [|apply Qlt_le_weak, pow2_pos].
    rewrite Qmult_1_l. change 0%Q with (inject_Z 0). by rewrite <- Zle_Qle.
  - exfalso. unfold Qle in Hx. cbn in Hx. rewrite Hn in Hx. lia.
Qed.

(** [binary64] and the three operations give the values of the kernel's
    floats on the constants of the pipeline. *)
Example binary64_agrees_with_the_kernel :
  map (fun nd => binary64 (nd.1 # Z.to_pos nd.2))
    [(25, 100); (3, 10); (35, 100); (5, 10); (7, 10); (9, 10); (1, 3)]
  = map (fun nd => Q_of_float (float_of nd.1 nd.2))
      [(25, 100); (3, 10); (35, 100); (5, 10); (7, 10); (9, 10); (1, 3)] ∧
  fmul 3 (binary64 (3 # 10))
  = Q_of_float (PrimFloat.mul (float_of 3 1) (float_of 3 10)) ∧
  fadd (binary64 (3 # 10)) (binary64 (35 # 100))
  = Q_of_float (PrimFloat.add (float_of 3 10) (float_of 35 100)) ∧
  fsub 1 (binary64 (7 # 10))
  = Q_of_float (PrimFloat.sub (float_of 1 1) (float_of 7 10)).
Proof. vm_compute. done. Qed.

Lemma shared_spec (a b : list string) x : x ∈ shared a b <-> x ∈ a ∧ x ∈ b.
Proof.
  unfold shared. rewrite list_elem_of_filter, elem_of_remove_dups. tauto.
Qed.

Lemma shared_NoDup (a b : list string) : NoDup (shared a b).
Proof. unfold shared. apply NoDup_filter, NoDup_remove_dups. Qed.

Lemma max_relation_spec (best : Relation) (rs : list Relation) :
  max_relation best rs ∈ best :: rs ∧
  ∀ r, r ∈ best :: rs -> (rel_strength r <= rel_strength (max_relation best rs))%Q.
Proof.
  revert best. induction rs as [|r rs IH]; intros best; simpl.
  - split; [by left|]. intros r Hr. apply list_elem_of_singleton in Hr. subst.
    apply Qle_refl.
  - destruct (Qgtb (rel_strength r) (rel_strength best)) eqn:Hgt.
    + destruct (IH r) as [Hin Hmax]. split.
      * right. exact Hin.
      * intros r' Hr'. apply elem_of_cons in Hr' as [->|Hr'].
        -- apply Qgtb_lt in Hgt. eapply Qle_trans; [apply Qlt_le_weak, Hgt|].
           apply Hmax. by left.
        -- by apply Hmax.
    + destruct (IH best) as [Hin Hmax]. split.
      * apply elem_of_cons in Hin as [Heq|Hin]; [rewrite Heq; by left|by right; right].
      * intros r' Hr'. apply elem_of_cons in Hr' as [->|Hr']; [apply Hmax; by left|].
        apply elem_of_cons in Hr' as [->|Hr'].
        -- apply Qgtb_le in Hgt. eapply Qle_trans; [exact Hgt|]. apply Hmax. by left.
        -- apply Hmax. by right.
Qed.

(** ** MMR selection *)

Section MMRFacts.
Variable cosine : vec -> vec -> Q.
Variable vectors : gmap string vec.
Variable mmr_lambda : Q.

Lemma unmark_mark r d n f : unmark (mmr_mark r d n f) = unmark r.
Proof. reflexivity. Qed.

Lemma mmr_best_keeps selected candidates idx best :
  is_Some best -> is_Some (mmr_best cosine vectors mmr_lambda selected candidates idx best).
Proof.
  revert idx best. induction candidates as [|cand rest IH]; intros idx best Hb; simpl; [done|].
  apply IH. by destruct (above _ _).
Qed.

Lemma mmr_best_range selected candidates idx best i m d :
  mmr_best cosine vectors mmr_lambda selected candidates idx best = Some (i, m, d) ->
  best = Some (i, m, d) ∨ (idx <= i < idx + length candidates)%nat.
Proof.
  revert idx best. induction candidates as [|cand rest IH]; intros idx best; simpl.
  - intros ->. by left.
  - intros Hb. apply IH in Hb as [Hb|Hb]; [|right; lia].
    destruct (above _ _); [|by left]. injection Hb as <- <- <-. right. lia.
Qed.

Lemma mmr_best_first selected cand rest :
  ∃ i m d, mmr_best cosine vectors mmr_lambda selected (cand :: rest) 0 None = Some (i, m, d)
           ∧ (i < length (cand :: rest))%nat.
Proof.
  destruct (mmr_best_keeps selected rest 1
              (Some (0%nat,
                     fsub (fmul mmr_lambda (h_score cand))
                       (fmul (fsub 1 mmr_lambda)
                          (mmr_max_sim cosine vectors selected (h_id cand))),
                     fsub 1 (mmr_max_sim cosine vectors selected (h_id cand)))))
    as [[[i m] d] Hb]; [done|].
  exists i, m, d. simpl. split; [exact Hb|].
  apply mmr_best_range in Hb as [Hb|Hb]; [injection Hb as <- _ _; lia|lia].
Qed.

Lemma mmr_loop_spec fuel bound selected candidates :
  (length candidates <= fuel)%nat ->
  ∃ tl rest,
    mmr_loop fuel cosine vectors mmr_lambda bound selected candidates = selected ++ tl ∧
    map unmark (tl ++ rest) ≡ₚ map unmark candidates ∧
    (rest = [] ∨ bound <= Z.of_nat (length (selected ++ tl))).
Proof.
  revert selected candidates. induction fuel as [|fuel IH]; intros selected candidates Hlen.
  - destruct candidates; [|simpl in Hlen; lia]. exists [], []. simpl.
    rewrite app_nil_r. split; [done|]. split; [done|by left].
  - simpl. destruct (Z.ltb_spec (Z.of_nat (length selected)) bound) as [Hlt|Hge]; simpl.
    + destruct candidates as [|cand cands]; simpl.
      * exists [], []. rewrite app_nil_r. split; [done|]. split; [done|by left].
      * destruct (mmr_best_first selected cand cands) as (i & m & d & Hb & Hi).
        simpl in Hb. rewrite Hb.
        destruct (lookup_lt_is_Some_2 (cand :: cands) i Hi) as [chosen Hch].
        rewrite Hch.
        destruct (IH (selected ++ [mmr_mark chosen (round_nd 4 d)
                                     (round_nd 4 (fmul (h_score chosen) d)) (round_nd 4 m)])
                    (delete i (cand :: cands))) as (tl & rest & Hloop & Hperm & Hdone).
        { rewrite length_delete by eauto. simpl in *. lia. }
        rewrite Hloop. rewrite <- app_assoc. simpl.
        eexists _, rest. split; [reflexivity|]. split.
        -- change (map unmark ((mmr_mark chosen (round_nd 4 d)
                                   (round_nd 4 (fmul (h_score chosen) d)) (round_nd 4 m) :: tl)
                                ++ rest))
             with (unmark chosen :: map unmark (tl ++ rest)).
           rewrite Hperm.
           change (unmark chosen :: map unmark (delete i (cand :: cands)))
             with (map unmark (chosen :: delete i (cand :: cands))).
           change (unmark cand :: map unmark cands) with (map unmark (cand :: cands)).
           apply Permutation_map. symmetry. by apply delete_Permutation.
        -- rewrite <- app_assoc in Hdone. exact Hdone.
    + exists [], candidates. rewrite app_nil_r. split; [done|]. split; [done|].
      right. lia.
Qed.
End MMRFacts.

Lemma mmr_vectors_total (encoder : string -> Res vec) :
  (∀ s, ∃ v, encoder s = Ok v) ->
  ∀ results vectors, ∃ vectors', mmr_vectors encoder results vectors = Ok vectors'.
Proof.
  intros Henc results. induction results as [|r rs IH]; intros vectors; simpl; [eauto|].
  destruct (mmr_text (h_payload r)) as [text|]; [|apply IH].
  destruct (Henc (str_take 100 text)) as [v ->]. apply IH.
Qed.

Lemma apply_mmr_all (cosine : vec -> vec -> Q) (encoder : string -> Res vec)
    (results : list Hit) (mmr_lambda : Q) :
  (∀ s, ∃ v, encoder s = Ok v) ->
  ∃ selected,
    _apply_mmr cosine results mmr_lambda (Z.of_nat (length results)) encoder = Ok selected ∧
    map unmark selected ≡ₚ map unmark results.
Proof.
  intros Henc. destruct results as [|r0 rest]; [by exists []|].
  unfold _apply_mmr.
  destruct (mmr_vectors_total encoder Henc (r0 :: rest) ∅) as [vectors ->].
  rewrite Z.min_id.
  destruct (mmr_loop_spec cosine vectors mmr_lambda (length rest)
              (Z.of_nat (length (r0 :: rest)))
              [mmr_mark r0 1 (round_nd 4 (h_score r0)) (round_nd 4 (h_score r0))] rest)
    as (tl & left & Hloop & Hperm & Hdone); [done|].
  rewrite Hloop. eexists. split; [reflexivity|].
  assert (left = []) as ->.
  { destruct Hdone as [->|Hfull]; [done|].
    apply Permutation_length in Hperm. rewrite !length_map, length_app in Hperm.
    simpl in Hfull. destruct left; [done|]. simpl in *. lia. }
  rewrite app_nil_r in Hperm. simpl. rewrite unmark_mark. by rewrite Hperm.
Qed.

(** C7. MMR idempotence. When the encoder answers, re-running [_apply_mmr] on
    a list it selected, with the target count equal to the length of that
    list, returns a list of the same length holding the same items (the
    results without the three MMR scores), each as often. *)
Theorem mmr_idempotent (cosine : vec -> vec -> Q) (encoder : string -> Res vec)
    (results selected : list Hit) (mmr_lambda mmr_lambda' : Q) (target_k : Z) :
  (∀ s, ∃ v, encoder s = Ok v) ->
  _apply_mmr cosine results mmr_lambda target_k encoder = Ok selected ->
  ∃ again,
    _apply_mmr cosine selected mmr_lambda' (Z.of_nat (length selected)) encoder = Ok again ∧
    map unmark again ≡ₚ map unmark selected ∧
    length again = length selected.
Proof.
  intros Henc _.
  destruct (apply_mmr_all cosine encoder selected mmr_lambda' Henc) as (again & Hrun & Hperm).
  exists again. split; [done|]. split; [done|].
  apply Permutation_length in Hperm. by rewrite !length_map in Hperm.
Qed.

Lemma mmr_idempotent_witness :
  ∃ again,
    _apply_mmr demo_cosine demo_selected (5 # 10) (Z.of_nat (length demo_selected))
      demo_encoder = Ok again ∧
    map unmark again ≡ₚ map unmark demo_selected ∧
    length again = length demo_selected.
Proof.
  apply (mmr_idempotent demo_cosine demo_encoder demo_unsorted demo_selected
           (7 # 10) (5 # 10) 2).
  - intros s. by exists (repeat 1%Q 11).
  - vm_compute. reflexivity.
Defined.

(** [_apply_mmr] starts from the first candidate, whatever its score: on
    [demo_unsorted] the first selected item has score 0.1 and the list holds
    one of score 0.9. *)
Lemma mmr_first_can_be_outscored :
  _apply_mmr demo_cosine demo_unsorted (7 # 10) 2 demo_encoder = Ok demo_selected ∧
  ¬ first_is_top_scored demo_unsorted demo_selected.
Proof.
  split; [vm_compute; reflexivity|].
  intros Htop. simpl in Htop.
  specialize (Htop (demo_hit "high" "Hemoglobin" (9 # 10) [])).
  assert (Hin : demo_hit "high" "Hemoglobin" (9 # 10) [] ∈ demo_unsorted)
    by (right; left).
  apply Htop in Hin. vm_compute in Hin. by apply Hin.
Qed.

Lemma sorted_head_top (r0 : Hit) (rest : list Hit) :
  by_descending_score (r0 :: rest) ->
  ∀ r, r ∈ r0 :: rest -> (h_score r <= h_score r0)%Q.
Proof.
  intros Hs r Hr. apply StronglySorted_cons in Hs as [Hall _].
  apply elem_of_cons in Hr as [->|Hr]; [apply Qle_refl|].
  rewrite Forall_forall in Hall. by apply Hall.
Qed.

(** ** Stage 2 *)

Lemma w_log_nil w : w_log w [] = w.
Proof. destruct w. unfold w_log. simpl. by rewrite app_nil_r. Qed.

Lemma w_log_app w a b : w_log (w_log w a) b = w_log w (a ++ b).
Proof. unfold w_log. simpl. by rewrite app_assoc. Qed.

Section OrderedDictSet.
Context {V : Type}.
Implicit Types (d : odict V) (k : string) (v : V).

Lemma od_get_set_eq k v d : od_get k (od_set k v d) = Some v.
Proof.
  induction d as [|[k' v'] d IH]; simpl; [by rewrite decide_True|].
  destruct (decide (k = k')) as [->|Hne]; simpl.
  - by rewrite decide_True.
  - by rewrite decide_False.
Qed.

Lemma od_get_set_ne k k' v d : k ≠ k' -> od_get k (od_set k' v d) = od_get k d.
Proof.
  intros Hne. induction d as [|[k2 v2] d IH]; simpl; [by rewrite decide_False|].
  destruct (decide (k' = k2)) as [->|Hne2]; simpl.
  - by rewrite !decide_False.
  - by rewrite IH.
Qed.

Lemma od_keys_set_in k v d : k ∈ od_keys d -> od_keys (od_set k v d) = od_keys d.
Proof.
  unfold od_keys. induction d as [|[k' v'] d IH]; [intros Hin; by apply elem_of_nil in Hin|].
  cbn [od_set]. rewrite fmap_cons. cbn [fst].
  destruct (decide (k = k')) as [->|Hne]; [done|].
  intros Hin. apply elem_of_cons in Hin as [?|Hin]; [done|].
  rewrite fmap_cons. cbn [fst]. by rewrite IH.
Qed.

Lemma od_keys_set_notin k v d : k ∉ od_keys d -> od_keys (od_set k v d) = od_keys d ++ [k].
Proof. intros Hni. by rewrite od_set_notin, od_keys_app. Qed.

Lemma od_keys_set k v d x : x ∈ od_keys (od_set k v d) <-> x = k ∨ x ∈ od_keys d.
Proof.
  destruct (decide (k ∈ od_keys d)) as [Hin|Hni].
  - rewrite od_keys_set_in by done. split; [by right|]. by intros [->|?].
  - rewrite od_keys_set_notin by done. rewrite elem_of_app, list_elem_of_singleton. tauto.
Qed.

Lemma od_get_is_Some k d : is_Some (od_get k d) <-> k ∈ od_keys d.
Proof.
  split.
  - intros [v Hv]. by eapply od_get_Some_elem.
  - intros Hin. destruct (od_get k d) eqn:Hg; [eauto|].
    apply od_get_None in Hg. done.
Qed.

Lemma od_get_merge_l k (d1 d2 : odict V) :
  k ∉ od_keys d2 -> od_get k (od_merge d1 d2) = od_get k d1.
Proof.
  unfold od_merge, od_keys. revert d1.
  induction d2 as [|[k2 v2] d2 IH]; intros d1; [done|].
  rewrite fmap_cons, not_elem_of_cons. cbn [fst fold_left]. intros [Hne Hni].
  rewrite IH by done. by apply od_get_set_ne.
Qed.

Lemma od_get_merge_r k (d1 d2 : odict V) :
  NoDup (od_keys d2) -> k ∈ od_keys d2 -> od_get k (od_merge d1 d2) = od_get k d2.
Proof.
  unfold od_merge. revert d1. induction d2 as [|[k2 v2] d2 IH]; intros d1 Hnd Hin.
  - by apply elem_of_nil in Hin.
  - unfold od_keys in Hnd, Hin. rewrite fmap_cons in Hnd, Hin. cbn [fst] in Hnd, Hin.
    cbn [fold_left fst snd].
    apply NoDup_cons in Hnd as [Hni Hnd].
    destruct (decide (k = k2)) as [->|Hne].
    + pose proof (od_get_merge_l k2 (od_set k2 v2 d1) d2 Hni) as Hm.
      unfold od_merge in Hm. rewrite Hm, od_get_set_eq. simpl. by rewrite decide_True.
    + apply elem_of_cons in Hin as [?|Hin]; [done|]. simpl od_get at 2.
      rewrite decide_False by done. by apply IH.
Qed.
End OrderedDictSet.

Section SearchFacts.
Context `{Services}.

Lemma vector_search_run collection v slot limit flt w :
  vector_search collection v slot limit flt w =
    (Ok (search_hits collection v slot limit flt),
     w_log w (search_events collection v slot limit flt)).
Proof.
  unfold vector_search, try_except, bind, call, ret, emit, search_hits, search_events, w_log.
  simpl. destruct (query_points collection slot v limit (_build_filter flt)); simpl; [done|].
  by rewrite <- app_assoc.
Qed.

Lemma pure_modal_hits_eq collection modality v top_k :
  map (set_collection collection) (search_hits collection v modality (top_k * 2) None)
  = pure_modal_hits collection modality v top_k.
Proof.
  unfold search_hits, pure_modal_hits. simpl.
  destruct (query_points collection modality v (top_k * 2) None); [|done].
  by rewrite map_map.
Qed.

Lemma phase1_search_run s mods modality collection phase1 w :
  ∃ evs,
    phase1_search s mods modality collection phase1 w =
      (Ok (match phase1_entry s mods modality collection with
           | Some hits => od_set collection hits phase1
           | None => phase1
           end), w_log w evs) ∧
    bridge_calls evs = [] ∧ store_fusions evs = [].
Proof.
  unfold phase1_search, phase1_entry. case_decide.
  - destruct (vectors s !! modality) as [v|].
    + unfold bind. rewrite vector_search_run. unfold ret.
      rewrite pure_modal_hits_eq. eexists. split; [reflexivity|].
      unfold search_events. by destruct (query_points _ _ _ _ _).
    + exists []. by rewrite w_log_nil.
  - exists []. by rewrite w_log_nil.
Qed.

Lemma bridge_calls_app a b : bridge_calls (a ++ b) = bridge_calls a ++ bridge_calls b.
Proof. apply omap_app. Qed.

Lemma store_fusions_app a b : store_fusions (a ++ b) = store_fusions a ++ store_fusions b.
Proof. apply omap_app. Qed.

Lemma store_queries_app a b : store_queries (a ++ b) = store_queries a ++ store_queries b.
Proof. apply omap_app. Qed.

Lemma encode_calls_app a b : encode_calls (a ++ b) = encode_calls a ++ encode_calls b.
Proof. apply omap_app. Qed.

(** Phase 1 of CAS 2 and of CAS 3 fill the same dictionary, in a different
    order of keys. *)
Lemma phase1_cas2_run s mods w :
  ∃ p evs,
    phase1_cas2 s mods w = (Ok p, w_log w evs) ∧
    (∀ c, od_get c p = phase1_lookup s mods c) ∧
    bridge_calls evs = [] ∧ store_fusions evs = [].
Proof.
  unfold phase1_cas2, bind.
  destruct (phase1_search_run s mods "image" "images" [] w) as (e1 & -> & Hb1 & Hf1).
  destruct (phase1_search_run s mods "sequence" "proteins"
              (match phase1_entry s mods "image" "images" with
               | Some hits => od_set "images" hits []
               | None => []
               end) (w_log w e1)) as (e2 & -> & Hb2 & Hf2).
  destruct (phase1_search_run s mods "structure" "structures"
              (match phase1_entry s mods "sequence" "proteins" with
               | Some hits =>
                 od_set "proteins" hits
                   (match phase1_entry s mods "image" "images" with
                    | Some hits => od_set "images" hits []
                    | None => []
                    end)
               | None =>
                 match phase1_entry s mods "image" "images" with
                 | Some hits => od_set "images" hits []
                 | None => []
                 end
               end) (w_log (w_log w e1) e2)) as (e3 & -> & Hb3 & Hf3).
  rewrite !w_log_app. eexists _, _. split; [reflexivity|].
  split; [|by rewrite !bridge_calls_app, !store_fusions_app, Hb1, Hb2, Hb3, Hf1, Hf2, Hf3].
  intros c. unfold phase1_lookup.
  destruct (phase1_entry s mods "image" "images") as [hi|];
    destruct (phase1_entry s mods "sequence" "proteins") as [hs|];
    destruct (phase1_entry s mods "structure" "structures") as [ht|];
    simpl; repeat case_decide; subst; simpl; try done; try congruence.
Qed.

Lemma phase1_cas3_run s mods w :
  ∃ p evs,
    phase1_cas3 s mods w = (Ok p, w_log w evs) ∧
    (∀ c, od_get c p = phase1_lookup s mods c) ∧
    bridge_calls evs = [] ∧ store_fusions evs = [].
Proof.
  unfold phase1_cas3, bind.
  destruct (phase1_search_run s mods "sequence" "proteins" [] w) as (e1 & -> & Hb1 & Hf1).
  destruct (phase1_search_run s mods "image" "images"
              (match phase1_entry s mods "sequence" "proteins" with
               | Some hits => od_set "proteins" hits []
               | None => []
               end) (w_log w e1)) as (e2 & -> & Hb2 & Hf2).
  destruct (phase1_search_run s mods "structure" "structures"
              (match phase1_entry s mods "image" "images" with
               | Some hits =>
                 od_set "images" hits
                   (match phase1_entry s mods "sequence" "proteins" with
                    | Some hits => od_set "proteins" hits []
                    | None => []
                    end)
               | None =>
                 match phase1_entry s mods "sequence" "proteins" with
                 | Some hits => od_set "proteins" hits []
                 | None => []
                 end
               end) (w_log (w_log w e1) e2)) as (e3 & -> & Hb3 & Hf3).
  rewrite !w_log_app. eexists _, _. split; [reflexivity|].
  split; [|by rewrite !bridge_calls_app, !store_fusions_app, Hb1, Hb2, Hb3, Hf1, Hf2, Hf3].
  intros c. unfold phase1_lookup.
  destruct (phase1_entry s mods "image" "images") as [hi|];
    destruct (phase1_entry s mods "sequence" "proteins") as [hs|];
    destruct (phase1_entry s mods "structure" "structures") as [ht|];
    simpl; repeat case_decide; subst; simpl; try done; try congruence.
Qed.
Lemma od_set_NoDup {V} k (v : V) (d : odict V) :
  NoDup (od_keys d) -> NoDup (od_keys (od_set k v d)).
Proof.
  intros Hnd. destruct (decide (k ∈ od_keys d)) as [Hin|Hni].
  - by rewrite od_keys_set_in.
  - rewrite od_keys_set_notin by done. apply NoDup_app. split; [done|]. split.
    + intros x Hx Hx'. apply list_elem_of_singleton in Hx'. by subst.
    + apply NoDup_singleton.
Qed.

Lemma phase3_guard_run collection (body : M (list Hit)) phase3 w :
  ∃ hits w',
    phase3_guard collection body phase3 w = (Ok (od_set collection hits phase3), w') ∧
    (empty_or_raise (body w) -> hits = []).
Proof.
  unfold phase3_guard, bind, try_except, emit, ret, empty_or_raise.
  destruct (body w) as [[hits|e] w1]; simpl.
  - eexists _, _. split; [reflexivity|]. intros [[= ->]|[e He]]; [done|discriminate].
  - eexists _, _. split; [reflexivity|]. done.
Qed.

Lemma phase3_loop_run (body : string -> M (list Hit)) rest acc w :
  NoDup (od_keys acc) ->
  ∃ p w',
    for_each rest (fun c => phase3_guard c (body c)) acc w = (Ok p, w') ∧
    NoDup (od_keys p) ∧
    (∀ c, c ∈ od_keys p <-> c ∈ od_keys acc ∨ c ∈ rest) ∧
    (∀ c, (∀ w0, empty_or_raise (body c w0)) ->
          c ∈ rest ∨ od_get c acc = Some [] -> od_get c p = Some []).
Proof.
  revert acc w. induction rest as [|x rest IH]; intros acc w Hnd; simpl.
  - exists acc, w. split; [done|]. split; [done|]. split.
    + intros c. rewrite elem_of_nil. tauto.
    + intros c _ [Hin|Hacc]; [by apply elem_of_nil in Hin|done].
  - unfold bind at 1.
    destruct (phase3_guard_run x (body x) acc w) as (hits & w1 & -> & Hempty).
    destruct (IH (od_set x hits acc) w1) as (p & w' & -> & Hnd' & Hkeys & Hdown);
      [by apply od_set_NoDup|].
    exists p, w'. split; [done|]. split; [done|]. split.
    + intros c. rewrite Hkeys, od_keys_set, elem_of_cons. tauto.
    + intros c Hbody Hc. apply Hdown; [done|].
      destruct (decide (c = x)) as [->|Hne].
      * right. rewrite od_get_set_eq. f_equal. by apply Hempty, Hbody.
      * destruct Hc as [Hin|Hacc].
        -- apply elem_of_cons in Hin as [?|Hin]; [done|by left].
        -- right. by rewrite od_get_set_ne.
Qed.
Lemma search_hits_down collection v slot limit flt :
  collection_down collection -> search_hits collection v slot limit flt = [].
Proof.
  intros [Hq _]. unfold search_hits.
  by destruct (Hq slot v limit (_build_filter flt)) as [e ->].
Qed.

Lemma vector_search_down collection v slot limit flt w :
  collection_down collection ->
  ∃ w', vector_search collection v slot limit flt w = (Ok [], w').
Proof.
  intros Hdown. rewrite vector_search_run, search_hits_down by done. eauto.
Qed.

Lemma hybrid_search_down collection dv si sv dn sn limit flt w :
  collection_down collection ->
  ∃ w', hybrid_search collection dv si sv dn sn limit flt w = (Ok [], w').
Proof.
  intros Hdown. unfold hybrid_search, try_except.
  destruct si as [[|i il]|]; try destruct sv as [vl|];
    try (destruct (vector_search_down collection dv dn limit flt w Hdown) as [w' ->]; eauto).
  unfold bind, call. destruct Hdown as [Hq Hf].
  destruct (Hf dn dv sn (mkSparse (i :: il) vl) "rrf" (limit * 2) limit (_build_filter flt))
    as [e ->].
  unfold emit. simpl.
  match goal with |- ∃ w', vector_search _ _ _ _ _ ?w0 = _ =>
    destruct (vector_search_down collection dv dn limit flt w0 (conj Hq Hf)) as [w' ->]
  end. eauto.
Qed.

Lemma retry_unfiltered_down collection qv slot limit flt w :
  collection_down collection ->
  ∃ w', retry_unfiltered collection qv slot limit flt [] w = (Ok [], w').
Proof.
  intros Hdown. unfold retry_unfiltered. destruct flt; [|by exists w].
  by apply vector_search_down.
Qed.

Lemma phase3_cas2_body_down s bridge collection w :
  collection_down collection -> empty_or_raise (phase3_cas2_body s bridge collection w).
Proof.
  intros Hdown. unfold phase3_cas2_body, empty_or_raise, bind at 1, call.
  destruct (encode_text _) as [qv|e]; [|right; eauto]. left.
  unfold bind at 1.
  match goal with |- context [vector_search ?c ?v ?n ?l ?f ?w0] =>
    destruct (vector_search_down c v n l f w0 Hdown) as [w1 ->]
  end.
  unfold bind at 1.
  match goal with |- context [retry_unfiltered ?c ?v ?n ?l ?f [] ?w0] =>
    destruct (retry_unfiltered_down c v n l f w0 Hdown) as [w2 ->]
  end.
  done.
Qed.

Lemma cas3_hybrid_or_dense_down collection qv qs limit flt w :
  collection_down collection ->
  ∃ w', cas3_hybrid_or_dense collection qv qs limit flt w = (Ok [], w').
Proof.
  intros Hdown. unfold cas3_hybrid_or_dense, try_except.
  destruct (sparse_dict qs) as [d|].
  - destruct (nonempty (indices d) && nonempty (values d)).
    + match goal with |- context [hybrid_search ?c ?v ?a ?b ?n ?sn ?l ?f ?w0] =>
        destruct (hybrid_search_down c v a b n sn l f w0 Hdown) as [w2 ->]
      end. eauto.
    + match goal with |- context [vector_search ?c ?v ?n ?l ?f ?w0] =>
        destruct (vector_search_down c v n l f w0 Hdown) as [w2 ->]
      end. eauto.
  - match goal with |- context [vector_search ?c ?v ?n ?l ?f ?w0] =>
      destruct (vector_search_down c v n l f w0 Hdown) as [w2 ->]
    end. eauto.
Qed.

Lemma bind_run {A B} (m : M A) (k : A -> M B) w :
  bind m k w = match m w with
               | (Ok a, w') => k a w'
               | (Raise e, w') => (Raise e, w')
               end.
Proof. reflexivity. Qed.

Lemma phase3_cas3_body_down s bridge collection w :
  collection_down collection -> empty_or_raise (phase3_cas3_body s bridge collection w).
Proof.
  intros Hdown. unfold phase3_cas3_body, empty_or_raise. rewrite bind_run.
  destruct (cas3_query_vectors s (cas3_query_text s bridge collection) w) as [[q|e] w1];
    [|right; eauto].
  left. cbv zeta. rewrite bind_run.
  destruct (cas3_hybrid_or_dense_down collection q.1 q.2 (top_k s * 2)
              (gene_filter s (b_filters bridge) collection) w1 Hdown) as [w2 ->].
  rewrite bind_run.
  destruct (retry_unfiltered_down collection q.1 (vec_name_of collection) (top_k s * 2)
              (gene_filter s (b_filters bridge) collection) w2 Hdown) as [w3 ->].
  done.
Qed.
Lemma rest_collections_spec (phase1 : odict (list Hit)) c :
  c ∈ rest_collections phase1 <-> (c ∉ od_keys phase1) ∧ c ∈ COLLECTIONS.
Proof.
  unfold rest_collections.
  apply (list_elem_of_filter (λ c, c ∉ od_keys phase1) COLLECTIONS c).
Qed.

(** CAS 2 and CAS 3, when the Bridge answers: the search returns, Phase 1 is
    [phase1_lookup], and Phase 3 has an entry for every other collection. *)
Lemma search_modal_run s strategy phase1 user_text phase3
    (body : BridgeOutput -> string -> M (list Hit)) w :
  (∀ w0, ∃ p evs,
     phase1 s (search_modalities s) w0 = (Ok p, w_log w0 evs) ∧
     (∀ c, od_get c p = phase1_lookup s (search_modalities s) c) ∧
     bridge_calls evs = [] ∧ store_fusions evs = []) ->
  (∀ b rest, phase3 s b rest = for_each rest (fun c => phase3_guard c (body b c)) []) ->
  bridge_answers ->
  ∃ s' w' b,
    search_modal s strategy phase1 user_text phase3 w = (Ok s', w') ∧
    (∀ c, od_get c (phase1_results s') = phase1_lookup s (search_modalities s) c) ∧
    bridge_output s' = Some b ∧
    search_strategy s' = strategy ∧
    alignment s' = b_alignment b ∧
    top_k s' = top_k s ∧
    all_results s' = od_merge (phase1_results s') (phase3_results s') ∧
    NoDup (od_keys (phase3_results s')) ∧
    (∀ c, c ∈ od_keys (phase3_results s') <->
          (c ∉ od_keys (phase1_results s')) ∧ c ∈ COLLECTIONS) ∧
    (∀ c, (∀ w0, empty_or_raise (body b c w0)) -> c ∈ od_keys (phase3_results s') ->
          od_get c (phase3_results s') = Some []).
Proof.
  intros Hp1 Hp3 Hbridge. unfold search_modal. rewrite bind_run.
  destruct (Hp1 w) as (p1 & evs & -> & Hlook & _ & _).
  rewrite bind_run. unfold call at 1.
  destruct (Hbridge user_text (extract_metadata_for_bridge (all_phase1 p1))) as [b ->].
  rewrite bind_run, Hp3.
  match goal with |- context [for_each ?r ?f [] ?w0] =>
    destruct (phase3_loop_run (body b) r [] w0) as (p3 & w3 & -> & Hnd & Hkeys & Hdown);
      [constructor|]
  end.
  eexists _, w3, b. split; [reflexivity|]. simpl.
  repeat (split; [done|]). split; [|].
  - intros c. rewrite Hkeys, rest_collections_spec.
    unfold od_keys at 1. simpl. rewrite elem_of_nil. tauto.
  - intros c Hbody Hin. apply Hdown; [done|]. left. apply Hkeys in Hin as [Hin|Hin]; [|done].
    by apply elem_of_nil in Hin.
Qed.

Lemma node_search_cas2 s w :
  search_case s = 2 -> node_search s w = search_modal s "CAS_2" phase1_cas2 None phase3_cas2 w.
Proof. intros Hc. unfold node_search. by rewrite Hc. Qed.

Lemma node_search_cas3 s w :
  search_case s = 3 ->
  node_search s w = search_modal s "CAS_3" phase1_cas3 (input_text s) phase3_cas3 w.
Proof. intros Hc. unfold node_search. by rewrite Hc. Qed.

(** The merged results at a collection searched in Phase 1. *)
Lemma merged_phase1 (p1 p3 : odict (list Hit)) c hits :
  od_get c p1 = Some hits ->
  (∀ c, c ∈ od_keys p3 <-> (c ∉ od_keys p1) ∧ c ∈ COLLECTIONS) ->
  od_get c (od_merge p1 p3) = Some hits.
Proof.
  intros Hget Hkeys. rewrite od_get_merge_l; [done|].
  intros Hin. apply Hkeys in Hin as [Hni _]. apply Hni. by eapply od_get_Some_elem.
Qed.

(** The merged results at a collection left to Phase 3. *)
Lemma merged_phase3 (p1 p3 : odict (list Hit)) c :
  od_get c p1 = None -> c ∈ COLLECTIONS -> NoDup (od_keys p3) ->
  (∀ c, c ∈ od_keys p3 <-> (c ∉ od_keys p1) ∧ c ∈ COLLECTIONS) ->
  c ∈ od_keys p3 ∧ od_get c (od_merge p1 p3) = od_get c p3.
Proof.
  intros Hget Hc Hnd Hkeys.
  assert (Hin : c ∈ od_keys p3) by (apply Hkeys; split; [by apply od_get_None|done]).
  split; [done|]. by apply od_get_merge_r.
Qed.
Lemma node_search_modal s w :
  search_case s = 2 ∨ search_case s = 3 ->
  bridge_answers ->
  ∃ s' w' b,
    node_search s w = (Ok s', w') ∧
    (∀ c, od_get c (phase1_results s') = phase1_lookup s (search_modalities s) c) ∧
    bridge_output s' = Some b ∧
    search_strategy s' = (if decide (search_case s = 2) then "CAS_2" else "CAS_3") ∧
    alignment s' = b_alignment b ∧
    top_k s' = top_k s ∧
    all_results s' = od_merge (phase1_results s') (phase3_results s') ∧
    NoDup (od_keys (phase3_results s')) ∧
    (∀ c, c ∈ od_keys (phase3_results s') <->
          (c ∉ od_keys (phase1_results s')) ∧ c ∈ COLLECTIONS) ∧
    (∀ c, collection_down c -> c ∈ od_keys (phase3_results s') ->
          od_get c (phase3_results s') = Some []).
Proof.
  intros [Hc|Hc] Hbridge.
  - rewrite node_search_cas2 by done.
    destruct (search_modal_run s "CAS_2" phase1_cas2 None phase3_cas2
                (fun b c => phase3_cas2_body s b c) w)
      as (s' & w' & b & Hrun & H1 & H2 & H3 & H4 & H5 & H6 & H7 & H8 & H9);
      [intros w0; apply phase1_cas2_run | done | done |].
    exists s', w', b. rewrite Hc. simpl. repeat (split; [done|]).
    intros c Hdown. apply H9. intros w0. by apply phase3_cas2_body_down.
  - rewrite node_search_cas3 by done.
    destruct (search_modal_run s "CAS_3" phase1_cas3 (input_text s) phase3_cas3
                (fun b c => phase3_cas3_body s b c) w)
      as (s' & w' & b & Hrun & H1 & H2 & H3 & H4 & H5 & H6 & H7 & H8 & H9);
      [intros w0; apply phase1_cas3_run | done | done |].
    exists s', w', b. rewrite Hc. simpl. repeat (split; [done|]).
    intros c Hdown. apply H9. intros w0. by apply phase3_cas3_body_down.
Qed.

Lemma phase1_lookup_home s mods m c v :
  MODAL_TO_COLLECTION m = Some c -> m ∈ mods -> vectors s !! m = Some v ->
  phase1_lookup s mods c = Some (pure_modal_hits c m v (top_k s)).
Proof.
  unfold MODAL_TO_COLLECTION. intros Hm Hin Hv.
  repeat case_decide; try discriminate; injection Hm as <-; subst;
    unfold phase1_lookup, phase1_entry; simpl;
    rewrite decide_True by done; by rewrite Hv.
Qed.

Lemma phase1_lookup_agree s2 s3 mods c :
  top_k s2 = top_k s3 ->
  (∀ m, m ∈ ["image"; "sequence"; "structure"] -> vectors s2 !! m = vectors s3 !! m) ->
  phase1_lookup s2 mods c = phase1_lookup s3 mods c.
Proof.
  intros Hk Hv. unfold phase1_lookup, phase1_entry.
  rewrite Hk, !Hv; [done| | |]; set_solver.
Qed.

Lemma search_modalities_agree s2 s3 :
  modalities s2 = modalities s3 ->
  (∀ m, m ∈ ["image"; "sequence"; "structure"] -> vectors s2 !! m = vectors s3 !! m) ->
  search_modalities s2 = search_modalities s3.
Proof.
  intros Hm Hv. unfold search_modalities. rewrite Hm, !Hv; [done| | |]; set_solver.
Qed.

(** C1. No-fusion invariant. Take a CAS 2 state and a CAS 3 state with the same
    modalities, the same modal vectors and the same [top_k], any text vector,
    and one store. When the Bridge answers, both searches return, their Phase-1
    dictionaries agree at every collection, and at the home collection of every
    modality that has a vector the Phase-1 results, and the merged results, are
    the points the store returns for the pure modal vector, each with the
    store's own score. *)
Theorem no_fusion_invariant (s2 s3 : GraphState) (w2 w3 : World) :
  bridge_answers ->
  search_case s2 = 2 -> search_case s3 = 3 ->
  top_k s2 = top_k s3 ->
  modalities s2 = modalities s3 ->
  (∀ m, m ∈ ["image"; "sequence"; "structure"] -> vectors s2 !! m = vectors s3 !! m) ->
  ∃ s2' w2' s3' w3',
    node_search s2 w2 = (Ok s2', w2') ∧
    node_search s3 w3 = (Ok s3', w3') ∧
    (∀ c, od_get c (phase1_results s3') = od_get c (phase1_results s2')) ∧
    (∀ m c v,
       MODAL_TO_COLLECTION m = Some c -> m ∈ search_modalities s3 ->
       vectors s3 !! m = Some v ->
       od_get c (phase1_results s3') = Some (pure_modal_hits c m v (top_k s3)) ∧
       od_get c (all_results s3') = Some (pure_modal_hits c m v (top_k s3)) ∧
       od_get c (all_results s2') = Some (pure_modal_hits c m v (top_k s3))).
Proof.
  intros Hbridge Hc2 Hc3 Hk Hm Hv.
  destruct (node_search_modal s2 w2 (or_introl Hc2) Hbridge)
    as (s2' & w2' & b2 & Hrun2 & Hp2 & _ & _ & _ & _ & Hall2 & _ & Hkeys2 & _).
  destruct (node_search_modal s3 w3 (or_intror Hc3) Hbridge)
    as (s3' & w3' & b3 & Hrun3 & Hp3 & _ & _ & _ & _ & Hall3 & _ & Hkeys3 & _).
  pose proof (search_modalities_agree s2 s3 Hm Hv) as Hmods.
  assert (Hsame : ∀ c, od_get c (phase1_results s3') = od_get c (phase1_results s2')).
  { intros c. rewrite Hp2, Hp3, Hmods. symmetry. by apply phase1_lookup_agree. }
  exists s2', w2', s3', w3'. repeat (split; [done|]).
  intros m c v Hhome Hin Hvec.
  assert (H3 : od_get c (phase1_results s3') = Some (pure_modal_hits c m v (top_k s3)))
    by (rewrite Hp3; by apply phase1_lookup_home).
  split; [done|]. split.
  - rewrite Hall3. by apply merged_phase1.
  - rewrite Hall2. apply merged_phase1; [by rewrite <- Hsame|done].
Qed.
Lemma cas1_search_run s text_vec collection all w :
  cas1_search s text_vec collection all w =
    (Ok (od_set collection (cas1_hits text_vec (top_k s) collection) all),
     w_log w (search_events collection text_vec (vec_name_of collection) (top_k s * 2) None)).
Proof.
  unfold cas1_search. rewrite bind_run. unfold try_except. rewrite bind_run.
  by rewrite vector_search_run.
Qed.

Lemma search_events_queries collection v slot limit :
  store_queries (search_events collection v slot limit None) = [(collection, slot, v, limit, None)]
  ∧ store_fusions (search_events collection v slot limit None) = []
  ∧ bridge_calls (search_events collection v slot limit None) = []
  ∧ encode_calls (search_events collection v slot limit None) = [].
Proof. unfold search_events. simpl. by destruct (query_points _ _ _ _ _). Qed.

(** CAS 1 with a text vector. *)
Lemma node_search_cas1 s w text_vec :
  search_case s = 1 -> vectors s !! "text" = Some text_vec -> text_vec ≠ [] ->
  ∃ s' evs,
    node_search s w = (Ok s', w_log w evs) ∧
    all_results s' = map (fun c => (c, cas1_hits text_vec (top_k s) c)) COLLECTIONS ∧
    bridge_output s' = None ∧ search_strategy s' = "CAS_1" ∧ alignment s' = None ∧
    phase1_results s' = [] ∧ phase3_results s' = [] ∧
    store_queries evs = cas1_queries text_vec (top_k s) ∧
    store_fusions evs = [] ∧ bridge_calls evs = [] ∧ encode_calls evs = [].
Proof.
  intros Hc Hv Hne. unfold node_search. rewrite Hc, Hv. simpl.
  destruct text_vec as [|x text_vec]; [done|].
  rewrite bind_run. unfold COLLECTIONS. cbn [for_each].
  rewrite bind_run, cas1_search_run, bind_run, cas1_search_run, bind_run, cas1_search_run,
    bind_run, cas1_search_run, bind_run, cas1_search_run.
  unfold ret. rewrite !w_log_app.
  eexists _, _. split; [reflexivity|].
  do 6 (split; [reflexivity|]).
  rewrite !store_queries_app, !store_fusions_app, !bridge_calls_app, !encode_calls_app.
  assert (Hev := fun c => search_events_queries c (x :: text_vec) (vec_name_of c)
                            (top_k s * 2)).
  rewrite !(proj1 (Hev _)), !(proj1 (proj2 (Hev _))), !(proj1 (proj2 (proj2 (Hev _)))),
    !(proj2 (proj2 (proj2 (Hev _)))).
  done.
Qed.



End SearchFacts.

Lemma demo_bridge_answers : @bridge_answers demo_services.
Proof. intros user_text metadata. eexists. reflexivity. Qed.


Lemma no_fusion_invariant_witness :
  ∃ s2' w2' s3' w3',
    @node_search demo_services demo_cas2 demo_world = (Ok s2', w2') ∧
    @node_search demo_services demo_cas3 demo_world = (Ok s3', w3') ∧
    od_get "proteins" (phase1_results s3') = od_get "proteins" (phase1_results s2') ∧
    map h_score (default [] (od_get "proteins" (phase1_results s3')))
    = [(95 # 100)%Q; (80 # 100)%Q].
Proof.
  destruct (@no_fusion_invariant demo_services demo_cas2 demo_cas3 demo_world demo_world)
    as (s2' & w2' & s3' & w3' & H2 & H3 & Hsame & Hpure).
  - exact demo_bridge_answers.
  - reflexivity.
  - reflexivity.
  - reflexivity.
  - reflexivity.
  - intros m Hm. apply list_elem_of_In in Hm. simpl in Hm.
    destruct Hm as [<-|[<-|[<-|[]]]]; reflexivity.
  - exists s2', w2', s3', w3'. split; [exact H2|]. split; [exact H3|].
    split; [apply Hsame|].
    destruct (Hpure "sequence" "proteins" (repeat (1 # 2)%Q 11)) as [Hp _].
    + reflexivity.
    + left.
    + reflexivity.
    + rewrite Hp. reflexivity.
Defined.

(** ** Stage 1 *)

Section EncodeFacts.
Context `{Services}.


Lemma quiet_raise {A} e : quiet (@raise A e).
Proof. intros w. exists []. simpl. by rewrite app_nil_r. Qed.













(** What [node_encode] writes when it returns. *)
Lemma node_encode_classify now s w s1 w1 :
  node_encode now s w = (Ok s1, w1) ->
  (input_type s1, search_case s1, primary_modality s1)
    = classify (detect_text s) (detect_modalities s) ∧
  modalities s1 = detect_modalities s ∧
  top_k s1 = top_k s ∧
  input_text s1 = input_text s ∧
  filter_by_genes s1 = filter_by_genes s.
Proof.
  unfold node_encode. rewrite bind_run.
  destruct (when_ _ _ _ _ w) as [[acc1|e] wa]; [|discriminate].
  rewrite bind_run. destruct (when_ _ _ _ _ wa) as [[acc2|e] wb]; [|discriminate].
  rewrite bind_run. destruct (when_ _ _ _ _ wb) as [[acc3|e] wc]; [|discriminate].
  rewrite bind_run. destruct (when_ _ _ _ _ wc) as [[acc4|e] wd]; [|discriminate].
  destruct (classify _ _) as [[it sc] pm]. intros [= <- <-]. done.
Qed.
End EncodeFacts.

Section TextOnly.
Context `{Services}.

End TextOnly.


(** ** A request with no usable input *)

Lemma rstrip_empty (s : string) : rstrip s = "" → all_space s = true.
Proof.
  induction s as [|c s IH]; [done|].
  cbn [rstrip all_space]. destruct (rstrip s) eqn:Hr; [|done].
  destruct (is_space c); [|done]. intros _. by rewrite IH.
Qed.

Lemma lstrip_all_space (s : string) : all_space (lstrip s) = true → all_space s = true.
Proof.
  induction s as [|c s IH]; [done|].
  cbn [lstrip]. destruct (is_space c) eqn:Hc; [|done].
  intros Hs. cbn [all_space]. by rewrite Hc, IH.
Qed.

Lemma strip_empty (s : string) : strip s = "" → all_space s = true.
Proof. intros Hs. by apply lstrip_all_space, rstrip_empty. Qed.

Lemma lower_ascii_space (c : ascii) : is_space c = true → lower_ascii c = c.
Proof.
  destruct c as [[] [] [] [] [] [] [] []]; vm_compute; done.
Qed.

Lemma lower_all_space (s : string) : all_space s = true → lower s = s.
Proof.
  induction s as [|c s IH]; [done|].
  cbn [all_space lower]. intros [Hc Hs]%andb_true_iff.
  by rewrite lower_ascii_space, IH.
Qed.

Lemma contains_all_space (k : ascii) (kw hay : string) :
  is_space k = false → all_space hay = true → str_contains (String k kw) hay = false.
Proof.
  intros Hk. induction hay as [|c hay IH]; [done|].
  cbn [all_space str_contains String.prefix]. intros [Hc Hs]%andb_true_iff.
  destruct (ascii_dec k c) as [->|_]; [congruence|]. by rewrite IH.
Qed.

Lemma blank_not_exploratory (t : string) :
  all_space t = true → _is_exploratory_query t = false.
Proof.
  intros Ht. unfold _is_exploratory_query. rewrite (lower_all_space _ Ht).
  destruct (String.eqb t ""); [done|].
  cbn [negb andb existsb]. by rewrite !contains_all_space.
Qed.

Lemma no_text_not_exploratory (s : GraphState) :
  detect_text s = false → _is_exploratory_query (default "" (input_text s)) = false.
Proof.
  unfold detect_text. destruct (input_text s) as [t|]; [|done].
  cbn [default from_option id]. intros Ht.
  apply andb_false_iff in Ht as [Ht|Ht]; apply negb_false_iff, String.eqb_eq in Ht.
  - by subst t.
  - by apply blank_not_exploratory, strip_empty.
Qed.

(** ** When the error response is returned *)

Section ErrorResponse.
Context `{Services}.

Lemma node_encode_input_type now s w s1 w1 :
  node_encode now s w = (Ok s1, w1) → input_type s1 ≠ "error".
Proof.
  intros Hrun. destruct (node_encode_classify now s w s1 w1 Hrun) as (Hcl & _).
  unfold detect_modalities in Hcl.
  destruct (detect_text s), (detect_image s), (detect_sequence s), (detect_structure s);
    injection Hcl as -> _ _; discriminate.
Qed.

Lemma node_search_input_type s w s' w' :
  node_search s w = (Ok s', w') → input_type s' = input_type s.
Proof.
  assert (Hmodal : ∀ strategy phase1 user_text phase3,
            search_modal s strategy phase1 user_text phase3 w = (Ok s', w') →
            input_type s' = input_type s).
  { intros strategy phase1 user_text phase3. unfold search_modal. rewrite bind_run.
    destruct (phase1 _ _ w) as [[p1|e] wa]; [|discriminate].
    rewrite bind_run. unfold call at 1.
    destruct (bridge_cross_modal _ _) as [b|e]; [|discriminate].
    rewrite bind_run. destruct (phase3 _ _ _ _) as [[p3|e] wb]; [|discriminate].
    by intros [= <- <-]. }
  unfold node_search. repeat case_decide; try by apply Hmodal.
  - destruct (default [] (vectors s !! "text")) as [|x tv].
    + rewrite bind_run. cbn. by intros [= <- <-].
    + rewrite bind_run. destruct (for_each _ _ _ _) as [[all|e] wa]; [|discriminate].
      by intros [= <- <-].
  - by intros [= <- <-].
Qed.

Lemma node_rank_enrich_input_type s w s' w' :
  node_rank_enrich s w = (Ok s', w') → input_type s' = input_type s.
Proof.
  unfold node_rank_enrich. rewrite bind_run. unfold lift at 1.
  destruct (rerank_all _ _ _ _) as [rr|e]; [|discriminate].
  rewrite bind_run. destruct (design_assistant _ _ _) as [[dc|e] wa]; [|discriminate].
  rewrite bind_run. destruct (summarize _ _ _) as [[sm|e] wb]; [|discriminate].
  by intros [= <- <-].
Qed.

Lemma workflow_input_type now s w final w' :
  workflow now s w = (Ok final, w') → input_type final ≠ "error".
Proof.
  unfold workflow. rewrite bind_run.
  destruct (node_encode now s w) as [[s1|e] w1] eqn:H1; [|discriminate].
  rewrite bind_run. destruct (node_search s1 w1) as [[s2|e] w2] eqn:H2; [|discriminate].
  intros H3. apply node_rank_enrich_input_type in H3. apply node_search_input_type in H2.
  apply node_encode_input_type in H1. congruence.
Qed.

Lemma build_response_input_type s elapsed resp :
  build_response s elapsed = Ok resp → resp_input_type resp = input_type s.
Proof.
  unfold build_response. destruct (build_evidence _); [|discriminate]. by intros [= <-].
Qed.

Lemma workflow_raises_error_response req t0 t1 w e wx :
  workflow t0 (initial_state req) w = (Raise e, wx) →
  run_recommendation req t0 t1 w =
    (Ok (error_response e (t1 - t0)), w_log wx [LogError "WORKFLOW FAILED"]).
Proof.
  intros Hrun. unfold run_recommendation.
  unfold bind at 1. unfold try_except. unfold bind at 1. by rewrite Hrun.
Qed.

Lemma error_response_only_on_raise req t0 t1 w resp w' :
  run_recommendation req t0 t1 w = (Ok resp, w') → is_error_response resp →
  ∃ e wx, workflow t0 (initial_state req) w = (Raise e, wx).
Proof.
  unfold run_recommendation. unfold bind at 1. unfold try_except. unfold bind at 1.
  destruct (workflow t0 (initial_state req) w) as [[final|e] wx] eqn:Hw; [|by eauto].
  cbn. destruct (build_response final (t1 - t0)) as [r|e] eqn:Hb; [|discriminate].
  intros [= <- <-] Herr. apply build_response_input_type in Hb.
  apply workflow_input_type in Hw. unfold is_error_response in Herr. congruence.
Qed.

End ErrorResponse.

Section NoInput.
Context `{Services}.

Lemma node_encode_no_input (now : Q) (s : GraphState) (w : World) :
  detect_text s = false → detect_sequence s = false →
  detect_image s = false → detect_structure s = false →
  node_encode now s w =
    (Ok (update_encode s "unknown" 1 false false PrimaryNone [] ∅ ∅ [] ∅), w).
Proof.
  intros Ht Hq Hi Hs. unfold node_encode, detect_modalities.
  rewrite Ht, Hq, Hi, Hs. reflexivity.
Qed.

Lemma node_search_no_vector (s : GraphState) (w : World) :
  search_case s = 1 → vectors s !! "text" = None →
  node_search s w =
    (Ok (update_search s (modalities s) (phase1_results s) (phase1_metadata s)
           (bridge_output s) (phase3_results s) [] "CAS_1_ERROR" (alignment s)),
     w_log w [LogError "No text vector for CAS 1!"]).
Proof.
  intros Hc Hv. unfold node_search. rewrite decide_True by done.
  unfold vec in *. by rewrite Hv.
Qed.

Lemma node_rank_enrich_empty (s : GraphState) (w : World) :
  all_results s = [] → search_case s = 1 → bridge_output s = None →
  _is_exploratory_query (default "" (input_text s)) = false →
  ∃ sm evs,
    node_rank_enrich s w =
      (Ok (update_rank s [] [] sm None []
             (if include_graph s then Some (_build_graph [] (5 # 10) (2 # 10) 5)
              else None)),
       w_log w evs) ∧
    encode_calls evs = [] ∧ store_queries evs = [] ∧ bridge_calls evs = [] ∧
    logged_errors evs ⊆ ["Summary error"].
Proof.
  intros Hall Hc Hb Hx.
  assert (Hd : design_assistant s [] = ret []).
  { unfold design_assistant. rewrite Hx, Hc.
    destruct (include_design_candidates s); reflexivity. }
  unfold node_rank_enrich. rewrite Hall. cbn [rerank_all].
  unfold bind at 1. cbn [lift]. unfold bind at 1. rewrite Hd. cbn [ret].
  unfold bind, summarize. rewrite Hb.
  destruct (include_summary s).
  - unfold fresh_summary, try_except, bind, lift.
    destruct (generate_summary (default "" (input_text s)) []) as [x|e].
    + exists x, []. rewrite w_log_nil. cbn [ret fst snd].
      destruct (include_evidence s); repeat split; set_solver.
    + eexists _, [LogError "Summary error"]. cbn [emit ret fst snd].
      destruct (include_evidence s); repeat split; set_solver.
  - exists "", []. rewrite w_log_nil. cbn [ret fst snd].
    destruct (include_evidence s); repeat split; set_solver.
Qed.

(** C4, as the code has it. For every request with no usable input (no
    non-empty trimmed text, no sequence longer than 10, no image and no
    structure reference) [run_recommendation] returns a response built by
    [build_response]: its input type is "unknown" and not the error tag, its
    search strategy is "CAS_1_ERROR", its processing time is the elapsed time
    rounded to three digits, and it holds no result, no design candidate and
    no evidence; no encoder, no collection and no Bridge has been called, and
    the missing text vector has been logged. The error-tagged response, with
    the elapsed time, is what [run_recommendation] returns when the workflow
    raises, and only then. *)
Theorem no_input_response (req : Request) (t0 t1 : Q) (w : World) :
  (no_usable_input req →
   ∃ resp evs,
     run_recommendation req t0 t1 w = (Ok resp, w_log w evs) ∧
     resp_input_type resp = "unknown" ∧
     ¬ is_error_response resp ∧
     resp_search_strategy resp = Some "CAS_1_ERROR" ∧
     resp_processing_time resp = round_nd 3 (t1 - t0) ∧
     resp_quadrant resp = mkQuadrant [] [] [] [] [] ∧
     resp_design_candidates resp = [] ∧
     resp_evidence resp = [] ∧
     resp_needs_clarification resp = false ∧
     encode_calls evs = [] ∧ store_queries evs = [] ∧ bridge_calls evs = [] ∧
     "No text vector for CAS 1!" ∈ logged_errors evs) ∧
  (∀ e wx,
     workflow t0 (initial_state req) w = (Raise e, wx) →
     run_recommendation req t0 t1 w =
       (Ok (error_response e (t1 - t0)), w_log wx [LogError "WORKFLOW FAILED"]) ∧
     is_error_response (error_response e (t1 - t0)) ∧
     resp_processing_time (error_response e (t1 - t0)) = (t1 - t0)%Q) ∧
  (∀ resp w',
     run_recommendation req t0 t1 w = (Ok resp, w') → is_error_response resp →
     ∃ e wx, workflow t0 (initial_state req) w = (Raise e, wx)).
Proof.
  split; [|split].
  2: { intros e wx Hrun. split; [by apply workflow_raises_error_response|done]. }
  2: { intros resp w' Hrun Herr. by eapply error_response_only_on_raise. }
  intros (Ht & Hq & Hi & Hs).
  pose proof (no_text_not_exploratory _ Ht) as Hx.
  unfold run_recommendation, workflow.
  unfold bind at 1. unfold try_except. unfold bind at 1. unfold bind at 1.
  rewrite (node_encode_no_input _ _ _ Ht Hq Hi Hs).
  unfold bind at 1. rewrite node_search_no_vector by done.
  set (s2 := update_search _ _ _ _ _ _ _ _ _).
  destruct (node_rank_enrich_empty s2 (w_log w [LogError "No text vector for CAS 1!"]))
    as (sm & evs & -> & He & Hsq & Hbc & Hl); [done..|].
  rewrite w_log_app. cbn [ret lift].
  eexists _, _. split; [reflexivity|].
  cbn [resp_input_type resp_search_strategy resp_processing_time resp_quadrant
       resp_design_candidates resp_evidence resp_needs_clarification].
  repeat split; try done.
  unfold logged_errors. rewrite omap_app. set_solver.
Qed.

End NoInput.

(** C4 as the specification words it does not hold: a request whose text is
    blank and whose sequence has three characters has no usable input, and
    the response it gets is not error-tagged. *)
Lemma no_input_not_error_tagged :
  @no_usable_input demo_services demo_empty_request ∧
  ∃ resp w',
    @run_recommendation demo_services demo_empty_request 0 (1 # 3) demo_world
      = (Ok resp, w') ∧
    resp_input_type resp = "unknown" ∧
    ¬ is_error_response resp ∧
    resp_search_strategy resp = Some "CAS_1_ERROR".
Proof.
  split; [by vm_compute|].
  eexists _, _. split; [vm_compute; reflexivity|].
  repeat split; try done.
Qed.

Lemma no_input_response_witness :
  ∃ resp evs,
    @run_recommendation demo_services demo_empty_request 0 (1 # 3) demo_world
      = (Ok resp, w_log demo_world evs) ∧
    resp_input_type resp = "unknown" ∧
    resp_search_strategy resp = Some "CAS_1_ERROR" ∧
    resp_processing_time resp = round_nd 3 ((1 # 3) - 0).
Proof.
  assert (Hno : @no_usable_input demo_services demo_empty_request) by (by vm_compute).
  destruct (proj1 (@no_input_response demo_services demo_empty_request 0 (1 # 3)
                     demo_world) Hno)
    as (resp & evs & Hrun & Hty & _ & Hst & Htime & _).
  by exists resp, evs.
Defined.

(** ** Encoding failures in Stage 1 *)

Section EncodeFailure.
Context `{Services}.

(** A failing image or structure encoder is caught: the modality gets no
    vector and the step returns. *)
Lemma guarded_encoding_failure_tolerated (modality prefix failed path e : string)
    (encoder : string -> Res vec) (now : Q) (acc : EncodeAcc) (w : World) :
  usable (Cache.get_embedding (w_cache w)
            (String.append prefix (sha256_hex16 path)) now).1 = None →
  encoder path = Raise e →
  ∃ c, encode_guarded_step modality prefix failed path encoder now acc w =
         (Ok (acc_hit acc modality false),
          mkWorld c (w_trace w ++ [EncodeCall modality path; LogError failed])).
Proof.
  intros Hmiss He. unfold encode_guarded_step, bind, cache_get_embedding.
  destruct (Cache.get_embedding _ _ _) as [v c]. cbn [fst] in Hmiss.
  rewrite Hmiss. unfold try_except, bind, call. rewrite He.
  exists c. cbn. by rewrite <- app_assoc.
Qed.

Lemma node_encode_sequence_raises (now : Q) (s : GraphState) (seq e : string) (w : World) :
  detect_text s = false → detect_sequence s = true → input_sequence s = Some seq →
  usable (Cache.get_embedding (w_cache w)
            (String.append "seq:" (sha256_hex16 (str_take 100 seq))) now).1 = None →
  encode_sequence seq = Raise e →
  ∃ c, node_encode now s w =
         (Raise e, mkWorld c (w_trace w ++ [EncodeCall "sequence" seq])).
Proof.
  intros Ht Hq Hseq Hmiss He. unfold node_encode. rewrite Ht, Hq, Hseq.
  cbn [when_]. unfold bind at 1. cbn [ret]. unfold bind at 1.
  unfold encode_sequence_step, bind, cache_get_embedding.
  destruct (Cache.get_embedding _ _ _) as [v c]. cbn [fst] in Hmiss.
  rewrite Hmiss. unfold call. rewrite He. by exists c.
Qed.

Lemma node_encode_text_raises (now : Q) (s : GraphState) (text e : string) (w : World) :
  detect_text s = true → input_text s = Some text →
  usable (Cache.get_embedding (w_cache w)
            (String.append "text:" (sha256_hex16 text)) now).1 = None →
  encode_text text = Raise e →
  ∃ c, node_encode now s w = (Raise e, mkWorld c (w_trace w ++ [EncodeCall "text" text])).
Proof.
  intros Ht Htext Hmiss He. unfold node_encode. rewrite Ht, Htext.
  cbn [when_]. unfold bind at 1.
  unfold encode_text_step, bind, cache_get_embedding.
  destruct (Cache.get_embedding _ _ _) as [v c]. cbn [fst] in Hmiss.
  rewrite Hmiss. unfold encode_text_miss, bind, call. rewrite He. by exists c.
Qed.

Lemma run_recommendation_encode_raises (req : Request) (t0 t1 : Q) (w w' : World)
    (e : string) :
  node_encode t0 (initial_state req) w = (Raise e, w') →
  run_recommendation req t0 t1 w =
    (Ok (error_response e (t1 - t0)), w_log w' [LogError "WORKFLOW FAILED"]).
Proof.
  intros Hrun. unfold run_recommendation, workflow.
  unfold bind at 1. unfold try_except. unfold bind at 1. unfold bind at 1.
  rewrite Hrun. reflexivity.
Qed.

(** C2, where the code departs from it: when the request has a sequence
    longer than 10 and no usable text, the embedding is not cached and the
    sequence encoder raises [e], the exception leaves [node_encode];
    [run_recommendation] catches it and returns the error response, with no
    result in any collection, whatever image or structure came with the
    request. The image and structure encoders are never called. *)
Theorem sequence_encoding_failure_aborts (req : Request) (seq e : string) (t0 t1 : Q)
    (w : World) :
  detect_text (initial_state req) = false →
  detect_sequence (initial_state req) = true →
  arg_sequence req = Some seq →
  usable (Cache.get_embedding (w_cache w)
            (String.append "seq:" (sha256_hex16 (str_take 100 seq))) t0).1 = None →
  encode_sequence seq = Raise e →
  ∃ c resp,
    run_recommendation req t0 t1 w =
      (Ok resp,
       mkWorld c (w_trace w ++ [EncodeCall "sequence" seq; LogError "WORKFLOW FAILED"])) ∧
    resp = error_response e (t1 - t0) ∧
    is_error_response resp ∧
    resp_quadrant resp = mkQuadrant [] [] [] [] [] ∧
    resp_summary resp = String.append "Error: " e.
Proof.
  intros Ht Hq Hseq Hmiss He.
  destruct (node_encode_sequence_raises t0 (initial_state req) seq e w)
    as [c Hrun]; [done..|].
  exists c, (error_response e (t1 - t0)).
  rewrite (run_recommendation_encode_raises _ _ _ _ _ _ Hrun).
  unfold w_log. cbn [w_cache w_trace]. rewrite <- app_assoc.
  repeat split.
Qed.

(** The same holds of the text encoder. *)
Lemma text_encoding_failure_aborts (req : Request) (text e : string) (t0 t1 : Q)
    (w : World) :
  detect_text (initial_state req) = true →
  effective_text req = Some text →
  usable (Cache.get_embedding (w_cache w)
            (String.append "text:" (sha256_hex16 text)) t0).1 = None →
  encode_text text = Raise e →
  ∃ c, run_recommendation req t0 t1 w =
         (Ok (error_response e (t1 - t0)),
          mkWorld c (w_trace w ++ [EncodeCall "text" text; LogError "WORKFLOW FAILED"])).
Proof.
  intros Ht Htext Hmiss He.
  destruct (node_encode_text_raises t0 (initial_state req) text e w)
    as [c Hrun]; [done..|].
  exists c. rewrite (run_recommendation_encode_raises _ _ _ _ _ _ Hrun).
  unfold w_log. cbn [w_cache w_trace]. by rewrite <- app_assoc.
Qed.

End EncodeFailure.

Lemma sequence_encoding_failure_aborts_witness :
  ∃ c resp,
    @run_recommendation demo_failing_services demo_sequence_image_request 0 1 demo_world =
      (Ok resp,
       mkWorld c [EncodeCall "sequence" "MEEPQSDPSVEPPLSQETFSDLWKLLPEN";
                  LogError "WORKFLOW FAILED"]) ∧
    is_error_response resp ∧
    resp_quadrant resp = mkQuadrant [] [] [] [] [].
Proof.
  destruct (@sequence_encoding_failure_aborts demo_failing_services
              demo_sequence_image_request "MEEPQSDPSVEPPLSQETFSDLWKLLPEN"
              "ESM model failure" 0 1 demo_world)
    as (c & resp & Hrun & _ & Herr & Hquad & _); [reflexivity..|].
  by exists c, resp.
Defined.

(** With an image encoder that raises instead, the same request is answered
    from the sequence. *)
Example image_encoding_failure_tolerated :
  ∃ resp w',
    @run_recommendation demo_failing_image_services
       demo_sequence_image_request 0 1 demo_world = (Ok resp, w') ∧
    resp_input_type resp = "image_sequence" ∧
    q_proteins (resp_quadrant resp) ≠ [] ∧
    "IMAGE ENCODING FAILED" ∈ logged_errors (w_trace w').
Proof.
  eexists _, _. split; [vm_compute; reflexivity|].
  split; [reflexivity|]. split; [discriminate|].
  vm_compute. set_solver.
Qed.

(** ** An entry of the embedding cache across other operations *)

Section CacheKeep.
Context {V : Type}.
Implicit Types (c : Cache.LRUCache V) (k key : string) (v e : V) (d : odict V).

Lemma od_pop_app k d1 d2 : od_pop k (d1 ++ d2) = od_pop k d1 ++ od_pop k d2.
Proof.
  induction d1 as [|[k' v'] d1 IH]; [done|].
  cbn [app od_pop]. case_decide; [done|]. by rewrite <- app_comm_cons, IH.
Qed.

Lemma get_max_size c k now : Cache.max_size (Cache.get c k now).2 = Cache.max_size c.
Proof.
  unfold Cache.get. destruct (od_get k (Cache._cache c)); [|done].
  destruct (mjoin _); [|done]. by destruct (Qgtb _ _).
Qed.

Lemma get_default_ttl c k now :
  Cache.default_ttl (Cache.get c k now).2 = Cache.default_ttl c.
Proof.
  unfold Cache.get. destruct (od_get k (Cache._cache c)); [|done].
  destruct (mjoin _); [|done]. by destruct (Qgtb _ _).
Qed.

Lemma get_ttls c k now key :
  Cache._ttls (Cache.get c k now).2 !! key = None ∨
  Cache._ttls (Cache.get c k now).2 !! key = Cache._ttls c !! key.
Proof.
  unfold Cache.get. destruct (od_get k (Cache._cache c)); [|by right].
  destruct (mjoin _); [|by right]. destruct (Qgtb _ _); [|by right].
  cbn. destruct (decide (k = key)) as [->|Hne].
  - left. apply lookup_delete_eq.
  - right. by apply lookup_delete_ne.
Qed.

Lemma evict_ttls fuel c key :
  Cache._ttls (Cache.evict fuel c).2 !! key = None ∨
  Cache._ttls (Cache.evict fuel c).2 !! key = Cache._ttls c !! key.
Proof.
  revert c. induction fuel as [|fuel IH]; intros c; [by right|].
  cbn [Cache.evict]. destruct (_ <=? _); [|by right].
  destruct (Cache._cache c) as [|[k0 v0] rest]; [by right|].
  destruct (IH (Cache._remove c k0)) as [Hn|He]; [by left|].
  rewrite He. cbn. destruct (decide (k0 = key)) as [->|Hne].
  - left. apply lookup_delete_eq.
  - right. by apply lookup_delete_ne.
Qed.

Lemma set_ttls c k v now key :
  k ≠ key → mjoin (Cache._ttls c !! key) = None →
  mjoin (Cache._ttls (Cache.set c k v None now).2 !! key) = None.
Proof.
  intros Hne Hk. unfold Cache.set.
  set (c1 := if od_get k (Cache._cache c) is Some _ then Cache._remove c k else c).
  assert (H1 : mjoin (Cache._ttls c1 !! key) = None).
  { unfold c1. destruct (od_get k (Cache._cache c)); [|done].
    cbn. by rewrite lookup_delete_ne. }
  pose proof (evict_ttls (S (length (Cache._cache c1))) c1 key) as He.
  destruct (Cache.evict _ c1) as [[[]|err] c2]; cbn [snd] in *.
  - cbn. rewrite lookup_insert_ne by done. destruct He as [->| ->]; done.
  - destruct He as [->| ->]; done.
Qed.

Lemma permanent_get c k now : permanent c → permanent (Cache.get c k now).2.
Proof.
  intros (Hwf & Hd & Ht). split; [by apply get_wf|]. split; [by rewrite get_default_ttl|].
  intros key. destruct (get_ttls c k now key) as [-> | ->]; [done|apply Ht].
Qed.

(** A key that is present is found, and moved to the end. *)
Lemma get_found c key e now :
  Cache.wf c → Cache.default_ttl c = None → mjoin (Cache._ttls c !! key) = None →
  od_get key (Cache._cache c) = Some e →
  (Cache.get c key now).1 = Some e ∧ holds (Cache.get c key now).2 key e 0.
Proof.
  intros Hwf Hd Ht Hg.
  rewrite (get_hit c key e now Hg) by (intros ttl; by rewrite Ht).
  split; [done|]. pose proof (move_wf c key e Hwf Hg) as Hwf'.
  unfold od_move_to_end in Hwf'. rewrite Hg in Hwf'.
  split; [done|]. split; [done|]. split; [done|].
  exists (od_pop key (Cache._cache c)), []. by cbn.
Qed.

Lemma holds_get c key e n : holds c key e n → od_get key (Cache._cache c) = Some e.
Proof.
  intros ([Hnd _] & _ & _ & pre & post & Hc & _). rewrite Hc in *.
  rewrite od_keys_app in Hnd. apply NoDup_app in Hnd as (_ & Hni & _).
  rewrite od_get_app.
  destruct (od_get key pre) eqn:Hp.
  - apply od_get_Some_elem in Hp. exfalso. apply (Hni _ Hp). cbn. left.
  - cbn. by rewrite decide_True.
Qed.

Lemma holds_get_same c key e n now :
  holds c key e n →
  (Cache.get c key now).1 = Some e ∧ holds (Cache.get c key now).2 key e 0.
Proof.
  intros Hh. pose proof (holds_get _ _ _ _ Hh) as Hg.
  destruct Hh as (Hwf & Hd & Ht & _). by apply get_found.
Qed.

Lemma holds_get_other c key e n k now :
  k ≠ key → holds c key e n → holds (Cache.get c k now).2 key e (S n).
Proof.
  intros Hne (Hwf & Hd & Ht & pre & post & Hc & Hlen).
  split; [by apply get_wf|]. split; [by rewrite get_default_ttl|].
  split. { destruct (get_ttls c k now key) as [-> | ->]; done. }
  assert (Hpop : od_pop k (Cache._cache c) = od_pop k pre ++ (key, e) :: od_pop k post).
  { rewrite Hc, od_pop_app. cbn [od_pop]. by rewrite decide_False. }
  unfold Cache.get. destruct (od_get k (Cache._cache c)) as [v|] eqn:Hg.
  - assert (Hhit : ∃ pre' post',
      od_move_to_end k (Cache._cache c) = pre' ++ (key, e) :: post' ∧
      (length post' <= S n)%nat).
    { unfold od_move_to_end. rewrite Hg, Hpop. exists (od_pop k pre), (od_pop k post ++ [(k, v)]).
      rewrite <- app_assoc. split; [done|]. rewrite length_app. cbn.
      pose proof (od_pop_length k post). lia. }
    assert (Hrem : ∃ pre' post',
      od_pop k (Cache._cache c) = pre' ++ (key, e) :: post' ∧ (length post' <= S n)%nat).
    { rewrite Hpop. exists (od_pop k pre), (od_pop k post). split; [done|].
      pose proof (od_pop_length k post). lia. }
    destruct (mjoin (Cache._ttls c !! k)); [destruct (Qgtb _ _)|]; cbn; assumption.
  - exists pre, post. split; [done|lia].
Qed.

Lemma set_max_size c k v ttl now :
  Cache.wf c → 1 <= Cache.max_size c →
  (Cache.set c k v ttl now).1 = Ok tt ∧
  Cache.max_size (Cache.set c k v ttl now).2 = Cache.max_size c.
Proof.
  intros Hwf Hmx. destruct (set_spec c k v ttl now Hwf Hmx) as (c' & -> & Hm & _).
  done.
Qed.

Lemma holds_set_other c key e n k v now :
  k ≠ key → holds c key e n → Z.of_nat n + 2 <= Cache.max_size c →
  holds (Cache.set c k v None now).2 key e (S n).
Proof.
  intros Hne (Hwf & Hd & Ht & pre & post & Hc & Hlen) Hmx.
  pose proof (set_ttls c k v now key Hne Ht) as Ht'.
  destruct (set_spec c k v None now Hwf) as (c' & Hs & Hm & Hd' & Hc' & _ & _ & _ & Hwf');
    [lia|].
  rewrite Hs in *. cbn [snd] in *.
  split; [done|]. split; [congruence|]. split; [done|].
  assert (Hpop : od_pop k (Cache._cache c) = od_pop k pre ++ (key, e) :: od_pop k post).
  { rewrite Hc, od_pop_app. cbn [od_pop]. by rewrite decide_False. }
  rewrite Hc', Hpop.
  pose proof (od_pop_length k post) as Hpl.
  rewrite drop_app_le.
  - eexists _, (od_pop k post ++ [(k, v)]). rewrite <- app_assoc. split; [done|].
    rewrite length_app. cbn. lia.
  - rewrite length_app. cbn. lia.
Qed.

Lemma permanent_set c k v now :
  permanent c → 1 <= Cache.max_size c →
  permanent (Cache.set c k v None now).2 ∧ holds (Cache.set c k v None now).2 k v 0.
Proof.
  intros (Hwf & Hd & Ht) Hmx.
  assert (Hall : ∀ key, mjoin (Cache._ttls (Cache.set c k v None now).2 !! key) = None).
  { intros key. destruct (decide (k = key)) as [<-|Hne]; [|by apply set_ttls].
    destruct (set_spec c k v None now Hwf Hmx) as (c' & Hs & _ & _ & _ & _ & Hk & _).
    rewrite Hs. cbn [snd]. rewrite Hk. cbn. by rewrite Hd. }
  destruct (set_spec c k v None now Hwf Hmx) as (c' & Hs & Hm & Hd' & Hc' & _ & _ & _ & Hwf').
  rewrite Hs in *. cbn [snd] in *.
  split; [split; [done|split; [congruence|done]]|].
  split; [done|]. split; [congruence|]. split; [done|].
  eexists _, []. split; [exact Hc'|]. cbn. lia.
Qed.

Lemma holds_mono c key e n m : (n <= m)%nat → holds c key e n → holds c key e m.
Proof.
  intros Hnm (Hwf & Hd & Ht & pre & post & Hc & Hlen).
  split; [done|]. split; [done|]. split; [done|]. exists pre, post. split; [done|lia].
Qed.

End CacheKeep.

Section CacheLevel.
Context {V : Type}.
Implicit Types (m : Cache.MultiLevelCache V) (c : Cache.LRUCache V).

Lemma evict_max_size fuel c : Cache.max_size (Cache.evict fuel c).2 = Cache.max_size c.
Proof.
  revert c. induction fuel as [|fuel IH]; intros c; [done|].
  cbn [Cache.evict]. destruct (_ <=? _); [|done].
  destruct (Cache._cache c) as [|[k0 v0] rest]; [done|]. by rewrite IH.
Qed.

Lemma set_keeps_max_size c k v ttl now :
  Cache.max_size (Cache.set c k v ttl now).2 = Cache.max_size c.
Proof.
  unfold Cache.set.
  set (c1 := if od_get k (Cache._cache c) is Some _ then Cache._remove c k else c).
  assert (H1 : Cache.max_size c1 = Cache.max_size c)
    by (unfold c1; by destruct (od_get k (Cache._cache c))).
  pose proof (evict_max_size (S (length (Cache._cache c1))) c1) as He.
  destruct (Cache.evict _ c1) as [[[]|err] c2]; cbn [snd] in *; cbn; congruence.
Qed.

Lemma get_Some_inv c key e now :
  (Cache.get c key now).1 = Some e → od_get key (Cache._cache c) = Some e.
Proof.
  unfold Cache.get. destruct (od_get key (Cache._cache c)) as [v|]; [|done].
  destruct (mjoin _); [destruct (Qgtb _ _)|]; cbn; congruence.
Qed.

Lemma get_embedding_level m h now :
  (Cache.get_embedding m h now).1
    = (Cache.get (Cache.embeddings m) (String.append "emb:" h) now).1 ∧
  Cache.embeddings (Cache.get_embedding m h now).2
    = (Cache.get (Cache.embeddings m) (String.append "emb:" h) now).2.
Proof.
  unfold Cache.get_embedding, Cache.mlc_get, Cache._get_cache, Cache._put_cache.
  rewrite !decide_True by done.
  destruct (Cache.get _ _ _) as [[v|] c]; done.
Qed.

Lemma set_embedding_level m h v now :
  (Cache.set_embedding m h v now).1
    = (Cache.set (Cache.embeddings m) (String.append "emb:" h) v None now).1 ∧
  Cache.embeddings (Cache.set_embedding m h v now).2
    = (Cache.set (Cache.embeddings m) (String.append "emb:" h) v None now).2.
Proof.
  unfold Cache.set_embedding, Cache.mlc_set, Cache._get_cache, Cache._put_cache.
  rewrite !decide_True by done.
  destruct (Cache.set _ _ _ _ _) as [r c]; done.
Qed.

End CacheLevel.

Section CacheWorld.
Context `{Services}.

Lemma cache_get_run h now w :
  ∃ w', cache_get_embedding h now w
          = (Ok (Cache.get (emb w) (String.append "emb:" h) now).1, w') ∧
        emb w' = (Cache.get (emb w) (String.append "emb:" h) now).2 ∧
        w_trace w' = w_trace w.
Proof.
  unfold cache_get_embedding, emb.
  destruct (get_embedding_level (w_cache w) h now) as [H1 H2].
  destruct (Cache.get_embedding _ _ _) as [v c]. cbn [fst snd] in *.
  eexists. split; [by rewrite H1|]. done.
Qed.

Lemma cache_set_run h v now w :
  ∃ w', cache_set_embedding h v now w
          = ((Cache.set (emb w) (String.append "emb:" h) v None now).1, w') ∧
        emb w' = (Cache.set (emb w) (String.append "emb:" h) v None now).2 ∧
        w_trace w' = w_trace w.
Proof.
  unfold cache_set_embedding, emb.
  destruct (set_embedding_level (w_cache w) h v now) as [H1 H2].
  destruct (Cache.set_embedding _ _ _ _) as [r c]. cbn [fst snd] in *.
  eexists. split; [by rewrite H1|]. done.
Qed.

End CacheWorld.

(** The invariant through the steps of Stage 1 that use other keys. *)
Section Preserves.
Context `{Services}.
Variable I : nat -> World -> Prop.
Variable key : string.
Hypothesis I_mono : ∀ n m w, (n <= m)%nat → I n w → I m w.
Hypothesis I_event :
  ∀ n w ev, ok_event ev → I n w → I n (mkWorld (w_cache w) (w_trace w ++ [ev])).
Hypothesis I_get :
  ∀ n w h now, String.append "emb:" h ≠ key → I n w →
               I (S n) (cache_get_embedding h now w).2.
Hypothesis I_set :
  ∀ n w h v now, String.append "emb:" h ≠ key → I n w →
                 I (S n) (cache_set_embedding h v now w).2.

Lemma preserves_weaken {A} (m : M A) d d' :
  (d <= d')%nat → preserves I d m → preserves I d' m.
Proof. intros Hd Hm n w Hi. eapply I_mono; [|apply (Hm n w Hi)]. lia. Qed.

Lemma preserves_ret {A} (a : A) d : preserves I d (ret a).
Proof. intros n w Hi. cbn. eapply I_mono; [|exact Hi]. lia. Qed.

Lemma preserves_lift {A} (r : Res A) d : preserves I d (lift r).
Proof. intros n w Hi. cbn. eapply I_mono; [|exact Hi]. lia. Qed.

Lemma preserves_bind {A B} (m : M A) (k : A -> M B) d1 d2 d :
  (d1 + d2 <= d)%nat → preserves I d1 m → (∀ a, preserves I d2 (k a)) →
  preserves I d (bind m k).
Proof.
  intros Hd Hm Hk n w Hi. unfold bind. specialize (Hm n w Hi).
  destruct (m w) as [[a|e] w1]; cbn [snd] in *.
  - eapply I_mono; [|apply (Hk a _ _ Hm)]. lia.
  - eapply I_mono; [|exact Hm]. lia.
Qed.

Lemma preserves_try {A} (m : M A) (h : string -> M A) d1 d2 d :
  (d1 + d2 <= d)%nat → preserves I d1 m → (∀ e, preserves I d2 (h e)) →
  preserves I d (try_except m h).
Proof.
  intros Hd Hm Hh n w Hi. unfold try_except. specialize (Hm n w Hi).
  destruct (m w) as [[a|e] w1]; cbn [snd] in *.
  - eapply I_mono; [|exact Hm]. lia.
  - eapply I_mono; [|apply (Hh e _ _ Hm)]. lia.
Qed.

Lemma preserves_emit ev d : ok_event ev → preserves I d (emit ev).
Proof. intros Hev n w Hi. cbn. eapply I_mono; [|by apply I_event]. lia. Qed.

Lemma preserves_call {A} ev (r : Res A) d : ok_event ev → preserves I d (call ev r).
Proof. intros Hev n w Hi. cbn. eapply I_mono; [|by apply I_event]. lia. Qed.

Lemma preserves_get h now d :
  (1 <= d)%nat → String.append "emb:" h ≠ key → preserves I d (cache_get_embedding h now).
Proof. intros Hd Hk n w Hi. eapply I_mono; [|by apply I_get]. lia. Qed.

Lemma preserves_set h v now d :
  (1 <= d)%nat → String.append "emb:" h ≠ key → preserves I d (cache_set_embedding h v now).
Proof. intros Hd Hk n w Hi. eapply I_mono; [|by apply I_set]. lia. Qed.

Lemma preserves_text_step text now acc :
  String.append "emb:" (String.append "text:" (sha256_hex16 text)) ≠ key →
  preserves I 2 (encode_text_step text now acc).
Proof.
  intros Hk. unfold encode_text_step, encode_text_miss.
  apply (preserves_bind _ _ 1 1); [lia|by apply preserves_get|]. intros cached.
  destruct (usable cached); [apply preserves_ret|].
  apply (preserves_bind _ _ 0 1); [lia|by apply preserves_call|]. intros v.
  apply (preserves_bind _ _ 0 1); [lia| |intros sp].
  { apply (preserves_try _ _ 0 0); [lia| |intros e].
    - apply (preserves_bind _ _ 0 0); [lia|by apply preserves_call|].
      intros r. apply preserves_ret.
    - apply (preserves_bind _ _ 0 0); [lia|by apply preserves_emit|].
      intros r. apply preserves_ret. }
  apply (preserves_bind _ _ 0 1); [lia| |intros cs].
  { apply (preserves_try _ _ 0 0); [lia|by apply preserves_call|intros e].
    apply preserves_ret. }
  apply (preserves_bind _ _ 1 0); [lia|by apply preserves_set|]. intros u.
  apply preserves_ret.
Qed.

Lemma preserves_guarded_step modality prefix failed path encoder now acc :
  modality ≠ "sequence" →
  String.append "emb:" (String.append prefix (sha256_hex16 path)) ≠ key →
  preserves I 2 (encode_guarded_step modality prefix failed path encoder now acc).
Proof.
  intros Hm Hk. unfold encode_guarded_step.
  assert (Hcall : ok_event (EncodeCall modality path)) by (intros x; congruence).
  apply (preserves_bind _ _ 1 1); [lia|by apply preserves_get|]. intros cached.
  destruct (usable cached); [apply preserves_ret|].
  apply (preserves_bind _ _ 0 1); [lia| |intros [v|]; [|apply preserves_ret]].
  { apply (preserves_try _ _ 0 0); [lia| |intros e].
    - apply (preserves_bind _ _ 0 0); [lia|by apply preserves_call|].
      intros r. apply preserves_ret.
    - apply (preserves_bind _ _ 0 0); [lia|by apply preserves_emit|].
      intros r. apply preserves_ret. }
  apply (preserves_bind _ _ 1 0); [lia| |intros u; apply preserves_ret].
  apply (preserves_try _ _ 1 0); [lia|by apply preserves_set|intros e].
  by apply preserves_emit.
Qed.

End Preserves.

(** The two instances of the invariant. *)
Section Instances.
Context `{Services}.

Lemma kept_mono key e mx t0 n m w :
  (n <= m)%nat → kept key e mx t0 n w → kept key e mx t0 m w.
Proof.
  intros Hnm (Hmx & Htr & Hh). split; [done|]. split; [done|].
  intros Hm. eapply holds_mono; [exact Hnm|]. apply Hh. lia.
Qed.

Lemma kept_event key e mx t0 n w ev :
  ok_event ev → kept key e mx t0 n w →
  kept key e mx t0 n (mkWorld (w_cache w) (w_trace w ++ [ev])).
Proof.
  intros Hev (Hmx & (evs & Ht & Hns) & Hh). split; [done|]. split; [|done].
  exists (evs ++ [ev]). cbn. rewrite Ht, app_assoc. split; [done|].
  intros x [Hin|Hin]%elem_of_app; [by apply (Hns x)|].
  apply list_elem_of_singleton in Hin. by apply (Hev x).
Qed.

Lemma kept_get key e mx t0 n w h now :
  String.append "emb:" h ≠ key → kept key e mx t0 n w →
  kept key e mx t0 (S n) (cache_get_embedding h now w).2.
Proof.
  intros Hk (Hmx & Htr & Hh).
  destruct (cache_get_run h now w) as (w' & -> & He & Ht). cbn [snd].
  split; [by rewrite He, get_max_size|]. split; [by rewrite Ht|].
  intros Hn. rewrite He. apply holds_get_other; [done|]. apply Hh. lia.
Qed.

Lemma kept_set key e mx t0 n w h v now :
  String.append "emb:" h ≠ key → kept key e mx t0 n w →
  kept key e mx t0 (S n) (cache_set_embedding h v now w).2.
Proof.
  intros Hk (Hmx & Htr & Hh).
  destruct (cache_set_run h v now w) as (w' & -> & He & Ht). cbn [snd].
  split; [by rewrite He, set_keeps_max_size|]. split; [by rewrite Ht|].
  intros Hn. rewrite He. apply holds_set_other; [done| |lia]. apply Hh. lia.
Qed.

Lemma fresh_mono mx n m w : (n <= m)%nat → fresh mx n w → fresh mx m w.
Proof. done. Qed.

Lemma fresh_event mx n w ev :
  ok_event ev → fresh mx n w → fresh mx n (mkWorld (w_cache w) (w_trace w ++ [ev])).
Proof. done. Qed.

Lemma fresh_get (key : string) mx n w h now :
  String.append "emb:" h ≠ key → fresh mx n w →
  fresh mx (S n) (cache_get_embedding h now w).2.
Proof.
  intros _ (Hp & Hmx & H1).
  destruct (cache_get_run h now w) as (w' & -> & He & Ht). cbn [snd].
  split; [rewrite He; by apply permanent_get|]. split; [by rewrite He, get_max_size|done].
Qed.

Lemma fresh_set (key : string) mx n w h v now :
  String.append "emb:" h ≠ key → fresh mx n w →
  fresh mx (S n) (cache_set_embedding h v now w).2.
Proof.
  intros _ (Hp & Hmx & H1).
  destruct (cache_set_run h v now w) as (w' & -> & He & Ht). cbn [snd].
  split; [rewrite He; apply permanent_set; [done|lia]|].
  split; [by rewrite He, set_keeps_max_size|done].
Qed.

(** The keys of the other modalities differ from a sequence key. *)
Lemma text_key_ne text seq :
  String.append "emb:" (String.append "text:" (sha256_hex16 text)) ≠ sequence_cache_key seq.
Proof. unfold sequence_cache_key. intros [=]. Qed.

Lemma img_key_ne path seq :
  String.append "emb:" (String.append "img:" (sha256_hex16 path)) ≠ sequence_cache_key seq.
Proof. unfold sequence_cache_key. intros [=]. Qed.

Lemma struct_key_ne path seq :
  String.append "emb:" (String.append "struct:" (sha256_hex16 path)) ≠ sequence_cache_key seq.
Proof. unfold sequence_cache_key. intros [=]. Qed.

Lemma trace_start (t : list Event) : ∃ evs, t = t ++ evs ∧ noseq evs.
Proof.
  exists []. split; [by rewrite app_nil_r|]. intros x Hx. by apply elem_of_nil in Hx.
Qed.

Lemma sequence_step_miss seq now acc mx wg acc' w' :
  permanent (emb wg) → Cache.max_size (emb wg) = mx → 1 <= mx →
  (let* seq_vec := call (EncodeCall "sequence" seq) (encode_sequence seq) in
   let* _ := cache_set_embedding (String.append "seq:" (sha256_hex16 (str_take 100 seq)))
               (mkEmbEntry (Some seq_vec) None None) now in
   ret (acc_vector acc "sequence" seq_vec false)) wg = (Ok acc', w') →
  ∃ e, entry_truthy e = true ∧
       kept (sequence_cache_key seq) e mx (w_trace w') 0 w' ∧
       a_vectors acc' !! "sequence" = Some (default [] (e_vector e)) ∧
       (a_cache_hits acc' !! "sequence" = Some false →
        encode_sequence seq = Ok (default [] (e_vector e))).
Proof.
  intros Hp Hmx H1. unfold bind, call.
  destruct (encode_sequence seq) as [v|err]; [|discriminate].
  set (wc := mkWorld (w_cache wg) (w_trace wg ++ [EncodeCall "sequence" seq])).
  destruct (cache_set_run (String.append "seq:" (sha256_hex16 (str_take 100 seq)))
              (mkEmbEntry (Some v) None None) now wc) as (ws & -> & Hes & Hts).
  fold (sequence_cache_key seq) in *. change (emb wc) with (emb wg) in *.
  destruct Hp as (Hwf & Hd & Httl).
  destruct (set_max_size (emb wg) (sequence_cache_key seq) (mkEmbEntry (Some v) None None)
              None now Hwf) as [-> Hms]; [lia|].
  destruct (permanent_set (emb wg) (sequence_cache_key seq)
              (mkEmbEntry (Some v) None None) now) as [_ Hh]; [done|lia|].
  intros [= <- <-]. exists (mkEmbEntry (Some v) None None). split; [done|].
  split; [|split].
  - split; [by rewrite Hes, Hms|]. split; [apply trace_start|]. intros _. by rewrite Hes.
  - cbn. by rewrite lookup_insert_eq.
  - done.
Qed.

(** The sequence step of the first request leaves an entry under the key. *)
Lemma sequence_step_first seq now acc mx n w acc' w' :
  fresh mx n w →
  encode_sequence_step seq now acc w = (Ok acc', w') →
  ∃ e, entry_truthy e = true ∧
       kept (sequence_cache_key seq) e mx (w_trace w') 0 w' ∧
       a_vectors acc' !! "sequence" = Some (default [] (e_vector e)) ∧
       (a_cache_hits acc' !! "sequence" = Some false →
        encode_sequence seq = Ok (default [] (e_vector e))).
Proof.
  intros (Hp & Hmx & H1). unfold encode_sequence_step. unfold bind at 1.
  destruct (cache_get_run (String.append "seq:" (sha256_hex16 (str_take 100 seq))) now w)
    as (wg & -> & He & Ht).
  fold (sequence_cache_key seq) in *.
  assert (Hpg : permanent (emb wg)) by (rewrite He; by apply permanent_get).
  assert (Hmg : Cache.max_size (emb wg) = mx) by (by rewrite He, get_max_size).
  unfold usable.
  destruct (Cache.get (emb w) (sequence_cache_key seq) now).1 as [e0|] eqn:Hg;
    [destruct (entry_truthy e0) eqn:Htruthy|]; try by apply sequence_step_miss.
  intros [= <- <-]. exists e0. split; [done|].
  apply get_Some_inv in Hg as Hod.
  destruct Hp as (Hwf & Hd & Httl).
  destruct (get_found (emb w) (sequence_cache_key seq) e0 now Hwf Hd (Httl _) Hod)
    as [_ Hh].
  split; [|split].
  - split; [done|]. split; [apply trace_start|]. intros _. by rewrite He.
  - cbn. by rewrite lookup_insert_eq.
  - cbn. rewrite lookup_insert_eq. discriminate.
Qed.

(** The sequence step of a later request finds it. *)
Lemma sequence_step_second seq now acc key e mx t0 n w :
  sequence_cache_key seq = key → entry_truthy e = true →
  kept key e mx t0 n w → Z.of_nat n < mx →
  ∃ w', encode_sequence_step seq now acc w
          = (Ok (acc_vector acc "sequence" (default [] (e_vector e)) true), w') ∧
        kept key e mx t0 0 w'.
Proof.
  intros <- Htruthy (Hmx & Htr & Hh) Hn. specialize (Hh Hn).
  unfold encode_sequence_step. unfold bind at 1.
  destruct (cache_get_run (String.append "seq:" (sha256_hex16 (str_take 100 seq))) now w)
    as (wg & -> & He & Ht).
  fold (sequence_cache_key seq) in *.
  destruct (holds_get_same _ _ _ _ now Hh) as [-> Hh'].
  unfold usable. rewrite Htruthy. exists wg. split; [done|].
  split; [by rewrite He, get_max_size|]. split; [by rewrite Ht|]. intros _. by rewrite He.
Qed.

(** The guarded steps return, and touch their own modality only. *)
Lemma guarded_step_result modality prefix failed path encoder now acc w :
  modality ≠ "sequence" →
  ∃ acc', (encode_guarded_step modality prefix failed path encoder now acc w).1 = Ok acc' ∧
          a_vectors acc' !! "sequence" = a_vectors acc !! "sequence" ∧
          a_cache_hits acc' !! "sequence" = a_cache_hits acc !! "sequence".
Proof.
  intros Hm. unfold encode_guarded_step. unfold bind at 1.
  destruct (cache_get_run (String.append prefix (sha256_hex16 path)) now w)
    as (wg & -> & He & Ht).
  assert (Hv : ∀ v hit,
    a_vectors (acc_vector acc modality v hit) !! "sequence" = a_vectors acc !! "sequence" ∧
    a_cache_hits (acc_vector acc modality v hit) !! "sequence"
      = a_cache_hits acc !! "sequence").
  { intros v hit. cbn. by rewrite !lookup_insert_ne. }
  assert (Hh : ∀ hit,
    a_vectors (acc_hit acc modality hit) !! "sequence" = a_vectors acc !! "sequence" ∧
    a_cache_hits (acc_hit acc modality hit) !! "sequence"
      = a_cache_hits acc !! "sequence").
  { intros hit. cbn. by rewrite !lookup_insert_ne. }
  destruct (usable _) as [e|]; [eexists; split; [reflexivity|apply Hv]|].
  unfold bind, try_except, call, emit, ret.
  destruct (encoder path) as [v|err]; cbn.
  - destruct (cache_set_embedding _ _ _ _) as [[[]|err] ws]; cbn;
      eexists; (split; [reflexivity|apply Hv]).
  - eexists; split; [reflexivity|apply Hh].
Qed.

End Instances.

Section PrefixCollision.
Context `{Services}.

Lemma preserves_when (I : nat -> World -> Prop) d cond x step acc :
  (∀ n m w, (n <= m)%nat → I n w → I m w) →
  (∀ v acc, preserves I d (step v acc)) → preserves I d (when_ cond x step acc).
Proof.
  intros Hmono Hs. unfold when_. destruct cond, x; try apply Hs;
    intros n w Hi; cbn; (eapply Hmono; [|exact Hi]); lia.
Qed.

Lemma kept_rebase key e mx t0 n w : kept key e mx t0 n w → kept key e mx (w_trace w) n w.
Proof. intros (Hmx & _ & Hh). split; [done|]. split; [apply trace_start|done]. Qed.

Lemma fresh_text_step mx text now acc :
  preserves (fresh mx) 2 (encode_text_step text now acc).
Proof.
  apply (preserves_text_step (fresh mx) (sequence_cache_key "")).
  - apply fresh_mono.
  - apply fresh_event.
  - apply fresh_get.
  - apply fresh_set.
  - apply text_key_ne.
Qed.

Lemma kept_text_step seq e mx t0 text now acc :
  preserves (kept (sequence_cache_key seq) e mx t0) 2 (encode_text_step text now acc).
Proof.
  apply (preserves_text_step _ (sequence_cache_key seq)).
  - apply kept_mono.
  - apply kept_event.
  - apply kept_get.
  - apply kept_set.
  - apply text_key_ne.
Qed.

Lemma kept_image_step seq e mx t0 path now acc :
  preserves (kept (sequence_cache_key seq) e mx t0) 2 (encode_image_step path now acc).
Proof.
  apply (preserves_guarded_step _ (sequence_cache_key seq)).
  - apply kept_mono.
  - apply kept_event.
  - apply kept_get.
  - apply kept_set.
  - done.
  - apply img_key_ne.
Qed.

Lemma kept_structure_step seq e mx t0 path now acc :
  preserves (kept (sequence_cache_key seq) e mx t0) 2 (encode_structure_step path now acc).
Proof.
  apply (preserves_guarded_step _ (sequence_cache_key seq)).
  - apply kept_mono.
  - apply kept_event.
  - apply kept_get.
  - apply kept_set.
  - done.
  - apply struct_key_ne.
Qed.

Lemma text_step_returns text now acc w v :
  Cache.wf (emb w) → 1 <= Cache.max_size (emb w) → encode_text text = Ok v →
  ∃ acc', (encode_text_step text now acc w).1 = Ok acc'.
Proof.
  intros Hwf Hmx Henc. unfold encode_text_step. unfold bind at 1.
  destruct (cache_get_run (String.append "text:" (sha256_hex16 text)) now w)
    as (wg & -> & He & Ht).
  assert (Hwg : Cache.wf (emb wg)) by (rewrite He; by apply get_wf).
  assert (Hmg : 1 <= Cache.max_size (emb wg)) by (by rewrite He, get_max_size).
  destruct (usable _) as [e|]; [by eexists|].
  assert (Hset : ∀ e t, ∃ ws,
    cache_set_embedding (String.append "text:" (sha256_hex16 text)) e now
      (mkWorld (w_cache wg) t) = (Ok tt, ws)).
  { intros e t. destruct (cache_set_run (String.append "text:" (sha256_hex16 text)) e now
                            (mkWorld (w_cache wg) t)) as (ws & -> & _).
    change (emb (mkWorld (w_cache wg) t)) with (emb wg).
    destruct (set_max_size (emb wg) (String.append "emb:" (String.append "text:"
                (sha256_hex16 text))) e None now Hwg Hmg) as [-> _]. by exists ws. }
  unfold encode_text_miss, bind, try_except, call, emit, ret. rewrite Henc.
  destruct (encode_sparse text) as [sp|err]; destruct (extract_concepts text) as [cs|err'];
    cbn [w_cache w_trace];
    match goal with
    | |- context [cache_set_embedding ?h ?e ?n (mkWorld ?c ?t)] =>
      destruct (Hset e t) as [ws ->]
    end; by eexists.
Qed.

Lemma when_guarded_result modality prefix failed encoder cond x now acc w :
  modality ≠ "sequence" →
  ∃ acc', (when_ cond x
             (fun p => encode_guarded_step modality prefix failed p encoder now) acc w).1
            = Ok acc' ∧
          a_vectors acc' !! "sequence" = a_vectors acc !! "sequence" ∧
          a_cache_hits acc' !! "sequence" = a_cache_hits acc !! "sequence".
Proof.
  intros Hm. unfold when_. destruct cond, x; try (by exists acc).
  by apply guarded_step_result.
Qed.

End PrefixCollision.

Section PrefixTheorem.
Context `{Services}.

(** What the first request leaves behind. *)
Lemma node_encode_first (s : GraphState) (seq : string) (now : Q) (w w1 : World)
    (s1 : GraphState) (mx : Z) :
  fresh mx 0 w →
  detect_sequence s = true → input_sequence s = Some seq →
  node_encode now s w = (Ok s1, w1) →
  ∃ e, entry_truthy e = true ∧
       kept (sequence_cache_key seq) e mx (w_trace w1) 4 w1 ∧
       vectors s1 !! "sequence" = Some (default [] (e_vector e)) ∧
       (cache_hits s1 !! "sequence" = Some false →
        encode_sequence seq = Ok (default [] (e_vector e))).
Proof.
  intros Hf Hq Hi. unfold node_encode. rewrite Hq, Hi.
  rewrite bind_run.
  pose proof (preserves_when (fresh mx) 2 (detect_text s) (input_text s)
                (fun x => encode_text_step x now) (mkEncodeAcc ∅ ∅ [] ∅)
                (fresh_mono mx) (fun v acc => fresh_text_step mx v now acc) 0%nat w Hf)
    as Hfa.
  destruct (when_ _ _ _ _ w) as [[acc1|err] wa]; [|discriminate]. cbn [snd] in Hfa.
  rewrite bind_run. cbn [when_].
  destruct (encode_sequence_step seq now acc1 wa) as [[acc2|err] wb] eqn:Hstep;
    [|discriminate].
  destruct (sequence_step_first _ _ _ _ _ _ _ _ Hfa Hstep) as (e & Htruthy & Hk & Hv & Hm).
  rewrite bind_run.
  pose proof (preserves_when _ 2 (detect_image s) (input_image_path s)
                (fun x => encode_image_step x now) acc2
                (kept_mono (sequence_cache_key seq) e mx (w_trace wb))
                (fun v acc => kept_image_step seq e mx (w_trace wb) v now acc) 0%nat wb Hk)
    as Hkc.
  destruct (when_guarded_result "image" "img:" "IMAGE ENCODING FAILED" encode_image
              (detect_image s) (input_image_path s) now acc2 wb) as (acc3 & Hr3 & Hv3 & Hh3);
    [done|].
  change (fun p => encode_guarded_step "image" "img:" "IMAGE ENCODING FAILED" p encode_image now)
    with (fun x => encode_image_step x now) in Hr3.
  destruct (when_ _ _ _ _ wb) as [r3 wc]. cbn [fst snd] in *. subst r3.
  rewrite bind_run.
  pose proof (preserves_when _ 2 (detect_structure s) (input_structure_path s)
                (fun x => encode_structure_step x now) acc3
                (kept_mono (sequence_cache_key seq) e mx (w_trace wb))
                (fun v acc => kept_structure_step seq e mx (w_trace wb) v now acc) _ wc Hkc)
    as Hkd.
  destruct (when_guarded_result "structure" "struct:" "STRUCTURE ENCODING FAILED"
              encode_structure (detect_structure s) (input_structure_path s) now acc3 wc)
    as (acc4 & Hr4 & Hv4 & Hh4); [done|].
  change (fun p => encode_guarded_step "structure" "struct:" "STRUCTURE ENCODING FAILED" p
                     encode_structure now)
    with (fun x => encode_structure_step x now) in Hr4.
  destruct (when_ _ _ _ _ wc) as [r4 wd]. cbn [fst snd] in *. subst r4.
  destruct (classify _ _) as [[it sc] pm]. intros [= <- <-].
  exists e. split; [done|]. split; [by apply kept_rebase in Hkd|].
  cbn [vectors cache_hits update_encode]. unfold vec in *. rewrite Hv4, Hv3, Hh4, Hh3. done.
Qed.

(** What a later request with the same key gets. *)
Lemma node_encode_second (s : GraphState) (seq : string) (now : Q) (w : World)
    (key : string) (e : EmbEntry) (mx : Z) (n : nat) :
  sequence_cache_key seq = key → entry_truthy e = true →
  kept key e mx (w_trace w) n w → Z.of_nat n + 2 < mx →
  detect_sequence s = true → input_sequence s = Some seq →
  (∀ t, input_text s = Some t → ∃ v, encode_text t = Ok v) →
  ∃ s2 w2 evs,
    node_encode now s w = (Ok s2, w2) ∧
    w_trace w2 = w_trace w ++ evs ∧ noseq evs ∧
    vectors s2 !! "sequence" = Some (default [] (e_vector e)) ∧
    cache_hits s2 !! "sequence" = Some true.
Proof.
  intros <- Htruthy Hk Hn Hq Hi Htext. unfold node_encode. rewrite Hq, Hi.
  rewrite bind_run.
  pose proof (preserves_when _ 2 (detect_text s) (input_text s)
                (fun x => encode_text_step x now) (mkEncodeAcc ∅ ∅ [] ∅)
                (kept_mono (sequence_cache_key seq) e mx (w_trace w))
                (fun v acc => kept_text_step seq e mx (w_trace w) v now acc) _ w Hk)
    as Hka.
  assert (Hr1 : ∃ acc1, (when_ (detect_text s) (input_text s)
                           (fun x => encode_text_step x now) (mkEncodeAcc ∅ ∅ [] ∅) w).1
                        = Ok acc1).
  { unfold when_. destruct (detect_text s), (input_text s) as [t|]; try (by eexists).
    destruct (Htext t eq_refl) as [v Hv].
    destruct Hk as (Hmx & _ & Hh). destruct Hh as (Hwf & _); [lia|].
    eapply text_step_returns; [done|lia|exact Hv]. }
  destruct Hr1 as [acc1 Hr1].
  destruct (when_ _ _ _ _ w) as [r1 wa]. cbn [fst snd] in *. subst r1.
  rewrite bind_run. cbn [when_].
  destruct (sequence_step_second seq now acc1 _ e mx (w_trace w) _ wa eq_refl Htruthy Hka)
    as (wb & -> & Hkb); [lia|].
  rewrite bind_run.
  pose proof (preserves_when _ 2 (detect_image s) (input_image_path s)
                (fun x => encode_image_step x now)
                (acc_vector acc1 "sequence" (default [] (e_vector e)) true)
                (kept_mono (sequence_cache_key seq) e mx (w_trace w))
                (fun v acc => kept_image_step seq e mx (w_trace w) v now acc) _ wb Hkb)
    as Hkc.
  destruct (when_guarded_result "image" "img:" "IMAGE ENCODING FAILED" encode_image
              (detect_image s) (input_image_path s) now
              (acc_vector acc1 "sequence" (default [] (e_vector e)) true) wb)
    as (acc3 & Hr3 & Hv3 & Hh3); [done|].
  change (fun p => encode_guarded_step "image" "img:" "IMAGE ENCODING FAILED" p encode_image now)
    with (fun x => encode_image_step x now) in Hr3.
  destruct (when_ _ _ _ _ wb) as [r3 wc]. cbn [fst snd] in *. subst r3.
  rewrite bind_run.
  pose proof (preserves_when _ 2 (detect_structure s) (input_structure_path s)
                (fun x => encode_structure_step x now) acc3
                (kept_mono (sequence_cache_key seq) e mx (w_trace w))
                (fun v acc => kept_structure_step seq e mx (w_trace w) v now acc) _ wc Hkc)
    as Hkd.
  destruct (when_guarded_result "structure" "struct:" "STRUCTURE ENCODING FAILED"
              encode_structure (detect_structure s) (input_structure_path s) now acc3 wc)
    as (acc4 & Hr4 & Hv4 & Hh4); [done|].
  change (fun p => encode_guarded_step "structure" "struct:" "STRUCTURE ENCODING FAILED" p
                     encode_structure now)
    with (fun x => encode_structure_step x now) in Hr4.
  destruct (when_ _ _ _ _ wc) as [r4 wd]. cbn [fst snd] in *. subst r4.
  destruct (classify _ _) as [[it sc] pm].
  destruct Hkd as (_ & (evs & Htr & Hns) & _).
  eexists _, wd, evs. split; [reflexivity|]. split; [done|]. split; [done|].
  cbn [vectors cache_hits update_encode]. unfold vec in *. rewrite Hv4, Hv3, Hh4, Hh3.
  cbn. by rewrite !lookup_insert_eq.
Qed.

(** C10: the cache key of a sequence hashes its first 100 characters only.
    Take two requests whose sequences agree on their first 100 characters,
    the first handled by [node_encode] on a permanent embedding cache of
    capacity at least 7 (it is 10000). Then the second request is not
    encoded: [node_encode] returns for it without any call of the sequence
    encoder, reports a cache hit, and its sequence vector is the one the
    first request got, which is the encoding of the first sequence when the
    first request was a miss. The text of the second request, when it has
    one, is taken to encode without an exception. *)
Theorem sequence_cache_prefix_collision (s_a s_b : GraphState) (a b : string)
    (now1 now2 : Q) (w w1 : World) (s1 : GraphState) :
  permanent (emb w) → 7 <= Cache.max_size (emb w) →
  detect_sequence s_a = true → input_sequence s_a = Some a →
  detect_sequence s_b = true → input_sequence s_b = Some b →
  str_take 100 a = str_take 100 b →
  (∀ t, input_text s_b = Some t → ∃ v, encode_text t = Ok v) →
  node_encode now1 s_a w = (Ok s1, w1) →
  ∃ v s2 w2 evs,
    vectors s1 !! "sequence" = Some v ∧
    (cache_hits s1 !! "sequence" = Some false → encode_sequence a = Ok v) ∧
    node_encode now2 s_b w1 = (Ok s2, w2) ∧
    w_trace w2 = w_trace w1 ++ evs ∧
    noseq evs ∧
    vectors s2 !! "sequence" = Some v ∧
    cache_hits s2 !! "sequence" = Some true.
Proof.
  intros Hp Hmx Hqa Hia Hqb Hib Hpre Htext Hrun.
  destruct (node_encode_first s_a a now1 w w1 s1 (Cache.max_size (emb w)))
    as (e & Htruthy & Hk & Hv & Hm); [split; [done|split; [done|lia]]|done..|].
  destruct (node_encode_second s_b b now2 w1 (sequence_cache_key a) e
              (Cache.max_size (emb w)) 4) as (s2 & w2 & evs & Hrun2 & Htr & Hns & Hv2 & Hh2);
    [|done|done|lia|done..|].
  { unfold sequence_cache_key. by rewrite Hpre. }
  by exists (default [] (e_vector e)), s2, w2, evs.
Qed.

End PrefixTheorem.

(** The embedding level of a new cache is permanent. *)
Lemma mlc_init_permanent {V} : permanent (Cache.embeddings (@Cache.mlc_init V)).
Proof.
  split; [split; [constructor|cbn; lia]|]. split; [done|].
  intros k. cbn. by rewrite lookup_empty.
Qed.

Lemma sequence_cache_prefix_collision_witness :
  demo_long_a ≠ demo_long_b ∧
  @encode_sequence demo_length_services demo_long_b = Ok [103%Q] ∧
  ∃ s1 w1 s2 w2 evs,
    @node_encode demo_length_services 0 (demo_long_state demo_long_a) demo_world
      = (Ok s1, w1) ∧
    @node_encode demo_length_services 1 (demo_long_state demo_long_b) w1 = (Ok s2, w2) ∧
    w_trace w2 = w_trace w1 ++ evs ∧ noseq evs ∧
    vectors s2 !! "sequence" = Some [101%Q] ∧
    cache_hits s2 !! "sequence" = Some true.
Proof.
  split; [by vm_compute|]. split; [reflexivity|].
  assert (Henc : ∃ s1 w1,
             @node_encode demo_length_services 0 (demo_long_state demo_long_a) demo_world
               = (Ok s1, w1) ∧
             vectors s1 !! "sequence" = Some [101%Q]).
  { vm_compute. eexists _, _. split; reflexivity. }
  destruct Henc as (s1 & w1 & Henc & Hvec).
  destruct (@sequence_cache_prefix_collision demo_length_services
              (demo_long_state demo_long_a) (demo_long_state demo_long_b)
              demo_long_a demo_long_b 0 1 demo_world w1 s1)
    as (v & s2 & w2 & evs & Hv & _ & Hrun & Htr & Hns & Hv2 & Hh2);
    [apply mlc_init_permanent | by vm_compute | reflexivity | reflexivity | reflexivity
    | reflexivity | reflexivity | discriminate | exact Henc |].
  exists s1, w1, s2, w2, evs.
  unfold vec in *. rewrite Hvec in Hv. injection Hv as <-.
  done.
Defined.

(** * Further properties of the code *)

(** ** [LRUCache]: what every history keeps *)

Section CacheHistory.
Context {V : Type}.
Implicit Types (c : Cache.LRUCache V) (k key : string) (v : V).

(** The invariant of a history: distinct keys, side dictionaries in step,
    and a size within the capacity. *)
Lemma synced_remove c key : Cache.synced c → Cache.synced (Cache._remove c key).
Proof.
  intros Hs k. destruct (Hs k) as [H1 H2].
  cbn [Cache._remove Cache._cache Cache._timestamps Cache._ttls].
  rewrite od_keys_pop, list_elem_of_filter, !lookup_delete_is_Some.
  split; split; intros [Hne Hin]; (split; [congruence|]); tauto.
Qed.

Lemma synced_move c key v :
  od_get key (Cache._cache c) = Some v → Cache.synced c →
  Cache.synced (Cache.mkLRUCache (Cache.max_size c) (Cache.default_ttl c)
                  (od_move_to_end key (Cache._cache c)) (Cache._timestamps c)
                  (Cache._ttls c)).
Proof.
  intros Hg Hs k. destruct (Hs k) as [H1 H2].
  cbn [Cache._cache Cache._timestamps Cache._ttls]. unfold od_move_to_end. rewrite Hg.
  assert (Hk : k ∈ od_keys (od_pop key (Cache._cache c) ++ [(key, v)])
               <-> k ∈ od_keys (Cache._cache c)).
  { rewrite od_keys_app, elem_of_app, od_keys_pop, list_elem_of_filter. cbn.
    rewrite list_elem_of_singleton. apply od_get_Some_elem in Hg.
    destruct (decide (k = key)) as [->|Hne]; [tauto|]. tauto. }
  rewrite Hk. tauto.
Qed.

Lemma synced_get c key now : Cache.synced c → Cache.synced (Cache.get c key now).2.
Proof.
  intros Hs. unfold Cache.get.
  destruct (od_get key (Cache._cache c)) as [v|] eqn:Hg; [|done].
  pose proof (synced_move c key v Hg Hs). pose proof (synced_remove c key Hs).
  destruct (mjoin (Cache._ttls c !! key)); [destruct (Qgtb _ _)|]; done.
Qed.

Lemma evict_default_ttl fuel c :
  Cache.default_ttl (Cache.evict fuel c).2 = Cache.default_ttl c.
Proof.
  revert c. induction fuel as [|fuel IH]; intros c; [done|].
  cbn [Cache.evict]. destruct (_ <=? _); [|done].
  destruct (Cache._cache c) as [|[k0 v0] rest]; [done|]. by rewrite IH.
Qed.

(** The eviction loop: it keeps the invariants; when it ends normally there
    is room for one entry, and when [next(iter(...))] raises the dictionary
    is empty. *)
Lemma evict_history fuel c :
  (length (Cache._cache c) < fuel)%nat →
  Cache.synced c → NoDup (od_keys (Cache._cache c)) →
  Cache.synced (Cache.evict fuel c).2 ∧
  NoDup (od_keys (Cache._cache (Cache.evict fuel c).2)) ∧
  (length (Cache._cache (Cache.evict fuel c).2) <= length (Cache._cache c))%nat ∧
  (((Cache.evict fuel c).1 = Ok tt ∧
    Z.of_nat (length (Cache._cache (Cache.evict fuel c).2)) < Cache.max_size c) ∨
   ((Cache.evict fuel c).1 = Raise "StopIteration" ∧
    Cache._cache (Cache.evict fuel c).2 = [] ∧ Cache.max_size c <= 0)).
Proof.
  revert c. induction fuel as [|fuel IH]; intros c Hlen Hs Hnd; [lia|].
  cbn [Cache.evict].
  destruct (Z.leb_spec (Cache.max_size c) (Z.of_nat (length (Cache._cache c))))
    as [Hfull|Hroom].
  - destruct (Cache._cache c) as [|[k0 v0] rest] eqn:Hc.
    + cbn. rewrite Hc. split; [done|]. split; [constructor|]. split; [done|].
      right. cbn in Hfull. split; [done|]. split; [done|lia].
    + assert (Hrem : Cache._cache (Cache._remove c k0) = rest).
      { cbn. rewrite Hc. apply od_pop_head.
        unfold od_keys in Hnd. rewrite fmap_cons in Hnd. by apply NoDup_cons in Hnd as [? _]. }
      destruct (IH (Cache._remove c k0)) as (H1 & H2 & H3 & H4).
      * rewrite Hrem. cbn in Hlen. lia.
      * by apply synced_remove.
      * rewrite Hrem. unfold od_keys in Hnd. rewrite fmap_cons in Hnd.
        by apply NoDup_cons in Hnd as [_ ?].
      * split; [done|]. split; [done|]. rewrite Hrem in H3. split; [cbn; lia|].
        exact H4.
  - cbn. split; [done|]. split; [done|]. split; [done|]. left. split; [done|lia].
Qed.

Lemma set_history c key v ttl now :
  Cache.synced c → NoDup (od_keys (Cache._cache c)) →
  Cache.synced (Cache.set c key v ttl now).2 ∧
  NoDup (od_keys (Cache._cache (Cache.set c key v ttl now).2)) ∧
  (Z.of_nat (length (Cache._cache c)) <= Z.max 0 (Cache.max_size c) →
   Z.of_nat (length (Cache._cache (Cache.set c key v ttl now).2))
     <= Z.max 0 (Cache.max_size c)) ∧
  (Cache.max_size c <= 0 → Cache._cache c = [] →
   (Cache.set c key v ttl now).1 = Raise "StopIteration" ∧
   Cache._cache (Cache.set c key v ttl now).2 = []).
Proof.
  intros Hs Hnd. unfold Cache.set.
  set (c1 := if od_get key (Cache._cache c) is Some _ then Cache._remove c key else c).
  assert (Hs1 : Cache.synced c1).
  { unfold c1. destruct (od_get key (Cache._cache c)); [by apply synced_remove|done]. }
  assert (Hc1 : Cache._cache c1 = od_pop key (Cache._cache c)).
  { unfold c1. destruct (od_get key (Cache._cache c)) eqn:Hg; [done|].
    apply od_get_None in Hg. by rewrite od_pop_notin. }
  assert (Hm1 : Cache.max_size c1 = Cache.max_size c)
    by (unfold c1; by destruct (od_get key (Cache._cache c))).
  assert (Hnd1 : NoDup (od_keys (Cache._cache c1))) by (rewrite Hc1; by apply od_pop_NoDup).
  destruct (evict_history (S (length (Cache._cache c1))) c1) as (Hs2 & Hnd2 & Hle & Hres);
    [lia|done|done|].
  pose proof (evict_max_size (S (length (Cache._cache c1))) c1) as Hm2.
  assert (Hni : key ∉ od_keys (Cache._cache c1)) by (rewrite Hc1; apply od_keys_pop_notin).
  destruct (Cache.evict (S (length (Cache._cache c1))) c1) as [r c2]. cbn [fst snd] in *.
  destruct Hres as [[-> Hroom]|(-> & Hempty & Hzero)].
  - cbn [fst snd]. split; [|split; [|split]].
    + intros k. destruct (Hs2 k) as [H1 H2].
      cbn [Cache._cache Cache._timestamps Cache._ttls].
      rewrite od_keys_set, !lookup_insert_is_Some.
      destruct (decide (key = k)) as [->|Hne]; [tauto|].
      split; split; intros [?|?]; try congruence; right; tauto.
    + cbn. by apply od_set_NoDup.
    + intros _. cbn.
      assert (length (od_set key v (Cache._cache c2)) <= S (length (Cache._cache c2)))%nat.
      { clear. induction (Cache._cache c2) as [|[k' v'] d IH]; cbn; [lia|].
        case_decide; cbn; lia. }
      rewrite Hm1 in Hroom. lia.
    + intros Hz He. rewrite Hm1 in Hroom. lia.
  - cbn [fst snd]. split; [done|]. split; [done|]. rewrite Hempty. split; [cbn; lia|]. done.
Qed.

End CacheHistory.

Section CacheHistoryFacts.
Context {V : Type}.
Implicit Types (c : Cache.LRUCache V) (k key : string) (v : V).

Lemma set_default_ttl c key v ttl now :
  Cache.default_ttl (Cache.set c key v ttl now).2 = Cache.default_ttl c.
Proof.
  unfold Cache.set.
  set (c1 := if od_get key (Cache._cache c) is Some _ then Cache._remove c key else c).
  assert (H1 : Cache.default_ttl c1 = Cache.default_ttl c)
    by (unfold c1; by destruct (od_get key (Cache._cache c))).
  pose proof (evict_default_ttl (S (length (Cache._cache c1))) c1) as He.
  destruct (Cache.evict _ c1) as [[[]|err] c2]; cbn [snd] in *; cbn; congruence.
Qed.

Lemma get_history c key now :
  NoDup (od_keys (Cache._cache c)) →
  NoDup (od_keys (Cache._cache (Cache.get c key now).2)) ∧
  (length (Cache._cache (Cache.get c key now).2) <= length (Cache._cache c))%nat.
Proof.
  intros Hnd. unfold Cache.get.
  destruct (od_get key (Cache._cache c)) as [v|] eqn:Hg; [|by split].
  assert (Hhit : NoDup (od_keys (od_move_to_end key (Cache._cache c))) ∧
                 (length (od_move_to_end key (Cache._cache c))
                  <= length (Cache._cache c))%nat).
  { unfold od_move_to_end. rewrite Hg. split.
    - rewrite od_keys_app. apply NoDup_app. split; [by apply od_pop_NoDup|]. split.
      + intros x Hx Hx'. cbn in Hx'. apply list_elem_of_singleton in Hx'. subst.
        by apply od_keys_pop_notin in Hx.
      + apply NoDup_singleton.
    - rewrite length_app. cbn. pose proof (od_pop_shorter key v _ Hg). lia. }
  assert (Hrem : NoDup (od_keys (od_pop key (Cache._cache c))) ∧
                 (length (od_pop key (Cache._cache c)) <= length (Cache._cache c))%nat).
  { split; [by apply od_pop_NoDup|apply od_pop_length]. }
  destruct (mjoin (Cache._ttls c !! key)); [destruct (Qgtb _ _)|]; done.
Qed.

(** What one call keeps. *)
Lemma call_step_history (x : Cache.Call V) c :
  Cache.synced c → NoDup (od_keys (Cache._cache c)) →
  Z.of_nat (length (Cache._cache c)) <= Z.max 0 (Cache.max_size c) →
  Cache.synced (Cache.call_step c x) ∧
  NoDup (od_keys (Cache._cache (Cache.call_step c x))) ∧
  Z.of_nat (length (Cache._cache (Cache.call_step c x))) <= Z.max 0 (Cache.max_size c) ∧
  Cache.max_size (Cache.call_step c x) = Cache.max_size c ∧
  Cache.default_ttl (Cache.call_step c x) = Cache.default_ttl c.
Proof.
  intros Hs Hnd Hlen. destruct x as [key now|key v ttl now|]; cbn [Cache.call_step].
  - destruct (get_history c key now Hnd) as [H1 H2].
    split; [by apply synced_get|]. split; [done|]. split; [lia|].
    split; [apply get_max_size|apply get_default_ttl].
  - destruct (set_history c key v ttl now Hs Hnd) as (H1 & H2 & H3 & _).
    split; [done|]. split; [done|]. split; [by apply H3|].
    split; [apply set_keeps_max_size|apply set_default_ttl].
  - split; [|split; [constructor|split; [cbn; lia|done]]].
    intros k. cbn. rewrite !lookup_empty. split; split; intros Hk;
      try (by apply elem_of_nil in Hk); by destruct Hk.
Qed.

(** What a history keeps, from any cache that has it. *)
Lemma run_history (calls : list (Cache.Call V)) c :
  Cache.synced c → NoDup (od_keys (Cache._cache c)) →
  Z.of_nat (length (Cache._cache c)) <= Z.max 0 (Cache.max_size c) →
  Cache.synced (Cache.run calls c) ∧
  NoDup (od_keys (Cache._cache (Cache.run calls c))) ∧
  Z.of_nat (length (Cache._cache (Cache.run calls c))) <= Z.max 0 (Cache.max_size c) ∧
  Cache.max_size (Cache.run calls c) = Cache.max_size c ∧
  Cache.default_ttl (Cache.run calls c) = Cache.default_ttl c.
Proof.
  revert c. induction calls as [|x calls IH]; intros c Hs Hnd Hlen; [done|].
  cbn [Cache.run fold_left]. fold (Cache.run calls (Cache.call_step c x)).
  destruct (call_step_history x c Hs Hnd Hlen) as (H1 & H2 & H3 & H4 & H5).
  destruct (IH (Cache.call_step c x)) as (I1 & I2 & I3 & I4 & I5); [done|done|by rewrite H4|].
  rewrite H4 in I3. split; [done|]. split; [done|]. split; [done|]. split; congruence.
Qed.

(** [LRUCache]: every history of [get], [set] and [clear] on a new cache
    leaves distinct keys, at most [max_size] of them, and side dictionaries
    ([_timestamps], [_ttls]) holding exactly the keys of the cache; the
    capacity and the default time-to-live never change. *)
Theorem lru_history_invariant (calls : list (Cache.Call V)) (max : Z) (dttl : option Z) :
  let c := Cache.run calls (Cache.init max dttl) in
  NoDup (od_keys (Cache._cache c)) ∧
  Z.of_nat (length (Cache._cache c)) <= Z.max 0 max ∧
  (∀ k, k ∈ od_keys (Cache._cache c) <-> is_Some (Cache._timestamps c !! k)) ∧
  (∀ k, k ∈ od_keys (Cache._cache c) <-> is_Some (Cache._ttls c !! k)) ∧
  Cache.max_size c = max ∧
  Cache.default_ttl c = dttl.
Proof.
  intros c.
  destruct (run_history calls (Cache.init max dttl)) as (H1 & H2 & H3 & H4 & H5).
  - intros k. cbn. rewrite !lookup_empty. split; split; intros Hk;
      try (by apply elem_of_nil in Hk); by destruct Hk.
  - constructor.
  - cbn. lia.
  - split; [done|]. split; [done|]. split; [intros k; apply H1|].
    split; [intros k; apply H1|]. done.
Qed.

(** [LRUCache] with [max_size <= 0]: the eviction loop of [set] asks an empty
    dictionary for its first key, so every [set] raises [StopIteration],
    nothing is ever stored and every [get] misses. *)
Theorem lru_zero_capacity (calls : list (Cache.Call V)) (max : Z) (dttl : option Z)
    (key : string) (v : V) (ttl : option Z) (now : Q) :
  max <= 0 →
  let c := Cache.run calls (Cache.init max dttl) in
  Cache._cache c = [] ∧
  Cache.set c key v ttl now = (Raise "StopIteration", c) ∧
  Cache.get c key now = (None, c).
Proof.
  intros Hmax c.
  destruct (run_history calls (Cache.init max dttl)) as (H1 & H2 & H3 & H4 & H5).
  - intros k. cbn. rewrite !lookup_empty. split; split; intros Hk;
      try (by apply elem_of_nil in Hk); by destruct Hk.
  - constructor.
  - cbn. lia.
  - fold c in H1, H2, H3, H4, H5. cbn in H3, H4.
    assert (Hempty : Cache._cache c = []).
    { destruct (Cache._cache c); [done|]. cbn in H3. lia. }
    split; [done|]. split.
    + unfold Cache.set. rewrite Hempty. cbn. rewrite Hempty, H4.
      assert ((max <=? Z.of_nat (@length (string * V) [])) = true) as ->
        by (apply Z.leb_le; cbn; lia).
      done.
    + unfold Cache.get. by rewrite Hempty.
Qed.

End CacheHistoryFacts.

Lemma lru_zero_capacity_witness :
  Cache.set (Cache.run [Cache.CallSet "a" 1%nat None 0%Q; Cache.CallGet "a" 1%Q]
               (Cache.init 0 None)) "b" 2%nat (Some 5) 2%Q
    = (Raise "StopIteration",
       Cache.run [Cache.CallSet "a" 1%nat None 0%Q; Cache.CallGet "a" 1%Q]
         (Cache.init 0 None)).
Proof.
  apply (lru_zero_capacity
           [Cache.CallSet "a" 1%nat None 0%Q; Cache.CallGet "a" 1%Q] 0 None "b" 2%nat
           (Some 5) 2%Q).
  lia.
Defined.

(** ** [MultiLevelCache] *)

Section MultiLevel.
Context {V : Type}.
Implicit Types (m : Cache.MultiLevelCache V) (c : Cache.LRUCache V).

(** [get] and [set] act on the cache of their level and leave the two
    others alone; a level name that is none of the three stands for
    "results". *)
Lemma mlc_get_levels m key level now :
  let target := Cache._get_cache m level in
  let m' := (Cache.mlc_get m key level now).2 in
  (Cache.mlc_get m key level now).1 = (Cache.get target key now).1 ∧
  Cache._get_cache m' level = (Cache.get target key now).2 ∧
  (level = "embeddings" ∧ Cache.results m' = Cache.results m ∧ Cache.llm m' = Cache.llm m ∨
   level = "llm" ∧ Cache.embeddings m' = Cache.embeddings m
     ∧ Cache.results m' = Cache.results m ∨
   level ≠ "embeddings" ∧ level ≠ "llm" ∧ Cache.embeddings m' = Cache.embeddings m
     ∧ Cache.llm m' = Cache.llm m ∧ Cache.results m' = (Cache.get target key now).2).
Proof.
  unfold Cache.mlc_get, Cache._get_cache, Cache._put_cache.
  destruct (decide (level = "embeddings")) as [->|Hne].
  { destruct (Cache.get _ key now) as [[v|] c']; cbn;
      (split; [done|]); (split; [done|]); left; done. }
  destruct (decide (level = "results")) as [->|Hnr].
  { destruct (Cache.get _ key now) as [[v|] c']; cbn;
      (split; [done|]); (split; [done|]); right; right; done. }
  destruct (decide (level = "llm")) as [->|Hnl].
  { destruct (Cache.get _ key now) as [[v|] c']; cbn;
      (split; [done|]); (split; [done|]); right; left; done. }
  destruct (Cache.get _ key now) as [[v|] c']; cbn;
    (split; [done|]); (split; [done|]); right; right; done.
Qed.

Lemma mlc_set_levels m key v level ttl now :
  let target := Cache._get_cache m level in
  let m' := (Cache.mlc_set m key v level ttl now).2 in
  (Cache.mlc_set m key v level ttl now).1 = (Cache.set target key v ttl now).1 ∧
  Cache._get_cache m' level = (Cache.set target key v ttl now).2 ∧
  Cache._hits m' = Cache._hits m ∧ Cache._misses m' = Cache._misses m ∧
  (level = "embeddings" ∧ Cache.results m' = Cache.results m ∧ Cache.llm m' = Cache.llm m ∨
   level = "llm" ∧ Cache.embeddings m' = Cache.embeddings m
     ∧ Cache.results m' = Cache.results m ∨
   level ≠ "embeddings" ∧ level ≠ "llm" ∧ Cache.embeddings m' = Cache.embeddings m
     ∧ Cache.llm m' = Cache.llm m ∧ Cache.results m' = (Cache.set target key v ttl now).2).
Proof.
  unfold Cache.mlc_set, Cache._get_cache, Cache._put_cache.
  destruct (decide (level = "embeddings")) as [->|Hne].
  { destruct (Cache.set _ key v ttl now) as [r c']; cbn;
      repeat (split; [done|]); left; done. }
  destruct (decide (level = "results")) as [->|Hnr].
  { destruct (Cache.set _ key v ttl now) as [r c']; cbn;
      repeat (split; [done|]); right; right; done. }
  destruct (decide (level = "llm")) as [->|Hnl].
  { destruct (Cache.set _ key v ttl now) as [r c']; cbn;
      repeat (split; [done|]); right; left; done. }
  destruct (Cache.set _ key v ttl now) as [r c']; cbn;
    repeat (split; [done|]); right; right; done.
Qed.

Lemma get_cache_cases m level :
  Cache._get_cache m level = Cache.embeddings m ∧ level = "embeddings" ∨
  Cache._get_cache m level = Cache.llm m ∧ level = "llm" ∨
  Cache._get_cache m level = Cache.results m ∧ level ≠ "embeddings" ∧ level ≠ "llm".
Proof.
  unfold Cache._get_cache. repeat case_decide; subst; auto.
Qed.

(** Properties of the three levels that every call of [LRUCache] keeps are
    kept by every call of [MultiLevelCache]. *)
Lemma mlc_step_levels (x : Cache.MCall V) m (Pe Pr Pl : Cache.LRUCache V → Prop) :
  (∀ c (y : Cache.Call V), Pe c → Pe (Cache.call_step c y)) →
  (∀ c (y : Cache.Call V), Pr c → Pr (Cache.call_step c y)) →
  (∀ c (y : Cache.Call V), Pl c → Pl (Cache.call_step c y)) →
  Pe (Cache.embeddings m) → Pr (Cache.results m) → Pl (Cache.llm m) →
  Pe (Cache.embeddings (Cache.mcall_step m x)) ∧
  Pr (Cache.results (Cache.mcall_step m x)) ∧
  Pl (Cache.llm (Cache.mcall_step m x)).
Proof.
  intros Hse Hsr Hsl He Hr Hl. destruct x as [key level now|key v level ttl now|].
  - cbn [Cache.mcall_step].
    destruct (mlc_get_levels m key level now) as (_ & Hput & Hrest). cbn zeta in Hput, Hrest.
    pose proof (Hse _ (Cache.CallGet key now) He) as He'.
    pose proof (Hsr _ (Cache.CallGet key now) Hr) as Hr'.
    pose proof (Hsl _ (Cache.CallGet key now) Hl) as Hl'. cbn [Cache.call_step] in *.
    destruct (get_cache_cases m level) as [[Hc ->]|[[Hc ->]|(Hc & Hn1 & Hn2)]];
      rewrite Hc in *;
      destruct Hrest as [(? & E1 & E2)|[(? & E1 & E2)|(? & ? & E1 & E2 & E3)]];
      try done; rewrite ?E1, ?E2, ?E3; try (by repeat split).
    + unfold Cache._get_cache in Hput. rewrite decide_True in Hput by done.
      rewrite Hput. by repeat split.
    + unfold Cache._get_cache in Hput. rewrite decide_False, decide_False, decide_True in Hput
        by done. rewrite Hput. by repeat split.
  - cbn [Cache.mcall_step].
    destruct (mlc_set_levels m key v level ttl now) as (_ & Hput & _ & _ & Hrest).
    cbn zeta in Hput, Hrest.
    pose proof (Hse _ (Cache.CallSet key v ttl now) He) as He'.
    pose proof (Hsr _ (Cache.CallSet key v ttl now) Hr) as Hr'.
    pose proof (Hsl _ (Cache.CallSet key v ttl now) Hl) as Hl'. cbn [Cache.call_step] in *.
    destruct (get_cache_cases m level) as [[Hc ->]|[[Hc ->]|(Hc & Hn1 & Hn2)]];
      rewrite Hc in *;
      destruct Hrest as [(? & E1 & E2)|[(? & E1 & E2)|(? & ? & E1 & E2 & E3)]];
      try done; rewrite ?E1, ?E2, ?E3; try (by repeat split).
    + unfold Cache._get_cache in Hput. rewrite decide_True in Hput by done.
      rewrite Hput. by repeat split.
    + unfold Cache._get_cache in Hput. rewrite decide_False, decide_False, decide_True in Hput
        by done. rewrite Hput. by repeat split.
  - cbn. split; [|split].
    + apply (Hse _ Cache.CallClear He).
    + apply (Hsr _ Cache.CallClear Hr).
    + apply (Hsl _ Cache.CallClear Hl).
Qed.

Lemma mlc_run_levels (calls : list (Cache.MCall V)) m (Pe Pr Pl : Cache.LRUCache V → Prop) :
  (∀ c (y : Cache.Call V), Pe c → Pe (Cache.call_step c y)) →
  (∀ c (y : Cache.Call V), Pr c → Pr (Cache.call_step c y)) →
  (∀ c (y : Cache.Call V), Pl c → Pl (Cache.call_step c y)) →
  Pe (Cache.embeddings m) → Pr (Cache.results m) → Pl (Cache.llm m) →
  Pe (Cache.embeddings (Cache.mlc_run calls m)) ∧
  Pr (Cache.results (Cache.mlc_run calls m)) ∧
  Pl (Cache.llm (Cache.mlc_run calls m)).
Proof.
  intros Hse Hsr Hsl. revert m. induction calls as [|x calls IH]; intros m He Hr Hl; [done|].
  cbn [Cache.mlc_run fold_left]. fold (Cache.mlc_run calls (Cache.mcall_step m x)).
  destruct (mlc_step_levels x m Pe Pr Pl Hse Hsr Hsl He Hr Hl) as (H1 & H2 & H3).
  by apply IH.
Qed.

End MultiLevel.

Section MultiLevelFacts.
Context {V : Type}.
Implicit Types (m : Cache.MultiLevelCache V) (c : Cache.LRUCache V).

(** After [set], a [get] of the same key: a hit as long as the age is at
    most the time-to-live, a miss after. *)
Lemma set_get_window c key v ttl now later :
  Cache.wf c → 1 <= Cache.max_size c →
  let c' := (Cache.set c key v ttl now).2 in
  match Cache.effective_ttl c ttl with
  | None => (Cache.get c' key later).1 = Some v
  | Some t =>
    ((later - now <= inject_Z t)%Q → (Cache.get c' key later).1 = Some v) ∧
    ((inject_Z t < later - now)%Q → (Cache.get c' key later).1 = None)
  end.
Proof.
  intros Hwf Hmx.
  destruct (set_spec c key v ttl now Hwf Hmx) as (c' & Hs & _ & _ & Hc' & Hts & Httl & _).
  rewrite Hs. cbn [snd].
  assert (Hget : od_get key (Cache._cache c') = Some v).
  { rewrite Hc'. apply od_get_last. rewrite od_keys_drop. intros Hin.
    apply subseteq_drop in Hin. by apply od_keys_pop_notin in Hin. }
  unfold Cache.effective_ttl.
  destruct (if ttl is Some t then Some t else Cache.default_ttl c) as [t|] eqn:Heff.
  - split.
    + intros Hage. erewrite get_hit; [done|exact Hget|].
      intros t'. rewrite Httl, Hts. cbn. intros [= <-]. done.
    + intros Hage. erewrite get_expired; [done|exact Hget| |].
      * rewrite Httl. done.
      * rewrite Hts. done.
  - erewrite get_hit; [done|exact Hget|]. intros t'. rewrite Httl. cbn. done.
Qed.

(** The state of a level. *)
Lemma level_step mx dttl c (y : Cache.Call V) :
  1 <= mx →
  Cache.wf c ∧ Cache.synced c ∧ Cache.max_size c = mx ∧ Cache.default_ttl c = dttl →
  Cache.wf (Cache.call_step c y) ∧ Cache.synced (Cache.call_step c y) ∧
  Cache.max_size (Cache.call_step c y) = mx ∧ Cache.default_ttl (Cache.call_step c y) = dttl.
Proof.
  intros Hmx ([Hnd Hlen] & Hs & Hm & Hd).
  destruct (call_step_history y c Hs Hnd) as (I1 & I2 & I3 & I4 & I5); [lia|].
  split; [split; [done|lia]|]. split; [done|]. split; congruence.
Qed.

Lemma level_init mx dttl :
  0 <= mx →
  Cache.wf (Cache.init (V:=V) mx dttl) ∧ Cache.synced (Cache.init (V:=V) mx dttl) ∧
  Cache.max_size (Cache.init (V:=V) mx dttl) = mx ∧
  Cache.default_ttl (Cache.init (V:=V) mx dttl) = dttl.
Proof.
  intros Hmx. split; [split; [constructor|cbn; lia]|]. split; [|done].
  intros k. cbn. rewrite !lookup_empty. split; split; intros Hk;
    try (by apply elem_of_nil in Hk); by destruct Hk.
Qed.

(** The three levels of a cache that has been used. *)
Lemma mlc_run_good (calls : list (Cache.MCall V)) :
  let m := Cache.mlc_run calls Cache.mlc_init in
  (Cache.wf (Cache.embeddings m) ∧ Cache.synced (Cache.embeddings m) ∧
   Cache.max_size (Cache.embeddings m) = 10000 ∧ Cache.default_ttl (Cache.embeddings m) = None) ∧
  (Cache.wf (Cache.results m) ∧ Cache.synced (Cache.results m) ∧
   Cache.max_size (Cache.results m) = 1000 ∧
   Cache.default_ttl (Cache.results m) = Some 3600) ∧
  (Cache.wf (Cache.llm m) ∧ Cache.synced (Cache.llm m) ∧
   Cache.max_size (Cache.llm m) = 500 ∧ Cache.default_ttl (Cache.llm m) = None).
Proof.
  apply (mlc_run_levels calls Cache.mlc_init
           (fun c => Cache.wf c ∧ Cache.synced c ∧ Cache.max_size c = 10000
                     ∧ Cache.default_ttl c = None)
           (fun c => Cache.wf c ∧ Cache.synced c ∧ Cache.max_size c = 1000
                     ∧ Cache.default_ttl c = Some 3600)
           (fun c => Cache.wf c ∧ Cache.synced c ∧ Cache.max_size c = 500
                     ∧ Cache.default_ttl c = None)).
  - intros c y. by apply level_step.
  - intros c y. by apply level_step.
  - intros c y. by apply level_step.
  - by apply level_init.
  - by apply level_init.
  - by apply level_init.
Qed.

(** [MultiLevelCache]: after any history of calls on a new cache, a result
    stored with [set_results] is returned by [get_results] while its age is
    at most 3600 seconds and missed once it is older; an embedding stored
    with [set_embedding] and an LLM answer stored with [set_llm] are
    returned at any later time. *)
Theorem cache_level_lifetimes (calls : list (Cache.MCall V)) (h : string) (v : V)
    (now later : Q) :
  let m := Cache.mlc_run calls Cache.mlc_init in
  ((later - now <= 3600)%Q →
   (Cache.get_results (Cache.set_results m h v now).2 h later).1 = Some v) ∧
  ((3600 < later - now)%Q →
   (Cache.get_results (Cache.set_results m h v now).2 h later).1 = None) ∧
  (Cache.get_embedding (Cache.set_embedding m h v now).2 h later).1 = Some v ∧
  (Cache.get_llm (Cache.set_llm m h v now).2 h later).1 = Some v.
Proof.
  intros m. destruct (mlc_run_good calls) as (He & Hr & Hl). fold m in He, Hr, Hl.
  destruct He as (Hwe & _ & Hme & Hde). destruct Hr as (Hwr & _ & Hmr & Hdr).
  destruct Hl as (Hwl & _ & Hml & Hdl).
  assert (Hres : ∀ P : option V → Prop,
            P (Cache.get (Cache.set (Cache.results m) (String.append "res:" h) v
                            (Some 3600) now).2 (String.append "res:" h) later).1 →
            P (Cache.get_results (Cache.set_results m h v now).2 h later).1).
  { intros P HP. unfold Cache.get_results, Cache.set_results.
    destruct (mlc_set_levels m (String.append "res:" h) v "results" (Some 3600) now)
      as (_ & Hput & _). cbn zeta in Hput.
    destruct (mlc_get_levels (Cache.mlc_set m (String.append "res:" h) v "results"
                                (Some 3600) now).2 (String.append "res:" h) "results" later)
      as (-> & _). cbn zeta. rewrite Hput. exact HP. }
  assert (Hemb : ∀ P : option V → Prop,
            P (Cache.get (Cache.set (Cache.embeddings m) (String.append "emb:" h) v
                            None now).2 (String.append "emb:" h) later).1 →
            P (Cache.get_embedding (Cache.set_embedding m h v now).2 h later).1).
  { intros P HP. unfold Cache.get_embedding, Cache.set_embedding.
    destruct (mlc_set_levels m (String.append "emb:" h) v "embeddings" None now)
      as (_ & Hput & _). cbn zeta in Hput.
    destruct (mlc_get_levels (Cache.mlc_set m (String.append "emb:" h) v "embeddings"
                                None now).2 (String.append "emb:" h) "embeddings" later)
      as (-> & _). cbn zeta. rewrite Hput. exact HP. }
  assert (Hllm : ∀ P : option V → Prop,
            P (Cache.get (Cache.set (Cache.llm m) (String.append "llm:" h) v
                            None now).2 (String.append "llm:" h) later).1 →
            P (Cache.get_llm (Cache.set_llm m h v now).2 h later).1).
  { intros P HP. unfold Cache.get_llm, Cache.set_llm.
    destruct (mlc_set_levels m (String.append "llm:" h) v "llm" None now)
      as (_ & Hput & _). cbn zeta in Hput.
    destruct (mlc_get_levels (Cache.mlc_set m (String.append "llm:" h) v "llm"
                                None now).2 (String.append "llm:" h) "llm" later)
      as (-> & _). cbn zeta. rewrite Hput. exact HP. }
  pose proof (set_get_window (Cache.results m) (String.append "res:" h) v (Some 3600) now later
                Hwr) as Wr.
  pose proof (set_get_window (Cache.embeddings m) (String.append "emb:" h) v None now later
                Hwe) as We.
  pose proof (set_get_window (Cache.llm m) (String.append "llm:" h) v None now later
                Hwl) as Wl.
  cbn zeta in Wr, We, Wl. unfold Cache.effective_ttl in Wr, We, Wl.
  rewrite Hde in We. rewrite Hdl in Wl.
  destruct Wr as [Wr1 Wr2]; [lia|].
  split; [intros Hage; apply Hres; by apply Wr1|].
  split; [intros Hage; apply Hres; by apply Wr2|].
  split; [apply Hemb, We; lia|apply Hllm, Wl; lia].
Qed.

End MultiLevelFacts.

Section MultiLevelCounters.
Context {V : Type}.
Implicit Types (m : Cache.MultiLevelCache V) (c : Cache.LRUCache V).

Lemma mlc_get_counters m key level now (l : string) :
  let m' := (Cache.mlc_get m key level now).2 in
  let hit := if (Cache.mlc_get m key level now).1 is Some _ then 1 else 0 in
  default 0 (Cache._hits m' !! l)
    = default 0 (Cache._hits m !! l) + (if decide (l = level) then hit else 0) ∧
  default 0 (Cache._misses m' !! l)
    = default 0 (Cache._misses m !! l) + (if decide (l = level) then 1 - hit else 0).
Proof.
  unfold Cache.mlc_get.
  assert (Hput : ∀ c', Cache._hits (Cache._put_cache m level c') = Cache._hits m ∧
                       Cache._misses (Cache._put_cache m level c') = Cache._misses m).
  { intros c'. unfold Cache._put_cache. by repeat case_decide. }
  destruct (Cache.get _ key now) as [[v|] c']; destruct (Hput c') as [H1 H2]; cbn;
    rewrite H1, H2; unfold Cache.bump; destruct (decide (l = level)) as [->|Hne];
    rewrite ?lookup_insert_eq, ?lookup_insert_ne by done; cbn; split; lia.
Qed.

Lemma mcall_step_counters m (x : Cache.MCall V) (l : string) :
  let m' := Cache.mcall_step m x in
  default 0 (Cache._hits m !! l) <= default 0 (Cache._hits m' !! l) ∧
  default 0 (Cache._misses m !! l) <= default 0 (Cache._misses m' !! l) ∧
  default 0 (Cache._hits m' !! l) + default 0 (Cache._misses m' !! l)
    = default 0 (Cache._hits m !! l) + default 0 (Cache._misses m !! l)
      + Cache.gets_at l [x].
Proof.
  destruct x as [key level now|key v level ttl now|]; cbn [Cache.mcall_step].
  - destruct (mlc_get_counters m key level now l) as [H1 H2]. cbn zeta in *.
    rewrite H1, H2. unfold Cache.gets_at. cbn.
    destruct (decide (level = l)) as [->|Hne].
    + rewrite !decide_True by done. destruct (Cache.mlc_get m key l now).1; cbn; lia.
    + rewrite !decide_False by done. cbn. lia.
  - destruct (mlc_set_levels m key v level ttl now) as (_ & _ & -> & -> & _).
    unfold Cache.gets_at. cbn. lia.
  - unfold Cache.gets_at. cbn. lia.
Qed.

Lemma gets_at_app l (a b : list (Cache.MCall V)) :
  Cache.gets_at l (a ++ b) = Cache.gets_at l a + Cache.gets_at l b.
Proof. unfold Cache.gets_at. rewrite omap_app, length_app. lia. Qed.

Lemma mlc_run_counters (calls : list (Cache.MCall V)) m (l : string) :
  let m' := Cache.mlc_run calls m in
  default 0 (Cache._hits m !! l) <= default 0 (Cache._hits m' !! l) ∧
  default 0 (Cache._misses m !! l) <= default 0 (Cache._misses m' !! l) ∧
  default 0 (Cache._hits m' !! l) + default 0 (Cache._misses m' !! l)
    = default 0 (Cache._hits m !! l) + default 0 (Cache._misses m !! l)
      + Cache.gets_at l calls.
Proof.
  revert m. induction calls as [|x calls IH]; intros m.
  - cbn. unfold Cache.gets_at. cbn. lia.
  - cbn [Cache.mlc_run fold_left]. fold (Cache.mlc_run calls (Cache.mcall_step m x)).
    destruct (mcall_step_counters m x l) as (H1 & H2 & H3).
    destruct (IH (Cache.mcall_step m x)) as (I1 & I2 & I3). cbn zeta in *.
    change (x :: calls) with ([x] ++ calls). rewrite gets_at_app. lia.
Qed.

(** [MultiLevelCache.stats]: after any history of calls on a new cache, the
    hits and misses reported for a level add up to the number of lookups
    made at that level ([clear_all] does not reset them), neither is
    negative, and the reported size is within the reported capacity. *)
Theorem cache_stats_account (calls : list (Cache.MCall V)) (level : string)
    (st : Cache.LevelStats) :
  let m := Cache.mlc_run calls Cache.mlc_init in
  od_get level (Cache.mlc_stats m) = Some st →
  Cache.ls_hits st + Cache.ls_misses st = Cache.gets_at level calls ∧
  0 <= Cache.ls_hits st ∧ 0 <= Cache.ls_misses st ∧
  0 <= Cache.ls_size st <= Cache.ls_max_size st.
Proof.
  intros m Hst.
  destruct (mlc_run_counters calls Cache.mlc_init level) as (H1 & H2 & H3).
  fold m in H1, H2, H3.
  destruct (mlc_run_good calls) as (([_ He] & _) & ([_ Hr] & _) & ([_ Hl] & _)).
  fold m in He, Hr, Hl.
  assert (Hinit : default 0 (Cache._hits (Cache.mlc_init (V:=V)) !! level) = 0 ∧
                  default 0 (Cache._misses (Cache.mlc_init (V:=V)) !! level) = 0).
  { cbn. destruct (decide (level = "embeddings")) as [->|?]; [done|].
    destruct (decide (level = "results")) as [->|?]; [done|].
    destruct (decide (level = "llm")) as [->|?]; [done|].
    by rewrite !lookup_insert_ne, lookup_empty by done. }
  destruct Hinit as [Hi1 Hi2]. rewrite Hi1, Hi2 in *.
  unfold Cache.mlc_stats in Hst. cbn [od_get] in Hst.
  repeat case_decide; try discriminate; subst; injection Hst as <-;
    cbn [Cache.level_stats Cache.ls_hits Cache.ls_misses Cache.ls_size Cache.ls_max_size
         Cache.stats fst snd]; lia.
Qed.

(** [MultiLevelCache._get_cache]: a level name that is none of the three
    stands for "results". After any history on a new cache, a value stored
    under such a name is read back from "results"; a lookup under the name
    is served from the results level, and it changes none of the hits and
    misses that [stats] reports. *)
Theorem unknown_level_is_results (calls : list (Cache.MCall V)) (key level : string) (v : V)
    (now : Q) :
  level ∉ ["embeddings"; "results"; "llm"] →
  let m := Cache.mlc_run calls Cache.mlc_init in
  (Cache.mlc_get (Cache.mlc_set m key v level None now).2 key "results" now).1 = Some v ∧
  (Cache.mlc_get m key level now).1 = (Cache.mlc_get m key "results" now).1 ∧
  Cache.results (Cache.mlc_get m key level now).2
    = Cache.results (Cache.mlc_get m key "results" now).2 ∧
  ∀ l st, od_get l (Cache.mlc_stats (Cache.mlc_get m key level now).2) = Some st →
          ∃ st0, od_get l (Cache.mlc_stats m) = Some st0 ∧
                 Cache.ls_hits st = Cache.ls_hits st0 ∧
                 Cache.ls_misses st = Cache.ls_misses st0.
Proof.
  intros Hlevel m.
  assert (Hne : level ≠ "embeddings" ∧ level ≠ "results" ∧ level ≠ "llm") by set_solver.
  destruct Hne as (Hn1 & Hn2 & Hn3).
  assert (Htarget : ∀ m0 : Cache.MultiLevelCache V,
            Cache._get_cache m0 level = Cache.results m0).
  { intros m0. unfold Cache._get_cache. by rewrite !decide_False. }
  destruct (mlc_run_good calls) as (_ & (Hwr & _ & Hmr & Hdr) & _). fold m in Hwr, Hmr, Hdr.
  split; [|split; [|split]].
  - destruct (mlc_set_levels m key v level None now) as (_ & _ & _ & _ & Hrest).
    cbn zeta in Hrest. rewrite Htarget in Hrest.
    destruct Hrest as [(? & _)|[(? & _)|(_ & _ & _ & _ & Hres)]]; [done..|].
    destruct (mlc_get_levels (Cache.mlc_set m key v level None now).2 key "results" now)
      as (-> & _). cbn zeta.
    change (Cache._get_cache ?x "results") with (Cache.results x). rewrite Hres.
    pose proof (set_get_window (Cache.results m) key v None now now Hwr) as W.
    cbn zeta in W. unfold Cache.effective_ttl in W. rewrite Hdr in W.
    destruct W as [W _]; [lia|]. apply W.
    assert (Hz : (now - now == 0)%Q) by ring. rewrite Hz. done.
  - destruct (mlc_get_levels m key level now) as (-> & _).
    destruct (mlc_get_levels m key "results" now) as (-> & _). cbn zeta.
    by rewrite Htarget.
  - destruct (mlc_get_levels m key level now) as (_ & _ & Hrest).
    destruct (mlc_get_levels m key "results" now) as (_ & _ & Hrest').
    cbn zeta in *. rewrite Htarget in Hrest.
    destruct Hrest as [(? & _)|[(? & _)|(_ & _ & _ & _ & ->)]]; [done..|].
    destruct Hrest' as [(? & _)|[(? & _)|(_ & _ & _ & _ & ->)]]; done.
  - intros l st Hst. unfold Cache.mlc_stats in Hst. cbn [od_get] in Hst.
    repeat case_decide; try discriminate; subst; injection Hst as <-;
      (eexists; split; [unfold Cache.mlc_stats; cbn [od_get];
                        repeat (rewrite decide_True by done || rewrite decide_False by done);
                        reflexivity|]);
      cbn [Cache.level_stats Cache.ls_hits Cache.ls_misses];
      match goal with
      | |- context [Cache._hits _ !! ?l] =>
        destruct (mlc_get_counters m key level now l) as [-> ->]
      end; rewrite !decide_False by done; lia.
Qed.

End MultiLevelCounters.

Lemma unknown_level_is_results_witness :
  (Cache.mlc_get (Cache.mlc_set (Cache.mlc_run [] Cache.mlc_init) "k" 7%nat "bogus" None 0).2
     "k" "results" 0).1 = Some 7%nat.
Proof.
  apply (unknown_level_is_results [] "k" "bogus" 7%nat 0).
  rewrite !not_elem_of_cons. repeat split; [discriminate..|apply not_elem_of_nil].
Defined.

Lemma cache_stats_account_witness :
  ∃ st,
    od_get "llm"
      (Cache.mlc_stats
         (Cache.mlc_run [Cache.MGet "p" "llm" 0; Cache.MSet "p" 1%nat "llm" None 1;
                         Cache.MGet "p" "llm" 2; Cache.MClearAll; Cache.MGet "q" "results" 3]
            Cache.mlc_init)) = Some st ∧
    Cache.ls_hits st + Cache.ls_misses st = 2.
Proof.
  eexists. split; [reflexivity|].
  apply (cache_stats_account
           [Cache.MGet "p" "llm" 0; Cache.MSet "p" 1%nat "llm" None 1;
            Cache.MGet "p" "llm" 2; Cache.MClearAll; Cache.MGet "q" "results" 3] "llm").
  reflexivity.
Defined.

(** ** [QdrantManager.hybrid_search] *)

Section HybridSearch.
Context `{Services}.

Lemma store_queries_search_events collection v slot limit flt :
  store_queries (search_events collection v slot limit flt)
    = [(collection, slot, v, limit, _build_filter flt)] ∧
  store_fusions (search_events collection v slot limit flt) = [] ∧
  bridge_calls (search_events collection v slot limit flt) = [] ∧
  encode_calls (search_events collection v slot limit flt) = [].
Proof. unfold search_events. by destruct (query_points _ _ _ _ _). Qed.

(** [hybrid_search] never raises. Without sparse indices or values, or with
    an empty list of indices, it is the dense search. Otherwise it makes one
    fusion query; if that raises, the error is logged and the answer is the
    one of the dense search, which is empty when the dense search fails as
    well. *)
Theorem hybrid_search_falls_back (collection : string) (dense_vector : vec)
    (sparse_indices : option (list Z)) (sparse_values : option (list Q))
    (dense_name sparse_name : string) (top_k : Z) (flt : option filter_dict) (w : World) :
  ∃ hits evs,
    hybrid_search collection dense_vector sparse_indices sparse_values dense_name
      sparse_name top_k flt w = (Ok hits, w_log w evs) ∧
    match sparse_indices, sparse_values with
    | Some (i :: il), Some vl =>
      store_fusions evs = [collection] ∧
      match query_fusion collection dense_name dense_vector sparse_name
              (mkSparse (i :: il) vl) "rrf" (top_k * 2) top_k (_build_filter flt) with
      | Ok points => hits = map format_point points ∧ store_queries evs = []
      | Raise _ =>
        hits = search_hits collection dense_vector dense_name top_k flt ∧
        store_queries evs = [(collection, dense_name, dense_vector, top_k, _build_filter flt)] ∧
        "Hybrid search error" ∈ logged_errors evs
      end
    | _, _ =>
      hits = search_hits collection dense_vector dense_name top_k flt ∧
      store_fusions evs = [] ∧
      store_queries evs = [(collection, dense_name, dense_vector, top_k, _build_filter flt)]
    end.
Proof.
  destruct (store_queries_search_events collection dense_vector dense_name top_k flt)
    as (Hq & Hf & _).
  assert (Hdense : ∀ w0, ∃ hits evs,
            vector_search collection dense_vector dense_name top_k flt w0
              = (Ok hits, w_log w0 evs) ∧
            hits = search_hits collection dense_vector dense_name top_k flt ∧
            store_fusions evs = [] ∧
            store_queries evs
              = [(collection, dense_name, dense_vector, top_k, _build_filter flt)]).
  { intros w0. rewrite vector_search_run. by eexists _, _. }
  unfold hybrid_search, try_except.
  destruct sparse_indices as [[|i il]|]; [| |];
    try (destruct (Hdense w) as (hits & evs & -> & Hh & Hsf & Hsq); by exists hits, evs).
  destruct sparse_values as [vl|];
    [|destruct (Hdense w) as (hits & evs & -> & Hh & Hsf & Hsq); by exists hits, evs].
  rewrite bind_run. unfold call.
  destruct (query_fusion _ _ _ _ _ _ _ _ _) as [points|e].
  - cbn. eexists _, [_]. split; [reflexivity|]. done.
  - cbn. unfold bind, emit. cbn. rewrite vector_search_run.
    eexists _, ([_; _] ++ search_events collection dense_vector dense_name top_k flt).
    split.
    + unfold w_log. cbn. by rewrite <- !app_assoc.
    + rewrite store_fusions_app, store_queries_app, Hq, Hf.
      split; [done|]. split; [done|]. split; [done|].
      unfold logged_errors. rewrite omap_app. cbn. left.
Qed.

End HybridSearch.

(** ** Phase 3: gene filter and retry *)

Section Phase3.
Context `{Services}.

Lemma filterable_spec collection :
  collection ∈ COLLECTIONS →
  (collection ∈ FILTERABLE_COLLECTIONS <-> collection ≠ "articles").
Proof.
  unfold COLLECTIONS, FILTERABLE_COLLECTIONS. rewrite !elem_of_cons, !elem_of_nil.
  intros [->|[->|[->|[->|[->|[]]]]]].
  - split; [discriminate|]. intros _. by left.
  - split; [|congruence]. intros [Hx|[Hx|[Hx|[Hx|[]]]]]; discriminate.
  - split; [discriminate|]. intros _. by do 3 right; left.
  - split; [discriminate|]. intros _. by right; left.
  - split; [discriminate|]. intros _. by do 2 right; left.
Qed.

Lemma gene_filter_cases s bf collection :
  (gene_filter s bf collection = Some [("normalized_bridge.genes", f_genes bf)] ∧
   filter_by_genes s = true ∧ f_genes bf ≠ [] ∧ collection ∈ FILTERABLE_COLLECTIONS) ∨
  (gene_filter s bf collection = None ∧
   (filter_by_genes s = false ∨ f_genes bf = [] ∨ collection ∉ FILTERABLE_COLLECTIONS)).
Proof.
  unfold gene_filter. destruct (filter_by_genes s); [|right; auto].
  destruct (f_genes bf) as [|g gs]; [right; auto|].
  case_decide; [left|right]; auto.
Qed.

(** Phase 3 of CAS 2, for one collection whose Bridge query encodes: the
    collection is searched with the encoded query under the gene filter, which
    is applied only when filtering is on, the Bridge named genes and the
    collection is not "articles"; when the filtered search finds nothing the
    search is made again without the filter and that answer is kept. *)
Theorem phase3_filter_and_retry (s : GraphState) (bridge : BridgeOutput)
    (collection : string) (query_vec : vec) (w : World) :
  collection ∈ COLLECTIONS →
  encode_text (default "protein function biology" (b_queries bridge !! collection))
    = Ok query_vec →
  let flt := gene_filter s (b_filters bridge) collection in
  let limit := top_k s * 2 in
  let first := search_hits collection query_vec (vec_name_of collection) limit flt in
  ∃ evs,
    phase3_cas2_body s bridge collection w =
      (Ok (map (set_collection collection)
             (filtered_or_retried collection query_vec limit flt)), w_log w evs) ∧
    store_queries evs =
      (collection, vec_name_of collection, query_vec, limit, flt) ::
      match first, flt with
      | [], Some _ => [(collection, vec_name_of collection, query_vec, limit, None)]
      | _, _ => []
      end ∧
    store_fusions evs = [] ∧ bridge_calls evs = [] ∧
    (flt ≠ None <->
     filter_by_genes s = true ∧ f_genes (b_filters bridge) ≠ [] ∧ collection ≠ "articles") ∧
    (filtered_or_retried collection query_vec limit flt = [] →
     search_hits collection query_vec (vec_name_of collection) limit None = []).
Proof.
  intros Hc Henc flt limit first.
  assert (Hbuild : _build_filter flt = flt).
  { unfold flt. destruct (gene_filter_cases s (b_filters bridge) collection)
      as [(-> & _ & Hg & _)|(-> & _)]; [|done].
    cbn. done. }
  unfold phase3_cas2_body. rewrite bind_run. unfold call. rewrite Henc.
  rewrite bind_run, vector_search_run. fold flt limit first.
  rewrite bind_run. unfold retry_unfiltered, filtered_or_retried. fold first.
  destruct (store_queries_search_events collection query_vec (vec_name_of collection)
              limit flt) as (Hq1 & Hf1 & Hb1 & _).
  destruct (store_queries_search_events collection query_vec (vec_name_of collection)
              limit None) as (Hq2 & Hf2 & Hb2 & _).
  rewrite Hbuild in Hq1. change (_build_filter None) with (@None filter_dict) in Hq2.
  assert (Hflt : flt ≠ None <->
            filter_by_genes s = true ∧ f_genes (b_filters bridge) ≠ [] ∧
            collection ≠ "articles").
  { unfold flt. destruct (gene_filter_cases s (b_filters bridge) collection)
      as [(-> & Hon & Hg & Hin)|(-> & Hoff)].
    - split; [|done]. intros _. split; [done|]. split; [done|].
      by apply filterable_spec.
    - split; [done|]. intros (Hon & Hg & Hne).
      destruct Hoff as [Hoff|[Hoff|Hoff]]; [congruence|done|].
      exfalso. apply Hoff. by apply filterable_spec. }
  set (enc := EncodeCall "text"
                (default "protein function biology" (b_queries bridge !! collection))).
  assert (Hlog : ∀ a b, w_log (w_log (mkWorld (w_cache w) (w_trace w ++ [enc])) a) b
                        = w_log w ([enc] ++ a ++ b)).
  { intros a b. unfold w_log. cbn. by rewrite <- !app_assoc. }
  assert (Hlog1 : ∀ a, w_log (mkWorld (w_cache w) (w_trace w ++ [enc])) a
                       = w_log w ([enc] ++ a)).
  { intros a. unfold w_log. cbn. by rewrite <- !app_assoc. }
  destruct first as [|r rs] eqn:Hfirst.
  - destruct flt as [f|] eqn:Hf.
    + rewrite vector_search_run. cbn [ret]. rewrite Hlog.
      eexists. split; [reflexivity|].
      rewrite !store_queries_app, !store_fusions_app, !bridge_calls_app, Hq1, Hq2, Hf1, Hf2,
        Hb1, Hb2.
      split; [done|]. split; [done|]. split; [done|]. split; [done|]. done.
    + cbn [ret]. rewrite Hlog1. eexists. split; [reflexivity|].
      rewrite !store_queries_app, !store_fusions_app, !bridge_calls_app, Hq1, Hf1, Hb1.
      split; [done|]. split; [done|]. split; [done|]. split; [done|].
      intros _. exact Hfirst.
  - cbn [ret]. rewrite Hlog1. eexists. split; [reflexivity|].
    rewrite !store_queries_app, !store_fusions_app, !bridge_calls_app, Hq1, Hf1, Hb1.
    split; [by destruct flt|]. split; [done|]. split; [done|]. split; [done|].
    by destruct flt.
Qed.

End Phase3.

Lemma phase3_filter_and_retry_witness :
  ∃ evs,
    @phase3_cas2_body demo_filtering_services demo_cas2 demo_gene_bridge "experiments"
      demo_world
    = (Ok (map (set_collection "experiments") (map format_point (demo_points "experiments"))),
       w_log demo_world evs) ∧
    store_queries evs =
      [("experiments", "text", repeat 1%Q 11, 10,
        Some [("normalized_bridge.genes", ["TP53"])]);
       ("experiments", "text", repeat 1%Q 11, 10, None)].
Proof.
  destruct (@phase3_filter_and_retry demo_filtering_services demo_cas2 demo_gene_bridge
              "experiments" (repeat 1%Q 11) demo_world)
    as (evs & Hrun & Hq & _).
  - unfold COLLECTIONS. rewrite !elem_of_cons. auto.
  - reflexivity.
  - exists evs. split; [exact Hrun | exact Hq].
Defined.

(** ** What the stages record *)

Section Emits.
Context `{Services}.
Variable P : list Event -> Prop.
Hypothesis P_nil : P [].
Hypothesis P_app : ∀ a b, P a → P b → P (a ++ b).

Lemma emits_ret {A} (a : A) : emits P (ret a).
Proof. intros w. exists []. cbn. by rewrite app_nil_r. Qed.

Lemma emits_lift {A} (r : Res A) : emits P (lift r).
Proof. intros w. exists []. cbn. by rewrite app_nil_r. Qed.

Lemma emits_raise {A} e : emits P (raise (A:=A) e).
Proof. intros w. exists []. cbn. by rewrite app_nil_r. Qed.

Lemma emits_bind {A B} (m : M A) (k : A -> M B) :
  emits P m → (∀ a, emits P (k a)) → emits P (bind m k).
Proof.
  intros Hm Hk w. rewrite bind_run. destruct (Hm w) as (e1 & Ht1 & H1).
  destruct (m w) as [[a|e] w1]; cbn [snd] in *.
  - destruct (Hk a w1) as (e2 & Ht2 & H2). exists (e1 ++ e2).
    rewrite Ht2, Ht1, app_assoc. split; [done|]. by apply P_app.
  - by exists e1.
Qed.

Lemma emits_try {A} (m : M A) (h : string -> M A) :
  emits P m → (∀ e, emits P (h e)) → emits P (try_except m h).
Proof.
  intros Hm Hh w. unfold try_except. destruct (Hm w) as (e1 & Ht1 & H1).
  destruct (m w) as [[a|e] w1]; cbn [snd] in *.
  - by exists e1.
  - destruct (Hh e w1) as (e2 & Ht2 & H2). exists (e1 ++ e2).
    rewrite Ht2, Ht1, app_assoc. split; [done|]. by apply P_app.
Qed.

Lemma emits_call {A} ev (r : Res A) : P [ev] → emits P (call ev r).
Proof. intros Hev w. by exists [ev]. Qed.

Lemma emits_emit ev : P [ev] → emits P (emit ev).
Proof. intros Hev w. by exists [ev]. Qed.

Lemma emits_for_each {A B} (l : list A) (body : A -> B -> M B) acc :
  (∀ x acc, emits P (body x acc)) → emits P (for_each l body acc).
Proof.
  intros Hb. revert acc. induction l as [|x l IH]; intros acc; cbn [for_each].
  - apply emits_ret.
  - apply emits_bind; [apply Hb|]. intros acc'. apply IH.
Qed.

Lemma emits_vector_search collection v slot limit flt :
  P (search_events collection v slot limit flt) →
  emits P (vector_search collection v slot limit flt).
Proof.
  intros Hev w. rewrite vector_search_run. eexists. split; [reflexivity|done].
Qed.

End Emits.

Section NoBridge.
Context `{Services}.

Lemma no_bridge_app a b : no_bridge a → no_bridge b → no_bridge (a ++ b).
Proof. unfold no_bridge. intros Ha Hb. by rewrite bridge_calls_app, Ha, Hb. Qed.

Lemma no_bridge_search collection v slot limit flt :
  no_bridge (search_events collection v slot limit flt).
Proof. apply store_queries_search_events. Qed.

Lemma no_bridge_vector_search collection v slot limit flt :
  emits no_bridge (vector_search collection v slot limit flt).
Proof. apply emits_vector_search, no_bridge_search. Qed.

Lemma no_bridge_hybrid_search collection dv si sv dn sn limit flt :
  emits no_bridge (hybrid_search collection dv si sv dn sn limit flt).
Proof.
  unfold hybrid_search.
  apply emits_try; [apply no_bridge_app| |intros e].
  - destruct si as [[|i il]|]; try apply no_bridge_vector_search.
    destruct sv as [vl|]; [|apply no_bridge_vector_search].
    apply emits_bind; [apply no_bridge_app|by apply emits_call|intros ?].
    by apply emits_ret.
  - apply emits_bind; [apply no_bridge_app|by apply emits_emit|intros ?].
    apply no_bridge_vector_search.
Qed.

Lemma no_bridge_retry collection qv slot limit flt results :
  emits no_bridge (retry_unfiltered collection qv slot limit flt results).
Proof.
  unfold retry_unfiltered. destruct results; [destruct flt|];
    first [apply no_bridge_vector_search | by apply emits_ret].
Qed.

Lemma no_bridge_phase3_guard collection body phase3 :
  emits no_bridge body → emits no_bridge (phase3_guard collection body phase3).
Proof.
  intros Hb. unfold phase3_guard.
  apply emits_bind; [apply no_bridge_app| |intros ?; by apply emits_ret].
  apply emits_try; [apply no_bridge_app|done|intros e].
  apply emits_bind; [apply no_bridge_app|by apply emits_emit|intros ?; by apply emits_ret].
Qed.

End NoBridge.

(** ** The Bridge call of CAS 2 and CAS 3 *)

Section BridgeOnce.
Context `{Services}.

Lemma search_modal_bridge s strategy phase1 user_text phase3
    (body : BridgeOutput -> string -> M (list Hit)) w :
  (∀ w0, ∃ p evs,
     phase1 s (search_modalities s) w0 = (Ok p, w_log w0 evs) ∧
     (∀ c, od_get c p = phase1_lookup s (search_modalities s) c) ∧
     bridge_calls evs = [] ∧ store_fusions evs = []) ->
  (∀ b rest, phase3 s b rest = for_each rest (fun c => phase3_guard c (body b c)) []) ->
  (∀ b c, emits no_bridge (body b c)) ->
  ∃ p r w' evs,
    search_modal s strategy phase1 user_text phase3 w = (r, w') ∧
    w_trace w' = w_trace w ++ evs ∧
    (∀ c, od_get c p = phase1_lookup s (search_modalities s) c) ∧
    bridge_calls evs = [(user_text, extract_metadata_for_bridge (all_phase1 p))] ∧
    match bridge_cross_modal user_text (extract_metadata_for_bridge (all_phase1 p)) with
    | Ok b =>
      ∃ s', r = Ok s' ∧ bridge_output s' = Some b ∧ alignment s' = b_alignment b ∧
            phase1_results s' = p ∧
            phase1_metadata s' = extract_metadata_for_bridge (all_phase1 p)
    | Raise e =>
      r = Raise e ∧ last evs = Some (BridgeCall user_text
                                       (extract_metadata_for_bridge (all_phase1 p)))
    end.
Proof.
  intros Hp1 Hp3 Hbody. unfold search_modal.
  destruct (Hp1 w) as (p & e1 & Hrun1 & Hlook & Hb1 & _).
  rewrite bind_run, Hrun1. cbn [fst snd].
  rewrite bind_run. unfold call at 1. cbn [fst snd].
  destruct (bridge_cross_modal _ _) as [b|e] eqn:Hb.
  - rewrite bind_run, Hp3.
    match goal with |- context [for_each ?rest ?f [] ?w0] =>
      destruct (phase3_loop_run (body b) rest [] w0) as (p3 & w3 & Hrun3 & _);
        [constructor|];
      assert (Hem : emits no_bridge (for_each rest f []))
    end.
    { apply emits_for_each; [done|apply no_bridge_app|].
      intros c acc. apply no_bridge_phase3_guard, Hbody. }
    match type of Hrun3 with _ ?w0 = _ => destruct (Hem w0) as (e3 & Ht3 & Hn3) end.
    rewrite Hrun3 in Ht3 |- *. cbn [fst snd] in *.
    eexists p, _, _, (e1 ++ [BridgeCall _ _] ++ e3). split; [reflexivity|].
    split; [rewrite Ht3; cbn; by rewrite <- !app_assoc|].
    split; [done|]. split.
    { rewrite !bridge_calls_app, Hb1, Hn3. by cbn. }
    rewrite Hb. by eexists.
  - eexists p, _, _, (e1 ++ [BridgeCall _ _]). split; [reflexivity|].
    split; [cbn; by rewrite <- !app_assoc|]. split; [done|]. split.
    { rewrite !bridge_calls_app, Hb1. by cbn. }
    rewrite Hb. split; [done|]. by rewrite last_snoc.
Qed.

Lemma no_bridge_cas2_body s b c : emits no_bridge (phase3_cas2_body s b c).
Proof.
  unfold phase3_cas2_body.
  apply emits_bind; [apply no_bridge_app|by apply emits_call|intros qv].
  apply emits_bind; [apply no_bridge_app|apply no_bridge_vector_search|intros r1].
  apply emits_bind; [apply no_bridge_app|apply no_bridge_retry|intros r2].
  by apply emits_ret.
Qed.

Lemma no_bridge_cas3_body s b c : emits no_bridge (phase3_cas3_body s b c).
Proof.
  unfold phase3_cas3_body.
  apply emits_bind; [apply no_bridge_app| |intros q].
  { unfold cas3_query_vectors. case_decide; [by apply emits_ret|].
    apply emits_bind; [apply no_bridge_app|by apply emits_call|intros qv].
    apply emits_bind; [apply no_bridge_app|by apply emits_call|intros qs].
    by apply emits_ret. }
  apply emits_bind; [apply no_bridge_app| |intros r1].
  { unfold cas3_hybrid_or_dense.
    apply emits_try; [apply no_bridge_app| |intros e].
    - destruct (sparse_dict q.2) as [d|]; [|apply no_bridge_vector_search].
      destruct (nonempty (indices d) && nonempty (values d));
        [apply no_bridge_hybrid_search|apply no_bridge_vector_search].
    - apply emits_bind; [apply no_bridge_app|by apply emits_emit|intros ?].
      apply no_bridge_vector_search. }
  apply emits_bind; [apply no_bridge_app|apply no_bridge_retry|intros r2].
  by apply emits_ret.
Qed.

(** In CAS 2 and CAS 3 [node_search] calls the Bridge exactly once, after
    Phase 1, with the metadata of the Phase-1 results (at most five items)
    and, in CAS 3 only, the user's text. The call is not guarded: if the
    Bridge raises, [node_search] raises the same exception and the Bridge call
    is the last thing it did; if it answers, [node_search] returns a state
    that holds the answer and its alignment. *)
Theorem bridge_called_once (s : GraphState) (w : World) :
  search_case s = 2 ∨ search_case s = 3 →
  ∃ p r w' evs,
    let user_text := if decide (search_case s = 2) then None else input_text s in
    let metadata := extract_metadata_for_bridge (all_phase1 p) in
    node_search s w = (r, w') ∧
    w_trace w' = w_trace w ++ evs ∧
    (∀ c, od_get c p = phase1_lookup s (search_modalities s) c) ∧
    bridge_calls evs = [(user_text, metadata)] ∧
    (length metadata <= 5)%nat ∧
    match bridge_cross_modal user_text metadata with
    | Ok b =>
      ∃ s', r = Ok s' ∧ bridge_output s' = Some b ∧ alignment s' = b_alignment b ∧
            phase1_results s' = p ∧ phase1_metadata s' = metadata
    | Raise e => r = Raise e ∧ last evs = Some (BridgeCall user_text metadata)
    end.
Proof.
  intros [Hc|Hc].
  - destruct (search_modal_bridge s "CAS_2" phase1_cas2 None phase3_cas2
                (phase3_cas2_body s) w) as (p & r & w' & evs & Hrun & Ht & Hl & Hb & Hm).
    { intros w0. apply phase1_cas2_run. }
    { done. }
    { intros b c. apply no_bridge_cas2_body. }
    exists p, r, w', evs. cbn zeta. rewrite decide_True by done.
    rewrite node_search_cas2 by done. repeat split; try done.
    unfold extract_metadata_for_bridge. rewrite length_map, length_take. lia.
  - destruct (search_modal_bridge s "CAS_3" phase1_cas3 (input_text s) phase3_cas3
                (phase3_cas3_body s) w) as (p & r & w' & evs & Hrun & Ht & Hl & Hb & Hm).
    { intros w0. apply phase1_cas3_run. }
    { done. }
    { intros b c. apply no_bridge_cas3_body. }
    exists p, r, w', evs. cbn zeta. rewrite decide_False by (rewrite Hc; done).
    rewrite node_search_cas3 by done. repeat split; try done.
    unfold extract_metadata_for_bridge. rewrite length_map, length_take. lia.
Qed.

End BridgeOnce.

Lemma bridge_called_once_witness :
  ∃ r w' evs,
    @node_search demo_services demo_cas2 demo_world = (r, w') ∧
    w_trace w' = w_trace demo_world ++ evs ∧
    length (bridge_calls evs) = 1%nat.
Proof.
  destruct (@bridge_called_once demo_services demo_cas2 demo_world)
    as (p & r & w' & evs & Hrun & Ht & _ & Hb & _).
  - left. reflexivity.
  - exists r, w', evs. split; [exact Hrun|]. split; [exact Ht|].
    rewrite Hb. reflexivity.
Defined.

(** ** The selection of [_apply_mmr] *)

Section MMRSelection.
Variable cosine : vec -> vec -> Q.
Variable vectors : gmap string vec.
Variable mmr_lambda : Q.

Lemma mmr_loop_length fuel bound selected candidates :
  Z.of_nat (length (mmr_loop fuel cosine vectors mmr_lambda bound selected candidates))
  <= Z.max bound (Z.of_nat (length selected)).
Proof.
  revert selected candidates. induction fuel as [|fuel IH]; intros selected candidates;
    cbn [mmr_loop]; [lia|].
  destruct (Z.ltb_spec (Z.of_nat (length selected)) bound) as [Hlt|Hge]; cbn [andb]; [|lia].
  destruct (nonempty candidates); [|lia].
  destruct (mmr_best _ _ _ _ _ _ _) as [[[i m] d]|]; [|lia].
  destruct (candidates !! i) as [chosen|]; [|lia].
  etransitivity; [apply IH|]. rewrite length_app. cbn [length]. lia.
Qed.

Lemma mmr_loop_scored fuel bound selected candidates :
  Forall scored selected →
  Forall scored (mmr_loop fuel cosine vectors mmr_lambda bound selected candidates).
Proof.
  revert selected candidates. induction fuel as [|fuel IH]; intros selected candidates Hs;
    cbn [mmr_loop]; [done|].
  destruct (_ && _); [|done].
  destruct (mmr_best _ _ _ _ _ _ _) as [[[i m] d]|]; [|done].
  destruct (candidates !! i) as [chosen|]; [|done].
  apply IH. apply Forall_app. split; [done|]. constructor; [|constructor].
  unfold scored. cbn. eauto.
Qed.

End MMRSelection.

Lemma apply_mmr_shape (cosine : vec -> vec -> Q) (encoder : string -> Res vec)
    (results selected : list Hit) (mmr_lambda : Q) (target_k : Z) :
  _apply_mmr cosine results mmr_lambda target_k encoder = Ok selected →
  Z.of_nat (length selected) = Z.min (Z.max 1 target_k) (Z.of_nat (length results)) ∧
  map unmark selected ⊆+ map unmark results ∧
  Forall scored selected.
Proof.
  unfold _apply_mmr. destruct results as [|r0 rest].
  { intros [= <-]. cbn. split; [lia|]. split; [done|constructor]. }
  destruct (mmr_vectors encoder (r0 :: rest) ∅) as [vectors|e]; [|done].
  intros [= <-].
  set (first := mmr_mark r0 1 (round_nd 4 (h_score r0)) (round_nd 4 (h_score r0))).
  set (bound := Z.min target_k (Z.of_nat (S (length rest)))).
  destruct (mmr_loop_spec cosine vectors mmr_lambda (length rest) bound [first] rest)
    as (tl & left & Hloop & Hperm & Hdone); [done|].
  pose proof (mmr_loop_length cosine vectors mmr_lambda (length rest) bound [first] rest)
    as Hlen.
  rewrite Hloop in Hlen |- *.
  pose proof (Permutation_length Hperm) as Hpl.
  rewrite !length_map, length_app in Hpl.
  split; [|split].
  - unfold bound in *. cbn [length app] in *.
    destruct Hdone as [->|Hfull]; cbn [length] in *; lia.
  - cbn [app map]. unfold first. rewrite unmark_mark. apply submseteq_skip.
    rewrite <- Hperm, map_app. apply submseteq_inserts_r. done.
  - rewrite <- Hloop. apply mmr_loop_scored. constructor; [|constructor].
    unfold scored. cbn. eauto.
Qed.

Lemma unmark_ids (l : list Hit) : map h_id (map unmark l) = map h_id l.
Proof. induction l as [|x l IH]; [done|]. cbn. by rewrite IH. Qed.

(** [_apply_mmr], whenever it returns: it selects [min(target_k, len(results))]
    items, but never fewer than one of a non-empty list, as the first
    candidate is taken before [target_k] is looked at; every selected item is
    one of the candidates, none is taken twice, and each carries a diversity,
    a novelty and a final score. So candidates with distinct ids give a
    selection with distinct ids, and a target that reaches the number of
    candidates gives all of them back. *)
Theorem apply_mmr_selection (cosine : vec -> vec -> Q) (encoder : string -> Res vec)
    (results selected : list Hit) (mmr_lambda : Q) (target_k : Z) :
  _apply_mmr cosine results mmr_lambda target_k encoder = Ok selected →
  Z.of_nat (length selected) = Z.min (Z.max 1 target_k) (Z.of_nat (length results)) ∧
  map unmark selected ⊆+ map unmark results ∧
  Forall scored selected ∧
  (NoDup (map h_id results) → NoDup (map h_id selected)) ∧
  (Z.of_nat (length results) <= target_k → map unmark selected ≡ₚ map unmark results).
Proof.
  intros Hrun. destruct (apply_mmr_shape _ _ _ _ _ _ Hrun) as (Hlen & Hsub & Hsc).
  split; [done|]. split; [done|]. split; [done|]. split.
  - intros Hnd. rewrite <- unmark_ids. rewrite <- unmark_ids in Hnd.
    apply (fmap_submseteq h_id) in Hsub. apply submseteq_Permutation in Hsub as [k Hk].
    rewrite Hk in Hnd. by apply NoDup_app in Hnd as [Hnd _].
  - intros Hk. apply submseteq_length_Permutation; [done|]. rewrite !length_map. lia.
Qed.

Lemma apply_mmr_selection_witness :
  ∃ selected,
    _apply_mmr demo_cosine demo_unsorted (7 # 10) 0 demo_encoder = Ok selected ∧
    Z.of_nat (length selected) = 1.
Proof.
  assert (Hrun : ∃ selected,
             _apply_mmr demo_cosine demo_unsorted (7 # 10) 0 demo_encoder = Ok selected).
  { vm_compute. eexists. reflexivity. }
  destruct Hrun as [selected Hrun]. exists selected. split; [exact Hrun|].
  destruct (apply_mmr_selection demo_cosine demo_encoder demo_unsorted selected (7 # 10) 0
              Hrun) as (Hlen & _).
  rewrite Hlen. reflexivity.
Defined.

(** ** The ranking of [node_rank_enrich] *)

Section Ranking.
Context `{Services}.

Lemma ranks_imap (l : list Hit) (k : nat) :
  map h_mmr_rank
    (imap (fun i r => mkHit (h_id r) (h_score r) (h_payload r) (h_collection r)
                        (h_diversity_score r) (h_novelty_score r) (h_final_score r)
                        (Some (Z.of_nat (k + i) + 1))) l)
  = map (fun i => Some (Z.of_nat i + 1)) (seq k (length l)).
Proof.
  revert k. induction l as [|r l IH]; intros k; [done|].
  cbn [imap map length seq h_mmr_rank]. rewrite Nat.add_0_r. f_equal.
  rewrite <- (IH (S k)). f_equal. apply imap_ext. intros i x _. cbn.
  by rewrite Nat.add_succ_r.
Qed.

Lemma imap_ids (f : nat -> Hit -> Hit) (l : list Hit) :
  (∀ i r, h_id (f i r) = h_id r) → map h_id (imap f l) = map h_id l.
Proof.
  revert f. induction l as [|x l IH]; intros f Hf; [done|].
  cbn. f_equal; [apply Hf|]. apply IH. intros i r. apply Hf.
Qed.

Lemma imap_scored (f : nat -> Hit -> Hit) (l : list Hit) :
  (∀ i r, scored r → scored (f i r)) → Forall scored l → Forall scored (imap f l).
Proof.
  revert f. induction l as [|x l IH]; intros f Hf Hl; [constructor|].
  apply Forall_cons in Hl as [Hx Hl]. cbn. constructor; [by apply Hf|].
  apply IH; [|done]. intros i r. apply Hf.
Qed.

Lemma map_id_unmark (l : list Hit) : map h_id (map unmark l) = map h_id l.
Proof. induction l as [|x l IH]; [done|]. cbn. by rewrite IH. Qed.

Lemma rerank_spec s mmr_lambda hits sel :
  rerank s mmr_lambda hits = Ok sel →
  Z.of_nat (length sel)
    = Z.min (Z.max 1 (top_k s)) (Z.min 10 (Z.of_nat (length hits))) ∧
  map h_mmr_rank sel = ranks (length sel) ∧
  map h_id sel ⊆+ map h_id (take 10 hits) ∧
  Forall scored sel.
Proof.
  unfold rerank. destruct hits as [|h hits].
  { intros [= <-]. cbn. split; [lia|]. split; [done|]. split; [done|constructor]. }
  destruct (_apply_mmr _ _ _ _ _) as [selected|e] eqn:Hmmr; [|done]. intros [= <-].
  apply apply_mmr_shape in Hmmr as (Hlen & Hsub & Hsc).
  rewrite length_imap. split; [|split; [|split]].
  - rewrite Hlen, length_take. lia.
  - unfold ranks. rewrite <- (ranks_imap selected 0). done.
  - rewrite imap_ids by done. rewrite <- (map_id_unmark selected).
    rewrite <- (map_id_unmark (take 10 (h :: hits))).
    exact (fmap_submseteq h_id _ _ Hsub).
  - by apply imap_scored.
Qed.

Lemma rerank_all_spec s mmr_lambda all acc out :
  NoDup (od_keys all) →
  (∀ k, k ∈ od_keys all → k ∉ od_keys acc) →
  rerank_all s mmr_lambda all acc = Ok out →
  ∃ new, out = acc ++ new ∧ od_keys new = od_keys all ∧
         ∀ c hits, od_get c all = Some hits →
                   ∃ sel, od_get c new = Some sel ∧ rerank s mmr_lambda hits = Ok sel.
Proof.
  revert acc. induction all as [|[c hits] all IH]; intros acc Hnd Hfresh; cbn [rerank_all].
  - intros [= <-]. exists []. by rewrite app_nil_r.
  - destruct (rerank s mmr_lambda hits) as [sel|e] eqn:Hsel; [|done]. intros Hrun.
    cbn in Hnd. apply NoDup_cons in Hnd as [Hc Hnd].
    rewrite od_set_notin in Hrun by (apply Hfresh; cbn; left).
    apply IH in Hrun as (new & -> & Hkeys & Hget); [|done|].
    + exists ((c, sel) :: new). split; [by rewrite <- app_assoc|]. split.
      { unfold od_keys in *. cbn. by rewrite Hkeys. }
      intros c0 hits0. cbn [od_get]. case_decide as Hc0; [|apply Hget].
      intros [= <-]. by exists sel.
    + intros k Hk. rewrite od_keys_app. cbn. rewrite elem_of_app, list_elem_of_singleton.
      intros [Hin| ->]; [|done]. eapply Hfresh; [|exact Hin]. cbn. by right.
Qed.

Lemma node_rank_enrich_reranked s w s' w' :
  node_rank_enrich s w = (Ok s', w') →
  rerank_all s (MMR_LAMBDA (alignment s)) (all_results s) [] = Ok (reranked_results s') ∧
  top_k s' = top_k s ∧ all_results s' = all_results s.
Proof.
  unfold node_rank_enrich. rewrite bind_run. unfold lift.
  destruct (rerank_all _ _ _ _) as [reranked|e]; [|done]. cbn [fst snd].
  rewrite bind_run. destruct (design_assistant s reranked w) as [[dc|e] w1]; [|done].
  cbn [fst snd]. rewrite bind_run.
  destruct (summarize s reranked w1) as [[sm|e] w2]; [|done]. cbn [fst snd].
  by intros [= <- <-].
Qed.

(** The ranking of [node_rank_enrich], whenever the node returns: every
    collection of [all_results] is ranked, in the same order; a collection
    keeps [min(top_k, 10, n)] of its [n] results, but at least one when it
    has any; the kept results are among its first ten, none twice, they
    carry the scores of the selection, and their ranks are 1, 2, 3, ... in
    the order of the list. *)
Theorem rank_enrich_ranking (s s' : GraphState) (w w' : World) :
  NoDup (od_keys (all_results s)) →
  node_rank_enrich s w = (Ok s', w') →
  od_keys (reranked_results s') = od_keys (all_results s) ∧
  ∀ c hits, od_get c (all_results s) = Some hits →
    ∃ sel, od_get c (reranked_results s') = Some sel ∧
           Z.of_nat (length sel)
             = Z.min (Z.max 1 (top_k s)) (Z.min 10 (Z.of_nat (length hits))) ∧
           map h_mmr_rank sel = ranks (length sel) ∧
           map h_id sel ⊆+ map h_id (take 10 hits) ∧
           Forall scored sel.
Proof.
  intros Hnd Hrun. apply node_rank_enrich_reranked in Hrun as (Hrr & _).
  apply rerank_all_spec in Hrr as (new & Hout & Hkeys & Hget); [|done|].
  - cbn in Hout. rewrite Hout. split; [done|]. intros c hits Hc.
    destruct (Hget c hits Hc) as (sel & Hsel & Hrk). exists sel. split; [done|].
    by apply rerank_spec in Hrk.
  - intros k _. cbn. apply not_elem_of_nil.
Qed.

End Ranking.

Lemma rank_enrich_ranking_witness :
  ∃ s' w',
    @node_rank_enrich demo_services demo_searched demo_world = (Ok s', w') ∧
    od_keys (reranked_results s') = ["proteins"] ∧
    ∃ sel, od_get "proteins" (reranked_results s') = Some sel ∧
           Z.of_nat (length sel) = 2 ∧
           map h_mmr_rank sel = ranks (length sel).
Proof.
  assert (Hrun : ∃ s' w',
             @node_rank_enrich demo_services demo_searched demo_world = (Ok s', w')).
  { vm_compute. eexists _, _. reflexivity. }
  destruct Hrun as (s' & w' & Hrun). exists s', w'. split; [exact Hrun|].
  destruct (@rank_enrich_ranking demo_services demo_searched s' demo_world w')
    as (Hkeys & Hget); [|exact Hrun|].
  - apply (bool_decide_unpack _). vm_compute. exact I.
  - split; [exact Hkeys|].
    destruct (Hget "proteins" (default [] (od_get "proteins" demo_reranked)))
      as (sel & Hsel & Hlen & Hranks & _); [reflexivity|].
    exists sel. split; [exact Hsel|]. split; [|exact Hranks].
    rewrite Hlen. reflexivity.
Defined.

(** ** What Stage 3 records, and when it raises *)

Section Records.
Context `{Services}.
Variable P : list Event -> Prop.
Hypothesis P_nil : P [].
Hypothesis P_app : ∀ a b, P a → P b → P (a ++ b).

Lemma returns_records {A} (m : M A) : returns P m → records P m.
Proof. intros Hm w. destruct (Hm w) as (a & evs & -> & Hp). by exists evs. Qed.

Lemma returns_ret {A} (a : A) : returns P (ret a).
Proof. intros w. exists a, []. by rewrite w_log_nil. Qed.

Lemma records_raise {A} e : records P (raise (A:=A) e).
Proof. intros w. exists []. by rewrite w_log_nil. Qed.

Lemma records_lift {A} (r : Res A) : records P (lift r).
Proof. intros w. exists []. by rewrite w_log_nil. Qed.

Lemma records_call {A} ev (r : Res A) : P [ev] → records P (call ev r).
Proof. intros Hev w. by exists [ev]. Qed.

Lemma returns_emit ev : P [ev] → returns P (emit ev).
Proof. intros Hev w. by exists tt, [ev]. Qed.

Lemma records_bind {A B} (m : M A) (k : A -> M B) :
  records P m → (∀ a, records P (k a)) → records P (bind m k).
Proof.
  intros Hm Hk w. rewrite bind_run. destruct (Hm w) as (e1 & Ht1 & H1).
  destruct (m w) as [[a|e] w1]; cbn [snd] in *; subst w1.
  - destruct (Hk a (w_log w e1)) as (e2 & Ht2 & H2). exists (e1 ++ e2).
    rewrite Ht2, w_log_app. split; [done|]. by apply P_app.
  - by exists e1.
Qed.

Lemma returns_bind {A B} (m : M A) (k : A -> M B) :
  returns P m → (∀ a, returns P (k a)) → returns P (bind m k).
Proof.
  intros Hm Hk w. rewrite bind_run. destruct (Hm w) as (a & e1 & -> & H1).
  destruct (Hk a (w_log w e1)) as (b & e2 & -> & H2). exists b, (e1 ++ e2).
  rewrite w_log_app. split; [done|]. by apply P_app.
Qed.

Lemma returns_try {A} (m : M A) (h : string -> M A) :
  records P m → (∀ e, returns P (h e)) → returns P (try_except m h).
Proof.
  intros Hm Hh w. unfold try_except. destruct (Hm w) as (e1 & Ht1 & H1).
  destruct (m w) as [[a|e] w1]; cbn [snd] in *; subst w1.
  - by exists a, e1.
  - destruct (Hh e (w_log w e1)) as (b & e2 & -> & H2). exists b, (e1 ++ e2).
    rewrite w_log_app. split; [done|]. by apply P_app.
Qed.

Lemma returns_for_each {A B} (l : list A) (body : A -> B -> M B) acc :
  (∀ x acc, returns P (body x acc)) → returns P (for_each l body acc).
Proof.
  intros Hb. revert acc. induction l as [|x l IH]; intros acc; cbn [for_each].
  - apply returns_ret.
  - apply returns_bind; [apply Hb|]. intros acc'. apply IH.
Qed.

End Records.

Section Stage3.
Context `{Services}.

Lemma verification_only_nil : verification_only [].
Proof. split; [done|]. split; [done|]. intros q Hq. by apply elem_of_nil in Hq. Qed.

Lemma verification_only_app a b :
  verification_only a → verification_only b → verification_only (a ++ b).
Proof.
  intros (Ha1 & Ha2 & Ha3) (Hb1 & Hb2 & Hb3). unfold verification_only.
  rewrite bridge_calls_app, store_fusions_app, store_queries_app, Ha1, Ha2, Hb1, Hb2.
  split; [done|]. split; [done|]. intros q Hq. apply elem_of_app in Hq as [Hq|Hq]; auto.
Qed.

Lemma verification_only_other ev :
  bridge_calls [ev] = [] → store_fusions [ev] = [] → store_queries [ev] = [] →
  verification_only [ev].
Proof.
  intros H1 H2 H3. split; [done|]. split; [done|]. rewrite H3. intros q Hq.
  by apply elem_of_nil in Hq.
Qed.

Lemma article_lookup_returns v :
  returns verification_only (vector_search "articles" v "text" 10 None).
Proof.
  intros w. rewrite vector_search_run. eexists _, _. split; [reflexivity|].
  destruct (store_queries_search_events "articles" v "text" 10 None) as (Hq & Hf & Hb & _).
  split; [done|]. split; [done|]. rewrite Hq. intros q Hq'.
  apply list_elem_of_singleton in Hq' as ->. by exists v.
Qed.

Lemma verify_and_label_returns candidate :
  returns verification_only (_verify_and_label candidate).
Proof.
  unfold _verify_and_label. destruct (String.eqb _ _).
  { apply returns_ret, verification_only_nil. }
  apply returns_try; [apply verification_only_app| |].
  - apply records_bind; [apply verification_only_app| |].
    + by apply records_call, verification_only_other.
    + intros v. destruct (_ && _).
      * apply returns_records, returns_bind; [apply verification_only_app| |].
        -- apply article_lookup_returns.
        -- intros results. repeat case_match; apply returns_ret, verification_only_nil.
      * apply records_raise, verification_only_nil.
  - intros e. apply returns_ret, verification_only_nil.
Qed.

Lemma design_assistant_returns s reranked :
  returns verification_only (design_assistant s reranked).
Proof.
  unfold design_assistant.
  destruct (include_design_candidates s); [|apply returns_ret, verification_only_nil].
  destruct (_ || _); [|apply returns_ret, verification_only_nil].
  apply returns_try; [apply verification_only_app| |].
  - apply records_bind; [apply verification_only_app| |].
    + destruct (_ && _); [|apply returns_records, returns_ret, verification_only_nil].
      destruct (bridge_output s);
        [apply returns_records, returns_ret|apply records_raise]; apply verification_only_nil.
    + intros ctx. apply records_bind; [apply verification_only_app| |].
      * apply records_lift, verification_only_nil.
      * intros cands. apply returns_records, returns_for_each;
          [apply verification_only_nil|apply verification_only_app|].
        intros c acc. apply returns_bind; [apply verification_only_app| |].
        -- apply verify_and_label_returns.
        -- intros l. apply returns_ret, verification_only_nil.
  - intros e. apply returns_bind; [apply verification_only_app| |].
    + by apply returns_emit, verification_only_other.
    + intros _. apply returns_ret, verification_only_nil.
Qed.

Lemma summarize_returns s reranked : returns verification_only (summarize s reranked).
Proof.
  assert (Hfresh : returns verification_only (fresh_summary s reranked)).
  { unfold fresh_summary. apply returns_try; [apply verification_only_app| |].
    - apply records_bind; [apply verification_only_app| |].
      + apply records_lift, verification_only_nil.
      + intros x. apply returns_records, returns_ret, verification_only_nil.
    - intros e. apply returns_bind; [apply verification_only_app| |].
      + by apply returns_emit, verification_only_other.
      + intros _. apply returns_ret, verification_only_nil. }
  unfold summarize. destruct (include_summary s); [|apply returns_ret, verification_only_nil].
  destruct (bridge_output s) as [b|]; [|done].
  destruct (negb _); [apply returns_ret, verification_only_nil|done].
Qed.

Lemma rerank_all_ok s mmr_lambda all acc :
  (∀ t, ∃ v, encode_text t = Ok v) →
  ∃ out, rerank_all s mmr_lambda all acc = Ok out.
Proof.
  intros Henc. revert acc. induction all as [|[c hits] all IH]; intros acc; cbn; [eauto|].
  assert (∃ sel, rerank s mmr_lambda hits = Ok sel) as [sel ->]; [|apply IH].
  unfold rerank. destruct hits as [|h hits]; [eauto|].
  unfold _apply_mmr. destruct (take 10 (h :: hits)) as [|r0 rest]; [eauto|].
  destruct (mmr_vectors_total encode_text Henc (r0 :: rest) ∅) as [vectors ->]. eauto.
Qed.

(** [node_rank_enrich] raises only out of the ranking, where the text
    encoder is called outside any [try]: then it raises that exception and
    has done nothing else. Otherwise it returns, whatever the design
    assistant, the summary and the article lookups do; so it returns whenever
    the text encoder answers. Whatever happens, it makes no Bridge call and
    no fusion query, and its only store queries are the article lookups of the
    candidate verification (articles, text vector, limit 10, no filter). *)
Theorem rank_enrich_contained (s : GraphState) (w : World) :
  (∃ evs, (node_rank_enrich s w).2 = w_log w evs ∧ verification_only evs) ∧
  match rerank_all s (MMR_LAMBDA (alignment s)) (all_results s) [] with
  | Raise e => node_rank_enrich s w = (Raise e, w)
  | Ok reranked =>
    ∃ s', (node_rank_enrich s w).1 = Ok s' ∧ reranked_results s' = reranked
  end ∧
  ((∀ t, ∃ v, encode_text t = Ok v) → ∃ s', (node_rank_enrich s w).1 = Ok s').
Proof.
  assert (Hcase :
    match rerank_all s (MMR_LAMBDA (alignment s)) (all_results s) [] with
    | Raise e => node_rank_enrich s w = (Raise e, w)
    | Ok reranked =>
      ∃ s' evs, node_rank_enrich s w = (Ok s', w_log w evs) ∧ verification_only evs ∧
                reranked_results s' = reranked
    end).
  { unfold node_rank_enrich. rewrite bind_run. unfold lift.
    destruct (rerank_all _ _ _ _) as [reranked|e]; [|done]. cbn [fst snd].
    rewrite bind_run.
    destruct (design_assistant_returns s reranked w) as (dc & e1 & -> & H1).
    rewrite bind_run.
    destruct (summarize_returns s reranked (w_log w e1)) as (sm & e2 & -> & H2).
    rewrite w_log_app. eexists _, _. split; [reflexivity|].
    split; [by apply verification_only_app|done]. }
  split; [|split].
  - destruct (rerank_all _ _ _ _) as [reranked|e].
    + destruct Hcase as (s' & evs & -> & Hv & _). by exists evs.
    + rewrite Hcase. exists []. rewrite w_log_nil. split; [done|apply verification_only_nil].
  - destruct (rerank_all _ _ _ _) as [reranked|e]; [|done].
    destruct Hcase as (s' & evs & -> & _ & Hr). by exists s'.
  - intros Henc.
    destruct (rerank_all_ok s (MMR_LAMBDA (alignment s)) (all_results s) [] Henc)
      as [out Hout].
    rewrite Hout in Hcase. destruct Hcase as (s' & evs & -> & _). by exists s'.
Qed.

End Stage3.

(** ** [_verify_and_label] *)

Section VerifyAndLabel.
Context `{Services}.

(** [_verify_and_label] never raises and keeps the candidate's own fields.
    It tells the label by the count: "exploratory" with 0, "emerging" with 1,
    2 or 3, "established" with a multiple of 3 that is at least 12. It looks
    articles up at most once; a candidate without a name is labelled
    "exploratory" without any call, and so is one whose name the encoder
    fails on, without any store query. *)
Theorem verify_and_label_contract (candidate : Candidate) (w : World) :
  ∃ labeled evs n,
    _verify_and_label candidate w = (Ok labeled, w_log w evs) ∧
    c_name labeled = c_name candidate ∧
    c_justification labeled = c_justification candidate ∧
    c_research_suggestion labeled = c_research_suggestion candidate ∧
    c_evidence_count labeled = Some n ∧
    ((c_confidence labeled = Some "exploratory" ∧ n = 0) ∨
     (c_confidence labeled = Some "emerging" ∧ 1 <= n <= 3) ∨
     (c_confidence labeled = Some "established" ∧ 12 <= n ∧ n mod 3 = 0)) ∧
    (length (store_queries evs) <= 1)%nat ∧
    (c_name candidate = "" → evs = []) ∧
    ((∃ e, encode_text (c_name candidate) = Raise e) →
     c_confidence labeled = Some "exploratory" ∧ store_queries evs = []).
Proof.
  unfold _verify_and_label. destruct (String.eqb_spec (c_name candidate) "") as [Hname|Hname].
  { exists (exploratory candidate), [], 0. rewrite w_log_nil. cbn.
    repeat split; auto; try (cbn; lia); try done. }
  unfold try_except. rewrite bind_run. unfold call.
  destruct (encode_text (c_name candidate)) as [v|e] eqn:Henc; cbn [fst snd].
  2:{ exists (exploratory candidate), [EncodeCall "text" (c_name candidate)], 0. cbn.
      repeat split; auto; try (cbn; lia); try done. }
  destruct (nonempty v && (10 <=? Z.of_nat (length v))); cbn [raise].
  2:{ exists (exploratory candidate), [EncodeCall "text" (c_name candidate)], 0. cbn.
      repeat split; auto; try (cbn; lia); try done; by intros [e He]. }
  rewrite bind_run, vector_search_run. cbn [fst snd].
  destruct (store_queries_search_events "articles" v "text" 10 None) as (Hq & _).
  set (matching := Z.of_nat (length (filter _ _))).
  assert (Hlog : ∀ evs, w_log (mkWorld (w_cache w)
                                  (w_trace w ++ [EncodeCall "text" (c_name candidate)])) evs
                        = w_log w ([EncodeCall "text" (c_name candidate)] ++ evs)).
  { intros evs. unfold w_log. cbn. by rewrite <- app_assoc. }
  assert (Hlen : ∀ evs, store_queries evs = [("articles", "text", v, 10, None)] →
            (length (store_queries ([EncodeCall "text" (c_name candidate)] ++ evs)) <= 1)%nat).
  { intros evs Hs. rewrite store_queries_app, Hs. cbn. lia. }
  destruct (3 <? matching) eqn:H3; [apply Z.ltb_lt in H3|apply Z.ltb_ge in H3];
    [|destruct (0 <? matching) eqn:H0; [apply Z.ltb_lt in H0|apply Z.ltb_ge in H0]];
    cbn [ret]; rewrite Hlog.
  - eexists _, _, (matching * 3). split; [reflexivity|]. cbn [label_candidate c_name
      c_justification c_research_suggestion c_evidence_count c_confidence].
    repeat split; auto; try (cbn; lia);
      try congruence;
      try (exfalso; by match goal with Hx : ∃ _, Ok _ = Raise _ |- _ => destruct Hx end).
    right. right. split; [done|]. split; [lia|]. apply Z_mod_mult.
  - eexists _, _, matching. split; [reflexivity|]. cbn [label_candidate c_name
      c_justification c_research_suggestion c_evidence_count c_confidence].
    repeat split; auto; try (cbn; lia);
      try congruence;
      try (exfalso; by match goal with Hx : ∃ _, Ok _ = Raise _ |- _ => destruct Hx end).
    right. left. split; [done|lia].
  - eexists _, _, 0. split; [reflexivity|]. cbn [exploratory label_candidate c_name
      c_justification c_research_suggestion c_evidence_count c_confidence].
    repeat split; auto; try (cbn; lia);
      try congruence;
      try (exfalso; by match goal with Hx : ∃ _, Ok _ = Raise _ |- _ => destruct Hx end).
Qed.

End VerifyAndLabel.

(** ** Evidence *)

Section EvidenceFacts.

Lemma od_get_elem {V} (d : odict V) k v :
  NoDup (od_keys d) → (k, v) ∈ d → od_get k d = Some v.
Proof.
  unfold od_keys. induction d as [|[k' v'] d IH]; intros Hnd Hin.
  - by apply elem_of_nil in Hin.
  - rewrite fmap_cons in Hnd. cbn [fst] in Hnd. apply NoDup_cons in Hnd as [Hni Hnd].
    cbn [od_get]. apply elem_of_cons in Hin as [[= -> ->]|Hin]; [by rewrite decide_True|].
    rewrite decide_False; [by apply IH|]. intros ->. apply Hni.
    apply list_elem_of_fmap. by exists (k', v).
Qed.

Lemma od_get_in {V} (d : odict V) k v : od_get k d = Some v → (k, v) ∈ d.
Proof.
  induction d as [|[k' v'] d IH]; [done|]. cbn [od_get]. case_decide as Hk.
  - intros [= ->]. subst. left.
  - intros Hg. right. by apply IH.
Qed.

Lemma collect_items c items evidence :
  let out := fold_left (fun evidence r => od_set (h_id r) (evidence_of c r) evidence)
               items evidence in
  (NoDup (od_keys evidence) → NoDup (od_keys out)) ∧
  (∀ k, k ∈ od_keys out <-> k ∈ od_keys evidence ∨ k ∈ map h_id items) ∧
  (∀ k v, od_get k out = Some v →
          od_get k evidence = Some v ∨ ∃ r, r ∈ items ∧ h_id r = k ∧ v = evidence_of c r).
Proof.
  revert evidence. induction items as [|r items IH]; intros evidence; cbn [fold_left map].
  - split; [done|]. split; [|by left]. intros k. rewrite elem_of_nil. tauto.
  - destruct (IH (od_set (h_id r) (evidence_of c r) evidence)) as (I1 & I2 & I3).
    split; [|split].
    + intros Hnd. by apply I1, od_set_NoDup.
    + intros k. rewrite I2, od_keys_set, elem_of_cons. tauto.
    + intros k v Hg. apply I3 in Hg as [Hg|(r' & Hr' & Hid & Hv)].
      * destruct (decide (k = h_id r)) as [->|Hne].
        -- rewrite od_get_set_eq in Hg. injection Hg as <-. right. exists r.
           split; [left|done].
        -- rewrite od_get_set_ne in Hg by done. by left.
      * right. exists r'. split; [by right|done].
Qed.

Lemma collect_evidence_spec (results : odict (list Hit)) :
  NoDup (od_keys (_collect_evidence results)) ∧
  (∀ k, k ∈ od_keys (_collect_evidence results) <->
        ∃ c hits r, (c, hits) ∈ results ∧ r ∈ hits ∧ h_id r = k) ∧
  (∀ k v, od_get k (_collect_evidence results) = Some v →
          ∃ c hits r, (c, hits) ∈ results ∧ r ∈ hits ∧ h_id r = k ∧ v = evidence_of c r).
Proof.
  unfold _collect_evidence.
  enough (Hgen : ∀ evidence,
    let out := fold_left
                 (fun evidence kv =>
                    fold_left (fun evidence r =>
                                 od_set (h_id r) (evidence_of kv.1 r) evidence)
                      kv.2 evidence) results evidence in
    (NoDup (od_keys evidence) → NoDup (od_keys out)) ∧
    (∀ k, k ∈ od_keys out <->
          k ∈ od_keys evidence ∨ ∃ c hits r, (c, hits) ∈ results ∧ r ∈ hits ∧ h_id r = k) ∧
    (∀ k v, od_get k out = Some v →
            od_get k evidence = Some v ∨
            ∃ c hits r, (c, hits) ∈ results ∧ r ∈ hits ∧ h_id r = k ∧ v = evidence_of c r)).
  { destruct (Hgen []) as (H1 & H2 & H3). split; [apply H1; constructor|]. split.
    - intros k. rewrite H2. split; [|by right]. intros [Hk|Hk]; [|done].
      by apply elem_of_nil in Hk.
    - intros k v Hg. by destruct (H3 k v Hg) as [?|?]. }
  induction results as [|[c hits] results IH]; intros evidence; cbn [fold_left fst snd].
  - split; [done|]. split; [|by left]. intros k. split; [by left|].
    intros [Hk|(c & hits & r & Hin & _)]; [done|]. by apply elem_of_nil in Hin.
  - destruct (collect_items c hits evidence) as (C1 & C2 & C3). cbn zeta in *.
    destruct (IH (fold_left (fun evidence r => od_set (h_id r) (evidence_of c r) evidence)
                    hits evidence)) as (I1 & I2 & I3).
    split; [|split].
    + intros Hnd. by apply I1, C1.
    + intros k. rewrite I2, C2. split.
      * intros [[Hk|Hk]|(c' & hits' & r & Hin & Hr & Hid)]; [by left| |].
        -- right. apply list_elem_of_fmap in Hk as (r & -> & Hr).
           exists c, hits, r. split; [left|done].
        -- right. exists c', hits', r. split; [by right|done].
      * intros [Hk|(c' & hits' & r & Hin & Hr & Hid)]; [by left; left|].
        apply elem_of_cons in Hin as [[= -> ->]|Hin].
        -- left. right. apply list_elem_of_fmap. by exists r.
        -- right. by exists c', hits', r.
    + intros k v Hg. apply I3 in Hg as [Hg|(c' & hits' & r & Hin & Hr & Hid & Hv)].
      * apply C3 in Hg as [Hg|(r & Hr & Hid & Hv)]; [by left|].
        right. exists c, hits, r. split; [left|done].
      * right. exists c', hits', r. split; [by right|done].
Qed.

Lemma build_evidence_spec (evidence : odict Evidence) :
  match build_evidence evidence with
  | Raise e =>
    e = "ValidationError" ∧
    ∃ k ev, (k, ev) ∈ evidence ∧ ((ev_confidence ev < 0)%Q ∨ (1 < ev_confidence ev)%Q)
  | Ok out =>
    out = map (fun kv => (kv.1, mkEvidenceData (ev_confidence kv.2) (ev_links kv.2))) evidence ∧
    ∀ k ev, (k, ev) ∈ evidence → (0 <= ev_confidence ev <= 1)%Q
  end.
Proof.
  induction evidence as [|[k ev] evidence IH]; cbn [build_evidence].
  - split; [done|]. intros k ev Hin. by apply elem_of_nil in Hin.
  - destruct (Qltb (ev_confidence ev) 0) eqn:Hlo; cbn [orb].
    { split; [done|]. exists k, ev. split; [left|]. left. by apply Qltb_lt. }
    destruct (Qgtb (ev_confidence ev) 1) eqn:Hhi.
    { split; [done|]. exists k, ev. split; [left|]. right. by apply Qgtb_lt. }
    apply Qltb_le in Hlo. apply Qgtb_le in Hhi.
    destruct (build_evidence evidence) as [out|e].
    + destruct IH as [-> Hall]. split; [done|]. intros k' ev' Hin.
      apply elem_of_cons in Hin as [[= -> ->]|Hin]; [by split|]. by eapply Hall.
    + destruct IH as [-> (k' & ev' & Hin & Hbad)]. split; [done|].
      exists k', ev'. split; [by right|done].
Qed.

(** The evidence of a response. [_collect_evidence] keeps one record for
    each result id, made from a result with that id: its collection, its links
    and the confidence [min(1, 1.2 x score)], a product of floats, which is
    at most 1 but negative
    for a negative score. [build_response] then fails with a validation
    error exactly when some record has a negative confidence; so it accepts
    the evidence of results whose scores are all non-negative. *)
Theorem evidence_confidence (results : odict (list Hit)) :
  let evidence := _collect_evidence results in
  NoDup (od_keys evidence) ∧
  (∀ k, k ∈ od_keys evidence <-> ∃ c hits r, (c, hits) ∈ results ∧ r ∈ hits ∧ h_id r = k) ∧
  (∀ k ev, od_get k evidence = Some ev →
     (ev_confidence ev <= 1)%Q ∧
     ∃ c hits r, (c, hits) ∈ results ∧ r ∈ hits ∧ h_id r = k ∧
                 ev_collection ev = c ∧
                 ev_confidence ev = Qmin2 1 (fmul (h_score r) (binary64 (12 # 10))) ∧
                 ev_links ev = evidence_links c (h_payload r)) ∧
  (build_evidence evidence = Raise "ValidationError" <->
   ∃ k ev, od_get k evidence = Some ev ∧ (ev_confidence ev < 0)%Q) ∧
  ((∀ c hits r, (c, hits) ∈ results → r ∈ hits → (0 <= h_score r)%Q) →
   ∃ out, build_evidence evidence = Ok out ∧ od_keys out = od_keys evidence ∧
          ∀ k e, od_get k out = Some e → (0 <= evd_confidence e <= 1)%Q).
Proof.
  cbn zeta. destruct (collect_evidence_spec results) as (Hnd & Hkeys & Hget).
  assert (Hle : ∀ k ev, od_get k (_collect_evidence results) = Some ev →
                        (ev_confidence ev <= 1)%Q).
  { intros k ev Hg. apply Hget in Hg as (c & hits & r & _ & _ & _ & ->). cbn.
    apply Qmin2_le_l. }
  pose proof (build_evidence_spec (_collect_evidence results)) as Hb.
  split; [done|]. split; [done|]. split; [|split].
  - intros k ev Hg. split; [by eapply Hle|].
    apply Hget in Hg as (c & hits & r & Hin & Hr & Hid & ->). by exists c, hits, r.
  - split.
    + intros Hr. rewrite Hr in Hb. destruct Hb as [_ (k & ev & Hin & Hbad)].
      exists k, ev. apply od_get_elem in Hin; [|done]. split; [done|].
      destruct Hbad as [?|Hbad]; [done|]. apply Hle in Hin. exfalso.
      by apply (Qlt_not_le _ _ Hbad).
    + intros (k & ev & Hg & Hneg). destruct (build_evidence _) as [out|e].
      * destruct Hb as [_ Hall]. apply od_get_in in Hg. apply Hall in Hg as [Hg _].
        exfalso. by apply (Qlt_not_le _ _ Hneg).
      * by destruct Hb as [-> _].
  - intros Hpos. destruct (build_evidence _) as [out|e].
    + destruct Hb as [-> Hall]. eexists. split; [reflexivity|]. split.
      { unfold od_keys. rewrite <- list_fmap_compose. done. }
      intros k e Hg. apply od_get_in in Hg.
      apply list_elem_of_fmap in Hg as ([k' ev] & [= -> ->] & Hin). cbn. by eapply Hall.
    + destruct Hb as [_ (k & ev & Hin & Hbad)]. exfalso.
      apply od_get_elem in Hin; [|done]. pose proof (Hle _ _ Hin) as Hle1.
      apply Hget in Hin as (c & hits & r & Hc & Hr & _ & ->). cbn in *.
      destruct Hbad as [Hbad|Hbad]; [|by apply (Qlt_not_le _ _ Hbad)].
      specialize (Hpos c hits r Hc Hr). unfold Qmin2 in Hbad.
      destruct (Qltb _ 1) eqn:Hlt.
      * apply (Qlt_not_le _ _ Hbad). apply binary64_nonneg.
        apply Qmult_le_0_compat; [done|]. by vm_compute.
      * by apply (Qlt_not_le _ _ Hbad).
Qed.

End EvidenceFacts.

(** ** The response and the request's options *)

Section ResponseOptions.
Context `{Services}.

Lemma node_encode_options now s w s1 w1 :
  node_encode now s w = (Ok s1, w1) → options s1 = options s.
Proof.
  unfold node_encode. rewrite bind_run.
  destruct (when_ _ _ _ _ w) as [[acc1|e] wa]; [|discriminate].
  rewrite bind_run. destruct (when_ _ _ _ _ wa) as [[acc2|e] wb]; [|discriminate].
  rewrite bind_run. destruct (when_ _ _ _ _ wb) as [[acc3|e] wc]; [|discriminate].
  rewrite bind_run. destruct (when_ _ _ _ _ wc) as [[acc4|e] wd]; [|discriminate].
  destruct (classify _ _) as [[it sc] pm]. by intros [= <- <-].
Qed.

Lemma node_search_options s w s' w' :
  node_search s w = (Ok s', w') → options s' = options s.
Proof.
  assert (Hmodal : ∀ strategy phase1 user_text phase3,
            search_modal s strategy phase1 user_text phase3 w = (Ok s', w') →
            options s' = options s).
  { intros strategy phase1 user_text phase3. unfold search_modal. rewrite bind_run.
    destruct (phase1 _ _ w) as [[p1|e] wa]; [|discriminate].
    rewrite bind_run. unfold call at 1.
    destruct (bridge_cross_modal _ _) as [b|e]; [|discriminate].
    rewrite bind_run. destruct (phase3 _ _ _ _) as [[p3|e] wb]; [|discriminate].
    by intros [= <- <-]. }
  unfold node_search. repeat case_decide; try by apply Hmodal.
  - destruct (default [] (vectors s !! "text")) as [|x tv].
    + rewrite bind_run. cbn. by intros [= <- <-].
    + rewrite bind_run. destruct (for_each _ _ _ _) as [[all|e] wa]; [|discriminate].
      by intros [= <- <-].
  - by intros [= <- <-].
Qed.

Lemma design_assistant_off s reranked w :
  include_design_candidates s = false → design_assistant s reranked w = (Ok [], w).
Proof. intros Hoff. unfold design_assistant. by rewrite Hoff. Qed.

Lemma summarize_off s reranked w :
  include_summary s = false → summarize s reranked w = (Ok ("", None), w).
Proof. intros Hoff. unfold summarize. by rewrite Hoff. Qed.

Lemma node_rank_enrich_fields s w s' w' :
  node_rank_enrich s w = (Ok s', w') →
  rerank_all s (MMR_LAMBDA (alignment s)) (all_results s) [] = Ok (reranked_results s') ∧
  evidence s' = (if include_evidence s then _collect_evidence (reranked_results s') else []) ∧
  (include_graph s = false → neighbor_graph s' = None) ∧
  (include_summary s = false → summary s' = "") ∧
  (include_design_candidates s = false → design_candidates s' = []).
Proof.
  unfold node_rank_enrich. rewrite bind_run. unfold lift.
  destruct (rerank_all _ _ _ _) as [reranked|e]; [|done]. cbn [fst snd].
  rewrite bind_run.
  destruct (design_assistant s reranked w) as [[dc|e] w1] eqn:Hd; [|done].
  cbn [fst snd]. rewrite bind_run.
  destruct (summarize s reranked w1) as [[sm|e] w2] eqn:Hs; [|done]. cbn [fst snd].
  intros [= <- <-]. cbn. split; [done|]. split; [done|]. split; [by intros ->|]. split.
  - intros Hoff. rewrite summarize_off in Hs by done. by injection Hs as <- _.
  - intros Hoff. rewrite design_assistant_off in Hd by done. by injection Hd as <- _.
Qed.

Lemma rerank_all_values s mmr_lambda all acc out :
  rerank_all s mmr_lambda all acc = Ok out →
  ∀ c sel, od_get c out = Some sel →
           od_get c acc = Some sel ∨ ∃ hits, rerank s mmr_lambda hits = Ok sel.
Proof.
  revert acc. induction all as [|[c hits] all IH]; intros acc; cbn [rerank_all].
  - intros [= <-] c sel Hg. by left.
  - destruct (rerank s mmr_lambda hits) as [sel0|e] eqn:Hsel; [|done]. intros Hrun c0 sel Hg.
    destruct (IH _ Hrun c0 sel Hg) as [Hacc|Hnew]; [|by right].
    destruct (decide (c0 = c)) as [->|Hne].
    + rewrite od_get_set_eq in Hacc. injection Hacc as <-. right. by exists hits.
    + rewrite od_get_set_ne in Hacc by done. by left.
Qed.

Lemma quadrant_bound s w s' w' c :
  node_rank_enrich s w = (Ok s', w') →
  Z.of_nat (length (format_results (default [] (od_get c (reranked_results s'))) c))
  <= Z.min 10 (Z.max 1 (top_k s)).
Proof.
  intros Hrun. apply node_rank_enrich_fields in Hrun as (Hrr & _).
  unfold format_results. rewrite length_map.
  destruct (od_get c (reranked_results s')) as [sel|] eqn:Hg; [|cbn [default length]; lia].
  destruct (rerank_all_values _ _ _ _ _ Hrr c sel Hg) as [Hacc|[hits Hsel]]; [done|].
  apply rerank_spec in Hsel as (Hlen & _). cbn [default id]. lia.
Qed.

(** What a response owes to the request. No collection of a response lists
    more than ten results, nor more than [top_k] of them (one, when [top_k]
    is below one). A request that declines the evidence, the graph or the
    design candidates gets none, and one that declines the summary gets an
    empty one unless the response is the error response, whose summary is the
    error message. *)
Theorem response_respects_request (req : Request) (t0 t1 : Q) (w w' : World)
    (resp : SearchResponse) :
  run_recommendation req t0 t1 w = (Ok resp, w') →
  (∀ l, l ∈ quadrant_lists (resp_quadrant resp) →
        Z.of_nat (length l) <= Z.min 10 (Z.max 1 (arg_top_k req))) ∧
  (arg_include_evidence req = false → resp_evidence resp = []) ∧
  (arg_include_graph req = false → resp_neighbor_graph resp = None) ∧
  (arg_include_design_candidates req = false → resp_design_candidates resp = []) ∧
  (arg_include_summary req = false → resp_summary resp = "" ∨ is_error_response resp).
Proof.
  unfold run_recommendation. unfold bind at 1. unfold try_except. unfold bind at 1.
  destruct (workflow t0 (initial_state req) w) as [[final|e] wx] eqn:Hw.
  2:{ cbn. intros [= <- <-]. cbn. split.
      { intros l Hl. unfold quadrant_lists in Hl. cbn in Hl.
        rewrite !elem_of_cons, elem_of_nil in Hl.
        destruct Hl as [->|[->|[->|[->|[->|[]]]]]]; cbn [length]; lia. }
      repeat split; auto. intros _. by right. }
  cbn [ret fst snd lift].
  destruct (build_response final (t1 - t0)) as [r|e] eqn:Hb; [|discriminate].
  intros [= <- <-].
  unfold workflow in Hw. rewrite bind_run in Hw.
  destruct (node_encode t0 (initial_state req) w) as [[s1|e] w1] eqn:H1; [|discriminate].
  rewrite bind_run in Hw.
  destruct (node_search s1 w1) as [[s2|e] w2] eqn:H2; [|discriminate].
  apply node_encode_options in H1. apply node_search_options in H2.
  assert (Hopt : options s2
                 = (arg_top_k req, arg_include_graph req, arg_include_evidence req,
                    arg_include_summary req, arg_include_design_candidates req)).
  { by rewrite H2, H1. }
  unfold options in Hopt. injection Hopt as Hk Hg He Hs Hd.
  pose proof (node_rank_enrich_fields _ _ _ _ Hw) as (_ & Hev & Hgr & Hsm & Hdc).
  unfold build_response in Hb.
  destruct (build_evidence (evidence final)) as [evd|e] eqn:Hbe; [|discriminate].
  injection Hb as <-. cbn. split; [|split; [|split; [|split]]].
  - intros l Hl. unfold quadrant_lists in Hl. cbn in Hl.
    rewrite !elem_of_cons, elem_of_nil in Hl. rewrite <- Hk.
    destruct Hl as [->|[->|[->|[->|[->|[]]]]]]; by eapply quadrant_bound.
  - intros Hoff. rewrite He, Hoff in Hev. rewrite Hev in Hbe. cbn in Hbe. by injection Hbe as <-.
  - intros Hoff. rewrite Hg in Hgr. by rewrite Hgr.
  - intros Hoff. rewrite Hd in Hdc. by apply Hdc.
  - intros Hoff. left. rewrite Hs in Hsm. by apply Hsm.
Qed.

End ResponseOptions.

Lemma response_respects_request_witness :
  ∃ resp w',
    @run_recommendation demo_services demo_bare_request 0 1 demo_world = (Ok resp, w') ∧
    (∀ l, l ∈ quadrant_lists (resp_quadrant resp) → Z.of_nat (length l) <= 1) ∧
    resp_evidence resp = [] ∧
    resp_design_candidates resp = [].
Proof.
  assert (Hrun : ∃ resp w',
             @run_recommendation demo_services demo_bare_request 0 1 demo_world
             = (Ok resp, w')).
  { vm_compute. eexists _, _. reflexivity. }
  destruct Hrun as (resp & w' & Hrun). exists resp, w'. split; [exact Hrun|].
  destruct (@response_respects_request demo_services demo_bare_request 0 1 demo_world w'
              resp Hrun) as (Hsize & Hev & _ & Hdc & _).
  split; [exact Hsize|]. split; [apply Hev|apply Hdc]; reflexivity.
Defined.

(** ** The shape of the neighbour graph *)

Section GraphShape.
Variable score_threshold edge_threshold : Q.
Variable max_nodes_per_collection : Z.

Lemma graph_nodes_of_spec collection items count acc :
  let out := graph_nodes_of collection score_threshold max_nodes_per_collection items
               count acc in
  ∃ new,
    na_nodes out = na_nodes acc ++ new ∧
    (NoDup (map n_id (na_nodes acc)) → NoDup (map n_id (na_nodes out))) ∧
    (∀ n, n ∈ new →
          ∃ r, r ∈ items ∧ n_id n = h_id r ∧ n_collection n = collection ∧
               (score_threshold <= h_score r)%Q ∧ n_score n = round_nd 4 (h_score r) ∧
               10 <= n_size n) ∧
    Z.of_nat (length new) <= Z.max 0 (max_nodes_per_collection - count) ∧
    na_filtered acc <= na_filtered out ∧
    (na_filtered out - na_filtered acc) + Z.of_nat (length new)
      <= na_total out - na_total acc.
Proof.
  revert count acc. induction items as [|r items IH]; intros count acc; cbn zeta;
    cbn [graph_nodes_of].
  - exists []. rewrite app_nil_r. split; [done|]. split; [done|].
    split; [intros n Hn; by apply elem_of_nil in Hn|]. cbn [length]. lia.
  - destruct (Z.leb_spec max_nodes_per_collection count) as [Hfull|Hroom].
    { exists []. rewrite app_nil_r. split; [done|]. split; [done|].
      split; [intros n Hn; by apply elem_of_nil in Hn|]. cbn [length]. lia. }
    cbn [na_nodes na_payloads na_total na_filtered].
    destruct (Qltb (h_score r) score_threshold) eqn:Hlow.
    { destruct (IH count (mkNodeAcc (na_nodes acc) (na_payloads acc) (na_total acc + 1)
                            (na_filtered acc + 1)))
        as (new & Hn & Hnd & Horig & Hlen & Hf & Ht). cbn zeta in *.
      cbn [na_nodes na_payloads na_total na_filtered] in *.
      exists new. split; [done|]. split; [done|]. split.
      - intros n Hin. destruct (Horig n Hin) as (r' & Hr' & Hrest). exists r'.
        split; [by right|done].
      - lia. }
    case_decide as Hseen.
    { destruct (IH count (mkNodeAcc (na_nodes acc) (na_payloads acc) (na_total acc + 1)
                            (na_filtered acc)))
        as (new & Hn & Hnd & Horig & Hlen & Hf & Ht). cbn zeta in *.
      cbn [na_nodes na_payloads na_total na_filtered] in *.
      exists new. split; [done|]. split; [done|]. split.
      - intros n Hin. destruct (Horig n Hin) as (r' & Hr' & Hrest). exists r'.
        split; [by right|done].
      - lia. }
    set (node := mkGNode (h_id r) (graph_label (h_payload r)) (rstrip_s collection)
                   collection (round_nd 4 (h_score r))
                   (Z.max 10 (Qtrunc (fmul (h_score r) 30)))).
    destruct (IH (count + 1)
                (mkNodeAcc (na_nodes acc ++ [node])
                   (<[h_id r := h_payload r]> (na_payloads acc)) (na_total acc + 1)
                   (na_filtered acc)))
      as (new & Hn & Hnd & Horig & Hlen & Hf & Ht). cbn zeta in *.
    cbn [na_nodes na_payloads na_total na_filtered] in *.
    exists (node :: new). split; [by rewrite Hn, <- app_assoc|]. split; [|split].
    + intros Hnd0. apply Hnd. rewrite map_app. cbn [map]. apply NoDup_app.
      split; [done|]. split; [|apply NoDup_singleton].
      intros x Hx Hx'. apply list_elem_of_singleton in Hx'. subst x. done.
    + intros n Hin. apply elem_of_cons in Hin as [->|Hin].
      * exists r. split; [left|]. cbn. split; [done|]. split; [done|].
        split; [by apply Qltb_le|]. split; [done|lia].
      * destruct (Horig n Hin) as (r' & Hr' & Hrest). exists r'. split; [by right|done].
    + cbn [length]. lia.
Qed.

Lemma graph_nodes_fold (results : odict (list Hit)) acc :
  let out := fold_left
               (fun acc kv =>
                  graph_nodes_of kv.1 score_threshold max_nodes_per_collection kv.2 0 acc)
               results acc in
  ∃ new,
    na_nodes out = na_nodes acc ++ new ∧
    (NoDup (map n_id (na_nodes acc)) → NoDup (map n_id (na_nodes out))) ∧
    (∀ n, n ∈ new →
          ∃ c hits r, (c, hits) ∈ results ∧ r ∈ hits ∧ n_id n = h_id r ∧
                      n_collection n = c ∧ (score_threshold <= h_score r)%Q ∧
                      n_score n = round_nd 4 (h_score r) ∧ 10 <= n_size n) ∧
    Z.of_nat (length new) <= Z.of_nat (length results) * Z.max 0 max_nodes_per_collection ∧
    na_filtered acc <= na_filtered out ∧
    (na_filtered out - na_filtered acc) + Z.of_nat (length new)
      <= na_total out - na_total acc.
Proof.
  revert acc. induction results as [|[c hits] results IH]; intros acc; cbn zeta;
    cbn [fold_left fst snd].
  - exists []. rewrite app_nil_r. split; [done|]. split; [done|].
    split; [intros n Hn; by apply elem_of_nil in Hn|]. cbn [length]. lia.
  - destruct (graph_nodes_of_spec c hits 0 acc) as (n1 & E1 & D1 & O1 & L1 & F1 & T1).
    cbn zeta in *.
    destruct (IH (graph_nodes_of c score_threshold max_nodes_per_collection hits 0 acc))
      as (n2 & E2 & D2 & O2 & L2 & F2 & T2). cbn zeta in *.
    exists (n1 ++ n2). split; [by rewrite E2, E1, <- app_assoc|]. split; [auto|]. split.
    + intros n Hin. apply elem_of_app in Hin as [Hin|Hin].
      * destruct (O1 n Hin) as (r & Hr & Hrest). exists c, hits, r. split; [left|done].
      * destruct (O2 n Hin) as (c' & hits' & r & Hc & Hrest). exists c', hits', r.
        split; [by right|done].
    + rewrite length_app. cbn [length]. lia.
Qed.

Lemma pairs_spec {A} (l : list A) :
  NoDup l →
  NoDup (pairs l) ∧
  (∀ x y, (x, y) ∈ pairs l → x ∈ l ∧ y ∈ l ∧ x ≠ y ∧ (y, x) ∉ pairs l) ∧
  (2 * length (pairs l) = length l * (length l - 1))%nat.
Proof.
  induction l as [|a l IH]; intros Hnd; cbn [pairs].
  - split; [constructor|]. split; [|done]. intros x y Hin. by apply elem_of_nil in Hin.
  - apply NoDup_cons in Hnd as [Ha Hnd]. destruct (IH Hnd) as (I1 & I2 & I3).
    assert (Hhead : ∀ x y, (x, y) ∈ map (fun y => (a, y)) l → x = a ∧ y ∈ l).
    { intros x y Hin. apply list_elem_of_fmap in Hin as (y' & [= -> ->] & Hy). done. }
    split; [|split].
    + apply NoDup_app. split; [|split; [|done]].
      * assert (Inj eq eq (fun y : A => (a, y))) by (intros y1 y2 [= ->]; done).
        by apply (NoDup_fmap_2 _).
      * intros [x y] Hin1 Hin2. apply Hhead in Hin1 as [-> _].
        apply I2 in Hin2 as (Hx & _). done.
    + intros x y Hin. apply elem_of_app in Hin as [Hin|Hin].
      * apply Hhead in Hin as [-> Hy]. split; [left|]. split; [by right|].
        split; [by intros ->|]. intros Hin. apply elem_of_app in Hin as [Hin|Hin].
        -- apply Hhead in Hin as [-> _]. done.
        -- apply I2 in Hin as (_ & Hx & _). done.
      * destruct (I2 x y Hin) as (Hx & Hy & Hne & Hrev). split; [by right|].
        split; [by right|]. split; [done|]. intros Hin'.
        apply elem_of_app in Hin' as [Hin'|Hin']; [|done].
        apply Hhead in Hin' as [-> _]. done.
    + rewrite length_app, length_map. cbn [length]. destruct l; cbn in *; lia.
Qed.

Lemma kept_edges_sublist (f : string * string → EdgeOutcome) (ps : list (string * string)) :
  (∀ p e, f p = EdgeKept e → (ed_source e, ed_target e) = p) →
  map (fun e => (ed_source e, ed_target e))
    (omap (fun o => if o is EdgeKept e then Some e else None) (map f ps))
  `sublist_of` ps.
Proof.
  intros Hf. induction ps as [|p ps IH]; [done|]. cbn [map omap].
  destruct (f p) as [| |e] eqn:Hp; cbn; try by apply sublist_cons.
  rewrite (Hf p e Hp). by apply sublist_skip.
Qed.

Lemma outcome_lengths (os : list EdgeOutcome) :
  (length (omap (fun o => if o is EdgeKept e then Some e else None) os)
   + length (omap (fun o => if o is EdgeFiltered then Some tt else None) os)
   <= length os)%nat.
Proof. induction os as [|[| |e] os IH]; cbn; lia. Qed.

(** The graph of [_build_graph] is a simple graph on results. Its nodes have
    distinct ids; each is made of a result of the collection it names, whose
    score reaches the score threshold, and has size at least 10; no more nodes
    are made than collections times [max_nodes_per_collection]. Each edge
    joins two different nodes, and no two edges join the same two nodes. The
    statistics count what the graph holds: the nodes, the edges, at most
    n(n-1)/2 pairs considered, and no more nodes and score rejections than
    candidates. *)
Theorem build_graph_shape (results : odict (list Hit)) :
  let g := _build_graph results score_threshold edge_threshold max_nodes_per_collection in
  let ids := map n_id (g_nodes g) in
  let ends := map (fun e => (ed_source e, ed_target e)) (g_edges g) in
  NoDup ids ∧
  (∀ n, n ∈ g_nodes g →
        ∃ c hits r, (c, hits) ∈ results ∧ r ∈ hits ∧ n_id n = h_id r ∧
                    n_collection n = c ∧ (score_threshold <= h_score r)%Q ∧
                    n_score n = round_nd 4 (h_score r) ∧ 10 <= n_size n) ∧
  Z.of_nat (length (g_nodes g))
    <= Z.of_nat (length results) * Z.max 0 max_nodes_per_collection ∧
  NoDup ends ∧
  (∀ a b, (a, b) ∈ ends → a ∈ ids ∧ b ∈ ids ∧ a ≠ b ∧ (b, a) ∉ ends) ∧
  nodes_included (g_stats g) = Z.of_nat (length (g_nodes g)) ∧
  edges_included (g_stats g) = Z.of_nat (length (g_edges g)) ∧
  0 <= edges_filtered (g_stats g) ∧
  2 * (edges_included (g_stats g) + edges_filtered (g_stats g))
    <= nodes_included (g_stats g) * (nodes_included (g_stats g) - 1) ∧
  0 <= filtered_by_score (g_stats g) ∧
  filtered_by_score (g_stats g) + nodes_included (g_stats g)
    <= total_candidates (g_stats g).
Proof.
  cbn zeta. unfold _build_graph.
  destruct (graph_nodes_fold results (mkNodeAcc [] ∅ 0 0))
    as (new & Hn & Hnd & Horig & Hlen & Hf & Ht). cbn zeta in *.
  set (acc := fold_left _ results _) in *.
  cbn [na_nodes na_total na_filtered app] in *.
  cbn [g_nodes g_edges g_stats nodes_included edges_included edges_filtered
       filtered_by_score total_candidates].
  rewrite Hn in *. specialize (Hnd (NoDup_nil_2)).
  destruct (pairs_spec (map n_id new) Hnd) as (P1 & P2 & P3).
  set (f := fun ij : string * string =>
              edge_between edge_threshold ij.1 ij.2
                (default empty_payload (na_payloads acc !! ij.1))
                (default empty_payload (na_payloads acc !! ij.2))).
  assert (Hsub : map (fun e => (ed_source e, ed_target e))
                   (omap (fun o => if o is EdgeKept e then Some e else None)
                      (map f (pairs (map n_id new))))
                 `sublist_of` pairs (map n_id new)).
  { apply kept_edges_sublist. intros [a b] e. unfold f, edge_between. cbn [fst snd].
    destruct (Qltb _ _); [done|]. destruct (relations_of _ _); [done|].
    by intros [= <-]. }
  pose proof (outcome_lengths (map f (pairs (map n_id new)))) as Hout.
  rewrite length_map in Hout. rewrite length_map in P3.
  split; [done|]. split; [done|]. split; [done|].
  split; [by eapply sublist_NoDup|]. split.
  { intros a b Hin. pose proof (sublist_submseteq _ _ Hsub) as Hms.
    pose proof (elem_of_submseteq _ _ _ Hin Hms) as Hp.
    destruct (P2 a b Hp) as (Ha & Hb & Hne & Hrev). split; [done|]. split; [done|].
    split; [done|]. intros Hin'. apply Hrev. by eapply elem_of_submseteq. }
  split; [done|]. split; [done|]. split; [lia|]. split; [|lia].
  fold f. nia.
Qed.

End GraphShape.

(** ** The edges of the neighbour graph *)

Lemma shared_length_comm (a b : list string) : length (shared a b) = length (shared b a).
Proof.
  apply Permutation_length, NoDup_Permutation; [apply shared_NoDup..|].
  intros x. rewrite !shared_spec. tauto.
Qed.

Lemma shared_counts_comm (pa pb : Payload) :
  shared_counts pa pb = shared_counts pb pa.
Proof.
  unfold shared_counts. f_equal; [f_equal|]; apply shared_length_comm.
Qed.

Lemma relation_of_category type w keep (a b : list string) :
  map (fun r => (rel_type r, rel_strength r)) (relation_of type (binary64 w) keep a b)
  = if length (shared a b) is O then [] else [(type, float_term w (length (shared a b)))].
Proof. unfold relation_of. by destruct (shared a b). Qed.

Lemma relations_of_categories (pi pj : Payload) :
  map (fun r => (rel_type r, rel_strength r)) (relations_of pi pj)
  = let '(g, d, p) := shared_counts pi pj in matched_categories g d p.
Proof.
  unfold relations_of, shared_counts, matched_categories.
  by rewrite !map_app, !relation_of_category.
Qed.

Lemma total_strength_categories (relations : list Relation) :
  total_strength relations
  = fold_left fadd (map snd (map (fun r => (rel_type r, rel_strength r)) relations)) 0%Q.
Proof.
  unfold total_strength. generalize 0%Q.
  induction relations as [|r rs IH]; intros t; [done|]. cbn. apply IH.
Qed.

Lemma edge_strength_spec (pi pj : Payload) :
  Qmin2 1 (total_strength (relations_of pi pj))
  = let '(g, d, p) := shared_counts pi pj in float_edge_strength g d p.
Proof.
  rewrite total_strength_categories, relations_of_categories.
  by destruct (shared_counts pi pj) as [[g d] p].
Qed.

(** What the edge loop does with one pair. *)
Lemma edge_between_spec (edge_threshold : Q) (a b : string) (pa pb : Payload) :
  let '(g, d, p) := shared_counts pa pb in
  let final := float_edge_strength g d p in
  let categories := matched_categories g d p in
  match edge_between edge_threshold a b pa pb with
  | EdgeFiltered => (final < edge_threshold)%Q
  | EdgeNone => (edge_threshold <= final)%Q ∧ categories = []
  | EdgeKept e =>
    (edge_threshold <= final)%Q ∧ categories ≠ [] ∧
    ed_source e = a ∧ ed_target e = b ∧
    ed_strength e = round_nd 4 final ∧
    ed_width e = Z.max 1 (Qtrunc (fmul final 5)) ∧
    map (fun r => (rel_type r, rel_strength r)) (ed_details e) = categories ∧
    ∃ t s, (t, s) ∈ categories ∧ ed_relation e = t ∧
           ∀ t' s', (t', s') ∈ categories → (s' <= s)%Q
  end.
Proof.
  pose proof (edge_strength_spec pa pb) as Hfinal.
  pose proof (relations_of_categories pa pb) as Hcats.
  destruct (shared_counts pa pb) as [[g d] p]. cbn zeta.
  unfold edge_between. rewrite Hfinal.
  destruct (Qltb _ edge_threshold) eqn:Hlt; [by apply Qltb_lt|].
  apply Qltb_le in Hlt.
  destruct (relations_of pa pb) as [|r rs] eqn:Hrels.
  { split; [done|]. by rewrite <- Hcats. }
  cbn [ed_source ed_target ed_strength ed_width ed_details ed_relation].
  split; [done|]. split; [by rewrite <- Hcats|]. do 4 (split; [done|]).
  split; [done|].
  destruct (max_relation_spec r rs) as [Hin Hmax].
  exists (rel_type (max_relation r rs)), (rel_strength (max_relation r rs)).
  split; [|split; [done|]].
  - rewrite <- Hcats.
    apply (list_elem_of_fmap_2 (fun r => (rel_type r, rel_strength r))) in Hin. exact Hin.
  - intros t' s' Hin'. rewrite <- Hcats in Hin'.
    apply list_elem_of_fmap in Hin' as (r' & [= -> ->] & Hr'). by apply Hmax.
Qed.

Lemma float_edge_strength_le_1 g d p : (float_edge_strength g d p <= 1)%Q.
Proof. apply Qmin2_le_l. Qed.

Lemma pairs_total {A} (l : list A) (a b : A) :
  a ∈ l → b ∈ l → a ≠ b → (a, b) ∈ pairs l ∨ (b, a) ∈ pairs l.
Proof.
  induction l as [|x l IH]; intros Ha Hb Hne; [by apply elem_of_nil in Ha|].
  cbn [pairs]. rewrite !elem_of_app.
  apply elem_of_cons in Ha as [->|Ha]; apply elem_of_cons in Hb as [->|Hb].
  - done.
  - left. left. by apply (list_elem_of_fmap_2 (fun y => (x, y))).
  - right. left. by apply (list_elem_of_fmap_2 (fun y => (x, y))).
  - destruct (IH Ha Hb Hne); [left|right]; by right.
Qed.

Lemma kept_edges_elem (f : string * string → EdgeOutcome) (ps : list (string * string))
    (e : GEdge) :
  e ∈ omap (fun o => if o is EdgeKept e then Some e else None) (map f ps)
  <-> ∃ p, p ∈ ps ∧ f p = EdgeKept e.
Proof.
  rewrite list_elem_of_omap. split.
  - intros (o & Ho & Hk). apply list_elem_of_fmap in Ho as (p & -> & Hp).
    exists p. split; [done|]. destruct (f p); by simplify_eq.
  - intros (p & Hp & Hk). exists (EdgeKept e). split; [|done].
    rewrite <- Hk. by apply (list_elem_of_fmap_2 f).
Qed.

Section GraphPayloads.
Variable score_threshold : Q.
Variable max_nodes_per_collection : Z.

Lemma graph_nodes_of_payloads collection items count acc :
  let out := graph_nodes_of collection score_threshold max_nodes_per_collection items
               count acc in
  (∀ id, id ∈ map n_id (na_nodes acc) → na_payloads out !! id = na_payloads acc !! id) ∧
  (∀ n, n ∈ na_nodes out →
        n ∈ na_nodes acc ∨
        ∃ r, r ∈ items ∧ h_id r = n_id n ∧
             na_payloads out !! n_id n = Some (h_payload r)).
Proof.
  revert count acc. induction items as [|r items IH]; intros count acc; cbn zeta;
    cbn [graph_nodes_of].
  - split; [done|]. intros n Hn. by left.
  - destruct (Z.leb_spec max_nodes_per_collection count) as [Hfull|Hroom].
    { split; [done|]. intros n Hn. by left. }
    cbn [na_nodes na_payloads na_total na_filtered].
    destruct (Qltb (h_score r) score_threshold) eqn:Hlow.
    { destruct (IH count (mkNodeAcc (na_nodes acc) (na_payloads acc) (na_total acc + 1)
                            (na_filtered acc + 1))) as (I1 & I2). cbn zeta in *.
      cbn [na_nodes na_payloads] in *. split; [done|].
      intros n Hn. destruct (I2 n Hn) as [?|(r' & Hr' & Hrest)]; [by left|].
      right. exists r'. split; [by right|done]. }
    case_decide as Hseen.
    { destruct (IH count (mkNodeAcc (na_nodes acc) (na_payloads acc) (na_total acc + 1)
                            (na_filtered acc))) as (I1 & I2). cbn zeta in *.
      cbn [na_nodes na_payloads] in *. split; [done|].
      intros n Hn. destruct (I2 n Hn) as [?|(r' & Hr' & Hrest)]; [by left|].
      right. exists r'. split; [by right|done]. }
    set (node := mkGNode (h_id r) (graph_label (h_payload r)) (rstrip_s collection)
                   collection (round_nd 4 (h_score r))
                   (Z.max 10 (Qtrunc (fmul (h_score r) 30)))).
    destruct (IH (count + 1)
                (mkNodeAcc (na_nodes acc ++ [node])
                   (<[h_id r := h_payload r]> (na_payloads acc)) (na_total acc + 1)
                   (na_filtered acc))) as (I1 & I2). cbn zeta in *.
    cbn [na_nodes na_payloads] in *.
    assert (Hnew : na_payloads
                     (graph_nodes_of collection score_threshold max_nodes_per_collection
                        items (count + 1)
                        (mkNodeAcc (na_nodes acc ++ [node])
                           (<[h_id r := h_payload r]> (na_payloads acc)) (na_total acc + 1)
                           (na_filtered acc))) !! h_id r = Some (h_payload r)).
    { rewrite I1; [by rewrite lookup_insert_eq|].
      rewrite map_app, elem_of_app. right. cbn. by left. }
    split.
    + intros id Hid. rewrite I1; [|rewrite map_app, elem_of_app; by left].
      rewrite lookup_insert_ne; [done|]. by intros <-.
    + intros n Hn. destruct (I2 n Hn) as [Hin|(r' & Hr' & Hrest)].
      * apply elem_of_app in Hin as [Hin|Hin]; [by left|].
        apply list_elem_of_singleton in Hin. subst n. right. exists r.
        split; [by left|]. split; [done|]. exact Hnew.
      * right. exists r'. split; [by right|done].
Qed.

Lemma graph_fold_payloads (results : odict (list Hit)) acc :
  let out := fold_left
               (fun acc kv =>
                  graph_nodes_of kv.1 score_threshold max_nodes_per_collection kv.2 0 acc)
               results acc in
  (∀ id, id ∈ map n_id (na_nodes acc) → na_payloads out !! id = na_payloads acc !! id) ∧
  (∀ n, n ∈ na_nodes out →
        n ∈ na_nodes acc ∨
        ∃ c hits r, (c, hits) ∈ results ∧ r ∈ hits ∧ h_id r = n_id n ∧
                    na_payloads out !! n_id n = Some (h_payload r)).
Proof.
  revert acc. induction results as [|[c hits] results IH]; intros acc; cbn zeta;
    cbn [fold_left fst snd].
  - split; [done|]. intros n Hn. by left.
  - destruct (graph_nodes_of_payloads c hits 0 acc) as (P1 & P2).
    destruct (graph_nodes_of_spec score_threshold max_nodes_per_collection c hits 0 acc)
      as (new & Hnodes & _).
    cbn zeta in *.
    destruct (IH (graph_nodes_of c score_threshold max_nodes_per_collection hits 0 acc))
      as (I1 & I2). cbn zeta in *.
    split.
    + intros id Hid. rewrite I1; [by apply P1|].
      rewrite Hnodes, map_app, elem_of_app. by left.
    + intros n Hn. destruct (I2 n Hn) as [Hin|(c' & hits' & r & Hc & Hrest)].
      * destruct (P2 n Hin) as [?|(r & Hr & Hid & Hp)]; [by left|].
        right. exists c, hits, r. split; [left|]. split; [done|]. split; [done|].
        rewrite I1; [done|]. by apply (list_elem_of_fmap_2 n_id).
      * right. exists c', hits', r. split; [by right|done].
Qed.

End GraphPayloads.

(** C9 (amended). Graph edge construction, with the strengths computed on
    floats. For
    every graph of [_build_graph] and every two different nodes [a] and [b] of
    it, whose payloads are those of the results they were made from: each
    category they share contributes [min(1, n x weight)], the product rounded
    to binary64, with weights 0.25 (genes), 0.3 (diseases) and 0.35
    (pathways); the contributions are summed in binary64 and capped at 1; an
    edge joins [a] and [b], in one direction or the other, iff this strength
    is not below the edge threshold and a category matched. An edge carries
    the strength rounded to 4 decimals, the matched categories with their
    strengths, and as relation a category of highest strength. Two nodes
    sharing exactly 2 genes and nothing else have strength 0.5: they are
    joined by an edge of strength 0.5 and relation [shared_genes] when the
    threshold is at most 0.5, as 0.4 is, and by none when it is above, as 0.6
    is. Three shared diseases and nothing else have a strength below the
    float 0.9. *)
Theorem graph_edge_rule (results : odict (list Hit)) (score_threshold edge_threshold : Q)
    (max_nodes_per_collection : Z) :
  let g := _build_graph results score_threshold edge_threshold max_nodes_per_collection in
  let ids := map n_id (g_nodes g) in
  let payload id :=
    default empty_payload
      (node_payloads results score_threshold max_nodes_per_collection !! id) in
  let categories a b :=
    let '(ng, nd, np) := shared_counts (payload a) (payload b) in
    matched_categories ng nd np in
  let strength a b :=
    let '(ng, nd, np) := shared_counts (payload a) (payload b) in
    float_edge_strength ng nd np in
  (∀ n, n ∈ g_nodes g →
        ∃ c hits r, (c, hits) ∈ results ∧ r ∈ hits ∧ h_id r = n_id n ∧
                    payload (n_id n) = h_payload r) ∧
  (∀ x y : list string, NoDup (shared x y) ∧ ∀ s, s ∈ shared x y <-> s ∈ x ∧ s ∈ y) ∧
  (∀ a b, strength a b = strength b a ∧ (strength a b <= 1)%Q) ∧
  (∀ a b, a ∈ ids → b ∈ ids → a ≠ b →
          ((∃ e, e ∈ g_edges g ∧ joins e a b) <->
           (edge_threshold <= strength a b)%Q ∧ categories a b ≠ [])) ∧
  (∀ e, e ∈ g_edges g →
        let a := ed_source e in
        let b := ed_target e in
        a ∈ ids ∧ b ∈ ids ∧ a ≠ b ∧
        ed_strength e = round_nd 4 (strength a b) ∧
        map (fun r => (rel_type r, rel_strength r)) (ed_details e) = categories a b ∧
        ∃ t s, (t, s) ∈ categories a b ∧ ed_relation e = t ∧
               ∀ t' s', (t', s') ∈ categories a b → (s' <= s)%Q) ∧
  (∀ a b, a ∈ ids → b ∈ ids → a ≠ b →
          shared_counts (payload a) (payload b) = (2, 0, 0)%nat →
          strength a b = (1 # 2)%Q ∧
          ((edge_threshold <= 1 # 2)%Q →
           ∃ e, e ∈ g_edges g ∧ joins e a b ∧ ed_strength e = (1 # 2)%Q ∧
                ed_relation e = "shared_genes") ∧
          ((1 # 2 < edge_threshold)%Q → ¬ ∃ e, e ∈ g_edges g ∧ joins e a b)) ∧
  (binary64 (4 # 10) <= 1 # 2)%Q ∧ (1 # 2 < binary64 (6 # 10))%Q ∧
  (float_edge_strength 0 3 0 < binary64 (9 # 10))%Q.
Proof.
  cbn zeta.
  set (payload := fun id =>
         default empty_payload
           (node_payloads results score_threshold max_nodes_per_collection !! id)).
  set (categories := fun a b =>
         let '(ng, nd, np) := shared_counts (payload a) (payload b) in
         matched_categories ng nd np).
  set (strength := fun a b =>
         let '(ng, nd, np) := shared_counts (payload a) (payload b) in
         float_edge_strength ng nd np).
  assert (Hsym : ∀ a b, strength a b = strength b a ∧ categories a b = categories b a).
  { intros a b. unfold strength, categories.
    by rewrite (shared_counts_comm (payload a) (payload b)). }
  unfold _build_graph. cbn [g_nodes g_edges].
  destruct (graph_nodes_fold score_threshold max_nodes_per_collection results
              (mkNodeAcc [] ∅ 0 0)) as (new & Hn & Hnd & _).
  destruct (graph_fold_payloads score_threshold max_nodes_per_collection results
              (mkNodeAcc [] ∅ 0 0)) as (_ & Hpay).
  cbn zeta in *. fold (node_payloads results score_threshold max_nodes_per_collection).
  set (acc := fold_left _ results _) in *.
  cbn [na_nodes app] in *. specialize (Hnd (NoDup_nil_2)).
  set (ids := map n_id (na_nodes acc)) in *.
  set (f := fun ij : string * string =>
              edge_between edge_threshold ij.1 ij.2
                (default empty_payload
                   (node_payloads results score_threshold max_nodes_per_collection !! ij.1))
                (default empty_payload
                   (node_payloads results score_threshold max_nodes_per_collection !! ij.2))).
  destruct (pairs_spec ids Hnd) as (_ & Ppairs & _).
  (* one pair of the loop *)
  assert (Hpair : ∀ a b,
            match f (a, b) with
            | EdgeFiltered => (strength a b < edge_threshold)%Q
            | EdgeNone => (edge_threshold <= strength a b)%Q ∧ categories a b = []
            | EdgeKept e =>
              (edge_threshold <= strength a b)%Q ∧ categories a b ≠ [] ∧
              ed_source e = a ∧ ed_target e = b ∧
              ed_strength e = round_nd 4 (strength a b) ∧
              map (fun r => (rel_type r, rel_strength r)) (ed_details e) = categories a b ∧
              ∃ t s, (t, s) ∈ categories a b ∧ ed_relation e = t ∧
                     ∀ t' s', (t', s') ∈ categories a b → (s' <= s)%Q
            end).
  { intros a b. unfold f, strength, categories. cbn [fst snd]. fold (payload a) (payload b).
    pose proof (edge_between_spec edge_threshold a b (payload a) (payload b)) as Hspec.
    destruct (shared_counts (payload a) (payload b)) as [[ng nd] np]. cbn zeta in Hspec.
    destruct (edge_between _ _ _ _ _) as [| |e]; [done|done|].
    destruct Hspec as (? & ? & ? & ? & ? & _ & ? & ?). done. }
  (* the pair of two nodes, in the order of the loop *)
  assert (Hjoin : ∀ a b, (a, b) ∈ pairs ids →
            ((∃ e, e ∈ omap (fun o => if o is EdgeKept e then Some e else None)
                         (map f (pairs ids)) ∧ joins e a b) <->
             (edge_threshold <= strength a b)%Q ∧ categories a b ≠ [])).
  { intros a b Hab. split.
    - intros (e & He & Hj). apply kept_edges_elem in He as ([x y] & Hxy & Hk).
      pose proof (Hpair x y) as Hp. rewrite Hk in Hp.
      destruct Hp as (Hle & Hne & Hs & Ht & _).
      destruct Hj as [[Ha Hb]|[Ha Hb]].
      + assert (Ex : x = a) by congruence. assert (Ey : y = b) by congruence.
        rewrite <- Ex, <- Ey. done.
      + assert (Ex : x = b) by congruence. assert (Ey : y = a) by congruence.
        rewrite Ex, Ey in Hxy. destruct (Ppairs a b Hab) as (_ & _ & _ & Hrev). done.
    - intros [Hle Hne]. pose proof (Hpair a b) as Hp.
      destruct (f (a, b)) as [| |e] eqn:Hk.
      + exfalso. eapply Qlt_irrefl, Qlt_le_trans; [exact Hp|exact Hle].
      + by destruct Hp.
      + exists e. split; [apply kept_edges_elem; by exists (a, b)|].
        left. by destruct Hp as (_ & _ & ? & ? & _). }
  assert (Hjoins_sym : ∀ e a b, joins e a b <-> joins e b a).
  { intros e a b. unfold joins. tauto. }
  assert (Hiff : ∀ a b, a ∈ ids → b ∈ ids → a ≠ b →
            ((∃ e, e ∈ omap (fun o => if o is EdgeKept e then Some e else None)
                         (map f (pairs ids)) ∧ joins e a b) <->
             (edge_threshold <= strength a b)%Q ∧ categories a b ≠ [])).
  { intros a b Ha Hb Hne. destruct (pairs_total ids a b Ha Hb Hne) as [Hab|Hba].
    - by apply Hjoin.
    - destruct (Hsym a b) as [-> ->]. rewrite <- (Hjoin b a Hba).
      split; intros (e & He & Hj); exists e; (split; [done|]); by apply Hjoins_sym. }
  split.
  { intros n Hin. destruct (Hpay n Hin) as [Hnil|(c & hits & r & Hc & Hr & Hid & Hp)].
    - by apply elem_of_nil in Hnil.
    - exists c, hits, r. split; [done|]. split; [done|]. split; [done|].
      unfold payload, node_payloads. fold acc. by rewrite Hp. }
  split; [intros x y; split; [apply shared_NoDup|intros s; apply shared_spec]|].
  split.
  { intros a b. split; [apply Hsym|]. unfold strength.
    destruct (shared_counts _ _) as [[ng nd] np]. apply float_edge_strength_le_1. }
  split; [exact Hiff|].
  split.
  { intros e He. cbn zeta. apply kept_edges_elem in He as ([x y] & Hxy & Hk).
    pose proof (Hpair x y) as Hp. rewrite Hk in Hp.
    destruct Hp as (Hle & Hne & Hs & Ht & Hstr & Hdet & Hrel).
    destruct (Ppairs x y Hxy) as (Hx & Hy & Hxy' & _).
    rewrite Hs, Ht. done. }
  split; [|split; [by vm_compute|split; by vm_compute]].
  intros a b Ha Hb Hne Hcounts.
  assert (Hstr : strength a b = (1 # 2)%Q).
  { unfold strength. rewrite Hcounts. by vm_compute. }
  assert (Hcat : categories a b = [("shared_genes", (1 # 2)%Q)]).
  { unfold categories. rewrite Hcounts. by vm_compute. }
  split; [done|]. split.
  - intros Hle. destruct (proj2 (Hiff a b Ha Hb Hne)) as (e & He & Hj).
    { rewrite Hstr, Hcat. done. }
    exists e. split; [done|]. split; [done|].
    apply kept_edges_elem in He as ([x y] & Hxy & Hk).
    pose proof (Hpair x y) as Hp. rewrite Hk in Hp.
    destruct Hp as (_ & _ & Hs & Ht & Hst & _ & (t & s & Hin & Hrel & _)).
    assert (Hxy' : strength x y = (1 # 2)%Q ∧ categories x y = [("shared_genes", (1 # 2)%Q)]).
    { destruct Hj as [[H1 H2]|[H1 H2]].
      - assert (Ex : x = a) by congruence. assert (Ey : y = b) by congruence.
        by rewrite Ex, Ey.
      - assert (Ex : x = b) by congruence. assert (Ey : y = a) by congruence.
        rewrite Ex, Ey. by destruct (Hsym a b) as [<- <-]. }
    destruct Hxy' as [Hs2 Hc2]. rewrite Hs2 in Hst. rewrite Hc2 in Hin.
    apply list_elem_of_singleton in Hin as [= -> ->]. split; [|done].
    rewrite Hst. by vm_compute.
  - intros Hlt Hex. apply (Hiff a b Ha Hb Hne) in Hex as [Hle _].
    rewrite Hstr in Hle. eapply Qlt_irrefl, Qlt_le_trans; [exact Hlt|exact Hle].
Qed.

(** On two results that share exactly the genes TP53 and BRCA1, the graph has
    one edge, of strength 0.5 and relation [shared_genes], at threshold 0.4,
    and none at threshold 0.6. *)
Lemma graph_edge_rule_witness :
  (∃ e, e ∈ g_edges (_build_graph demo_reranked (5 # 10) (binary64 (4 # 10)) 5) ∧
        joins e "p1" "p2" ∧ ed_strength e = (1 # 2)%Q ∧ ed_relation e = "shared_genes") ∧
  ¬ ∃ e, e ∈ g_edges (_build_graph demo_reranked (5 # 10) (binary64 (6 # 10)) 5) ∧
         joins e "p1" "p2".
Proof.
  split.
  - destruct (graph_edge_rule demo_reranked (5 # 10) (binary64 (4 # 10)) 5)
      as (_ & _ & _ & _ & _ & Htwo & H4 & _).
    destruct (Htwo "p1" "p2") as (_ & Hkept & _);
      [apply list_elem_of_In; vm_compute; tauto|apply list_elem_of_In; vm_compute; tauto
      |done|by vm_compute|].
    by apply Hkept.
  - destruct (graph_edge_rule demo_reranked (5 # 10) (binary64 (6 # 10)) 5)
      as (_ & _ & _ & _ & _ & Htwo & _ & H6).
    destruct (Htwo "p1" "p2") as (_ & _ & Hnone);
      [apply list_elem_of_In; vm_compute; tauto|apply list_elem_of_In; vm_compute; tauto
      |done|by vm_compute|].
    by apply Hnone.
Defined.

(** The strength of three shared diseases is 0.9 by the formula of the
    specification, and the threshold 0.9 does not exceed it; computed on
    floats, [3 * 0.3] is 0.8999999999999999, below the float 0.9, and the edge
    is filtered. *)
Lemma edge_below_its_exact_strength :
  let g := _build_graph demo_three_diseases (5 # 10) (binary64 (9 # 10)) 5 in
  map n_id (g_nodes g) = ["a1"; "a2"] ∧
  shared_counts
    (default empty_payload (node_payloads demo_three_diseases (5 # 10) 5 !! "a1"))
    (default empty_payload (node_payloads demo_three_diseases (5 # 10) 5 !! "a2"))
  = (0, 3, 0)%nat ∧
  (spec_edge_strength 0 3 0 == 9 # 10)%Q ∧
  (9 # 10 <= spec_edge_strength 0 3 0)%Q ∧
  (float_edge_strength 0 3 0 < binary64 (9 # 10))%Q ∧
  g_edges g = [] ∧
  edges_filtered (g_stats g) = 1.
Proof. vm_compute. repeat split; try done. Qed.


(** ** The sparse vector of the user's text *)

Section SparseKey.
Context `{Services}.

Lemma text_step_sparse text now acc w acc' w' k :
  encode_text_step text now acc w = (Ok acc', w') → k ≠ "text_sparse" →
  a_sparse_vectors acc' !! k = a_sparse_vectors acc !! k.
Proof.
  unfold encode_text_step, encode_text_miss, bind, try_except, call, ret, emit,
    cache_get_embedding, cache_set_embedding.
  intros Hrun Hk. repeat case_match; simplify_eq; cbn; by rewrite lookup_insert_ne.
Qed.

Lemma sequence_step_sparse text now acc w acc' w' :
  encode_sequence_step text now acc w = (Ok acc', w') →
  a_sparse_vectors acc' = a_sparse_vectors acc.
Proof.
  unfold encode_sequence_step, bind, try_except, call, ret, emit,
    cache_get_embedding, cache_set_embedding.
  intros Hrun. repeat case_match; simplify_eq; done.
Qed.

Lemma guarded_step_sparse modality prefix failed path encoder now acc w acc' w' :
  encode_guarded_step modality prefix failed path encoder now acc w = (Ok acc', w') →
  a_sparse_vectors acc' = a_sparse_vectors acc.
Proof.
  unfold encode_guarded_step, bind, try_except, call, ret, emit,
    cache_get_embedding, cache_set_embedding.
  intros Hrun. repeat case_match; simplify_eq; done.
Qed.

Lemma node_encode_sparse_key now s w s1 w1 k :
  node_encode now s w = (Ok s1, w1) → k ≠ "text_sparse" → sparse_vectors s1 !! k = None.
Proof.
  unfold node_encode. rewrite bind_run.
  destruct (when_ _ _ _ _ w) as [[acc1|e] wa] eqn:H1; [|discriminate].
  rewrite bind_run. destruct (when_ _ _ _ _ wa) as [[acc2|e] wb] eqn:H2; [|discriminate].
  rewrite bind_run. destruct (when_ _ _ _ _ wb) as [[acc3|e] wc] eqn:H3; [|discriminate].
  rewrite bind_run. destruct (when_ _ _ _ _ wc) as [[acc4|e] wd] eqn:H4; [|discriminate].
  destruct (classify _ _) as [[it sc] pm]. intros [= <- <-] Hk. cbn.
  assert (E4 : a_sparse_vectors acc4 = a_sparse_vectors acc3).
  { unfold when_, encode_structure_step in H4. repeat case_match; unfold ret in *; simplify_eq; try done.
    by eapply guarded_step_sparse. }
  assert (E3 : a_sparse_vectors acc3 = a_sparse_vectors acc2).
  { unfold when_, encode_image_step in H3. repeat case_match; unfold ret in *; simplify_eq; try done.
    by eapply guarded_step_sparse. }
  assert (E2 : a_sparse_vectors acc2 = a_sparse_vectors acc1).
  { unfold when_ in H2. repeat case_match; unfold ret in *; simplify_eq; try done.
    by eapply sequence_step_sparse. }
  rewrite E4, E3, E2. unfold when_ in H1.
  repeat case_match; unfold ret in *; simplify_eq; try done.
  erewrite text_step_sparse; [|done..]. done.
Qed.

End SparseKey.

Section Cas3UserText.
Context `{Services}.

(** Phase 3 of CAS 3 for a collection that the Bridge gives no query of its
    own: the user's text vector of Stage 1 is reused without any encoder
    call, and the search is the dense one, never a fusion query, because
    Stage 1 keeps the sparse vector of the text under "text_sparse" while
    Phase 3 looks it up under "text". The gene filter and the retry without
    filter are those of CAS 2. *)
Theorem cas3_user_text_is_dense (now : Q) (s0 s : GraphState) (w0 w1 w : World)
    (bridge : BridgeOutput) (collection : string) :
  node_encode now s0 w0 = (Ok s, w1) →
  Some (cas3_query_text s bridge collection) = input_text s →
  let text_vec := default [] (vectors s !! "text") in
  let flt := gene_filter s (b_filters bridge) collection in
  let limit := top_k s * 2 in
  ∃ evs,
    phase3_cas3_body s bridge collection w =
      (Ok (map (set_collection collection)
             (filtered_or_retried collection text_vec limit flt)), w_log w evs) ∧
    encode_calls evs = [] ∧
    store_fusions evs = [] ∧
    store_queries evs =
      (collection, vec_name_of collection, text_vec, limit, flt) ::
      match search_hits collection text_vec (vec_name_of collection) limit flt, flt with
      | [], Some _ => [(collection, vec_name_of collection, text_vec, limit, None)]
      | _, _ => []
      end.
Proof.
  intros Henc Hq text_vec flt limit.
  assert (Hsp : sparse_vectors s !! "text" = None).
  { by eapply node_encode_sparse_key. }
  assert (Hbuild : _build_filter flt = flt).
  { unfold flt. destruct (gene_filter_cases s (b_filters bridge) collection)
      as [(-> & _ & Hg & _)|(-> & _)]; [|done].
    cbn. done. }
  destruct (store_queries_search_events collection text_vec (vec_name_of collection)
              limit flt) as (Hq1 & Hf1 & _ & He1).
  destruct (store_queries_search_events collection text_vec (vec_name_of collection)
              limit None) as (Hq2 & Hf2 & _ & He2).
  rewrite Hbuild in Hq1. change (_build_filter None) with (@None filter_dict) in Hq2.
  unfold phase3_cas3_body, cas3_query_vectors. rewrite decide_True by done.
  rewrite bind_run. cbn [ret fst snd]. rewrite Hsp. cbn [fmap option_fmap option_map].
  rewrite bind_run. unfold cas3_hybrid_or_dense, try_except. cbn [sparse_dict].
  rewrite vector_search_run. fold text_vec flt limit.
  rewrite bind_run. unfold retry_unfiltered, filtered_or_retried.
  destruct (search_hits collection text_vec (vec_name_of collection) limit flt)
    as [|r rs] eqn:Hfirst.
  - destruct flt as [f|] eqn:Hf.
    + rewrite vector_search_run, w_log_app. cbn [ret]. eexists. split; [reflexivity|].
      rewrite encode_calls_app, store_fusions_app, store_queries_app, Hq1, Hq2, Hf1, Hf2,
        He1, He2. done.
    + cbn [ret]. eexists. split; [reflexivity|]. by rewrite Hq1, Hf1, He1.
  - cbn [ret]. eexists. split; [reflexivity|]. rewrite Hq1, Hf1, He1. by destruct flt.
Qed.

End Cas3UserText.

Lemma cas3_user_text_is_dense_witness :
  ∃ s w1 evs,
    @node_encode demo_services 0 (@initial_state demo_services demo_text_sequence_request)
      demo_world = (Ok s, w1) ∧
    (@phase3_cas3_body demo_services s demo_gene_bridge "experiments" w1).2 = w_log w1 evs ∧
    store_fusions evs = [] ∧ encode_calls evs = [].
Proof.
  assert (Henc : ∃ s w1,
             @node_encode demo_services 0
               (@initial_state demo_services demo_text_sequence_request) demo_world
             = (Ok s, w1) ∧
             input_text s = Some "p53 tumor suppressor").
  { vm_compute. eexists _, _. split; reflexivity. }
  destruct Henc as (s & w1 & Henc & Htext).
  destruct (@cas3_user_text_is_dense demo_services 0 _ s demo_world w1 w1 demo_gene_bridge
              "experiments" Henc) as (evs & Hrun & He & Hf & _).
  - unfold cas3_query_text. rewrite Htext. reflexivity.
  - exists s, w1, evs. split; [exact Henc|]. rewrite Hrun. split; [reflexivity|].
    split; [exact Hf|exact He].
Defined.

(** ** The metadata handed to the Bridge *)

Lemma str_take_length (n : nat) (s : string) : (String.length (str_take n s) <= n)%nat.
Proof.
  unfold str_take. revert n. induction s as [|c s IH]; intros [|n]; cbn; try lia.
  specialize (IH n). lia.
Qed.

Lemma genes_bound (own bridge_genes : list string) :
  (length own <= 5)%nat →
  (length (match own with [] => take 5 bridge_genes | _ => own end) <= 5)%nat.
Proof. destruct own; [rewrite length_take; lia|done]. Qed.

(** [extract_metadata_for_bridge] describes the first five results, in their
    order, one item each. An item carries the score rounded to three decimals
    and the collection, at most five genes, three diseases and three
    pathways, and texts of at most 200 characters; its name is cut to 100
    characters unless it is a protein name, which is kept whole. *)
Theorem bridge_metadata_bounds (results : list Hit) :
  length (extract_metadata_for_bridge results) = Nat.min 5 (length results) ∧
  ∀ i item,
    extract_metadata_for_bridge results !! i = Some item →
    ∃ r, results !! i = Some r ∧ (i < 5)%nat ∧
         m_score item = round_nd 3 (h_score r) ∧
         m_collection item = default "unknown" (h_collection r) ∧
         (length (m_genes item) <= 5)%nat ∧
         (length (m_diseases item) <= 3)%nat ∧
         (length (m_pathways item) <= 3)%nat ∧
         (∀ t, m_function item = Some t ∨ m_abstract item = Some t ∨
               m_description item = Some t → (String.length t <= 200)%nat) ∧
         (∀ n, m_name item = Some n →
               p_protein_name (h_payload r) = Some n ∨ (String.length n <= 100)%nat).
Proof.
  unfold extract_metadata_for_bridge. split; [by rewrite length_map, length_take|].
  intros i item Hi. rewrite list_lookup_fmap in Hi.
  destruct (take 5 results !! i) as [r|] eqn:Hr; [|done]. injection Hi as <-.
  apply lookup_take_Some in Hr as [Hr Hlt]. exists r. split; [done|]. split; [done|].
  unfold extract_item.
  destruct (p_protein_name (h_payload r)) as [pn|] eqn:Hpn;
    [|destruct (p_title (h_payload r)) as [ti|] eqn:Hti;
      [|destruct (p_caption (h_payload r)) as [ca|] eqn:Hca]];
    cbn [m_score m_collection m_genes m_diseases m_pathways m_function m_abstract
         m_description m_name].
  all: split; [done|]; split; [done|].
  all: split; [first [apply genes_bound|idtac]; rewrite ?length_take; cbn [length]; lia|].
  all: split; [rewrite length_take; lia|]; split; [rewrite length_take; lia|].
  all: split;
    [intros t [Ht|[Ht|Ht]]; try discriminate; injection Ht as <-; apply str_take_length|].
  all: intros n Hn; try discriminate; injection Hn as <-; first [by left|right; apply str_take_length].
Qed.

(** ** [merge_results] *)

Section MergeResults.










End MergeResults.

(** ** The text embedding between two requests *)

Section TextCache.
Context `{Services}.

Lemma text_step_first text now acc w acc' w' :
  permanent (emb w) → 1 <= Cache.max_size (emb w) →
  encode_text_step text now acc w = (Ok acc', w') →
  ∃ e hit, entry_truthy e = true ∧ holds (emb w') (text_cache_key text) e 0 ∧
           acc' = text_acc acc e hit.
Proof.
  intros Hp H1. unfold encode_text_step. unfold bind at 1.
  destruct (cache_get_run (String.append "text:" (sha256_hex16 text)) now w)
    as (wg & -> & He & Ht).
  fold (text_cache_key text) in *.
  assert (Hpg : permanent (emb wg)) by (rewrite He; by apply permanent_get).
  assert (Hmg : 1 <= Cache.max_size (emb wg)) by (by rewrite He, get_max_size).
  assert (Hmiss : encode_text_miss text (String.append "text:" (sha256_hex16 text)) now acc wg
                  = (Ok acc', w') →
                  ∃ e hit, entry_truthy e = true ∧ holds (emb w') (text_cache_key text) e 0 ∧
                           acc' = text_acc acc e hit).
  { unfold encode_text_miss. rewrite bind_run. unfold call at 1.
    destruct (encode_text text) as [v|err]; [|discriminate]. cbn [fst snd].
    rewrite bind_run.
    set (w1 := mkWorld (w_cache wg) (w_trace wg ++ [EncodeCall "text" text])).
    destruct (try_except _ _ w1) as [[sp|err] w2] eqn:Hsp; [|discriminate].
    assert (Hc2 : w_cache w2 = w_cache wg).
    { revert Hsp. unfold try_except, bind, call, emit, ret.
      destruct (encode_sparse text); intros [= _ <-]; done. }
    rewrite bind_run.
    destruct (try_except _ _ w2) as [[cs|err] w3] eqn:Hcs; [|discriminate].
    assert (Hc3 : w_cache w3 = w_cache wg).
    { revert Hcs. unfold try_except, call, ret.
      destruct (extract_concepts text); intros [= _ <-]; done. }
    rewrite bind_run.
    destruct (cache_set_run (String.append "text:" (sha256_hex16 text))
                (mkEmbEntry (Some v) (Some sp) (Some cs)) now w3) as (ws & -> & Hes & Hts).
    fold (text_cache_key text) in *.
    assert (Hemb : emb w3 = emb wg) by (unfold emb; by rewrite Hc3).
    rewrite Hemb in *. destruct Hpg as (Hwf & Hd & Httl).
    destruct (set_max_size (emb wg) (text_cache_key text)
                (mkEmbEntry (Some v) (Some sp) (Some cs)) None now Hwf) as [-> Hms]; [lia|].
    destruct (permanent_set (emb wg) (text_cache_key text)
                (mkEmbEntry (Some v) (Some sp) (Some cs)) now) as [_ Hh]; [done|lia|].
    intros [= <- <-]. exists (mkEmbEntry (Some v) (Some sp) (Some cs)), false.
    split; [done|]. split; [by rewrite Hes|done]. }
  unfold usable.
  destruct (Cache.get (emb w) (text_cache_key text) now).1 as [e0|] eqn:Hg;
    [destruct (entry_truthy e0) eqn:Htruthy|]; try exact Hmiss.
  intros [= <- <-]. exists e0, true. split; [done|].
  apply get_Some_inv in Hg as Hod. destruct Hp as (Hwf & Hd & Httl).
  destruct (get_found (emb w) (text_cache_key text) e0 now Hwf Hd (Httl _) Hod) as [_ Hh].
  split; [by rewrite He|done].
Qed.

Lemma text_step_second text now acc e n w :
  entry_truthy e = true → holds (emb w) (text_cache_key text) e n →
  ∃ w', encode_text_step text now acc w = (Ok (text_acc acc e true), w') ∧
        w_trace w' = w_trace w ∧ holds (emb w') (text_cache_key text) e 0.
Proof.
  intros Htruthy Hh. unfold encode_text_step. unfold bind at 1.
  destruct (cache_get_run (String.append "text:" (sha256_hex16 text)) now w)
    as (wg & -> & He & Ht).
  fold (text_cache_key text) in *.
  destruct (holds_get_same _ _ _ _ now Hh) as [-> Hh'].
  unfold usable. rewrite Htruthy. exists wg. split; [done|]. split; [done|]. by rewrite He.
Qed.

Lemma node_encode_text_only now s w text :
  input_text s = Some text → detect_text s = true → detect_sequence s = false →
  detect_image s = false → detect_structure s = false →
  node_encode now s w =
    match encode_text_step text now (mkEncodeAcc ∅ ∅ [] ∅) w with
    | (Ok acc, w') =>
      (Ok (update_encode s "text_only" 1 true false PrimaryNone [] (a_vectors acc)
             (a_sparse_vectors acc) (a_concepts acc) (a_cache_hits acc)), w')
    | (Raise e, w') => (Raise e, w')
    end.
Proof.
  intros Ht Hdt Hds Hdi Hdst. unfold node_encode, detect_modalities.
  rewrite Ht, Hdt, Hds, Hdi, Hdst. rewrite bind_run. cbn [when_].
  destruct (encode_text_step _ _ _ _) as [[acc|e] w']; done.
Qed.

(** A text-only request that is repeated finds its embedding in the cache:
    on the world that the first Stage 1 left, Stage 1 of the second request
    calls no encoder and records nothing, marks the text as a cache hit, and
    holds the same dense vector, sparse vector and concepts as the first. *)
Theorem text_embedding_round_trip (now now' : Q) (s s1 : GraphState) (w w1 : World) :
  permanent (emb w) → 1 <= Cache.max_size (emb w) →
  detect_text s = true → detect_sequence s = false →
  detect_image s = false → detect_structure s = false →
  node_encode now s w = (Ok s1, w1) →
  ∃ s2 w2,
    node_encode now' s w1 = (Ok s2, w2) ∧
    w_trace w2 = w_trace w1 ∧
    cache_hits s2 !! "text" = Some true ∧
    vectors s2 = vectors s1 ∧
    sparse_vectors s2 = sparse_vectors s1 ∧
    concepts s2 = concepts s1.
Proof.
  intros Hp H1 Hdt Hds Hdi Hdst Hrun.
  assert (∃ text, input_text s = Some text) as [text Ht].
  { unfold detect_text in Hdt. destruct (input_text s); [eauto|done]. }
  rewrite (node_encode_text_only now s w text) in Hrun by done.
  destruct (encode_text_step text now _ w) as [[acc|e] w'] eqn:Hstep; [|done].
  injection Hrun as <- <-.
  destruct (text_step_first _ _ _ _ _ _ Hp H1 Hstep) as (e & hit & Htruthy & Hh & ->).
  destruct (text_step_second text now' (mkEncodeAcc ∅ ∅ [] ∅) e 0 w' Htruthy Hh)
    as (w2 & Hstep2 & Htr & _).
  rewrite (node_encode_text_only now' s w' text) by done. rewrite Hstep2.
  eexists _, w2. split; [reflexivity|]. split; [done|]. cbn.
  split; [by rewrite lookup_insert_eq|]. done.
Qed.

End TextCache.

Lemma text_embedding_round_trip_witness :
  ∃ s1 w1 s2 w2,
    @node_encode demo_services 0 demo_text_initial demo_world = (Ok s1, w1) ∧
    @node_encode demo_services 1 demo_text_initial w1 = (Ok s2, w2) ∧
    w_trace w2 = w_trace w1 ∧ vectors s2 = vectors s1.
Proof.
  assert (Henc : ∃ s1 w1,
             @node_encode demo_services 0 demo_text_initial demo_world = (Ok s1, w1)).
  { vm_compute. eexists _, _. reflexivity. }
  destruct Henc as (s1 & w1 & Henc).
  destruct (@text_embedding_round_trip demo_services 0 1 demo_text_initial s1 demo_world w1)
    as (s2 & w2 & Hrun & Htr & _ & Hv & _);
    [apply mlc_init_permanent | vm_compute; discriminate | reflexivity | reflexivity
    | reflexivity | reflexivity | exact Henc |].
  exists s1, w1, s2, w2. split; [exact Henc|]. split; [exact Hrun|]. split; [exact Htr|exact Hv].
Defined.

(** ** What Stage 1 leaves in the state *)

Section Stage1State.
Context `{Services}.

Lemma text_step_writes text now acc w acc' w' :
  encode_text_step text now acc w = (Ok acc', w') →
  ∃ v hit, a_vectors acc' = <["text" := v]> (a_vectors acc) ∧
           a_cache_hits acc' = <["text" := hit]> (a_cache_hits acc).
Proof.
  unfold encode_text_step, encode_text_miss, bind, try_except, call, ret, emit,
    cache_get_embedding, cache_set_embedding.
  intros Hrun. repeat case_match; simplify_eq; cbn; eauto.
Qed.

Lemma sequence_step_writes seq now acc w acc' w' :
  encode_sequence_step seq now acc w = (Ok acc', w') →
  ∃ v hit, a_vectors acc' = <["sequence" := v]> (a_vectors acc) ∧
           a_cache_hits acc' = <["sequence" := hit]> (a_cache_hits acc).
Proof.
  unfold encode_sequence_step, bind, try_except, call, ret, emit,
    cache_get_embedding, cache_set_embedding.
  intros Hrun. repeat case_match; simplify_eq; cbn; eauto.
Qed.

Lemma guarded_step_writes modality prefix failed path encoder now acc w acc' w' :
  encode_guarded_step modality prefix failed path encoder now acc w = (Ok acc', w') →
  ∃ hit, ((∃ v, a_vectors acc' = <[modality := v]> (a_vectors acc)) ∨
          a_vectors acc' = a_vectors acc) ∧
         a_cache_hits acc' = <[modality := hit]> (a_cache_hits acc).
Proof.
  unfold encode_guarded_step, bind, try_except, call, ret, emit,
    cache_get_embedding, cache_set_embedding.
  intros Hrun. repeat case_match; simplify_eq; cbn; eauto.
Qed.

(** Stage 1, whenever it returns. The state holds a text vector exactly when
    text was detected, and a sequence vector exactly when a sequence was;
    an image or structure vector only when one was detected, but not always
    then, as their encoding may fail; and no other vector. The cache-hit
    dictionary has an entry for every detected input, encoded or not. The
    search case is 1 without modality, 2 with modalities and no text, 3 with
    both. *)
Theorem stage1_state (now : Q) (s s1 : GraphState) (w w1 : World) :
  node_encode now s w = (Ok s1, w1) →
  (is_Some (vectors s1 !! "text") <-> detect_text s = true) ∧
  (is_Some (vectors s1 !! "sequence") <-> detect_sequence s = true) ∧
  (is_Some (vectors s1 !! "image") → detect_image s = true) ∧
  (is_Some (vectors s1 !! "structure") → detect_structure s = true) ∧
  (∀ m, is_Some (vectors s1 !! m) → m ∈ ["text"; "sequence"; "image"; "structure"]) ∧
  (∀ m, is_Some (cache_hits s1 !! m) <->
        (m = "text" ∧ detect_text s = true) ∨ m ∈ modalities s1) ∧
  modalities s1 = detect_modalities s ∧
  has_text s1 = detect_text s ∧
  (search_case s1 = 1 <-> modalities s1 = []) ∧
  (search_case s1 = 2 <-> modalities s1 ≠ [] ∧ detect_text s = false) ∧
  (search_case s1 = 3 <-> modalities s1 ≠ [] ∧ detect_text s = true).
Proof.
  intros Hrun. pose proof (node_encode_classify _ _ _ _ _ Hrun) as (Hcl & Hmods & _).
  revert Hrun. unfold node_encode. rewrite bind_run.
  destruct (when_ _ _ _ _ w) as [[acc1|e] wa] eqn:H1; [|discriminate].
  rewrite bind_run. destruct (when_ _ _ _ _ wa) as [[acc2|e] wb] eqn:H2; [|discriminate].
  rewrite bind_run. destruct (when_ _ _ _ _ wb) as [[acc3|e] wc] eqn:H3; [|discriminate].
  rewrite bind_run. destruct (when_ _ _ _ _ wc) as [[acc4|e] wd] eqn:H4; [|discriminate].
  destruct (classify _ _) as [[it sc] pm] eqn:Hclass. intros [= <- <-].
  cbn [vectors cache_hits modalities has_text search_case update_encode] in *.
  assert (Htext_in : detect_text s = true → ∃ t, input_text s = Some t).
  { unfold detect_text. destruct (input_text s); [eauto|done]. }
  assert (Hseq_in : detect_sequence s = true → ∃ t, input_sequence s = Some t).
  { unfold detect_sequence. destruct (input_sequence s); [eauto|done]. }
  assert (Himg_in : detect_image s = true → ∃ t, input_image_path s = Some t).
  { unfold detect_image, truthy. destruct (input_image_path s); [eauto|done]. }
  assert (Hstr_in : detect_structure s = true → ∃ t, input_structure_path s = Some t).
  { unfold detect_structure, truthy. destruct (input_structure_path s); [eauto|done]. }
  assert (E1 : if detect_text s
               then ∃ v hit, a_vectors acc1 = <["text" := v]> ∅ ∧
                             a_cache_hits acc1 = <["text" := hit]> ∅
               else a_vectors acc1 = ∅ ∧ a_cache_hits acc1 = ∅).
  { unfold when_ in H1. destruct (detect_text s) eqn:Hd.
    - destruct (Htext_in eq_refl) as [t Ht]. rewrite Ht in H1.
      by apply text_step_writes in H1.
    - unfold ret in H1. by simplify_eq. }
  assert (E2 : if detect_sequence s
               then ∃ v hit, a_vectors acc2 = <["sequence" := v]> (a_vectors acc1) ∧
                             a_cache_hits acc2 = <["sequence" := hit]> (a_cache_hits acc1)
               else a_vectors acc2 = a_vectors acc1 ∧ a_cache_hits acc2 = a_cache_hits acc1).
  { unfold when_ in H2. destruct (detect_sequence s) eqn:Hd.
    - destruct (Hseq_in eq_refl) as [t Ht]. rewrite Ht in H2.
      by apply sequence_step_writes in H2.
    - unfold ret in H2. by simplify_eq. }
  assert (E3 : if detect_image s
               then ∃ hit, ((∃ v, a_vectors acc3 = <["image" := v]> (a_vectors acc2)) ∨
                            a_vectors acc3 = a_vectors acc2) ∧
                           a_cache_hits acc3 = <["image" := hit]> (a_cache_hits acc2)
               else a_vectors acc3 = a_vectors acc2 ∧ a_cache_hits acc3 = a_cache_hits acc2).
  { unfold when_, encode_image_step in H3. destruct (detect_image s) eqn:Hd.
    - destruct (Himg_in eq_refl) as [t Ht]. rewrite Ht in H3.
      by apply guarded_step_writes in H3.
    - unfold ret in H3. by simplify_eq. }
  assert (E4 : if detect_structure s
               then ∃ hit, ((∃ v, a_vectors acc4 = <["structure" := v]> (a_vectors acc3)) ∨
                            a_vectors acc4 = a_vectors acc3) ∧
                           a_cache_hits acc4 = <["structure" := hit]> (a_cache_hits acc3)
               else a_vectors acc4 = a_vectors acc3 ∧ a_cache_hits acc4 = a_cache_hits acc3).
  { unfold when_, encode_structure_step in H4. destruct (detect_structure s) eqn:Hd.
    - destruct (Hstr_in eq_refl) as [t Ht]. rewrite Ht in H4.
      by apply guarded_step_writes in H4.
    - unfold ret in H4. by simplify_eq. }
  clear H1 H2 H3 H4 Htext_in Hseq_in Himg_in Hstr_in Hcl Hmods.
  unfold detect_modalities in *.
  destruct (detect_text s), (detect_sequence s), (detect_image s), (detect_structure s);
    cbn in Hclass; simplify_eq; cbn [app];
    repeat match goal with
           | Hx : ∃ _, _ |- _ => destruct Hx as [? Hx]
           | Hx : _ ∧ _ |- _ => destruct Hx as [? ?]
           | Hx : _ ∨ _ |- _ => destruct Hx as [Hx|Hx]
           end;
    repeat match goal with Hx : _ = _ |- _ => rewrite Hx; clear Hx end.
  all: repeat split; intros;
    repeat match goal with
           | Hx : is_Some (<[_ := _]> _ !! _) |- _ =>
             apply lookup_insert_is_Some in Hx as [Hx|[? Hx]]
           | Hx : is_Some (∅ !! _) |- _ => by apply is_Some_None in Hx
           | Hx : _ ∧ _ |- _ => destruct Hx as [? ?]
           | Hx : _ ∨ _ |- _ => destruct Hx as [Hx|Hx]
           | Hx : _ ∈ _ :: _ |- _ => apply elem_of_cons in Hx as [Hx|Hx]
           | Hx : _ ∈ [] |- _ => by apply elem_of_nil in Hx
           end;
    subst; try done; try lia;
    rewrite ?lookup_insert_is_Some, ?elem_of_cons, ?elem_of_nil;
    try (by eauto 10); try tauto.
Qed.

End Stage1State.

Lemma stage1_state_witness :
  ∃ s1 w1,
    @node_encode demo_failing_image_services 0
      (@initial_state demo_failing_image_services demo_sequence_image_request) demo_world
    = (Ok s1, w1) ∧
    is_Some (vectors s1 !! "sequence") ∧
    modalities s1 = ["image"; "sequence"].
Proof.
  assert (Henc : ∃ s1 w1,
             @node_encode demo_failing_image_services 0
               (@initial_state demo_failing_image_services demo_sequence_image_request)
               demo_world = (Ok s1, w1)).
  { vm_compute. eexists _, _. reflexivity. }
  destruct Henc as (s1 & w1 & Henc). exists s1, w1. split; [exact Henc|].
  destruct (@stage1_state demo_failing_image_services 0 _ s1 demo_world w1 Henc)
    as (_ & Hseq & _ & _ & _ & _ & Hmods & _).
  split; [apply Hseq; reflexivity|]. rewrite Hmods. reflexivity.
Defined.

(** ** The collections of [all_results] *)

Section SearchCoverage.
Context `{Services}.

Lemma od_merge_keys {V} (d1 d2 : odict V) :
  (NoDup (od_keys d1) → NoDup (od_keys (od_merge d1 d2))) ∧
  (∀ k, k ∈ od_keys (od_merge d1 d2) <-> k ∈ od_keys d1 ∨ k ∈ od_keys d2).
Proof.
  unfold od_merge. revert d1. induction d2 as [|[k v] d2 IH]; intros d1; cbn [fold_left].
  - split; [done|]. intros k. unfold od_keys at 3. cbn. rewrite elem_of_nil. tauto.
  - destruct (IH (od_set k v d1)) as [I1 I2]. cbn [fst snd]. split.
    + intros Hnd. by apply I1, od_set_NoDup.
    + intros k'. rewrite I2, od_keys_set. unfold od_keys at 4. cbn. rewrite elem_of_cons.
      tauto.
Qed.

Lemma phase1_search_NoDup s mods modality collection phase1 w p w' :
  phase1_search s mods modality collection phase1 w = (Ok p, w') →
  NoDup (od_keys phase1) → NoDup (od_keys p).
Proof.
  destruct (phase1_search_run s mods modality collection phase1 w) as (evs & -> & _).
  intros [= <- _] Hnd. destruct (phase1_entry _ _ _ _); [by apply od_set_NoDup|done].
Qed.

Lemma phase1_cas2_NoDup s mods w p w' :
  phase1_cas2 s mods w = (Ok p, w') → NoDup (od_keys p).
Proof.
  unfold phase1_cas2. rewrite bind_run.
  destruct (phase1_search s mods "image" "images" [] w) as [[p1|e] w1] eqn:H1; [|done].
  rewrite bind_run.
  destruct (phase1_search s mods "sequence" "proteins" p1 w1) as [[p2|e] w2] eqn:H2; [|done].
  intros H3. eapply phase1_search_NoDup; [exact H3|].
  eapply phase1_search_NoDup; [exact H2|].
  eapply phase1_search_NoDup; [exact H1|]. constructor.
Qed.

Lemma phase1_cas3_NoDup s mods w p w' :
  phase1_cas3 s mods w = (Ok p, w') → NoDup (od_keys p).
Proof.
  unfold phase1_cas3. rewrite bind_run.
  destruct (phase1_search s mods "sequence" "proteins" [] w) as [[p1|e] w1] eqn:H1; [|done].
  rewrite bind_run.
  destruct (phase1_search s mods "image" "images" p1 w1) as [[p2|e] w2] eqn:H2; [|done].
  intros H3. eapply phase1_search_NoDup; [exact H3|].
  eapply phase1_search_NoDup; [exact H2|].
  eapply phase1_search_NoDup; [exact H1|]. constructor.
Qed.

Lemma phase1_lookup_collection s mods c :
  is_Some (phase1_lookup s mods c) → c ∈ COLLECTIONS.
Proof.
  unfold phase1_lookup, COLLECTIONS. rewrite !elem_of_cons.
  repeat case_decide; subst; try (intros _; tauto). by intros [? ?].
Qed.

Lemma search_modal_covers s strategy phase1 user_text phase3
    (body : BridgeOutput -> string -> M (list Hit)) w s' w' :
  (∀ w0, ∃ p evs,
     phase1 s (search_modalities s) w0 = (Ok p, w_log w0 evs) ∧
     (∀ c, od_get c p = phase1_lookup s (search_modalities s) c) ∧
     bridge_calls evs = [] ∧ store_fusions evs = []) →
  (∀ w0 p w1, phase1 s (search_modalities s) w0 = (Ok p, w1) → NoDup (od_keys p)) →
  (∀ b rest, phase3 s b rest = for_each rest (fun c => phase3_guard c (body b c)) []) →
  search_modal s strategy phase1 user_text phase3 w = (Ok s', w') →
  NoDup (od_keys (all_results s')) ∧
  ∀ c, c ∈ od_keys (all_results s') <-> c ∈ COLLECTIONS.
Proof.
  intros Hp1 Hnd1 Hp3. unfold search_modal. rewrite bind_run.
  destruct (Hp1 w) as (p1 & evs & Hrun1 & Hlook & _ & _).
  pose proof (Hnd1 _ _ _ Hrun1) as Hnd. rewrite Hrun1.
  rewrite bind_run. unfold call at 1.
  destruct (bridge_cross_modal _ _) as [b|e]; [|done]. cbn [fst snd].
  rewrite bind_run, Hp3.
  match goal with |- context [for_each ?r ?f [] ?w0] =>
    destruct (phase3_loop_run (body b) r [] w0) as (p3 & w3 & -> & Hnd3 & Hkeys & _);
      [constructor|]
  end.
  intros [= <- <-]. cbn [all_results update_search].
  destruct (od_merge_keys p1 p3) as [M1 M2]. split; [by apply M1|].
  intros c. rewrite M2, Hkeys, rest_collections_spec.
  unfold od_keys at 2. cbn. rewrite elem_of_nil. split.
  - intros [Hc|[[]|[_ Hc]]]; [|done]. apply od_get_is_Some in Hc. rewrite Hlook in Hc.
    by eapply phase1_lookup_collection.
  - intros Hc. destruct (decide (c ∈ od_keys p1)); [by left|]. right. right. done.
Qed.

(** The collections of [all_results], whenever [node_search] returns. The
    five collections are its keys, each once, in CAS 2 and CAS 3 and in CAS 1
    with a text vector. Otherwise, in CAS 1 without a text vector or with an
    unknown search case, [all_results] is empty. *)
Theorem search_covers_collections (s s' : GraphState) (w w' : World) :
  node_search s w = (Ok s', w') →
  NoDup (od_keys (all_results s')) ∧
  (if decide (search_case s = 2 ∨ search_case s = 3 ∨
              (search_case s = 1 ∧ default [] (vectors s !! "text") ≠ []))
   then ∀ c, c ∈ od_keys (all_results s') <-> c ∈ COLLECTIONS
   else all_results s' = []).
Proof.
  unfold node_search. case_decide as H1.
  - destruct (default [] (vectors s !! "text")) as [|x tv] eqn:Hv.
    + rewrite bind_run. cbn. intros [= <- <-]. cbn. split; [constructor|].
      rewrite decide_False; [done|]. rewrite H1. intros [?|[?|[_ Hx]]]; [lia|lia|by apply Hx].
    + intros Hrun.
      assert (Hvec : ∃ text_vec, vectors s !! "text" = Some text_vec ∧ text_vec ≠ []).
      { destruct (vectors s !! "text") as [tv'|] eqn:Hvs; unfold vec in *;
          cbn in Hv; [|discriminate].
        subst tv'. by eexists. }
      destruct Hvec as (text_vec & Hsome & Hne).
      destruct (node_search_cas1 s w text_vec H1 Hsome Hne) as (s2 & evs & Hrun2 & Hall & _).
      unfold node_search in Hrun2. rewrite decide_True in Hrun2 by done.
      unfold vec in *. rewrite Hv in Hrun2. rewrite Hrun in Hrun2.
      injection Hrun2 as -> _. rewrite Hall.
      assert (Hkeys : od_keys (map (fun c => (c, cas1_hits text_vec (top_k s) c)) COLLECTIONS)
                      = COLLECTIONS).
      { unfold od_keys. rewrite <- list_fmap_compose. apply list_fmap_id. }
      rewrite Hkeys. split.
      * unfold COLLECTIONS. apply (bool_decide_unpack _). vm_compute. exact I.
      * rewrite decide_True; [done|]. right. right. done.
  - case_decide as H2.
    + intros Hrun. rewrite decide_True by auto.
      eapply (search_modal_covers s "CAS_2" phase1_cas2 None phase3_cas2 (phase3_cas2_body s));
        [| |done|exact Hrun].
      * intros w0. apply phase1_cas2_run.
      * intros w0 p w1. apply phase1_cas2_NoDup.
    + case_decide as H3.
      * intros Hrun. rewrite decide_True by auto.
        eapply (search_modal_covers s "CAS_3" phase1_cas3 (input_text s) phase3_cas3
                  (phase3_cas3_body s)); [| |done|exact Hrun].
        -- intros w0. apply phase1_cas3_run.
        -- intros w0 p w1. apply phase1_cas3_NoDup.
      * intros [= <- <-]. cbn. split; [constructor|]. rewrite decide_False; [done|].
        intros [?|[?|[? _]]]; done.
Qed.

End SearchCoverage.

Lemma search_covers_collections_witness :
  ∃ s' w',
    @node_search demo_services demo_cas2 demo_world = (Ok s', w') ∧
    NoDup (od_keys (all_results s')) ∧
    "articles" ∈ od_keys (all_results s').
Proof.
  assert (Hrun : ∃ s' w', @node_search demo_services demo_cas2 demo_world = (Ok s', w')).
  { vm_compute. eexists _, _. reflexivity. }
  destruct Hrun as (s' & w' & Hrun). exists s', w'. split; [exact Hrun|].
  destruct (@search_covers_collections demo_services demo_cas2 s' demo_world w' Hrun)
    as (Hnd & Hkeys).
  split; [exact Hnd|]. rewrite decide_True in Hkeys by (left; reflexivity).
  apply Hkeys. unfold COLLECTIONS. rewrite !elem_of_cons. auto.
Defined.

(** ** The entities of a response *)

(** The entities shown with a response: always the five lists genes,
    diseases, pathways, processes and concepts, of at most 10, 5, 5, 0 and 10
    names. The genes, diseases and pathways that the Bridge filters name
    take the place of those read off the concepts, which are concept names
    in upper case and longer than two characters for genes, and concept names
    containing "cancer" or "disease" for diseases. *)
Theorem extracted_entities_bounds (s : GraphState) :
  ∃ gs ds ps cs,
    extracted_entities s
    = [("genes", gs); ("diseases", ds); ("pathways", ps); ("processes", []);
       ("concepts", cs)] ∧
    (length gs <= 10)%nat ∧ (length ds <= 5)%nat ∧ (length ps <= 5)%nat ∧
    (length cs <= 10)%nat ∧
    cs = take 10 (od_keys (concepts s)) ∧
    (∀ b, bridge_output s = Some b →
          (f_genes (b_filters b) ≠ [] → gs = take 10 (f_genes (b_filters b))) ∧
          (f_diseases (b_filters b) ≠ [] → ds = take 5 (f_diseases (b_filters b))) ∧
          ps = take 5 (f_pathways (b_filters b))) ∧
    ((∀ b, bridge_output s = Some b → f_genes (b_filters b) = []) →
     ∀ g, g ∈ gs → g ∈ od_keys (concepts s) ∧ isupper g = true ∧ 2 < str_len g) ∧
    ((∀ b, bridge_output s = Some b → f_diseases (b_filters b) = []) →
     ∀ d, d ∈ ds → d ∈ od_keys (concepts s) ∧
                   (str_contains "cancer" (lower d) = true ∨
                    str_contains "disease" (lower d) = true)).
Proof.
  unfold extracted_entities.
  set (keys := od_keys (concepts s)).
  set (base_genes := take 10 (filter _ keys)).
  set (base_diseases := take 5 (filter _ keys)).
  assert (Hbg : ∀ g, g ∈ base_genes → g ∈ keys ∧ isupper g = true ∧ 2 < str_len g).
  { intros g Hg. apply elem_of_take in Hg as (i & Hg & _). apply list_elem_of_lookup_2 in Hg.
    apply list_elem_of_filter in Hg as [Hp Hin]. split; [done|].
    apply andb_true_iff in Hp as [Hu Hl]. split; [done|]. by apply Z.ltb_lt. }
  assert (Hbd : ∀ d, d ∈ base_diseases →
                     d ∈ keys ∧ (str_contains "cancer" (lower d) = true ∨
                                 str_contains "disease" (lower d) = true)).
  { intros d Hd. apply elem_of_take in Hd as (i & Hd & _). apply list_elem_of_lookup_2 in Hd.
    apply list_elem_of_filter in Hd as [Hp Hin]. split; [done|].
    by apply orb_true_iff in Hp. }
  assert (Lg : (length base_genes <= 10)%nat) by (unfold base_genes; rewrite length_take; lia).
  assert (Ld : (length base_diseases <= 5)%nat)
    by (unfold base_diseases; rewrite length_take; lia).
  destruct (bridge_output s) as [b|].
  - set (gs := match f_genes (b_filters b) with [] => base_genes | _ => _ end).
    set (ds := match f_diseases (b_filters b) with [] => base_diseases | _ => _ end).
    set (ps := match f_pathways (b_filters b) with [] => [] | _ => _ end).
    exists gs, ds, ps, (take 10 keys). split; [reflexivity|].
    split. { unfold gs. destruct (f_genes _); [done|]. rewrite length_take. lia. }
    split. { unfold ds. destruct (f_diseases _); [done|]. rewrite length_take. lia. }
    split. { unfold ps. destruct (f_pathways _); [cbn; lia|]. rewrite length_take. lia. }
    split; [rewrite length_take; lia|]. split; [done|]. split; [|split].
    + intros b' [= <-]. split; [|split].
      * unfold gs. by destruct (f_genes _).
      * unfold ds. by destruct (f_diseases _).
      * unfold ps. by destruct (f_pathways _).
    + intros Hno g Hg. apply Hbg. unfold gs in Hg. by rewrite (Hno b eq_refl) in Hg.
    + intros Hno d Hd. apply Hbd. unfold ds in Hd. by rewrite (Hno b eq_refl) in Hd.
  - exists base_genes, base_diseases, [], (take 10 keys). split; [reflexivity|].
    split; [done|]. split; [done|]. split; [cbn; lia|].
    split; [rewrite length_take; lia|]. split; [done|]. split; [done|].
    split; intros _; [apply Hbg|apply Hbd].
Qed.

(** ** The design assistant *)

Section DesignAssistant.
Context `{Services}.

Lemma verify_and_label_run candidate w :
  ∃ labeled evs,
    _verify_and_label candidate w = (Ok labeled, w_log w evs) ∧
    c_name labeled = c_name candidate ∧ labelled labeled.
Proof.
  destruct (verify_and_label_returns candidate w) as (labeled & evs & Hrun & _).
  exists labeled, evs. split; [done|]. revert Hrun.
  assert (Hl : ∀ a b n, c_name (label_candidate candidate a b n) = c_name candidate ∧
                        labelled (label_candidate candidate a b n)).
  { intros a b n. split; [done|]. unfold labelled. cbn. eauto. }
  unfold _verify_and_label, exploratory, try_except, bind, call, ret, raise.
  destruct (String.eqb _ _); [intros [= <- _]; apply Hl|].
  destruct (encode_text _) as [v|e]; [|intros [= <- _]; apply Hl].
  destruct (_ && _); [|intros [= <- _]; apply Hl].
  rewrite vector_search_run.
  repeat case_match; simplify_eq; first [apply Hl | intros [= <- _]; apply Hl].
Qed.

Lemma label_loop_run (candidates : list Candidate) acc w :
  ∃ out evs,
    for_each candidates
      (fun cand acc => let* labeled := _verify_and_label cand in ret (acc ++ [labeled]))
      acc w = (Ok (acc ++ out), w_log w evs) ∧
    map c_name out = map c_name candidates ∧ Forall labelled out.
Proof.
  revert acc w. induction candidates as [|c cs IH]; intros acc w; cbn [for_each].
  - exists [], []. rewrite app_nil_r, w_log_nil. done.
  - rewrite bind_run, bind_run.
    destruct (verify_and_label_run c w) as (l & e1 & -> & Hn & Hl). cbn [ret].
    destruct (IH (acc ++ [l]) (w_log w e1)) as (out & e2 & -> & Hns & Hls).
    exists (l :: out), (e1 ++ e2). rewrite w_log_app, <- app_assoc. split; [done|].
    split; [cbn; by rewrite Hn, Hns|by constructor].
Qed.

(** The design assistant never raises. It asks for candidates only when they
    are requested and the request has a modality, or an exploratory text, or
    rich results; otherwise it returns none and does nothing. Every candidate
    that the language model proposes is returned, in the same order and
    under the same name, with a confidence label; when the language model
    fails, or a request without text has no Bridge answer to take the
    context from, it returns none and logs the error. *)
Theorem design_assistant_contract (s : GraphState) (reranked : odict (list Hit)) (w : World) :
  ∃ cands evs,
    design_assistant s reranked w = (Ok cands, w_log w evs) ∧
    Forall labelled cands ∧
    (assistant_active s reranked = false → cands = [] ∧ evs = []) ∧
    (assistant_active s reranked = true →
     ∀ query_context,
       (if String.eqb (default "" (input_text s)) "" &&
           bool_decide (search_case s = 2 ∨ search_case s = 3)
        then b_interpretation <$> bridge_output s
        else Some (default "" (input_text s))) = Some query_context →
       match generate_design_candidates query_context
               (take 10 (_flatten_results reranked)) 3 with
       | Ok proposed => map c_name cands = map c_name proposed
       | Raise _ => cands = [] ∧ "Design Assistant error" ∈ logged_errors evs
       end).
Proof.
  unfold design_assistant, assistant_active.
  destruct (include_design_candidates s); cbn [andb].
  2:{ exists [], []. rewrite w_log_nil. split; [done|]. split; [constructor|].
      split; [done|discriminate]. }
  destruct (_ || _) eqn:Hgate.
  2:{ exists [], []. rewrite w_log_nil. split; [done|]. split; [constructor|].
      split; [done|discriminate]. }
  unfold try_except. rewrite bind_run.
  set (ctx := if _ && _ then _ else _).
  assert (Hctx : ∀ w0,
            (∃ q, ctx w0 = (Ok q, w0) ∧
                  (if String.eqb (default "" (input_text s)) "" &&
                      bool_decide (search_case s = 2 ∨ search_case s = 3)
                   then b_interpretation <$> bridge_output s
                   else Some (default "" (input_text s))) = Some q) ∨
            (∃ e, ctx w0 = (Raise e, w0) ∧
                  (if String.eqb (default "" (input_text s)) "" &&
                      bool_decide (search_case s = 2 ∨ search_case s = 3)
                   then b_interpretation <$> bridge_output s
                   else Some (default "" (input_text s))) = None)).
  { intros w0. unfold ctx. destruct (_ && _).
    - destruct (bridge_output s) as [b|]; [left|right]; by eexists.
    - left. by eexists. }
  destruct (Hctx w) as [(q & -> & Hq)|(e & -> & Hq)]; cbn [fst snd].
  - rewrite bind_run. unfold lift at 1.
    destruct (generate_design_candidates q _ 3) as [proposed|e] eqn:Hgen; cbn [fst snd].
    + destruct (label_loop_run proposed [] w) as (out & evs & -> & Hn & Hl).
      exists out, evs. split; [done|]. split; [done|]. split; [discriminate|].
      intros _ q' Hq'. rewrite Hq in Hq'. injection Hq' as <-. by rewrite Hgen.
    + exists [], [LogError "Design Assistant error"]. unfold bind, emit, ret. cbn.
      split; [done|]. split; [constructor|]. split; [discriminate|].
      intros _ q' Hq'. rewrite Hq in Hq'. injection Hq' as <-. rewrite Hgen.
      split; [done|]. cbn. left.
  - exists [], [LogError "Design Assistant error"]. unfold bind, emit, ret. cbn.
    split; [done|]. split; [constructor|]. split; [discriminate|].
    intros _ q' Hq'. rewrite Hq in Hq'. discriminate.
Qed.

End DesignAssistant.

(** ** The first item of the selection, and the lambda that Stage 3 uses *)

Section MMRFirst.
Context `{Services}.

Lemma MMR_LAMBDA_label (label : option string) :
  MMR_LAMBDA label = lambda_of_label label.
Proof.
  unfold MMR_LAMBDA, lambda_of_label. destruct label as [a|].
  - repeat case_decide; simplify_eq; done.
  - repeat case_decide; simplify_eq; done.
Qed.

Lemma rerank_all_origin s mmr_lambda all acc out :
  rerank_all s mmr_lambda all acc = Ok out →
  ∀ c sel, od_get c out = Some sel →
           od_get c acc = Some sel ∨
           ∃ hits, (c, hits) ∈ all ∧ rerank s mmr_lambda hits = Ok sel.
Proof.
  revert acc. induction all as [|[c hits] all IH]; intros acc; cbn [rerank_all].
  - intros [= <-] c sel Hg. by left.
  - destruct (rerank s mmr_lambda hits) as [sel0|e] eqn:Hsel; [|done]. intros Hrun c0 sel Hg.
    destruct (IH _ Hrun c0 sel Hg) as [Hacc|(hits' & Hin & Hr)].
    + destruct (decide (c0 = c)) as [->|Hne].
      * rewrite od_get_set_eq in Hacc. injection Hacc as <-. right. exists hits.
        split; [left|done].
      * rewrite od_get_set_ne in Hacc by done. by left.
    + right. exists hits'. split; [by right|done].
Qed.

Lemma apply_mmr_first (cosine : vec -> vec -> Q) (encoder : string -> Res vec)
    (r0 : Hit) (rest : list Hit) (mmr_lambda : Q) (target_k : Z) (selected : list Hit) :
  _apply_mmr cosine (r0 :: rest) mmr_lambda target_k encoder = Ok selected →
  ∃ tl, selected
        = mmr_mark r0 1 (round_nd 4 (h_score r0)) (round_nd 4 (h_score r0)) :: tl ∧
        (rest = [] → tl = []).
Proof.
  unfold _apply_mmr. destruct (mmr_vectors encoder (r0 :: rest) ∅) as [vectors|e]; [|done].
  intros [= <-].
  destruct (mmr_loop_spec cosine vectors mmr_lambda (length rest)
              (Z.min target_k (Z.of_nat (length (r0 :: rest))))
              [mmr_mark r0 1 (round_nd 4 (h_score r0)) (round_nd 4 (h_score r0))] rest)
    as (tl & left & Hloop & _ & _); [done|].
  exists tl. split; [exact Hloop|]. intros ->. cbn in Hloop. by injection Hloop as <-.
Qed.

(** C6 (amended). MMR selection. An empty list gives an empty list. Whenever
    [_apply_mmr] returns on a non-empty list, the first selected item is the
    FIRST candidate of the list, with diversity score exactly 1.0; it is a
    top-scored candidate whenever the candidates stand in descending order of
    score; a single candidate gives that candidate alone. [_apply_mmr]
    returns whenever the text encoder answers. The lambda that Stage 3 uses
    is the one of the alignment label of the state: every list of
    [reranked_results] is the selection, with that lambda, among the results
    of its collection, numbered from 1; the lambda is 0.7 for [aligned] and
    without an alignment, 0.5 for [partial], 0.3 for [divergent]. The label
    is the one of Stage 2: none in CAS 1, the alignment of the Bridge's answer
    in CAS 2 and CAS 3. *)
Theorem mmr_first_item :
  (∀ cosine encoder mmr_lambda target_k,
     _apply_mmr cosine [] mmr_lambda target_k encoder = Ok []) ∧
  (∀ cosine encoder r0 rest mmr_lambda target_k selected,
     _apply_mmr cosine (r0 :: rest) mmr_lambda target_k encoder = Ok selected →
     ∃ first tl,
       selected = first :: tl ∧
       unmark first = unmark r0 ∧
       h_diversity_score first = Some 1%Q ∧
       (by_descending_score (r0 :: rest) → first_is_top_scored (r0 :: rest) selected) ∧
       (rest = [] → tl = [])) ∧
  (∀ cosine encoder results mmr_lambda target_k,
     (∀ t, ∃ v, encoder t = Ok v) →
     ∃ selected, _apply_mmr cosine results mmr_lambda target_k encoder = Ok selected) ∧
  (∀ s w s' w',
     node_rank_enrich s w = (Ok s', w') →
     ∀ c sel, od_get c (reranked_results s') = Some sel →
       ∃ hits, (c, hits) ∈ all_results s ∧
         match hits with
         | [] => sel = []
         | _ =>
           ∃ selected,
             _apply_mmr np_cosine (take 10 hits) (lambda_of_label (alignment s)) (top_k s)
               encode_text = Ok selected ∧
             sel = imap (fun i r =>
                           mkHit (h_id r) (h_score r) (h_payload r) (h_collection r)
                             (h_diversity_score r) (h_novelty_score r) (h_final_score r)
                             (Some (Z.of_nat i + 1)))
                     selected
         end) ∧
  lambda_of_label (Some "aligned") = binary64 (7 # 10) ∧
  lambda_of_label None = binary64 (7 # 10) ∧
  lambda_of_label (Some "partial") = binary64 (5 # 10) ∧
  lambda_of_label (Some "divergent") = binary64 (3 # 10) ∧
  (∀ s w s' w',
     node_search s w = (Ok s', w') →
     (search_case s = 1 → default [] (vectors s !! "text") ≠ [] → alignment s' = None) ∧
     (search_case s = 2 ∨ search_case s = 3 →
      ∃ b, bridge_output s' = Some b ∧ alignment s' = b_alignment b)).
Proof.
  split; [done|]. split; [|split; [|split; [|split; [done|split; [done|split; [done|
    split; [done|]]]]]]].
  - intros cosine encoder r0 rest mmr_lambda target_k selected Hrun.
    destruct (apply_mmr_first _ _ _ _ _ _ _ Hrun) as (tl & -> & Hone).
    eexists _, tl. split; [reflexivity|]. split; [done|]. split; [done|].
    split; [|done]. intros Hs. cbn. by apply sorted_head_top.
  - intros cosine encoder results mmr_lambda target_k Henc.
    destruct results as [|r0 rest]; [by exists []|]. unfold _apply_mmr.
    destruct (mmr_vectors_total encoder Henc (r0 :: rest) ∅) as [vectors ->]. eauto.
  - intros s w s' w' Hrun c sel Hget.
    apply node_rank_enrich_reranked in Hrun as (Hrr & _).
    destruct (rerank_all_origin _ _ _ _ _ Hrr c sel Hget) as [Hacc|(hits & Hin & Hr)];
      [done|].
    exists hits. split; [done|]. rewrite MMR_LAMBDA_label in Hr. unfold rerank in Hr.
    destruct hits as [|h hits]; [by injection Hr as <-|].
    destruct (_apply_mmr _ _ _ _ _) as [selected|e]; [|done]. injection Hr as <-.
    by exists selected.
  - intros s w s' w' Hrun. split.
    + intros Hc Hv. destruct (vectors s !! "text") as [text_vec|] eqn:Hvs;
        unfold vec in *; cbn in Hv; [|done].
      destruct (node_search_cas1 s w text_vec Hc Hvs Hv)
        as (s1 & evs & Hrun1 & _ & _ & _ & Hal & _).
      rewrite Hrun in Hrun1. by injection Hrun1 as <-.
    + intros [Hc|Hc].
      * destruct (search_modal_bridge s "CAS_2" phase1_cas2 None phase3_cas2
                    (phase3_cas2_body s) w)
          as (p & r & w1 & evs & Hrun1 & _ & _ & _ & Hm).
        { intros w0. apply phase1_cas2_run. }
        { done. }
        { intros b c. apply no_bridge_cas2_body. }
        rewrite node_search_cas2 in Hrun by done. rewrite Hrun in Hrun1.
        injection Hrun1 as <- <-.
        destruct (bridge_cross_modal _ _) as [b|e]; [|by destruct Hm].
        destruct Hm as (s1 & [= <-] & Hb & Hal & _). by exists b.
      * destruct (search_modal_bridge s "CAS_3" phase1_cas3 (input_text s) phase3_cas3
                    (phase3_cas3_body s) w)
          as (p & r & w1 & evs & Hrun1 & _ & _ & _ & Hm).
        { intros w0. apply phase1_cas3_run. }
        { done. }
        { intros b c. apply no_bridge_cas3_body. }
        rewrite node_search_cas3 in Hrun by done. rewrite Hrun in Hrun1.
        injection Hrun1 as <- <-.
        destruct (bridge_cross_modal _ _) as [b|e]; [|by destruct Hm].
        destruct Hm as (s1 & [= <-] & Hb & Hal & _). by exists b.
Qed.

End MMRFirst.

(** On two candidates, the better one second, the first selected item is the
    first candidate; and Stage 3 on a state whose alignment is [divergent]
    selects with lambda 0.3. *)
Lemma mmr_first_item_witness :
  (∃ first tl,
     demo_selected = first :: tl ∧
     unmark first = unmark (demo_hit "low" "Serum albumin" (1 # 10) []) ∧
     h_diversity_score first = Some 1%Q) ∧
  ∃ s' w' sel selected,
    @node_rank_enrich demo_services demo_divergent demo_world = (Ok s', w') ∧
    od_get "proteins" (reranked_results s') = Some sel ∧
    @_apply_mmr demo_cosine (default [] (od_get "proteins" demo_reranked))
      (binary64 (3 # 10)) 5 (@encode_text demo_services) = Ok selected ∧
    map h_final_score sel = map h_final_score selected.
Proof.
  destruct (@mmr_first_item demo_services) as (_ & Hfirst & _ & Hlambda & _).
  split.
  - destruct (Hfirst demo_cosine demo_encoder (demo_hit "low" "Serum albumin" (1 # 10) [])
                [demo_hit "high" "Hemoglobin" (9 # 10) []] (7 # 10) 2 demo_selected)
      as (first & tl & Hsel & Hsame & Hdiv & _); [vm_compute; reflexivity|].
    exists first, tl. split; [exact Hsel|]. split; [exact Hsame|exact Hdiv].
  - assert (Hrun : ∃ s' w',
               @node_rank_enrich demo_services demo_divergent demo_world = (Ok s', w')).
    { vm_compute. eexists _, _. reflexivity. }
    destruct Hrun as (s' & w' & Hrun).
    assert (Hget : ∃ sel, od_get "proteins" (reranked_results s') = Some sel).
    { vm_compute in Hrun. injection Hrun as <- _. vm_compute. eexists. reflexivity. }
    destruct Hget as (sel & Hget).
    destruct (Hlambda demo_divergent demo_world s' w' Hrun "proteins" sel Hget)
      as (hits & Hin & Hsel).
    assert (hits = default [] (od_get "proteins" demo_reranked)) as ->.
    { apply list_elem_of_singleton in Hin. injection Hin as ->. reflexivity. }
    cbn in Hsel. destruct Hsel as (selected & Hmmr & Hmap).
    exists s', w', sel, selected. split; [exact Hrun|]. split; [exact Hget|].
    split; [exact Hmmr|].
    rewrite Hmap. change (map h_final_score) with (fmap (M := list) h_final_score).
    rewrite fmap_imap. exact (imap_const h_final_score selected).
Defined.

(** ** Failures of a collection, in every phase *)

Section CollectionFailure.
Context `{Services}.




Lemma w_log_inj w a b : w_log w a = w_log w b → a = b.
Proof.
  intros Heq. apply (f_equal w_trace) in Heq. unfold w_log in Heq. cbn in Heq.
  by apply app_inv_head in Heq.
Qed.




















End CollectionFailure.

